(* ===== verification/_CoqProject ===== *)
-Q . S2P
Prelude.v
Calendar.v
Model.v
Browser.v
Providers.v
Worker.v
QuotaTracker.v
Api.v
Intake.v
Endpoints.v
WorkerMain.v
TrackerMain.v
Interplay.v
Webapp.v
Components.v
