(* ===== verification/Prelude.v ===== *)
(** * A verification library for the browser-automation chat orchestrator

    This development models, in Rocq, the core of the repository
    [edmund-io/edmunds-claude-code]: a system that routes chat prompts
    to third-party chat web applications (ChatGPT, Claude, Gemini,
    DeepSeek) through logged-in browser sessions, behind a queue-backed
    request lifecycle.  It is a shallow embedding: every operation of
    the TypeScript sources is a Rocq function on an explicit state, and
    the theorems are stated about those functions.

    ** The program and how its parts interact

    - [src/supabase/functions/chat/index.ts] (intake): validates the API
      key, applies a fixed-window rate limiter kept in Redis
      ([checkRateLimit]), picks an account ([selectBestAccount], through
      the [get_available_account] database procedure), inserts a
      [requests] row in status [queued] and pushes a job.
    - [src/browser-worker/src/worker.ts] (dispatcher): for each job,
      marks the request [processing], acquires the browser context of
      the bound account, runs the provider adapter, then on success
      charges the quota, logs usage, saves the session, touches the
      account and completes the request; on failure it takes a
      screenshot, logs the failure, fails the request and, when the
      message speaks of a lost login, marks the account [expired].
    - [src/browser-worker/src/browser.ts] (resource pool): a map from
      account id to a live browser context, created on demand with the
      stored session restored when it has not expired.
    - [src/browser-worker/src/providers/*.ts] (adapters): one page
      script per site, all behind [automateChat].
    - [src/browser-worker/src/supabase.ts]: the datastore helpers
      (sessions, account status, quota usage, usage logs, cost).
    - [src/quota-tracker/src/index.ts] (tracker): a periodic pass that
      resets daily and monthly counters, raises alerts and moves
      accounts to [quota_exceeded].
    - [src/supabase/functions/status/index.ts] and [quotas/index.ts]:
      the read side, answering a request's status to its owner and a
      per-provider summary of quota usage.
    - [src/browser-worker/src/index.ts] and [config.ts]: the worker
      process: its configuration, the health server and the shutdown
      on [SIGTERM]/[SIGINT].
    - the tracker's [index.ts] around the checks: its configuration,
      the health server, the timers and the shutdown.
    - [src/webapp/src] (dashboard): the hooks [useAccounts] and
      [useQuotas] keep lists of rows in step with the [accounts] and
      [quotas] tables through a query and realtime events; the
      components show them ([QuotaDashboard], [AccountList]) and insert
      or delete accounts ([AddAccountModal], [AccountList]); [App]
      holds the session.

    The intake writes the [requests] row and the job message the
    dispatcher consumes ([Model.JobMessage] carries a
    [ChatRequestJob]); the dispatcher and the tracker write the
    account, quota, usage and alert rows that the endpoints read; the
    three edge functions share the key validation of [Api].  The
    dashboard reads and writes the same tables from the browser: the
    rows the worker's [updateQuota] changes reach [useQuotas] as
    realtime [UPDATE] events.

    ** Files, in dependency order

    - [Prelude]: this header; the state-and-exception monad [SE] that
      models [async] code with [throw] and [try/catch], with its
      notation in [orch_scope]; JavaScript string helpers
      ([js_includes], [js_trim]); ceiling division; tactics and the
      hint database [orch].
    - [Calendar]: the proleptic Gregorian day-number conversions behind
      JavaScript's [Date] and the tracker's monthly reset instant.
    - [Model]: the data model (records for the table rows of §3 of the
      spec, inductive types for the status enums), the external-call
      oracle, the [World] threaded through the worker, and the helpers
      of [supabase.ts] ([loadSession], [saveSession],
      [updateAccountStatus], [updateQuota], [logUsage],
      [calculateCost]).
    - [Browser]: the context pool of [browser.ts] as a heap of context
      objects plus the pool map (so that aliasing between the pool and
      a job's handle is explicit); [getBrowserContext],
      [saveBrowserSession], [takeScreenshot] (whose upload resolves
      with an ignored [{ error }] rather than rejecting), [closeContext],
      [closeAllContexts]; its well-formedness invariant; a small-step
      model of concurrent acquisitions.
    - [Providers]: the page behaviour of one automation run as an
      oracle record, the four adapters, [automateChat], [estimateTokens]
      and the adapter contract as a class.
    - [Worker]: the job processor of [worker.ts] composed from the
      above, and its functional, error-path and accounting theorems.
    - [QuotaTracker]: [checkQuotas], [sendAlert] and
      [checkExpiringSessions] of the tracker, the two timers as any
      sequence of runs, and the loop's effect seen through [view].
    - [Api]: what the edge functions share: the [Authorization]
      header, [hashAPIKey]'s hexadecimal encoding (SHA-256 itself is a
      parameter), the [api_keys] lookup and the [catch] that answers
      400.
    - [Intake]: [chat/index.ts]: [checkRateLimit] on the Redis counters
      of [World]'s [Ext] part (also split at its awaits, for
      interleavings), [selectBestAccount] against the class
      [AccountSelector] that states what [get_available_account]
      promises (with [first_available], modelled from the spec, as
      instance), and the handler [handle_chat].
    - [Endpoints]: the modules [Status] ([handle_status]) and [Quotas]
      ([handle_quotas] and the per-provider aggregation [summarize]).
    - [WorkerMain]: [config.ts] as a function of the environment map
      (module [Config], with [parseInt]), the options [createWorker] of
      [worker.ts] gives the BullMQ worker (module [Options]: the Redis
      host and port split out of [REDIS_URL] with [Endpoints]' [split]
      and [Api]'s [replace]) and [index.ts] (module [Main]: the health
      handler and the signal handler over [closeAllContexts]).
    - [TrackerMain]: the tracker's [index.ts] around the checks:
      module [Settings] (the [config] object, JavaScript's [parseFloat]
      with exact decimals, [Infinity] and [NaN], the threshold fraction
      [checkQuotas] runs with, the delays [setInterval] uses after
      Node.js's coercion of [NaN] and out-of-range delays to 1 ms) and
      module [Process] (the health handler and the signal handler).
    - [Interplay]: the dispatcher's [updateQuota] and the tracker's
      [checkQuotas] composed on one world and one quota row.
    - [Webapp]: the realtime replay shared by both hooks (a list of rows,
      a table as a [gmap] from ids to rows, and [mirrors]: the list holds
      the table's rows up to order), the modules [UseAccounts] (with
      [addAccount] and [deleteAccount] in [M]), [UseQuotas], and
      [Dashboard] (the quota cards, with JavaScript's number semantics
      for [used / limit]: [Infinity], [NaN], [Math.min]).
    - [Components]: the modules [AccountList] (rows, [handleDelete], and
      a step relation of overlapping deletes), [AddAccountModal]
      ([handleSubmit], the rendered form and the events that reach
      it) and [App] (the session and view as a reducer over
      the events that reach it).

    ** What the theorems show (see PROJECT.json for the list)

    - pool ([Browser]): acquisition is idempotent, restores exactly the
      unexpired session, keeps the one-context-per-account invariant
      on every path when run to completion ([pool_reachable_unique]);
      running the await-separated phases of one acquisition in sequence
      refines [getBrowserContext]; two interleaved acquisitions break
      the invariant; [closeAllContexts] empties the pool whatever
      rejects;
    - adapters ([Providers]): every adapter fails with a login-loss
      message when not logged in, returns a positive token estimate
      bounded by the character count and trims the response; only
      ChatGPT tolerates an unfinished generation; the four adapters
      satisfy the class [AdapterContract] the dispatcher relies on;
    - dispatcher ([Worker]): the success path ([processJob_completes]:
      request completed with a non-negative latency, quota charged,
      one success usage row, account status unchanged), the lost-login
      path (account [expired], request [failed]), the transient failure
      path (account and quota untouched), and the orderings of side
      effects that leave a job charged but failed (session upsert
      conflict), a session that is never restored again (duplicate
      rows), or a request stuck in [processing] (rejected usage insert).
    - tracker ([QuotaTracker]): the functional specification of a run
      ([checkQuotas_spec]); the daily reset; an exceeded limit marks the
      account whatever its status; no sequence of timer runs ever
      reactivates an account (the reactivation branch is dead); a row
      can be reset and marked exceeded in the same pass; the session
      scan alerts per row;
      The timers terminate: any finite sequence of runs ends with a
      normal result, and after a successful select the loop over the
      rows itself ends normally, visiting every row ([run_tasks_total]).
    - tracker process ([TrackerMain]): the quota timer's delay is
      between 1 ms and 2^31 - 1 ms, and a [CHECK_INTERVAL] with a unit
      loses the unit ([check_interval_delay]); the alert threshold is
      the decimal fraction written, and a percentage is read as a
      factor ([alert_threshold_spec]).
    - dispatcher and tracker together ([Interplay]): tokens charged
      after a row's reset instant and before the tracker's next run are
      zeroed by that run ([usage_after_reset_discarded]).
    - datastore helpers ([Model]): a session saved for an account
      without one is loaded back exactly ([session_roundtrip]); a usage
      row records the tokens and the cost of the rate table (150, 300,
      0 and 27 units per token), 0 for another provider, and no cost
      (JavaScript's NaN, stored as null) for a provider named like a
      member of [Object.prototype], which the object literal of rates
      finds by prototype lookup ([logUsage_spec]).
    - calendar ([Calendar]): the monthly reset instant is the local
      midnight of the first of the next month, checked day by day for
      1970-2099.
    - intake ([Intake], [Api]): the success path ([handle_chat_queued]:
      202, a [queued] row and a job message that names it, the key
      touched); requests without a valid key or over the limit change
      nothing; within a window exactly [limit] requests pass when they
      come one after the other ([checkRateLimit_window]), and two
      interleaved requests both pass at [limit - 1]
      ([rl_interleaved_race]); a client that keeps retrying is accepted
      again in a later window ([checkRateLimit_eventually_accepts],
      liveness); a rejected [lpush] leaves an orphaned
      [queued] row; [auto] tries the providers in order; the key hash
      encoding is injective.
    - endpoints ([Endpoints]): the status endpoint answers a row to its
      owner only; the quotas summary in closed form (sums, first reset
      times, worst state) and taken over every user's quota rows.
    - worker process ([WorkerMain]): the signal handler exits 0 with
      the pool empty when [worker.close()] resolves, whatever each
      context's [close()] does (a rejected one is logged and dropped),
      with every context closed when none rejects, and exits 1 leaving
      every context open when [worker.close()] rejects.
      The Redis connection is the URL's host and port for
      [redis://host:port], port 6379 without a port, and the user name
      with the port [parseInt(pw@host)] for an URL with credentials
      ([redis_connection_spec]).
    - dashboard ([Webapp], [Components]): [useAccounts] converges to the
      table when its query's answer is handled after the events the
      query saw (a refinement of the table by the list, by induction on
      the events), and duplicates or loses a row out of order;
      [addAccount]/[deleteAccount] and their events keep a mirroring
      list mirroring; a realtime [UPDATE] drops the account [useQuotas]
      embedded; the bar colour agrees with the endpoint's state for a
      positive limit and not at [0 / 0]; the handlers of the components
      on every branch; every account row the add-account form inserts,
      under any sequence of form events, has one of the four providers
      and a non-empty email the browser accepted
      ([modal_inserts_form_rows]); [App] leaves its spinner at the
      session answer
      for good; overlapping deletes re-enable a button in flight.
      The end-to-end theorems are stated for a world where the calls of
      [worker_calls] never reject ([calls_ok]) and the pool is
      well formed; the rejected-call cases are separate theorems.

    ** Modelling choices, bounds and what is left out

    - Time is a [Z] count of milliseconds; ISO strings are not modelled.
      Every [Date.now()] is a read of an oracle clock.
    - Every awaited external call that can reject is a [Call]; the
      oracle [env_fault c n] says whether the [n]-th call of kind [c]
      rejects and with which message.  Calls whose [{ error }] result
      the code ignores are modelled as writes that may silently not
      happen, as the code has it.
    - Strings are Rocq [string]s (8-bit characters); JavaScript's
      [length] counts UTF-16 units, which agrees on ASCII text.
    - Cost is an exact integer in units of 1e-8 USD (all rates of
      [calculateCost] are multiples of it); floating-point rounding is
      not modelled.
    - The DOM selectors, Playwright waits, logging, the creation of
      the Supabase and Redis clients, React's rendering and styling and the Supabase
      auth service are not modelled (pure I/O or presentation; the
      answers of the auth calls are inputs of [App]).  BullMQ's queue is
      not modelled: a job is one call of [processJob].  The dashboard's
      row-level security is not in the repository: a user is assumed to
      read and hear about the [accounts] rows of its own [user_id].
      PROJECT.json lists every part with its status.  Redis keys' expiry
      is not modelled: a rate-limit key outlives its window
      ([Intake.window_key_outlives_window]).  The intake's random
      request id is an argument of [handle_chat].
    - The dashboard's percentages are exact rationals with [Infinity]
      and [NaN]; against IEEE doubles, [Math.min(u / l * 100, 100)]
      compares with 70, 90 and 100 as the rationals do for every limit
      up to 2 000 000 (checked outside the development), which covers
      the limits the tables hold.
    - The tracker's ratios are compared exactly as rationals (with
      JavaScript's [Infinity] and [NaN] for a zero limit); with the
      default threshold 0.9 and limits below 2^49, two distinct ratios
      differ by more than the rounding of a double near 0.9 or 1, so
      this is what the floating-point comparison gives.  The time zone is a fixed offset ([tz_ms]); daylight
      saving time is not modelled.  The calendar facts are checked by
      evaluation on each of the 47482 days of 1970-2099, which bounds
      the monthly-reset theorem to that range.  The database
      procedures [update_quota_usage] and [get_available_account] are
      not in the repository and are modelled from the spec.
    - No definition uses fuel: every loop of the code runs over a finite
      list and is a structural recursion ([se_iter], [close_each],
      [run_hook], [app_run]).  The timers' callbacks are [async]: two
      runs overlap when one outlasts the interval, and the two first
      runs start together; [QuotaTracker.run_tasks] runs them one after
      the other, which is what happens when each run ends within its
      interval.  Overlapping runs are not modelled: a second run reads
      the same rows and repeats the first one's alerts, which §4.4 of
      the spec accepts ("duplicate alerts across consecutive interval
      runs are acceptable"), and its second reset of a row is the loss
      of charged usage [Interplay] already shows.  Liveness is stated over the clock oracle:
      a clock that passes every instant. *)

From stdpp Require Export base gmap strings list.
From Stdlib Require Export ZArith Lia.

Declare Scope orch_scope.
Delimit Scope orch_scope with orch.

(** ** State and exception monad

    [SE S A] is a computation over a state [S] that either returns an [A]
    or throws an [Error] whose message is a [string].  As in JavaScript,
    the state changes made before a throw are kept. *)

Definition SE (S A : Type) : Type := S -> S * (string + A).

Section Monad.
Context {S : Type}.

Definition se_ret {A} (a : A) : SE S A := fun s => (s, inr a).

Definition se_bind {A B} (m : SE S A) (f : A -> SE S B) : SE S B :=
  fun s => match m s with
           | (s', inr a) => f a s'
           | (s', inl e) => (s', inl e)
           end.

Definition se_throw {A} (msg : string) : SE S A := fun s => (s, inl msg).

(** [try { m } catch (e) { h(e.message) }] *)
Definition se_catch {A} (m : SE S A) (h : string -> SE S A) : SE S A :=
  fun s => match m s with
           | (s', inl e) => h e s'
           | (s', inr a) => (s', inr a)
           end.

Definition se_get : SE S S := fun s => (s, inr s).
Definition se_put (s : S) : SE S unit := fun _ => (s, inr tt).
Definition se_modify (f : S -> S) : SE S unit := fun s => (f s, inr tt).

Lemma se_bind_ret_l {A B} (a : A) (f : A -> SE S B) s :
  se_bind (se_ret a) f s = f a s.
Proof. reflexivity. Qed.

Lemma se_bind_throw {A B} msg (f : A -> SE S B) s :
  se_bind (se_throw msg) f s = (s, inl msg).
Proof. reflexivity. Qed.

Lemma se_bind_assoc {A B C} (m : SE S A) (f : A -> SE S B) (g : B -> SE S C) s :
  se_bind (se_bind m f) g s = se_bind m (fun a => se_bind (f a) g) s.
Proof. unfold se_bind. destruct (m s) as [s' [e|a]]; reflexivity. Qed.

Lemma se_bind_inr {A B} (m : SE S A) (f : A -> SE S B) s s' a :
  m s = (s', inr a) -> se_bind m f s = f a s'.
Proof. unfold se_bind. intros ->. reflexivity. Qed.

Lemma se_bind_inl {A B} (m : SE S A) (f : A -> SE S B) s s' e :
  m s = (s', inl e) -> se_bind m f s = (s', inl e).
Proof. unfold se_bind. intros ->. reflexivity. Qed.

Lemma se_catch_inl {A} (m : SE S A) h s s' e :
  m s = (s', inl e) -> se_catch m h s = h e s'.
Proof. unfold se_catch. intros ->. reflexivity. Qed.

Lemma se_catch_inr {A} (m : SE S A) h s s' a :
  m s = (s', inr a) -> se_catch m h s = (s', inr a).
Proof. unfold se_catch. intros ->. reflexivity. Qed.

(** A computation that never throws, whatever the state. *)
Definition se_total {A} (m : SE S A) : Prop := forall s, exists s' a, m s = (s', inr a).

Lemma se_total_ret {A} (a : A) : se_total (se_ret a).
Proof. intros s. eauto. Qed.

Lemma se_total_modify f : se_total (se_modify f).
Proof. intros s. eauto. Qed.

Lemma se_total_bind {A B} (m : SE S A) (f : A -> SE S B) :
  se_total m -> (forall a, se_total (f a)) -> se_total (se_bind m f).
Proof.
  intros Hm Hf s. destruct (Hm s) as (s' & a & E).
  rewrite (se_bind_inr _ _ _ _ _ E). apply Hf.
Qed.

Lemma se_total_catch {A} (m : SE S A) h :
  (forall e, se_total (h e)) -> se_total (se_catch m h).
Proof. intros Hh s. unfold se_catch. destruct (m s) as [s' [e|a]]; [apply Hh|eauto]. Qed.
(** [for (const x of l) await f(x)] *)
Fixpoint se_iter {A} (f : A -> SE S unit) (l : list A) : SE S unit :=
  match l with
  | [] => se_ret tt
  | x :: l' => se_bind (f x) (fun _ => se_iter f l')
  end.

Lemma se_iter_app {A} (f : A -> SE S unit) l1 l2 s :
  se_iter f (l1 ++ l2) s = se_bind (se_iter f l1) (fun _ => se_iter f l2) s.
Proof.
  revert s. induction l1 as [|x l1 IH]; intros s; [reflexivity|].
  simpl. rewrite se_bind_assoc. destruct (f x s) as [s' [e|[]]] eqn:E.
  - rewrite !(se_bind_inl _ _ _ _ _ E). reflexivity.
  - rewrite !(se_bind_inr _ _ _ _ _ E). apply IH.
Qed.

Lemma se_total_iter {A} (f : A -> SE S unit) l :
  (forall x, In x l -> se_total (f x)) -> se_total (se_iter f l).
Proof.
  induction l as [|x l IH]; intros Hf; simpl; [apply se_total_ret|].
  apply se_total_bind; [apply Hf; left; reflexivity|]. intros _. apply IH. intros y Hy. apply Hf. right. exact Hy.
Qed.
(** Every value [m] returns, from any state, satisfies [Q]: the
    postcondition of the normal outcome. *)
Definition se_post {A} (Q : A -> Prop) (m : SE S A) : Prop :=
  forall s s' a, m s = (s', inr a) -> Q a.

Lemma se_post_ret {A} (Q : A -> Prop) a : Q a -> se_post Q (se_ret a).
Proof. intros Ha s s' b [= _ <-]. exact Ha. Qed.

Lemma se_post_throw {A} (Q : A -> Prop) msg : se_post Q (se_throw msg).
Proof. intros s s' b [=]. Qed.

Lemma se_post_bind {A B} (Q : B -> Prop) (m : SE S A) (f : A -> SE S B) :
  (forall a, se_post Q (f a)) -> se_post Q (se_bind m f).
Proof.
  intros Hf s s' b. unfold se_bind. destruct (m s) as [s1 [e|a]]; [intros [=]|]. apply Hf.
Qed.

(** Binding on a computation whose results satisfy [P]. *)
Lemma se_post_bind_post {A B} (P : A -> Prop) (Q : B -> Prop) (m : SE S A) (f : A -> SE S B) :
  se_post P m -> (forall a, P a -> se_post Q (f a)) -> se_post Q (se_bind m f).
Proof.
  intros Hm Hf s s' b. unfold se_bind. destruct (m s) as [s1 [e|a]] eqn:E; [intros [=]|].
  apply Hf. exact (Hm _ _ _ E).
Qed.

Lemma se_post_catch {A} (Q : A -> Prop) (m : SE S A) h :
  se_post Q m -> (forall e, se_post Q (h e)) -> se_post Q (se_catch m h).
Proof.
  intros Hm Hh s s' b. unfold se_catch. destruct (m s) as [s1 [e|a]] eqn:E; [apply Hh|].
  intros [= <- <-]. exact (Hm _ _ _ E).
Qed.
End Monad.

Create HintDb post discriminated.
#[export] Hint Resolve se_post_ret se_post_throw se_post_bind se_post_catch : post.

(** Proves a postcondition by following the binds, catches and branches
    of the computation down to its returns. *)
Ltac post_solve :=
  repeat first [ progress intros | apply se_post_throw | apply se_post_bind | apply se_post_catch
               | apply se_post_ret | case_match ]; try done.

Create HintDb total discriminated.
#[export] Hint Resolve se_total_ret se_total_modify se_total_bind se_total_catch : total.

Notation "'let!' x ':=' c1 'in' c2" := (se_bind c1 (fun x => c2))
  (at level 10, x name, c1 at level 100, c2 at level 200) : orch_scope.
Notation "c1 ';;!' c2" := (se_bind c1 (fun _ => c2))
  (at level 100, right associativity) : orch_scope.

(** ** JavaScript strings *)

(** [s.includes(sub)]: [sub] occurs in [s] at some position. *)
Fixpoint js_includes (s sub : string) : bool :=
  String.prefix sub s ||
  match s with
  | EmptyString => false
  | String _ s' => js_includes s' sub
  end.

(** The characters [String.prototype.trim] removes that an 8-bit string
    can hold: tab, line feed, vertical tab, form feed, carriage return,
    space and no-break space (U+00A0). *)
Definition is_js_ws (c : Ascii.ascii) : bool :=
  match Ascii.nat_of_ascii c with
  | 9 | 10 | 11 | 12 | 13 | 32 | 160 => true
  | _ => false
  end.

Fixpoint drop_ws (l : list Ascii.ascii) : list Ascii.ascii :=
  match l with
  | [] => []
  | c :: l' => if is_js_ws c then drop_ws l' else l
  end.

Lemma string_prefix_app p s : String.prefix p (p +:+ s) = true.
Proof. induction p as [|a p IH]; [by destruct s|]. change (String a p +:+ s) with (String a (p +:+ s)). cbn [String.prefix]. destruct (Ascii.ascii_dec a a) as [_|[]]; [exact IH|reflexivity]. Qed.

Lemma string_length_app s t : String.length (s +:+ t) = (String.length s + String.length t)%nat.
Proof. induction s as [|c s IH]; [done|]. change (String c s +:+ t) with (String c (s +:+ t)). cbn. by rewrite IH. Qed.

Lemma string_app_assoc s t u : ((s +:+ t) +:+ u = s +:+ (t +:+ u))%string.
Proof. induction s as [|c s IH]; [done|]. exact (f_equal (String c) IH). Qed.

Lemma list_ascii_of_string_app s t :
  String.list_ascii_of_string (s +:+ t) = String.list_ascii_of_string s ++ String.list_ascii_of_string t.
Proof. induction s as [|c s IH]; [done|]. exact (f_equal (cons c) IH). Qed.

Lemma substring_0_all s m : (String.length s <= m)%nat → String.substring 0 m s = s.
Proof. revert m. induction s as [|c s IH]; intros [|m] Hm; cbn in *; [done|done|lia|]. f_equal. apply IH. lia. Qed.

(** The text after a prefix: what [replace] keeps of the string. *)
Lemma substring_after_prefix p s m :
  (String.length s <= m)%nat → String.substring (String.length p) m (p +:+ s) = s.
Proof. induction p as [|a p IH]; intros Hm; simpl; [by apply substring_0_all|]. destruct m; by apply IH. Qed.

(** [s.trim()] *)
Definition js_trim (s : string) : string :=
  String.string_of_list_ascii
    (rev (drop_ws (rev (drop_ws (String.list_ascii_of_string s))))).

(** [s.toLowerCase()] on 8-bit strings: [A]-[Z] become [a]-[z]. *)
Definition ascii_lower (c : Ascii.ascii) : Ascii.ascii :=
  let n := Ascii.nat_of_ascii c in
  if (65 <=? n) && (n <=? 90) then Ascii.ascii_of_nat (n + 32) else c.

Fixpoint js_lower (s : string) : string :=
  match s with
  | EmptyString => EmptyString
  | String c s' => String (ascii_lower c) (js_lower s')
  end.

(** ** Ceiling division, as [Math.ceil(n / d)] on non-negative integers *)

Definition ceil_div (n d : nat) : nat := (n + (d - 1)) / d.

(** ** Tactics and hints *)

Ltac invc H := inversion H; subst; clear H.

Create HintDb orch discriminated.
Create Rewrite HintDb orch_rw.
#[export] Hint Rewrite @se_bind_ret_l @se_bind_throw @se_bind_assoc : orch_rw.

(** [se_run] unfolds the monad combinators and reduces the result. *)
Ltac se_run :=
  cbv [se_bind se_ret se_throw se_catch se_get se_put se_modify] in *;
  cbn -[js_includes] in *.

(** [se_step E] splits the first bind of a goal [se_bind m f w = ..]
    on the outcome of [m w], recorded in [E]. *)
Ltac se_step E :=
  match goal with
  | |- context [se_bind ?m ?f ?w] =>
      let s' := fresh "w" in let e := fresh "e" in let a := fresh "a" in
      destruct (m w) as [s' [e|a]] eqn:E;
      [rewrite (se_bind_inl m f w s' e E) | rewrite (se_bind_inr m f w s' a E); cbv beta]
  end.

(** ** Shared lemmas *)

Lemma prefix_refl s : String.prefix s s = true.
Proof. induction s as [|c s IH]; [reflexivity|]. simpl. by destruct (Ascii.ascii_dec c c). Qed.

Lemma prefix_app s t : String.prefix s (s ++ t)%string = true.
Proof. induction s as [|c s IH]; [by destruct t|]. simpl. by destruct (Ascii.ascii_dec c c). Qed.

Lemma js_includes_prefix s sub : String.prefix sub s = true -> js_includes s sub = true.
Proof. destruct s; simpl; intros ->; done. Qed.

Lemma js_includes_app_r s1 s2 sub :
  js_includes s2 sub = true -> js_includes (s1 ++ s2)%string sub = true.
Proof.
  induction s1 as [|c s1 IH]; simpl; [done|].
  intros H. rewrite (IH H). apply orb_true_r.
Qed.

Lemma prefix_extend sub s t :
  String.prefix sub s = true -> String.prefix sub (s ++ t)%string = true.
Proof.
  revert s. induction sub as [|c sub IH]; intros s H.
  - by destruct (s ++ t)%string.
  - destruct s as [|c0 s]; [discriminate|]. simpl in *.
    destruct (Ascii.ascii_dec c c0); [by apply IH|discriminate].
Qed.

Lemma js_includes_app_l s1 s2 sub :
  js_includes s1 sub = true -> js_includes (s1 ++ s2)%string sub = true.
Proof.
  induction s1 as [|c s1 IH]; simpl; intros H.
  - apply js_includes_prefix. rewrite orb_false_r in H.
    by apply (prefix_extend sub EmptyString s2).
  - apply orb_true_iff in H as [H|H]; apply orb_true_iff; [left|right].
    + by apply (prefix_extend sub (String c s1) s2).
    + by apply IH.
Qed.

(** A prefix of a string is included in any extension of it. *)
Lemma js_includes_head s t : js_includes (s ++ t)%string s = true.
Proof. apply js_includes_prefix, prefix_app. Qed.

Lemma ceil_div_pos n d : 0 < d -> 0 < n -> 0 < ceil_div n d.
Proof.
  intros Hd Hn. unfold ceil_div.
  apply Nat.div_str_pos. lia.
Qed.

Lemma ceil_div_upper n d : 0 < d -> n <= d * ceil_div n d.
Proof.
  intros Hd. unfold ceil_div.
  pose proof (Nat.div_mod_eq (n + (d - 1)) d).
  pose proof (Nat.mod_upper_bound (n + (d - 1)) d ltac:(lia)). lia.
Qed.

Lemma ceil_div_lower n d : 0 < d -> d * ceil_div n d < n + d.
Proof.
  intros Hd. unfold ceil_div.
  pose proof (Nat.div_mod_eq (n + (d - 1)) d). lia.
Qed.

#[export] Hint Resolve prefix_refl prefix_app js_includes_prefix js_includes_head : orch.
#[export] Hint Resolve js_includes_app_l js_includes_app_r : orch.

(** ** Tables keyed by their rows' ids

    A query [.eq('id', id)] on a table kept as a map from ids to rows
    reads the values of the map; when every row is stored under its
    own id, it finds at most the row at [id]. *)

Lemma filter_none {A} (P : A → Prop) `{∀ x, Decision (P x)} l :
  (∀ x, x ∈ l → ¬ P x) → filter P l = [].
Proof.
  induction l as [|x l IH]; intros Hl; [done|]. rewrite filter_cons, decide_False by (apply Hl; left).
  apply IH. intros y Hy. apply Hl. by right.
Qed.

Lemma first_true (P : nat → bool) i :
  P i = true → ∃ n, P n = true ∧ ∀ k, (k < n)%nat → P k = false.
Proof.
  revert P. induction i as [|i IH]; intros P Hi; [exists 0%nat; split; [done|lia]|].
  destruct (P 0%nat) eqn:H0; [exists 0%nat; split; [done|lia]|].
  destruct (IH (λ k, P (S k)) Hi) as (n & Hn & Hlt). exists (S n). split; [done|].
  intros [|k] Hk; [done|]. apply Hlt. lia.
Qed.

Lemma filter_all {A} (P : A → Prop) `{∀ x, Decision (P x)} (l : list A) :
  (∀ x, x ∈ l → P x) → filter P l = l.
Proof.
  induction l as [|x l IH]; intros Hl; [done|]. rewrite filter_cons, decide_True by (apply Hl; left).
  f_equal. apply IH. intros y Hy. apply Hl. by right.
Qed.

Lemma fmap_id_on {A} (f : A → A) (l : list A) :
  (∀ x, x ∈ l → f x = x) → f <$> l = l.
Proof.
  induction l as [|x l IH]; intros Hl; [done|]. csimpl. rewrite Hl by left.
  f_equal. apply IH. intros y Hy. apply Hl. by right.
Qed.

Section Keyed.
Context {A : Type} (key : A → string) (Q : A → Prop) `{∀ x, Decision (Q x)}.

Lemma keyed_rows (m : gmap string A) id :
  (∀ i v, m !! i = Some v → key v = i) →
  filter (λ v, key v = id ∧ Q v) (map snd (map_to_list m)) =
    match m !! id with Some v => if decide (Q v) then [v] else [] | None => [] end.
Proof.
  intros Hk. assert (Hout : ∀ m' : gmap string A, (∀ i v, m' !! i = Some v → key v = i) → m' !! id = None →
                              filter (λ v, key v = id ∧ Q v) (map snd (map_to_list m')) = []).
  { intros m' Hk' Hn. apply filter_none. intros x Hx [Hx' _].
    change (map snd _) with (snd <$> map_to_list m') in Hx.
    apply list_elem_of_fmap in Hx as [[i y] [-> Hi]]. apply elem_of_map_to_list in Hi.
    pose proof (Hk' _ _ Hi). simpl in *. subst. congruence. }
  destruct (m !! id) as [v|] eqn:E; [|by apply Hout].
  assert (Hp : filter (λ v, key v = id ∧ Q v) (map snd (map_to_list m)) ≡ₚ
               filter (λ v, key v = id ∧ Q v) (v :: map snd (map_to_list (delete id m)))).
  { apply filter_Permutation. rewrite <-(insert_delete_id m id v E) at 1.
    change (map snd ?l) with (snd <$> l). rewrite map_to_list_insert by apply lookup_delete_eq. done. }
  rewrite filter_cons, (Hout (delete id m)) in Hp.
  2: { intros i w Hw. apply lookup_delete_Some in Hw as [_ Hw]. by apply Hk. }
  2: apply lookup_delete_eq.
  rewrite (Hk _ _ E) in Hp. destruct (decide (Q v)).
  - rewrite decide_True in Hp by done. by apply Permutation_singleton_r.
  - rewrite decide_False in Hp by naive_solver. by apply Permutation_nil_r.
Qed.
End Keyed.
