(* ===== verification/Calendar.v ===== *)
(** * Calendar: the [Date] arithmetic of the quota tracker

    The monthly reset of [src/quota-tracker/src/index.ts] sets
    [reset_monthly_at] to [new Date(now.getFullYear(), now.getMonth() + 1, 1)]:
    local midnight of the first day of the next month.  ECMAScript
    defines [getFullYear], [getMonth] and the [Date] constructor on the
    proleptic Gregorian calendar; they are computed here with the
    day-number conversions [days_from_civil] and [civil_from_days]
    (exact on all of [Z] with floor division).  The local time zone is
    a fixed offset [tz] in milliseconds (daylight saving time is not
    modelled).

    The conversions are checked against each other on every day from
    1970-01-01 to 2099-12-31, and the reset instant is proved to be
    the first instant of the next month, after [now] and at most 31
    days later, for every [now] in that range. *)

From Stdlib Require Import ZArith Lia List Bool.
Import ListNotations.

Local Open Scope Z_scope.

(** [msPerDay] *)
Definition day_ms : Z := 86400000.

(** The day number (days since 1970-01-01) of a civil date; [m] is
    1-based. *)
Definition days_from_civil (y m d : Z) : Z :=
  let y := if m <=? 2 then y - 1 else y in
  let era := y / 400 in
  let yoe := y - era * 400 in
  let doy := (153 * (if m >? 2 then m - 3 else m + 9) + 2) / 5 + d - 1 in
  let doe := yoe * 365 + yoe / 4 - yoe / 100 + doy in
  era * 146097 + doe - 719468.

(** The civil date [(year, month 1..12, day 1..31)] of a day number. *)
Definition civil_from_days (z : Z) : Z * Z * Z :=
  let z := z + 719468 in
  let era := z / 146097 in
  let doe := z - era * 146097 in
  let yoe := (doe - doe / 1460 + doe / 36524 - doe / 146096) / 365 in
  let y := yoe + era * 400 in
  let doy := doe - (365 * yoe + yoe / 4 - yoe / 100) in
  let mp := (5 * doy + 2) / 153 in
  let d := doy - (153 * mp + 2) / 5 + 1 in
  let m := if mp <? 10 then mp + 3 else mp - 9 in
  (if m <=? 2 then y + 1 else y, m, d).

(** [Day(t)] of the local time of the instant [t]. *)
Definition local_day (tz t : Z) : Z := (t + tz) / day_ms.

(** [new Date(year, month, date)] at local midnight: [MakeDay] folds a
    month outside 0..11 into the year; [month] is 0-based. *)
Definition make_local_date (tz year month date : Z) : Z :=
  days_from_civil (year + month / 12) (month mod 12 + 1) date * day_ms - tz.

(** [new Date(now.getFullYear(), now.getMonth() + 1, 1)] *)
Definition next_month_start (tz now : Z) : Z :=
  let '(y, m, _) := civil_from_days (local_day tz now) in
  make_local_date tz y ((m - 1) + 1) 1.

(** The day number of the first day of the month after the one of day
    [d]. *)
Definition next_month_day (d : Z) : Z :=
  let '(y, m, _) := civil_from_days d in
  days_from_civil (y + m / 12) (m mod 12 + 1) 1.

(** ** Day-level facts, checked day by day *)

(** The two conversions agree on day [d], and the first of the next
    month is after [d], at most 31 days later, a first of month, and
    in the month after [d]'s. *)
Definition day_ok (d : Z) : bool :=
  let '(y, m, dd) := civil_from_days d in
  let n := next_month_day d in
  let '(y', m', d') := civil_from_days n in
  (days_from_civil y m dd =? d) && (1 <=? m) && (m <=? 12) && (1 <=? dd) && (dd <=? 31) &&
  (d <? n) && (n <=? d + 31) && (d' =? 1) &&
  (if m =? 12 then (y' =? y + 1) && (m' =? 1) else (y' =? y) && (m' =? m + 1)).

Fixpoint all_days (start : Z) (n : nat) : bool :=
  match n with
  | O => true
  | S n' => day_ok start && all_days (start + 1) n'
  end.

(** 1970-01-01 is day 0; 2100-01-01 is day 47482. *)
Definition first_day : Z := 0.
Definition days_checked : nat := Z.to_nat 47482.

Lemma all_days_spec start n d :
  all_days start n = true -> start <= d < start + Z.of_nat n -> day_ok d = true.
Proof.
  revert start. induction n as [|n IH]; intros start H Hd; [lia|].
  cbn [all_days] in H. apply andb_true_iff in H as [H1 H2].
  destruct (Z.eq_dec d start) as [->|Hne]; [exact H1|].
  apply (IH (start + 1)); [exact H2|lia].
Qed.

Lemma all_days_checked : all_days first_day days_checked = true.
Proof. vm_compute. reflexivity. Qed.

Lemma day_ok_range d : 0 <= d < 47482 -> day_ok d = true.
Proof.
  intros Hd. apply (all_days_spec first_day days_checked); [exact all_days_checked|].
  unfold days_checked, first_day. rewrite Z2Nat.id; lia.
Qed.

Lemma day_ok_spec d :
  day_ok d = true ->
  let '(y, m, _) := civil_from_days d in
  d < next_month_day d <= d + 31 /\
  civil_from_days (next_month_day d) = (if m =? 12 then (y + 1, 1, 1) else (y, m + 1, 1)).
Proof.
  unfold day_ok. destruct (civil_from_days d) as [[y m] dd].
  destruct (civil_from_days (next_month_day d)) as [[y' m'] d'].
  rewrite !andb_true_iff, !Z.leb_le, !Z.ltb_lt, !Z.eqb_eq.
  intros [[[[[[[[_ _] _] _] _] Hlt] Hle] Hd'] Hm]. split; [lia|]. subst d'.
  destruct (m =? 12); rewrite andb_true_iff, !Z.eqb_eq in Hm; destruct Hm as [-> ->]; reflexivity.
Qed.

Lemma local_day_bounds tz t : local_day tz t * day_ms <= t + tz < (local_day tz t + 1) * day_ms.
Proof. unfold local_day, day_ms. pose proof (Z.div_mod (t + tz) 86400000 ltac:(lia)).
  pose proof (Z.mod_pos_bound (t + tz) 86400000 ltac:(lia)). lia. Qed.

Lemma next_month_start_day tz now :
  next_month_start tz now = next_month_day (local_day tz now) * day_ms - tz.
Proof.
  unfold next_month_start, next_month_day, make_local_date.
  destruct (civil_from_days (local_day tz now)) as [[y m] dd].
  replace (m - 1 + 1) with m by lia. reflexivity.
Qed.

Lemma local_day_of_midnight tz n : local_day tz (n * day_ms - tz) = n.
Proof. unfold local_day. replace (n * day_ms - tz + tz) with (n * day_ms) by lia. apply Z.div_mul. discriminate. Qed.

(** C25: The monthly reset instant of the tracker, for a local time between
    1970-01-01 and 2099-12-31: it is after [now] and at most 31 days
    later, it is a local midnight, and its local date is the first of
    the month after [now]'s (January of the next year after a
    December). *)
Theorem next_month_start_spec tz now :
  0 <= now + tz < 47482 * day_ms ->
  now < next_month_start tz now <= now + 31 * day_ms /\
  (next_month_start tz now + tz) mod day_ms = 0 /\
  let '(y, m, _) := civil_from_days (local_day tz now) in
  civil_from_days (local_day tz (next_month_start tz now)) =
    (if m =? 12 then (y + 1, 1, 1) else (y, m + 1, 1)).
Proof.
  intros Hr. pose proof (local_day_bounds tz now) as Hb.
  assert (Hd : 0 <= local_day tz now < 47482).
  { split; apply Z.lt_succ_r || idtac; unfold day_ms in *; nia. }
  pose proof (day_ok_spec _ (day_ok_range _ Hd)) as Hs.
  rewrite next_month_start_day, local_day_of_midnight.
  destruct (civil_from_days (local_day tz now)) as [[y m] dd].
  destruct Hs as [[Hlt Hle] Hc]. split; [unfold day_ms in *; nia|]. split; [|exact Hc].
  replace (next_month_day (local_day tz now) * day_ms - tz + tz)
    with (next_month_day (local_day tz now) * day_ms) by lia.
  apply Z.mod_mul. discriminate.
Qed.

(** 2024-12-15T10:00Z in UTC+1: the reset is 2025-01-01T00:00 local. *)
Lemma next_month_start_spec_witness :
  next_month_start 3600000 1734256800000 = 1735686000000 /\
  1734256800000 < next_month_start 3600000 1734256800000 <= 1734256800000 + 31 * day_ms.
Proof.
  split; [vm_compute; reflexivity|].
  apply (next_month_start_spec 3600000 1734256800000). unfold day_ms. lia.
Defined.
