(* ===== verification/Model.v ===== *)
(** * Model: data model, external-call oracle and datastore helpers

    The rows of the tables the core reads and writes (spec §3; the
    TypeScript interfaces of [src/webapp/src/lib/supabase.ts] and
    [src/browser-worker/src/supabase.ts]), the runtime browser objects
    of [browser.ts], the [World] the worker threads through a job, and
    the helpers of [src/browser-worker/src/supabase.ts].

    The procedure [update_quota_usage] of the database is not in the
    repository's sources: it is modelled from the spec and marked so in
    the manifest ([get_available_account] is the class
    [Intake.AccountSelector]). *)

From S2P Require Import Prelude.

Local Open Scope orch_scope.

(** ** Enumerations *)

(** [Account.status]: ['pending' | 'active' | 'expired' | 'quota_exceeded' | 'error'] *)
Inductive account_status := pending | active | expired | quota_exceeded | acc_error.

(** [Request.status]: ['queued' | 'processing' | 'completed' | 'failed'] *)
Inductive request_status := queued | processing | completed | failed.

(** [UsageLog.status]: ['success' | 'error' | 'timeout'] *)
Inductive usage_status := success | usage_error | usage_timeout.

#[export] Instance account_status_eq_dec : EqDecision account_status.
Proof. solve_decision. Defined.
#[export] Instance request_status_eq_dec : EqDecision request_status.
Proof. solve_decision. Defined.
#[export] Instance usage_status_eq_dec : EqDecision usage_status.
Proof. solve_decision. Defined.

(** ** Rows *)

(** A Playwright cookie; the attributes the code never inspects
    ([httpOnly], [secure], [sameSite]) are left out. *)
Record Cookie := {
  ck_name : string; ck_value : string; ck_domain : string; ck_path : string;
  ck_expires : Z
}.

#[export] Instance cookie_eq_dec : EqDecision Cookie.
Proof. solve_decision. Defined.

(** [interface BrowserSession] *)
Record BrowserSession := {
  bs_account_id : string;
  bs_cookies : list Cookie;
  bs_local_storage : gmap string string;
  bs_expires_at : Z;
  bs_updated_at : Z
}.

(** [interface Account] *)
Record Account := {
  acc_id : string;
  acc_user_id : string;
  acc_provider : string;
  acc_email : string;
  acc_status : account_status;
  acc_last_used_at : option Z;
  acc_updated_at : Z
}.

(** [interface Request] (the [requests] table) *)
Record Request := {
  req_id : string;
  req_user_id : string;
  req_api_key_id : option string;
  req_prompt : string;
  req_provider_requested : option string;
  req_provider_used : option string;
  req_account_id : option string;
  req_status : request_status;
  req_priority : Z;
  req_response : option string;
  req_tokens_used : option Z;
  req_latency_ms : option Z;
  req_error_message : option string;
  req_completed_at : option Z
}.

(** [interface Quota] *)
Record Quota := {
  q_id : string;
  q_account_id : string;
  q_provider : string;
  q_daily_limit : Z;
  q_daily_used : Z;
  q_monthly_limit : option Z;
  q_monthly_used : Z;
  q_reset_daily_at : Z;
  q_reset_monthly_at : option Z;
  q_updated_at : Z
}.

(** [interface UsageLog]; the cost is in units of 1e-8 USD, [None]
    where the code computes [NaN], which [JSON.stringify] sends as
    [null]. *)
Record UsageLog := {
  ul_account_id : string;
  ul_provider : string;
  ul_request_id : option string;
  ul_tokens_used : Z;
  ul_estimated_cost : option Z;
  ul_latency_ms : Z;
  ul_status : usage_status;
  ul_error_message : option string
}.

(** [interface APIKey]; [permissions] is not modelled. *)
Record ApiKey := {
  ak_id : string;
  ak_user_id : string;
  ak_name : string;
  ak_key_hash : string;
  ak_key_prefix : string;
  ak_rate_limit_per_minute : Z;
  ak_rate_limit_per_day : Z;
  ak_revoked : bool;
  ak_last_used_at : option Z;
  ak_expires_at : option Z
}.

(** The [type] of an alert of the quota tracker. *)
Inductive alert_kind := quota_warning | quota_exceeded_alert | monthly_quota_exceeded | session_expiring.

#[export] Instance alert_kind_eq_dec : EqDecision alert_kind.
Proof. solve_decision. Defined.

(** The alert object given to [sendAlert]; [usagePercentage] is the
    ratio of [used] to [limit], which are kept instead. *)
Record AlertPayload := {
  ap_kind : alert_kind;
  ap_account_id : string;
  ap_provider : option string;
  ap_used : option Z;
  ap_limit : option Z;
  ap_remaining : option Z;
  ap_expires_at : option Z
}.

(** A row of the [alerts] table. *)
Record Alert := {
  al_kind : alert_kind;
  al_account_id : string;
  al_provider : option string;
  al_data : AlertPayload;
  al_created_at : Z
}.

(** The datastore.  [db_sessions] is a list of rows because the
    [browser_sessions] table is keyed by a generated [id], not by the
    account (see [saveSession]). *)
Record Db := {
  db_accounts : gmap string Account;
  db_requests : gmap string Request;
  db_quotas : list Quota;
  db_sessions : list BrowserSession;
  db_usage_logs : list UsageLog;
  db_alerts : list Alert;
  db_api_keys : gmap string ApiKey
}.

(** ** Runtime browser objects ([browser.ts])

    A Playwright [BrowserContext] of a persistent profile: its cookie
    jar, the [localStorage] of the profile, the init scripts registered
    with [addInitScript] (each one an [Object.assign] of a storage
    snapshot), the number of open pages, and whether it is still open. *)
Record Context := {
  ctx_account : string;
  ctx_cookies : list Cookie;
  ctx_storage : gmap string string;
  ctx_init_scripts : list (gmap string string);
  ctx_pages : nat;
  ctx_open : bool
}.

(** The heap of context objects, by handle; [contextPool], the map
    from account id to the handle of its context; the next fresh
    handle; and the persistent profiles on disk
    ([path.join(config.directories.sessions, accountId)]): the cookies
    and storage a context of the account starts from, written back when
    it closes. *)
Record BState := {
  b_ctxs : gmap nat Context;
  b_pool : gmap string nat;
  b_next : nat;
  b_disk : gmap string (list Cookie * gmap string string)
}.

(** ** External calls and the oracle *)

Inductive Call :=
  | CLoadSession | CSaveSession | CUpdateAccountStatus | CUpdateQuota | CLogUsage
  | CDbWrite
  | CLaunch | CAddCookies | CNewPage | CAddInitScript | CCookies | CEvaluate
  | CScreenshot | CReadFile | CUpload | CClose
  | CQuotaSelect | CSessionSelect | CPublish | CAlertInsert
  | CKeySelect | CRedis | CRpc | CRequestInsert | CSelect
  | CAccountInsert | CAccountDelete | CWorkerClose | CRedisQuit.

#[export] Instance call_eq_dec : EqDecision Call.
Proof. solve_decision. Defined.

(** The environment of a run: which call rejects (the [n]-th call of a
    kind, counting from 0, with a message), the successive readings of
    [Date.now()], whether the schema makes [browser_sessions.account_id]
    unique, and [config.browser.screenshotOnError]. *)
Record Env := {
  env_fault : Call -> nat -> option string;
  env_clock : nat -> Z;
  env_session_unique : bool;
  env_screenshot_on_error : bool
}.

(** [interface ChatRequestJob] of [worker.ts]: the data of a queued job. *)
Record ChatRequestJob := {
  job_request_id : string;
  job_account_id : string;
  job_provider : string;
  job_prompt : string;
  job_priority : Z
}.

(** The message the intake pushes on the queue: [name], [data] and
    [opts.priority]. *)
Record JobMessage := {
  jm_name : string;
  jm_data : ChatRequestJob;
  jm_priority : Z
}.

(** The stores besides the datastore and the browser: the keys
    uploaded to the [screenshots] bucket, the Redis counters (by key),
    the Redis list [bullmq:chat-requests:wait] (head first) and the
    messages published on the Redis channel [quota_alerts]. *)
Record Ext := {
  x_uploads : list string;
  x_redis : gmap string Z;
  x_queue : list JobMessage;
  x_published : list AlertPayload
}.

Record World := {
  w_env : Env;
  w_calls : Call -> nat;
  w_clock_reads : nat;
  w_db : Db;
  w_br : BState;
  w_ext : Ext
}.

Definition M := SE World.

Definition set_db (d : Db) (w : World) : World :=
  {| w_env := w_env w; w_calls := w_calls w; w_clock_reads := w_clock_reads w;
     w_db := d; w_br := w_br w; w_ext := w_ext w |}.

Definition set_br (b : BState) (w : World) : World :=
  {| w_env := w_env w; w_calls := w_calls w; w_clock_reads := w_clock_reads w;
     w_db := w_db w; w_br := b; w_ext := w_ext w |}.

Definition set_ext (x : Ext) (w : World) : World :=
  {| w_env := w_env w; w_calls := w_calls w; w_clock_reads := w_clock_reads w;
     w_db := w_db w; w_br := w_br w; w_ext := x |}.

Definition bump (c : Call) (w : World) : World :=
  {| w_env := w_env w;
     w_calls := fun c' => if decide (c' = c) then S (w_calls w c') else w_calls w c';
     w_clock_reads := w_clock_reads w; w_db := w_db w; w_br := w_br w;
     w_ext := w_ext w |}.

(** An awaited call that rejects with the oracle's message. *)
Definition call (c : Call) : M unit := fun w =>
  match env_fault (w_env w) c (w_calls w c) with
  | Some msg => (bump c w, inl msg)
  | None => (bump c w, inr tt)
  end.

(** [await supabase.from(..).update(..)] whose [{ error }] is ignored:
    on a fault the write does not happen and nothing is thrown. *)
Definition try_write (f : Db -> Db) : M unit := fun w =>
  match env_fault (w_env w) CDbWrite (w_calls w CDbWrite) with
  | Some _ => (bump CDbWrite w, inr tt)
  | None => (set_db (f (w_db w)) (bump CDbWrite w), inr tt)
  end.

(** The world after one more reading of the clock. *)
Definition tick (w : World) : World :=
  {| w_env := w_env w; w_calls := w_calls w; w_clock_reads := S (w_clock_reads w);
     w_db := w_db w; w_br := w_br w; w_ext := w_ext w |}.

(** [Date.now()] / [new Date()] *)
Definition now : M Z := fun w => (tick w, inr (env_clock (w_env w) (w_clock_reads w))).

Definition modify_db (f : Db -> Db) : M unit := se_modify (fun w => set_db (f (w_db w)) w).

(** The result of a query, read off the datastore. *)
Definition db_read {A} (f : Db -> A) : M A := fun w => (w, inr (f (w_db w))).

Definition modify_ext (f : Ext -> Ext) : M unit := se_modify (fun w => set_ext (f (w_ext w)) w).

(** ** Table updates *)

Definition db_set_accounts (m : gmap string Account) (d : Db) : Db :=
  {| db_accounts := m; db_requests := db_requests d; db_quotas := db_quotas d;
     db_sessions := db_sessions d; db_usage_logs := db_usage_logs d;
     db_alerts := db_alerts d; db_api_keys := db_api_keys d |}.
Definition db_set_requests (m : gmap string Request) (d : Db) : Db :=
  {| db_accounts := db_accounts d; db_requests := m; db_quotas := db_quotas d;
     db_sessions := db_sessions d; db_usage_logs := db_usage_logs d;
     db_alerts := db_alerts d; db_api_keys := db_api_keys d |}.
Definition db_set_quotas (l : list Quota) (d : Db) : Db :=
  {| db_accounts := db_accounts d; db_requests := db_requests d; db_quotas := l;
     db_sessions := db_sessions d; db_usage_logs := db_usage_logs d;
     db_alerts := db_alerts d; db_api_keys := db_api_keys d |}.
Definition db_set_sessions (l : list BrowserSession) (d : Db) : Db :=
  {| db_accounts := db_accounts d; db_requests := db_requests d; db_quotas := db_quotas d;
     db_sessions := l; db_usage_logs := db_usage_logs d;
     db_alerts := db_alerts d; db_api_keys := db_api_keys d |}.
Definition db_set_usage_logs (l : list UsageLog) (d : Db) : Db :=
  {| db_accounts := db_accounts d; db_requests := db_requests d; db_quotas := db_quotas d;
     db_sessions := db_sessions d; db_usage_logs := l;
     db_alerts := db_alerts d; db_api_keys := db_api_keys d |}.
Definition db_set_alerts (l : list Alert) (d : Db) : Db :=
  {| db_accounts := db_accounts d; db_requests := db_requests d; db_quotas := db_quotas d;
     db_sessions := db_sessions d; db_usage_logs := db_usage_logs d;
     db_alerts := l; db_api_keys := db_api_keys d |}.
Definition db_set_api_keys (m : gmap string ApiKey) (d : Db) : Db :=
  {| db_accounts := db_accounts d; db_requests := db_requests d; db_quotas := db_quotas d;
     db_sessions := db_sessions d; db_usage_logs := db_usage_logs d;
     db_alerts := db_alerts d; db_api_keys := m |}.

(** [.from(table).update(f).eq('id', id)]: no row, no change. *)
Definition update_account (id : string) (f : Account -> Account) (d : Db) : Db :=
  db_set_accounts (alter f id (db_accounts d)) d.
Definition update_request (id : string) (f : Request -> Request) (d : Db) : Db :=
  db_set_requests (alter f id (db_requests d)) d.

Definition with_status (s : account_status) (t : Z) (a : Account) : Account :=
  {| acc_id := acc_id a; acc_user_id := acc_user_id a; acc_provider := acc_provider a;
     acc_email := acc_email a; acc_status := s; acc_last_used_at := acc_last_used_at a;
     acc_updated_at := t |}.

Definition with_last_used (t : Z) (a : Account) : Account :=
  {| acc_id := acc_id a; acc_user_id := acc_user_id a; acc_provider := acc_provider a;
     acc_email := acc_email a; acc_status := acc_status a; acc_last_used_at := Some t;
     acc_updated_at := acc_updated_at a |}.

(** ** The helpers of [supabase.ts] *)

Definition sessions_of (accountId : string) (rows : list BrowserSession) : list BrowserSession :=
  filter (fun r => bs_account_id r = accountId) rows.

(** [loadSession]: [.select('*').eq('account_id', id).single()].  A
    rejected query throws; no row, or more than one, is PostgREST's
    [PGRST116], which the code turns into [null]. *)
Definition loadSession (accountId : string) : M (option BrowserSession) :=
  call CLoadSession ;;!
  (fun w => (w, inr (match sessions_of accountId (db_sessions (w_db w)) with
                     | [r] => Some r
                     | _ => None
                     end))).

Definition unique_violation_msg : string :=
  "duplicate key value violates unique constraint".

(** [saveSession]: an [upsert] of a row with no [id].  The conflict
    target of [upsert] defaults to the primary key [id], which the row
    leaves to its generated default, so the upsert is an insert: a
    second row for the account, or a unique violation when the schema
    makes [account_id] unique. *)
Definition saveSession (accountId : string) (cookies : list Cookie)
    (localStorage : gmap string string) (expiresAt : Z) : M unit :=
  let! t := now in
  call CSaveSession ;;!
  (fun w =>
     let rows := db_sessions (w_db w) in
     if env_session_unique (w_env w) && bool_decide (sessions_of accountId rows ≠ [])
     then (w, inl unique_violation_msg)
     else (set_db (db_set_sessions
                     (rows ++ [{| bs_account_id := accountId; bs_cookies := cookies;
                                  bs_local_storage := localStorage;
                                  bs_expires_at := expiresAt; bs_updated_at := t |}])
                     (w_db w)) w, inr tt)).

(** [updateAccountStatus] *)
Definition updateAccountStatus (accountId : string) (status : account_status) : M unit :=
  let! t := now in
  call CUpdateAccountStatus ;;!
  modify_db (update_account accountId (with_status status t)).

(** The [update_quota_usage] procedure (modelled from the spec): the
    daily and monthly counters of the account's quota row for the
    provider grow by the tokens used. *)
Definition add_usage (tokens : Z) (q : Quota) : Quota :=
  {| q_id := q_id q; q_account_id := q_account_id q; q_provider := q_provider q;
     q_daily_limit := q_daily_limit q; q_daily_used := q_daily_used q + tokens;
     q_monthly_limit := q_monthly_limit q; q_monthly_used := q_monthly_used q + tokens;
     q_reset_daily_at := q_reset_daily_at q; q_reset_monthly_at := q_reset_monthly_at q;
     q_updated_at := q_updated_at q |}.

Definition update_quota_usage (accountId provider : string) (tokens : Z)
    (l : list Quota) : list Quota :=
  map (fun q => if bool_decide (q_account_id q = accountId ∧ q_provider q = provider)
                then add_usage tokens q else q) l.

(** [updateQuota]: the [rpc('update_quota_usage', ..)] call. *)
Definition updateQuota (accountId provider : string) (tokensUsed : Z) : M unit :=
  call CUpdateQuota ;;!
  modify_db (fun d => db_set_quotas (update_quota_usage accountId provider tokensUsed
                                                        (db_quotas d)) d).

(** The properties every object literal inherits from
    [Object.prototype]: [rates[provider]] finds them too. *)
Definition object_prototype_members : list string :=
  ["constructor"; "__proto__"; "__defineGetter__"; "__defineSetter__"; "__lookupGetter__";
   "__lookupSetter__"; "hasOwnProperty"; "isPrototypeOf"; "propertyIsEnumerable";
   "toLocaleString"; "toString"; "valueOf"].

(** [rates[provider] || 0] of [calculateCost], in units of 1e-8 USD a
    token (0.0015 / 1000 USD is 150 of them).  An inherited member is a
    function or, for [__proto__], an object: truthy and not a number,
    [None] here. *)
Definition rate (provider : string) : option Z :=
  if String.eqb provider "chatgpt" then Some 150%Z
  else if String.eqb provider "claude" then Some 300%Z
  else if String.eqb provider "gemini" then Some 0%Z
  else if String.eqb provider "deepseek" then Some 27%Z
  else if bool_decide (provider ∈ object_prototype_members) then None
  else Some 0%Z.

(** [calculateCost]: [(rates[provider] || 0) * tokens]; [None] is the
    [NaN] of a non-number times the tokens. *)
Definition calculateCost (provider : string) (tokens : Z) : option Z := (λ r, (r * tokens)%Z) <$> rate provider.

(** [logUsage]: an insert into [usage_logs]. *)
Definition logUsage (accountId provider : string) (requestId : option string)
    (tokensUsed latencyMs : Z) (status : usage_status) (errorMessage : option string) : M unit :=
  call CLogUsage ;;!
  modify_db (fun d => db_set_usage_logs
    (db_usage_logs d ++
     [{| ul_account_id := accountId; ul_provider := provider; ul_request_id := requestId;
         ul_tokens_used := tokensUsed;
         ul_estimated_cost := calculateCost provider tokensUsed;
         ul_latency_ms := latencyMs; ul_status := status;
         ul_error_message := errorMessage |}]) d).

(** ** Lemmas on calls *)

Definition no_fault (w : World) (c : Call) : Prop :=
  env_fault (w_env w) c (w_calls w c) = None.

Lemma call_ok w c : no_fault w c -> call c w = (bump c w, inr tt).
Proof. unfold no_fault, call. intros ->. reflexivity. Qed.

Lemma call_fail w c msg :
  env_fault (w_env w) c (w_calls w c) = Some msg -> call c w = (bump c w, inl msg).
Proof. unfold call. intros ->. reflexivity. Qed.

Lemma call_inv c w w' r : call c w = (w', r) → w' = bump c w.
Proof. unfold call. destruct (env_fault _ _ _); by intros [= <- _]. Qed.

Lemma bump_calls_eq w c : w_calls (bump c w) c = S (w_calls w c).
Proof. simpl. by rewrite decide_True. Qed.

Lemma bump_calls_ne w c c' : c' ≠ c -> w_calls (bump c w) c' = w_calls w c'.
Proof. simpl. intros Hne. by rewrite decide_False. Qed.

#[export] Hint Resolve call_ok call_fail : orch.

(** Fault freedom of a call survives the calls of other kinds and every
    change of the database, browser or clock. *)
Ltac no_fault_solve :=
  unfold no_fault in *; cbn; repeat (rewrite decide_False by discriminate); assumption.

(** Steps over [call c] when [c] does not reject. *)
Ltac call_step :=
  match goal with
  | |- context [se_bind (call ?c) ?f ?w] =>
      rewrite (se_bind_inr (call c) f w _ tt (call_ok w c ltac:(no_fault_solve))); cbn
  end.

(** ** Fixtures for concrete runs *)

(** An environment where no call rejects, with the given clock. *)
Definition env_quiet (clock : nat -> Z) : Env :=
  {| env_fault := fun _ _ => None; env_clock := clock;
     env_session_unique := false; env_screenshot_on_error := true |}.

Definition db_empty : Db :=
  {| db_accounts := ∅; db_requests := ∅; db_quotas := []; db_sessions := [];
     db_usage_logs := []; db_alerts := []; db_api_keys := ∅ |}.

(** A process start: no call made, no context, an empty pool. *)
Definition world_start (e : Env) (d : Db) : World :=
  {| w_env := e; w_calls := fun _ => 0%nat; w_clock_reads := 0%nat; w_db := d;
     w_br := {| b_ctxs := ∅; b_pool := ∅; b_next := 0; b_disk := ∅ |};
     w_ext := {| x_uploads := []; x_redis := ∅; x_queue := []; x_published := [] |} |}.

(** ** Relations kept by computations

    [kept P m]: every run of [m] relates its start and end worlds by
    [P].  For a preorder [P] this is closed under the monad's
    combinators, which is how the frame properties of composite
    operations are proved. *)

Section Kept.
Context (P : World -> World -> Prop) `{!PreOrder P}.

Definition kept {A} (m : M A) : Prop := forall w w' r, m w = (w', r) -> P w w'.

Lemma kept_ret {A} (a : A) : kept (se_ret a).
Proof. intros w w' r [= <- _]. reflexivity. Qed.

Lemma kept_throw {A} msg : kept (se_throw (A:=A) msg).
Proof. intros w w' r [= <- _]. reflexivity. Qed.

Lemma kept_read {A} (f : World -> A) : kept (fun w => (w, inr (f w))).
Proof. intros w w' r [= <- _]. reflexivity. Qed.

Lemma kept_bind {A B} (m : M A) (f : A -> M B) :
  kept m -> (forall a, kept (f a)) -> kept (se_bind m f).
Proof.
  intros Hm Hf w w' r. unfold se_bind. destruct (m w) as [w1 [e|a]] eqn:E.
  - intros [= <- _]. eapply Hm; eauto.
  - intros Hr. transitivity w1; [eapply Hm; eauto | eapply Hf; eauto].
Qed.

Lemma kept_catch {A} (m : M A) h :
  kept m -> (forall e, kept (h e)) -> kept (se_catch m h).
Proof.
  intros Hm Hh w w' r. unfold se_catch. destruct (m w) as [w1 [e|a]] eqn:E.
  - intros Hr. transitivity w1; [eapply Hm; eauto | eapply Hh; eauto].
  - intros [= <- _]. eapply Hm; eauto.
Qed.
Lemma kept_iter {A} (f : A -> M unit) l : (forall x, In x l -> kept (f x)) -> kept (se_iter f l).
Proof.
  induction l as [|x l IH]; intros Hf; simpl; [apply kept_ret|].
  apply kept_bind; [apply Hf; left; reflexivity|]. intros _. apply IH. intros y Hy. apply Hf. right. exact Hy.
Qed.
(** Binding on a computation whose results satisfy [Q], to a
    continuation kept from those results only. *)
Lemma kept_bind_post {A B} (Q : A -> Prop) (m : M A) (f : A -> M B) :
  kept m -> se_post Q m -> (forall a, Q a -> kept (f a)) -> kept (se_bind m f).
Proof.
  intros Hm HQ Hf w w' r. unfold se_bind. destruct (m w) as [w1 [e|a]] eqn:E.
  - intros [= <- _]. eapply Hm; eauto.
  - intros Hr. transitivity w1; [eapply Hm; eauto | eapply Hf; [eapply HQ; eauto|eauto]].
Qed.

End Kept.

(** The environment never changes and the clock is only read forward. *)
Definition env_mono (w w' : World) : Prop :=
  w_env w' = w_env w /\ (w_clock_reads w <= w_clock_reads w')%nat.

(** ... and besides, the datastore is untouched. *)
Definition db_frame (w w' : World) : Prop := env_mono w w' /\ w_db w' = w_db w.

#[export] Instance env_mono_preorder : PreOrder env_mono.
Proof.
  split; [intros w; split; [done|lia]|].
  intros w1 w2 w3 [E1 C1] [E2 C2]. split; [congruence|lia].
Qed.

#[export] Instance db_frame_preorder : PreOrder db_frame.
Proof.
  split; [intros w; split; [reflexivity|done]|].
  intros w1 w2 w3 [E1 D1] [E2 D2]. split; [by transitivity w2|congruence].
Qed.

Lemma db_frame_env w w' : db_frame w w' -> env_mono w w'.
Proof. by intros []. Qed.

Lemma kept_weaken (P Q : World -> World -> Prop) {A} (m : M A) :
  (forall w w', P w w' -> Q w w') -> kept P m -> kept Q m.
Proof. intros HPQ Hm w w' r E. eauto. Qed.

Lemma kept_call P `{!PreOrder P} c : (forall w, P w (bump c w)) -> kept P (call c).
Proof. intros H w w' r E. apply call_inv in E as ->. apply H. Qed.

Lemma env_mono_bump c w : env_mono w (bump c w).
Proof. split; simpl; [done|lia]. Qed.
Lemma db_frame_bump c w : db_frame w (bump c w).
Proof. split; [apply env_mono_bump|done]. Qed.

Lemma kept_env_now : kept env_mono now.
Proof. intros w w' r [= <- _]. split; simpl; [done|lia]. Qed.
Lemma kept_db_now : kept db_frame now.
Proof. intros w w' r [= <- _]. split; [split; simpl; [done|lia]|done]. Qed.

Lemma kept_env_modify_db f : kept env_mono (modify_db f).
Proof. intros w w' r [= <- _]. split; simpl; [done|lia]. Qed.

Lemma kept_env_try_write f : kept env_mono (try_write f).
Proof.
  intros w w' r. unfold try_write. destruct (env_fault _ _ _); intros [= <- _]; split; simpl; [done|lia|done|lia].
Qed.

Create HintDb kept discriminated.
#[export] Hint Resolve kept_ret kept_throw kept_env_now kept_db_now kept_env_modify_db
  kept_env_try_write env_mono_bump db_frame_bump db_frame_env : kept.
#[export] Hint Extern 1 (kept _ (call _)) => apply kept_call; [typeclasses eauto|] : kept.
#[export] Hint Extern 1 (PreOrder _) => typeclasses eauto : kept.

(** Decomposes a computation for [kept]. *)
Ltac keep :=
  repeat first
    [ solve [eauto with kept]
    | apply kept_bind; [typeclasses eauto| |intros]
    | apply kept_catch; [typeclasses eauto| |intros]
    | progress (case_match) ].


(** ** Rows after the updates *)

Lemma update_request_lookup id f d : db_requests (update_request id f d) !! id = f <$> db_requests d !! id.
Proof. apply lookup_alter_eq. Qed.

Lemma update_account_lookup id f d : db_accounts (update_account id f d) !! id = f <$> db_accounts d !! id.
Proof. apply lookup_alter_eq. Qed.

Create Rewrite HintDb db_rw.
#[export] Hint Rewrite update_request_lookup update_account_lookup : db_rw.

(** Rewrites the row lookups of a datastore built by the writes. *)
Ltac db_simpl :=
  cbn [db_accounts db_requests db_quotas db_sessions db_usage_logs update_request update_account
       db_set_accounts db_set_requests db_set_quotas db_set_sessions db_set_usage_logs];
  autorewrite with db_rw;
  rewrite ?lookup_alter_eq, <-?option_fmap_compose.

(** ** Runs in which some kinds of call never reject *)

(** No call of the kinds [cs] rejects, at any count. *)
Definition calls_ok (cs : list Call) (w : World) : Prop :=
  ∀ c n, c ∈ cs → env_fault (w_env w) c n = None.

Lemma calls_ok_no_fault cs w c : calls_ok cs w → c ∈ cs → no_fault w c.
Proof. intros H Hc. apply H, Hc. Qed.

Lemma calls_ok_env cs w w' : w_env w' = w_env w → calls_ok cs w → calls_ok cs w'.
Proof. intros E H c n Hc. rewrite E. by apply H. Qed.

Lemma calls_ok_mono cs w w' : env_mono w w' → calls_ok cs w → calls_ok cs w'.
Proof. intros [E _]. by apply calls_ok_env. Qed.

Lemma calls_ok_sub cs cs' w : cs' ⊆ cs → calls_ok cs w → calls_ok cs' w.
Proof. intros Hs H c n Hc. apply H. set_solver. Qed.

(** Rewrites the first bind of the goal with the specification [lem]
    of its operation, proving the [calls_ok] premise on the current
    world from one on a world with the same environment. *)
Ltac ok_step lem :=
  unfold se_bind at 1; rewrite lem; [cbv beta iota| ..];
  try (eapply calls_ok_env; [reflexivity|eassumption]); try assumption.

(** Discharges [no_fault] from a [calls_ok] hypothesis on a world with
    the same environment. *)
Ltac calls_ok_solve :=
  match goal with
  | H : calls_ok _ ?w |- no_fault _ ?c =>
      apply (calls_ok_no_fault _ _ c (calls_ok_env _ w _ eq_refl H)); set_solver
  end.

(** Proves [calls_ok] on a world built from one that has it. *)
Ltac ok_env :=
  match goal with
  | H : calls_ok ?cs ?w |- calls_ok ?cs ?w' =>
      apply (calls_ok_env cs w w'); [cbn; autorewrite with db_rw; reflexivity|exact H]
  end.

(** Rewrites the first bind of the goal with the run lemma [lem] of its
    action, proving the lemma's [calls_ok] premise. *)
Ltac run_step lem :=
  unfold se_bind at 1; rewrite lem; [cbv beta iota| ..]; try ok_env.

Lemma call_ok_cs cs c w : calls_ok cs w → c ∈ cs → call c w = (bump c w, inr tt).
Proof. intros H Hc. apply call_ok. by apply (calls_ok_no_fault cs). Qed.

Lemma try_write_ok cs f w :
  calls_ok cs w → CDbWrite ∈ cs → try_write f w = (set_db (f (w_db w)) (bump CDbWrite w), inr tt).
Proof. intros H Hc. unfold try_write. by rewrite (H _ _ Hc). Qed.

(** [Date.now()] read forward never goes back. *)
Definition clock_monotone (e : Env) : Prop := ∀ i j, (i <= j)%nat → (env_clock e i <= env_clock e j)%Z.

Lemma world_start_quiet_calls cs clock unique shot d :
  calls_ok cs (world_start {| env_fault := λ _ _, None; env_clock := clock;
                              env_session_unique := unique; env_screenshot_on_error := shot |} d).
Proof. intros c n _. reflexivity. Qed.

(** ** Round trip of a session and the cost of a usage row *)

Local Open Scope Z_scope.

Lemma sessions_of_snoc a rows r :
  bs_account_id r = a → sessions_of a rows = [] → sessions_of a (rows ++ [r]) = [r].
Proof. intros Hr Hn. unfold sessions_of in *. rewrite filter_app, Hn, filter_cons, decide_True by done. done. Qed.

(** C22: What [saveSession] stores for an account without a session row,
    [loadSession] reads back: the same cookies, storage and expiry, with
    the instant of the save as [updated_at]. *)
Theorem session_roundtrip cs a ck ls exp w :
  calls_ok cs w → CSaveSession ∈ cs → CLoadSession ∈ cs →
  sessions_of a (db_sessions (w_db w)) = [] →
  let r := {| bs_account_id := a; bs_cookies := ck; bs_local_storage := ls; bs_expires_at := exp;
              bs_updated_at := env_clock (w_env w) (w_clock_reads w) |} in
  ∃ w', saveSession a ck ls exp w = (w', inr tt) ∧ loadSession a w' = (bump CLoadSession w', inr (Some r)).
Proof.
  intros Hok Hs Hl Hn r. unfold saveSession.
  rewrite (se_bind_inr now _ w (tick w) _ eq_refl).
  rewrite (se_bind_inr _ _ _ _ _ (call_ok_cs cs _ (tick w) (calls_ok_env _ w _ eq_refl Hok) Hs)).
  cbn [w_db w_env tick bump]. rewrite Hn, andb_false_r.
  eexists. split; [reflexivity|].
  match goal with |- loadSession a ?w1 = _ =>
    assert (H1 : calls_ok cs w1) by (eapply calls_ok_env; [reflexivity|exact Hok]) end.
  unfold loadSession. rewrite (se_bind_inr _ _ _ _ _ (call_ok_cs cs _ _ H1 Hl)).
  cbn [w_db set_db bump db_set_sessions db_sessions]. by rewrite sessions_of_snoc.
Qed.

Definition ex_cookie : Cookie :=
  {| ck_name := "sid"; ck_value := "v"; ck_domain := "chatgpt.com"; ck_path := "/"; ck_expires := 0 |}.

Lemma session_roundtrip_witness :
  let w := world_start (env_quiet (λ _, 42)) db_empty in
  calls_ok [CSaveSession; CLoadSession] w ∧ sessions_of "A" (db_sessions (w_db w)) = [] ∧
  ∃ w', saveSession "A" [ex_cookie] ∅ 1000 w = (w', inr tt) ∧
    loadSession "A" w' = (bump CLoadSession w',
      inr (Some {| bs_account_id := "A"; bs_cookies := [ex_cookie]; bs_local_storage := ∅;
                   bs_expires_at := 1000; bs_updated_at := 42 |})).
Proof.
  assert (Hok : calls_ok [CSaveSession; CLoadSession] (world_start (env_quiet (λ _, 42)) db_empty)) by done.
  split_and!; [exact Hok|done|].
  exact (session_roundtrip _ "A" [ex_cookie] ∅ 1000 _ Hok ltac:(by left) ltac:(by right; left) eq_refl).
Defined.

(** The rates of [calculateCost], provider by provider. *)
Lemma rate_table tokens :
  calculateCost "chatgpt" tokens = Some (150 * tokens) ∧ calculateCost "claude" tokens = Some (300 * tokens) ∧
  calculateCost "gemini" tokens = Some 0 ∧ calculateCost "deepseek" tokens = Some (27 * tokens).
Proof. unfold calculateCost. split_and!; cbn; f_equal; lia. Qed.

Lemma rate_other q :
  q ∉ ["chatgpt"; "claude"; "gemini"; "deepseek"] → rate q = if bool_decide (q ∈ object_prototype_members) then None else Some 0.
Proof.
  intros Hq. unfold rate.
  destruct (String.eqb_spec q "chatgpt") as [->|_]; [set_solver|].
  destruct (String.eqb_spec q "claude") as [->|_]; [set_solver|].
  destruct (String.eqb_spec q "gemini") as [->|_]; [set_solver|].
  destruct (String.eqb_spec q "deepseek") as [->|_]; [set_solver|done].
Qed.

(** C23: [logUsage] on both branches: when the insert resolves it
    appends exactly the row of its arguments, with the cost of
    [calculateCost], and changes nothing else; when it rejects it throws
    its message and appends nothing.  The cost is 150, 300, 0 and 27
    units of 1e-8 USD a token for ChatGPT, Claude, Gemini and DeepSeek,
    0 for any other provider name, and [NaN] (stored as [null]) for a
    name [rates] inherits from [Object.prototype]. *)
Theorem logUsage_spec cs a p rid tokens lat st m w :
  (calls_ok cs w → CLogUsage ∈ cs →
     logUsage a p rid tokens lat st m w =
       (set_db (db_set_usage_logs (db_usage_logs (w_db w) ++
          [{| ul_account_id := a; ul_provider := p; ul_request_id := rid; ul_tokens_used := tokens;
              ul_estimated_cost := calculateCost p tokens; ul_latency_ms := lat; ul_status := st;
              ul_error_message := m |}]) (w_db w)) (bump CLogUsage w), inr tt)) ∧
  (∀ msg, env_fault (w_env w) CLogUsage (w_calls w CLogUsage) = Some msg →
     logUsage a p rid tokens lat st m w = (bump CLogUsage w, inl msg)) ∧
  (calculateCost "chatgpt" tokens = Some (150 * tokens) ∧ calculateCost "claude" tokens = Some (300 * tokens) ∧
   calculateCost "gemini" tokens = Some 0 ∧ calculateCost "deepseek" tokens = Some (27 * tokens)) ∧
  (p ∉ ["chatgpt"; "claude"; "gemini"; "deepseek"] → p ∉ object_prototype_members → calculateCost p tokens = Some 0) ∧
  (p ∈ object_prototype_members → calculateCost p tokens = None).
Proof.
  split; [|split; [|split; [apply rate_table|split]]].
  - intros Hok Hc. unfold logUsage. by rewrite (se_bind_inr _ _ _ _ _ (call_ok_cs cs _ w Hok Hc)).
  - intros msg Hf. unfold logUsage, se_bind at 1, call. by rewrite Hf.
  - intros Hp Hm. unfold calculateCost. rewrite rate_other by done. by rewrite bool_decide_eq_false_2.
  - intros Hm. unfold calculateCost. rewrite rate_other; [by rewrite bool_decide_eq_true_2|].
    unfold object_prototype_members in Hm. set_solver.
Qed.

(** A Claude job of 1000 tokens costs 300000 units (3e-3 USD), and a
    provider named [constructor] gets a [null] cost. *)
Lemma logUsage_spec_witness :
  let w := world_start (env_quiet (λ _, 0)) db_empty in
  calls_ok [CLogUsage] w ∧
  db_usage_logs (w_db (fst (logUsage "A" "claude" None 1000 5 success None w))) =
    [{| ul_account_id := "A"; ul_provider := "claude"; ul_request_id := None; ul_tokens_used := 1000;
        ul_estimated_cost := Some 300000; ul_latency_ms := 5; ul_status := success; ul_error_message := None |}] ∧
  calculateCost "constructor" 1000 = None.
Proof.
  assert (Hok : calls_ok [CLogUsage] (world_start (env_quiet (λ _, 0)) db_empty)) by done.
  destruct (logUsage_spec [CLogUsage] "A" "constructor" None 1000 5 success None
              (world_start (env_quiet (λ _, 0)) db_empty)) as (_ & _ & _ & _ & Hc).
  destruct (logUsage_spec [CLogUsage] "A" "claude" None 1000 5 success None
              (world_start (env_quiet (λ _, 0)) db_empty)) as (Hs & _ & [_ [Hcl _]] & _).
  split_and!; [exact Hok| |apply Hc; by left].
  rewrite (Hs Hok ltac:(by left)), Hcl. reflexivity.
Defined.
