(* ===== verification/Browser.v ===== *)
(** * Browser: the context pool of [src/browser-worker/src/browser.ts]

    The pool is a heap of context objects addressed by handle plus the
    map [contextPool] from account id to handle, so that the context a
    job holds and the one the pool holds are visibly the same object.
    The operations are [getBrowserContext] (with the session restore),
    [saveBrowserSession], [takeScreenshot], [closeContext] and
    [closeAllContexts], in the monad [M] of [Model].  The section
    [Invariant] states the one-live-context-per-account invariant and
    proves that every operation keeps it; [Interleaving] models the
    awaits of concurrent acquisitions as a step relation. *)

From stdpp Require Import pretty.
From S2P Require Import Prelude Model.

Local Open Scope orch_scope.

(** ** Cookie jar *)

(** A cookie is identified by its name, domain and path; setting one
    replaces any cookie with the same key. *)
Definition cookie_key (c : Cookie) : string * string * string :=
  (ck_name c, ck_domain c, ck_path c).

Definition add_cookie (jar : list Cookie) (c : Cookie) : list Cookie :=
  filter (fun x => cookie_key x ≠ cookie_key c) jar ++ [c].

(** [context.addCookies(cookies)] *)
Definition addCookies (jar cookies : list Cookie) : list Cookie :=
  fold_left add_cookie cookies jar.

Definition jar_wf (jar : list Cookie) : Prop := NoDup (map cookie_key jar).

(** ** Context objects *)

Definition ctx_with_cookies (cs : list Cookie) (c : Context) : Context :=
  {| ctx_account := ctx_account c; ctx_cookies := cs; ctx_storage := ctx_storage c;
     ctx_init_scripts := ctx_init_scripts c; ctx_pages := ctx_pages c; ctx_open := ctx_open c |}.

Definition ctx_with_storage (st : gmap string string) (c : Context) : Context :=
  {| ctx_account := ctx_account c; ctx_cookies := ctx_cookies c; ctx_storage := st;
     ctx_init_scripts := ctx_init_scripts c; ctx_pages := ctx_pages c; ctx_open := ctx_open c |}.

(** [page.addInitScript(ls => Object.assign(window.localStorage, ls), ls)] *)
Definition ctx_add_script (ls : gmap string string) (c : Context) : Context :=
  {| ctx_account := ctx_account c; ctx_cookies := ctx_cookies c; ctx_storage := ctx_storage c;
     ctx_init_scripts := ctx_init_scripts c ++ [ls]; ctx_pages := ctx_pages c;
     ctx_open := ctx_open c |}.

Definition ctx_add_page (c : Context) : Context :=
  {| ctx_account := ctx_account c; ctx_cookies := ctx_cookies c; ctx_storage := ctx_storage c;
     ctx_init_scripts := ctx_init_scripts c; ctx_pages := S (ctx_pages c);
     ctx_open := ctx_open c |}.

Definition ctx_closed (c : Context) : Context :=
  {| ctx_account := ctx_account c; ctx_cookies := ctx_cookies c; ctx_storage := ctx_storage c;
     ctx_init_scripts := ctx_init_scripts c; ctx_pages := ctx_pages c; ctx_open := false |}.

(** A navigation runs the init scripts in order: [Object.assign] makes
    the keys of the snapshot win over the stored ones. *)
Definition run_init_scripts (c : Context) : Context :=
  ctx_with_storage (fold_left (fun st ls => ls ∪ st) (ctx_init_scripts c) (ctx_storage c)) c.

(** ** Pool state *)

Definition alter_ctx (h : nat) (f : Context -> Context) (b : BState) : BState :=
  {| b_ctxs := alter f h (b_ctxs b); b_pool := b_pool b; b_next := b_next b; b_disk := b_disk b |}.

Definition set_pool (p : gmap string nat) (b : BState) : BState :=
  {| b_ctxs := b_ctxs b; b_pool := p; b_next := b_next b; b_disk := b_disk b |}.

Definition br_update (f : BState -> BState) : M unit := se_modify (fun w => set_br (f (w_br w)) w).
Definition br_read {A} (f : BState -> A) : M A := fun w => (w, inr (f (w_br w))).

Definition ctx_of (h : nat) (b : BState) : option Context := b_ctxs b !! h.
Definition pages_of (h : nat) (b : BState) : nat := default 0 (ctx_pages <$> ctx_of h b).
Definition cookies_of (h : nat) (b : BState) : list Cookie := default [] (ctx_cookies <$> ctx_of h b).
Definition storage_of (h : nat) (b : BState) : gmap string string :=
  default ∅ (ctx_storage <$> ctx_of h b).

(** [chromium.launchPersistentContext(userDataDir, ..)]: a new open
    context on the account's profile, with the profile's cookies and
    storage and one page. *)
Definition fresh_context (accountId : string) (b : BState) : Context :=
  let '(cs, st) := default ([], ∅) (b_disk b !! accountId) in
  {| ctx_account := accountId; ctx_cookies := cs; ctx_storage := st;
     ctx_init_scripts := []; ctx_pages := 1; ctx_open := true |}.

Definition alloc_context (accountId : string) (b : BState) : BState :=
  {| b_ctxs := <[b_next b := fresh_context accountId b]> (b_ctxs b); b_pool := b_pool b;
     b_next := S (b_next b); b_disk := b_disk b |}.

Definition launchPersistentContext (accountId : string) : M nat :=
  call CLaunch ;;!
  (fun w => (set_br (alloc_context accountId (w_br w)) w, inr (b_next (w_br w)))).

(** The restore block inside [try]: cookies, the page
    ([context.pages()[0] || await context.newPage()]), the init script. *)
Definition restoreSession (h : nat) (s : BrowserSession) : M unit :=
  call CAddCookies ;;!
  br_update (alter_ctx h (fun c => ctx_with_cookies (addCookies (ctx_cookies c) (bs_cookies s)) c)) ;;!
  let! pages := br_read (pages_of h) in
  (if decide (pages = 0) then call CNewPage ;;! br_update (alter_ctx h ctx_add_page)
   else se_ret tt) ;;!
  call CAddInitScript ;;!
  br_update (alter_ctx h (ctx_add_script (bs_local_storage s))).

(** [new Date(session.expires_at) > new Date()] *)
Definition session_valid (s : BrowserSession) (t : Z) : bool := bool_decide (t < bs_expires_at s)%Z.

(** [if (session && new Date(session.expires_at) > new Date()) { try .. catch .. }] *)
Definition restore_if_valid (h : nat) (session : option BrowserSession) : M unit :=
  match session with
  | Some s =>
      let! t := now in
      if session_valid s t then se_catch (restoreSession h s) (fun _ => se_ret tt)
      else se_ret tt
  | None => se_ret tt
  end.

(** [getBrowserContext] *)
Definition getBrowserContext (accountId : string) : M nat := fun w =>
  match b_pool (w_br w) !! accountId with
  | Some h => (w, inr h)
  | None =>
      (let! session := loadSession accountId in
       let! h := launchPersistentContext accountId in
       restore_if_valid h session ;;!
       br_update (fun b => set_pool (<[accountId := h]> (b_pool b)) b) ;;!
       se_ret h) w
  end.

(** [page.goto(..)]: the navigation runs the page's init scripts. *)
Definition navigate (h : nat) : M unit := br_update (alter_ctx h run_init_scripts).

(** [28 * 24 * 60 * 60 * 1000] *)
Definition session_ttl_ms : Z := 28 * 24 * 60 * 60 * 1000.

(** [saveBrowserSession]; its [catch] logs and rethrows, which leaves
    the outcome unchanged. *)
Definition saveBrowserSession (accountId : string) (h : nat) : M unit :=
  call CCookies ;;!
  let! cookies := br_read (cookies_of h) in
  let! pages := br_read (pages_of h) in
  if decide (pages = 0) then se_ret tt
  else
    call CEvaluate ;;!
    let! localStorage := br_read (storage_of h) in
    let! t := now in
    saveSession accountId cookies localStorage (t + session_ttl_ms).

Definition screenshots_dir : string := "/app/screenshots".

Definition add_upload (key : string) (w : World) : World :=
  set_ext {| x_uploads := x_uploads (w_ext w) ++ [key]; x_redis := x_redis (w_ext w);
             x_queue := x_queue (w_ext w); x_published := x_published (w_ext w) |} w.

(** [supabase.storage.from('screenshots').upload(key, ..)]: the client
    resolves with [{ error }] on a failed upload instead of rejecting, and
    the caller does not look at it; the object is stored only when the
    upload succeeds. *)
Definition upload (key : string) : M unit := fun w =>
  match env_fault (w_env w) CUpload (w_calls w CUpload) with
  | Some _ => (bump CUpload w, inr tt)
  | None => (add_upload key (bump CUpload w), inr tt)
  end.

(** [takeScreenshot]: every failure of the screenshot or the file read is
    caught and gives [null]; a failed upload still returns the path. *)
Definition takeScreenshot (accountId name : string) : M (option string) := fun w =>
  if env_screenshot_on_error (w_env w) then
    se_catch
      (let! t := now in
       let path := (screenshots_dir +:+ "/" +:+ accountId +:+ "-" +:+ name +:+ "-" +:+
                    pretty t +:+ ".png")%string in
       call CScreenshot ;;! call CReadFile ;;!
       upload (accountId +:+ "/" +:+ name +:+ ".png")%string ;;!
       se_ret (Some path))
      (fun _ => se_ret None) w
  else (w, inr None).

(** Closing a context writes its cookies and storage back to the profile. *)
Definition close_ctx (h : nat) (b : BState) : BState :=
  match ctx_of h b with
  | Some c =>
      {| b_ctxs := <[h := ctx_closed c]> (b_ctxs b); b_pool := b_pool b; b_next := b_next b;
         b_disk := <[ctx_account c := (ctx_cookies c, ctx_storage c)]> (b_disk b) |}
  | None => b
  end.

(** [closeContext]: a rejected [close()] propagates and leaves the entry. *)
Definition closeContext (accountId : string) : M unit := fun w =>
  match b_pool (w_br w) !! accountId with
  | Some h =>
      (call CClose ;;! br_update (close_ctx h) ;;!
       br_update (fun b => set_pool (delete accountId (b_pool b)) b)) w
  | None => (w, inr tt)
  end.

Fixpoint close_each (entries : list (string * nat)) : M unit :=
  match entries with
  | [] => se_ret tt
  | (_, h) :: rest =>
      se_catch (call CClose ;;! br_update (close_ctx h)) (fun _ => se_ret tt) ;;!
      close_each rest
  end.

(** [closeAllContexts]: every error is swallowed, then [contextPool.clear()]. *)
Definition closeAllContexts : M unit := fun w =>
  (close_each (map_to_list (b_pool (w_br w))) ;;! br_update (set_pool ∅)) w.

(** ** The one-live-context-per-account invariant *)

Section Invariant.

(** Every pooled handle names an open context of its account; every
  open context is the one the pool holds for its account; handles
  from [b_next] on are unused.  The first two give at most one open
  context per account ([wf_unique]). *)
Record pool_wf (b : BState) : Prop := {
wf_pool_live : ∀ a h, b_pool b !! a = Some h →
  ∃ c, b_ctxs b !! h = Some c ∧ ctx_open c = true ∧ ctx_account c = a;
wf_live_pooled : ∀ h c, b_ctxs b !! h = Some c → ctx_open c = true →
  b_pool b !! ctx_account c = Some h;
wf_fresh : ∀ h, b_next b ≤ h → b_ctxs b !! h = None
}.

(** Two states with the same pool whose contexts differ only in their
  cookies, storage, scripts and pages. *)
Definition same_identity (c c' : Context) : Prop :=
ctx_account c' = ctx_account c ∧ ctx_open c' = ctx_open c.

Definition ctx_evolves (b b' : BState) : Prop :=
b_pool b' = b_pool b ∧ b_next b' = b_next b ∧ b_disk b' = b_disk b ∧
∀ h, option_Forall2 same_identity (b_ctxs b !! h) (b_ctxs b' !! h).

Lemma ctx_evolves_refl b : ctx_evolves b b.
Proof.
repeat split. intros h. destruct (b_ctxs b !! h); constructor; done.
Qed.

Lemma ctx_evolves_trans b1 b2 b3 :
ctx_evolves b1 b2 → ctx_evolves b2 b3 → ctx_evolves b1 b3.
Proof.
intros (P1 & N1 & D1 & H1) (P2 & N2 & D2 & H2).
split; [congruence|]. split; [congruence|]. split; [congruence|].
intros h. specialize (H1 h). specialize (H2 h).
destruct H1 as [c1 c2 [A1 O1]|]; inversion H2 as [? c3 [A2 O2]|]; subst; constructor.
split; congruence.
Qed.

Definition br_rel (w w' : World) : Prop := ctx_evolves (w_br w) (w_br w').

#[export] Instance br_rel_preorder : PreOrder br_rel.
Proof. split; [intros w; apply ctx_evolves_refl|intros ???; apply ctx_evolves_trans]. Qed.

Definition br_evolves {A} (m : M A) : Prop := kept br_rel m.

Lemma ctx_evolves_alter b h f :
(∀ c, same_identity c (f c)) → ctx_evolves b (alter_ctx h f b).
Proof.
intros Hf. repeat split. intros h'. simpl.
destruct (decide (h = h')) as [->|Hne].
- rewrite lookup_alter_eq. destruct (b_ctxs b !! h'); constructor. apply Hf.
- rewrite lookup_alter_ne by done. destruct (b_ctxs b !! h'); constructor. done.
Qed.

Lemma evolves_some b b' h c :
ctx_evolves b b' → b_ctxs b !! h = Some c →
∃ c', b_ctxs b' !! h = Some c' ∧ same_identity c c'.
Proof.
intros (_ & _ & _ & Hc) Hh. specialize (Hc h). rewrite Hh in Hc.
inversion Hc as [x y Hxy Ex Ey|]. eauto.
Qed.

Lemma evolves_some_rev b b' h c' :
ctx_evolves b b' → b_ctxs b' !! h = Some c' →
∃ c, b_ctxs b !! h = Some c ∧ same_identity c c'.
Proof.
intros (_ & _ & _ & Hc) Hh. specialize (Hc h). rewrite Hh in Hc.
inversion Hc as [x y Hxy Ex Ey|]. eauto.
Qed.

Lemma evolves_none b b' h :
ctx_evolves b b' → b_ctxs b !! h = None → b_ctxs b' !! h = None.
Proof.
intros (_ & _ & _ & Hc) Hh. specialize (Hc h). rewrite Hh in Hc. by inversion Hc.
Qed.

Lemma pool_wf_evolves b b' : pool_wf b → ctx_evolves b b' → pool_wf b'.
Proof.
intros [Hl Hp Hf] Hev. pose proof Hev as (P & N & D & _). split.
- intros a h Ha. rewrite P in Ha. destruct (Hl a h Ha) as (c & Hc1 & Ho & Hacc).
  destruct (evolves_some _ _ _ _ Hev Hc1) as (c' & Hc' & A & O).
  exists c'. split; [done|]. split; congruence.
- intros h c' Hc' Ho. destruct (evolves_some_rev _ _ _ _ Hev Hc') as (c & Hc & A & O).
  rewrite P, A. apply (Hp h c); congruence.
- intros h Hh. rewrite N in Hh. apply (evolves_none b); auto.
Qed.

Lemma wf_unique b h1 h2 c1 c2 :
pool_wf b → b_ctxs b !! h1 = Some c1 → b_ctxs b !! h2 = Some c2 →
ctx_open c1 = true → ctx_open c2 = true → ctx_account c1 = ctx_account c2 → h1 = h2.
Proof.
intros [_ Hp _] H1 H2 O1 O2 A.
pose proof (Hp _ _ H1 O1) as P1. pose proof (Hp _ _ H2 O2) as P2. congruence.
Qed.

Lemma br_evolves_ret {A} (a : A) : br_evolves (se_ret a).
Proof. apply kept_ret, _. Qed.

Lemma br_evolves_throw {A} msg : br_evolves (se_throw (A:=A) msg).
Proof. apply kept_throw, _. Qed.

Lemma br_evolves_call c : br_evolves (call c).
Proof. apply kept_call; [apply _|]. intros w. apply ctx_evolves_refl. Qed.

Lemma br_evolves_now : br_evolves now.
Proof. intros w w' r [= <- _]. apply ctx_evolves_refl. Qed.

Lemma br_evolves_read {A} (f : BState → A) : br_evolves (br_read f).
Proof. intros w w' r [= <- _]. apply ctx_evolves_refl. Qed.

Lemma br_evolves_modify_db f : br_evolves (modify_db f).
Proof. intros w w' r [= <- _]. apply ctx_evolves_refl. Qed.

Lemma br_evolves_alter h f :
  (∀ c, same_identity c (f c)) → br_evolves (br_update (alter_ctx h f)).
Proof. intros Hf w w' r [= <- _]. by apply ctx_evolves_alter. Qed.

Lemma br_evolves_bind {A B} (m : M A) (f : A → M B) :
  br_evolves m → (∀ a, br_evolves (f a)) → br_evolves (se_bind m f).
Proof. apply kept_bind, _. Qed.

Lemma br_evolves_catch {A} (m : M A) h :
  br_evolves m → (∀ e, br_evolves (h e)) → br_evolves (se_catch m h).
Proof. apply kept_catch, _. Qed.

Lemma same_identity_cookies cs c : same_identity c (ctx_with_cookies cs c).
Proof. done. Qed.
Lemma same_identity_storage st c : same_identity c (ctx_with_storage st c).
Proof. done. Qed.
Lemma same_identity_script ls c : same_identity c (ctx_add_script ls c).
Proof. done. Qed.
Lemma same_identity_page c : same_identity c (ctx_add_page c).
Proof. done. Qed.
Lemma same_identity_init c : same_identity c (run_init_scripts c).
Proof. done. Qed.

End Invariant.

Create HintDb evolve discriminated.
#[export] Hint Resolve br_evolves_ret br_evolves_throw br_evolves_call br_evolves_now
  br_evolves_read br_evolves_modify_db br_evolves_alter : evolve.
#[export] Hint Resolve same_identity_cookies same_identity_storage same_identity_script
  same_identity_page same_identity_init : evolve.

(** Decomposes a computation into the steps of [evolve]. *)
Ltac evolve :=
  repeat first
    [ solve [eauto with evolve]
    | apply br_evolves_bind; intros
    | apply br_evolves_catch; intros
    | progress (case_match) ].

(** ** The operations keep the invariant *)

Lemma loadSession_evolves a : br_evolves (loadSession a).
Proof. unfold loadSession. evolve. intros w w' r [= <- _]. apply ctx_evolves_refl. Qed.
#[export] Hint Resolve loadSession_evolves : evolve.

Lemma saveSession_evolves a cs ls t : br_evolves (saveSession a cs ls t).
Proof.
  unfold saveSession. evolve. intros w w' r. case_match; intros [= <- _]; apply ctx_evolves_refl.
Qed.
#[export] Hint Resolve saveSession_evolves : evolve.

Lemma restoreSession_evolves h s : br_evolves (restoreSession h s).
Proof. unfold restoreSession. evolve. Qed.
#[export] Hint Resolve restoreSession_evolves : evolve.

Lemma restore_if_valid_evolves h s : br_evolves (restore_if_valid h s).
Proof. unfold restore_if_valid. evolve. Qed.

Lemma saveBrowserSession_evolves a h : br_evolves (saveBrowserSession a h).
Proof. unfold saveBrowserSession. evolve. Qed.

Lemma navigate_evolves h : br_evolves (navigate h).
Proof. unfold navigate. evolve. Qed.

Lemma upload_evolves key : br_evolves (upload key).
Proof. intros w w' r. unfold upload. case_match; intros [= <- _]; apply ctx_evolves_refl. Qed.
#[export] Hint Resolve upload_evolves : evolve.

Lemma takeScreenshot_evolves a n : br_evolves (takeScreenshot a n).
Proof.
  intros w w' r. unfold takeScreenshot.
  destruct (env_screenshot_on_error (w_env w)); [|intros [= <- _]; apply ctx_evolves_refl].
  revert w w' r. apply br_evolves_catch; [|eauto with evolve].
  evolve.
Qed.

Lemma fresh_context_identity a b :
  ctx_account (fresh_context a b) = a ∧ ctx_open (fresh_context a b) = true.
Proof. unfold fresh_context. by destruct (default _ _). Qed.

Lemma launch_spec a w w' r :
  launchPersistentContext a w = (w', r) →
  (r = inr (b_next (w_br w)) ∧ w_br w' = alloc_context a (w_br w)) ∨
  (∃ e, r = inl e ∧ w_br w' = w_br w).
Proof.
  unfold launchPersistentContext, se_bind, call.
  destruct (env_fault _ _ _); intros [= <- <-]; [right; eauto | left; done].
Qed.

(** The restore block never throws: its failures are caught. *)
Lemma restore_if_valid_total h s w w' e : restore_if_valid h s w ≠ (w', inl e).
Proof.
  unfold restore_if_valid. destruct s as [s|]; [|discriminate].
  cbn. destruct (session_valid s _); [|discriminate].
  unfold se_catch. destruct (restoreSession h s _) as [? [?|?]]; discriminate.
Qed.

(** Registering the freshly launched context restores the invariant. *)
Lemma wf_register a b0 b1 :
  pool_wf b0 → b_pool b0 !! a = None → ctx_evolves (alloc_context a b0) b1 →
  pool_wf (set_pool (<[a := b_next b0]> (b_pool b1)) b1).
Proof.
  intros [Hl Hp Hf] Ha Hev. pose proof Hev as (P & N & _ & _). simpl in P, N.
  assert (Hold : ∀ h, h ≠ b_next b0 → b_ctxs (alloc_context a b0) !! h = b_ctxs b0 !! h).
  { intros h Hh. simpl. by rewrite lookup_insert_ne. }
  assert (Hnew : b_ctxs (alloc_context a b0) !! b_next b0 = Some (fresh_context a b0)).
  { simpl. by rewrite lookup_insert_eq. }
  destruct (fresh_context_identity a b0) as [Fa Fo].
  split; simpl.
  - intros a' h Ha'. destruct (decide (a = a')) as [<-|Hne].
    + rewrite lookup_insert_eq in Ha'. injection Ha' as <-.
      destruct (evolves_some _ _ _ _ Hev Hnew) as (c' & Hc' & A & O).
      exists c'. split; [done|]. split; congruence.
    + rewrite lookup_insert_ne, P in Ha' by done.
      destruct (Hl a' h Ha') as (c & Hc & Ho & Hacc).
      assert (h ≠ b_next b0) as Hh.
      { intros ->. rewrite Hf in Hc; [discriminate|lia]. }
      rewrite <- Hold in Hc by done.
      destruct (evolves_some _ _ _ _ Hev Hc) as (c' & Hc' & A & O).
      exists c'. split; [done|]. split; congruence.
  - intros h c' Hc' Ho. destruct (evolves_some_rev _ _ _ _ Hev Hc') as (c & Hc & A & O).
    destruct (decide (h = b_next b0)) as [->|Hh].
    + rewrite Hnew in Hc. injection Hc as <-. rewrite A, Fa. apply lookup_insert_eq.
    + rewrite Hold in Hc by done. rewrite A.
      assert (ctx_account c ≠ a) as Hne.
      { intros E. rewrite <- E, (Hp h c Hc ltac:(congruence)) in Ha. discriminate. }
      rewrite lookup_insert_ne by congruence. rewrite P. apply (Hp h c Hc). congruence.
  - intros h Hh. apply (evolves_none _ _ _ Hev). rewrite N in Hh.
    rewrite Hold by lia. apply Hf. lia.
Qed.

(** [getBrowserContext] ends with the account registered to the handle
    it returns. *)
Lemma getBrowserContext_registered a w w' h :
  getBrowserContext a w = (w', inr h) → b_pool (w_br w') !! a = Some h.
Proof.
  unfold getBrowserContext. destruct (b_pool (w_br w) !! a) eqn:Hp.
  { by intros [= <- <-]. }
  se_step E1; [discriminate|]. se_step E2; [discriminate|].
  se_step E3; [by apply restore_if_valid_total in E3|].
  intros [= <- <-]. simpl. apply lookup_insert_eq.
Qed.

#[export] Hint Resolve restore_if_valid_evolves saveBrowserSession_evolves navigate_evolves
  takeScreenshot_evolves : evolve.

(** ** Inversion lemmas for the steps of an acquisition *)

Lemma session_valid_true s t : (t < bs_expires_at s)%Z → session_valid s t = true.
Proof. intros. by apply bool_decide_true. Qed.

Lemma session_valid_false s t : (bs_expires_at s <= t)%Z → session_valid s t = false.
Proof. intros. apply bool_decide_false. lia. Qed.

Definition single_session (accountId : string) (d : Db) : option BrowserSession :=
  match sessions_of accountId (db_sessions d) with [r] => Some r | _ => None end.

Lemma loadSession_inv a w w' r :
  loadSession a w = (w', inr r) → w' = bump CLoadSession w ∧ r = single_session a (w_db w).
Proof.
  unfold loadSession, se_bind, call. destruct (env_fault _ _ _); [discriminate|].
  by intros [= <- <-].
Qed.

Lemma launch_inv a w w' h :
  launchPersistentContext a w = (w', inr h) →
  w' = set_br (alloc_context a (w_br w)) (bump CLaunch w) ∧ h = b_next (w_br w).
Proof.
  unfold launchPersistentContext, se_bind, call. destruct (env_fault _ _ _); [discriminate|].
  by intros [= <- <-].
Qed.

Lemma restoreSession_ok h s w c :
  b_ctxs (w_br w) !! h = Some c → ctx_pages c ≠ 0 →
  no_fault w CAddCookies → no_fault w CAddInitScript →
  ∃ w', restoreSession h s w = (w', inr tt) ∧
    b_ctxs (w_br w') !! h = Some (ctx_add_script (bs_local_storage s)
                               (ctx_with_cookies (addCookies (ctx_cookies c) (bs_cookies s)) c)).
Proof.
  intros Hc Hpg F1 F2. unfold restoreSession. call_step.
  unfold pages_of, ctx_of. cbn. rewrite lookup_alter_eq, Hc. cbn.
  rewrite decide_False by done. cbn. call_step.
  eexists. split; [done|]. cbn. by rewrite !lookup_alter_eq, Hc.
Qed.

(** ** Acquisition *)

Section Acquire.
Variable accountId : string.

(** The pool invariant survives [getBrowserContext] on every path:
    reuse, a rejected session load, a rejected launch, a rejected
    restore, and success. *)
Lemma getBrowserContext_preserves_wf w w' r :
  pool_wf (w_br w) → getBrowserContext accountId w = (w', r) → pool_wf (w_br w').
Proof.
  intros Hwf. unfold getBrowserContext. destruct (b_pool (w_br w) !! accountId) eqn:Hp.
  { by intros [= <- _]. }
  pose proof (loadSession_evolves accountId) as Hl.
  se_step E1; [intros [= <- _]; exact (pool_wf_evolves _ _ Hwf (Hl _ _ _ E1))|].
  pose proof (Hl _ _ _ E1) as Hev1. pose proof (pool_wf_evolves _ _ Hwf Hev1) as Hwf1.
  se_step E2; destruct (launch_spec _ _ _ _ E2) as [[Hr Hb]|(e' & Hr & Hb)]; try discriminate.
  { intros [= <- _]. by rewrite Hb. }
  injection Hr as ->.
  se_step E3; [by apply restore_if_valid_total in E3|]. intros [= <- _]. simpl.
  pose proof (restore_if_valid_evolves _ _ _ _ _ E3) as Hev3. unfold br_rel in Hev3.
  rewrite Hb in Hev3.
  apply wf_register; [done| |done].
  destruct Hev1 as (P & _). by rewrite P.
Qed.

(** C30: [getBrowserContext] keeps the pool invariant on every path
    (reuse, a rejected session load, a rejected launch, a rejected
    restore, success), and when it returns a handle, the pool maps the
    account to it and it is an open context of that account. *)
Lemma getBrowserContext_wf w w' r :
  pool_wf (w_br w) → getBrowserContext accountId w = (w', r) →
  pool_wf (w_br w') ∧
  (∀ h, r = inr h → ∃ c, b_pool (w_br w') !! accountId = Some h ∧ b_ctxs (w_br w') !! h = Some c ∧
                          ctx_open c = true ∧ ctx_account c = accountId).
Proof.
  intros Hwf E. pose proof (getBrowserContext_preserves_wf _ _ _ Hwf E) as Hwf'.
  split; [done|]. intros h ->. pose proof (getBrowserContext_registered _ _ _ _ E) as Hp.
  destruct (wf_pool_live _ Hwf' _ _ Hp) as (c & ? & ? & ?). by exists c.
Qed.

(** A second [getBrowserContext] for the same account returns the
    same handle and leaves the world untouched: no second launch. *)
Lemma getBrowserContext_reuse w w' h :
  getBrowserContext accountId w = (w', inr h) → getBrowserContext accountId w' = (w', inr h).
Proof.
  intros E. unfold getBrowserContext at 1.
  by rewrite (getBrowserContext_registered _ _ _ _ E).
Qed.

(** An absent or expired session is never injected: the new context
    is exactly the one launched on the profile. *)
Lemma getBrowserContext_no_stale_restore w w' h :
  b_pool (w_br w) !! accountId = None →
  (∀ s, single_session accountId (w_db w) = Some s →
        (bs_expires_at s <= env_clock (w_env w) (w_clock_reads w))%Z) →
  getBrowserContext accountId w = (w', inr h) →
  b_ctxs (w_br w') !! h = Some (fresh_context accountId (w_br w)).
Proof.
  intros Hp Hexp. unfold getBrowserContext. rewrite Hp.
  se_step E1; [discriminate|]. apply loadSession_inv in E1 as [-> ->].
  se_step E2; [discriminate|]. apply launch_inv in E2 as [-> ->].
  unfold restore_if_valid.
  destruct (single_session accountId (w_db w)) as [s|] eqn:Hs;
    cbv [se_bind se_ret now]; cbn -[session_valid].
  - rewrite session_valid_false by (by apply Hexp).
    intros [= <- <-]. apply lookup_insert_eq.
  - intros [= <- <-]. apply lookup_insert_eq.
Qed.

(** An unexpired session is always injected: its cookies are added to
    the profile's jar and its storage snapshot becomes the page's init
    script, when those two calls do not reject. *)
Lemma getBrowserContext_restores_valid w w' h s :
  b_pool (w_br w) !! accountId = None →
  single_session accountId (w_db w) = Some s →
  (env_clock (w_env w) (w_clock_reads w) < bs_expires_at s)%Z →
  no_fault w CAddCookies → no_fault w CAddInitScript →
  getBrowserContext accountId w = (w', inr h) →
  b_ctxs (w_br w') !! h =
    Some (ctx_add_script (bs_local_storage s)
            (ctx_with_cookies
               (addCookies (ctx_cookies (fresh_context accountId (w_br w))) (bs_cookies s))
               (fresh_context accountId (w_br w)))).
Proof.
  intros Hp Hs Hv F1 F2. unfold getBrowserContext. rewrite Hp.
  se_step E1; [discriminate|]. apply loadSession_inv in E1 as [-> ->].
  se_step E2; [discriminate|]. apply launch_inv in E2 as [-> ->].
  unfold restore_if_valid. rewrite Hs.
  cbv [se_bind se_ret now]; cbn -[session_valid restoreSession].
  rewrite session_valid_true by done. cbn -[restoreSession].
  match goal with |- context [se_catch (restoreSession ?h ?s) ?k ?W] =>
    edestruct (restoreSession_ok h s W) as (w3 & E3 & L3) end;
    [cbn; apply lookup_insert_eq | |no_fault_solve|no_fault_solve|].
  { destruct (fresh_context_identity accountId (w_br w)). unfold fresh_context.
    by destruct (default _ _). }
  rewrite (se_catch_inr _ _ _ _ _ E3). cbn. intros [= <- <-]. exact L3.
Qed.
End Acquire.

(** ** Closing *)

Lemma close_ctx_lookup h h' b :
  b_ctxs (close_ctx h b) !! h' = if decide (h = h') then ctx_closed <$> b_ctxs b !! h else b_ctxs b !! h'.
Proof.
  unfold close_ctx, ctx_of. destruct (b_ctxs b !! h) as [c|] eqn:Hc; simpl.
  - case_decide; subst; [by rewrite lookup_insert_eq|by rewrite lookup_insert_ne].
  - case_decide; subst; done.
Qed.

Lemma close_ctx_pool h b : b_pool (close_ctx h b) = b_pool b.
Proof. unfold close_ctx. by destruct (ctx_of h b). Qed.

Lemma wf_close a h b :
  pool_wf b → b_pool b !! a = Some h → pool_wf (set_pool (delete a (b_pool b)) (close_ctx h b)).
Proof.
  intros [Hl Hp Hf] Ha. destruct (Hl a h Ha) as (c & Hc & Ho & Hacc).
  assert (Hnext : b_next (close_ctx h b) = b_next b) by (unfold close_ctx, ctx_of; by rewrite Hc).
  split; simpl.
  - intros a' h' Ha'. destruct (decide (a = a')) as [<-|Hne]; [by rewrite lookup_delete_eq in Ha'|].
    rewrite lookup_delete_ne in Ha' by done.
    destruct (Hl a' h' Ha') as (c' & Hc' & Ho' & Hacc').
    rewrite close_ctx_lookup. case_decide; subst; [congruence|]. eauto.
  - intros h' c' Hc' Ho'. rewrite close_ctx_lookup in Hc'. case_decide; subst.
    + rewrite Hc in Hc'. injection Hc' as <-. discriminate.
    + rewrite lookup_delete_ne; [by apply Hp|].
      intros E. rewrite E, (Hp h' c' Hc' Ho') in Ha. congruence.
  - intros h' Hh'. rewrite Hnext in Hh'. rewrite close_ctx_lookup.
    case_decide; subst; [rewrite Hf in Hc; [discriminate|lia]|]. by apply Hf.
Qed.

Lemma closeContext_wf a w w' r :
  pool_wf (w_br w) → closeContext a w = (w', r) → pool_wf (w_br w').
Proof.
  intros Hwf. unfold closeContext. destruct (b_pool (w_br w) !! a) as [h|] eqn:Ha.
  - se_step E1; apply call_inv in E1 as ->.
    + by intros [= <- _].
    + cbv [se_bind br_update se_modify]. intros [= <- _]. cbn.
      rewrite close_ctx_pool. by apply wf_close.
  - by intros [= <- _].
Qed.

Lemma close_each_total l w w' e : close_each l w ≠ (w', inl e).
Proof.
  revert w. induction l as [|[a h] l IH]; intros w; [discriminate|].
  simpl. unfold se_bind at 1, se_catch.
  destruct (se_bind (call CClose) (fun _ => br_update (close_ctx h)) w) as [w1 [e1|[]]]; apply IH.
Qed.

(** With no rejected [close()], the contexts left open by [close_each]
    were open before and are not among the handles it closed. *)
Lemma close_each_open l w w' r :
  (∀ n, env_fault (w_env w) CClose n = None) → close_each l w = (w', r) →
  ∀ h c, b_ctxs (w_br w') !! h = Some c → ctx_open c = true →
    (h ∉ l.*2) ∧ ∃ c0, b_ctxs (w_br w) !! h = Some c0 ∧ ctx_open c0 = true.
Proof.
  revert w. induction l as [|[a h0] l IH]; intros w Hnf.
  - intros [= <- _] h c Hc Ho. split; [set_solver|eauto].
  - simpl. unfold se_bind at 1, se_catch, se_bind at 1, call. rewrite Hnf. cbn.
    intros E h c Hc Ho.
    destruct (IH (set_br (close_ctx h0 (w_br w)) (bump CClose w)) Hnf E h c Hc Ho)
      as [Hnin (c0 & Hc0 & Ho0)].
    cbn in Hc0. rewrite close_ctx_lookup in Hc0. case_decide; subst.
    + destruct (b_ctxs (w_br w) !! h); [|discriminate]. injection Hc0 as <-. discriminate.
    + split; [set_solver|eauto].
Qed.

(** [closeAllContexts] always completes and empties the pool. *)
Lemma closeAllContexts_clears w w' r :
  closeAllContexts w = (w', r) → r = inr tt ∧ b_pool (w_br w') = ∅.
Proof.
  unfold closeAllContexts. se_step E; [by apply close_each_total in E|].
  by intros [= <- <-].
Qed.

(** With no rejected [close()], shutdown leaves no context open. *)
Lemma closeAllContexts_closes_all w w' r :
  pool_wf (w_br w) → (∀ n, env_fault (w_env w) CClose n = None) →
  closeAllContexts w = (w', r) → ∀ h c, b_ctxs (w_br w') !! h = Some c → ctx_open c = false.
Proof.
  intros [_ Hp _] Hnf. unfold closeAllContexts. se_step E; [by apply close_each_total in E|].
  intros [= <- _] h c Hc. simpl in Hc. destruct (ctx_open c) eqn:Ho; [|done].
  destruct (close_each_open _ _ _ _ Hnf E h c Hc Ho) as [Hnin (c0 & Hc0 & Ho0)].
  exfalso. apply Hnin. apply (Hp h c0 Hc0) in Ho0.
  apply list_elem_of_fmap. exists (ctx_account c0, h). split; [done|].
  by apply elem_of_map_to_list.
Qed.

(** ** Sequences of pool operations *)

(** The operations of [browser.ts] a caller can run, each to completion. *)
Inductive pool_op :=
  | OpAcquire (accountId : string)
  | OpNavigate (h : nat)
  | OpSave (accountId : string) (h : nat)
  | OpScreenshot (accountId name : string)
  | OpClose (accountId : string).

Definition run_pool_op (op : pool_op) : M unit :=
  match op with
  | OpAcquire a => getBrowserContext a ;;! se_ret tt
  | OpNavigate h => navigate h
  | OpSave a h => saveBrowserSession a h
  | OpScreenshot a n => takeScreenshot a n ;;! se_ret tt
  | OpClose a => closeContext a
  end.

(** Worlds reachable from a process start (no context, empty pool) by
    operations that each run to completion, whatever they return. *)
Inductive pool_reachable : World → Prop :=
  | pr_start w : b_ctxs (w_br w) = ∅ → b_pool (w_br w) = ∅ → pool_reachable w
  | pr_step w op w' r : pool_reachable w → run_pool_op op w = (w', r) → pool_reachable w'.

Lemma run_pool_op_wf op w w' r :
  pool_wf (w_br w) → run_pool_op op w = (w', r) → pool_wf (w_br w').
Proof.
  intros Hwf. destruct op; simpl.
  - se_step E; [intros [= <- _]|intros [= <- _]]; eapply getBrowserContext_preserves_wf; eauto.
  - intros E. eapply pool_wf_evolves; [done|]. eapply navigate_evolves; eauto.
  - intros E. eapply pool_wf_evolves; [done|]. eapply saveBrowserSession_evolves; eauto.
  - se_step E; [intros [= <- _]|intros [= <- _]];
      (eapply pool_wf_evolves; [done|]; eapply takeScreenshot_evolves; eauto).
  - apply closeContext_wf; done.
Qed.

Lemma pool_reachable_wf w : pool_reachable w → pool_wf (w_br w).
Proof.
  induction 1 as [w Hc Hp|w op w' r _ IH E].
  - split; [by rewrite Hp| by rewrite Hc|]. intros h _. by rewrite Hc.
  - by eapply run_pool_op_wf.
Qed.

(** ** Interleaved acquisitions

    [getBrowserContext] awaits between its pool lookup and its pool
    update, and the worker runs [config.browser.concurrency] jobs at a
    time.  Each phase below runs from one [await] to the next; a thread
    is an account id and a phase, and [istep] runs one phase of one
    thread. *)

Inductive acq_phase :=
  | AcqCheck
  | AcqLoad
  | AcqLaunch (session : option BrowserSession)
  | AcqRestore (session : option BrowserSession) (h : nat)
  | AcqRegister (h : nat)
  | AcqDone (h : nat)
  | AcqFailed (msg : string).

Definition acq_step (accountId : string) (ph : acq_phase) : M acq_phase :=
  match ph with
  | AcqCheck => fun w =>
      match b_pool (w_br w) !! accountId with
      | Some h => (w, inr (AcqDone h))
      | None => (w, inr AcqLoad)
      end
  | AcqLoad =>
      se_catch (let! s := loadSession accountId in se_ret (AcqLaunch s))
               (fun e => se_ret (AcqFailed e))
  | AcqLaunch s =>
      se_catch (let! h := launchPersistentContext accountId in se_ret (AcqRestore s h))
               (fun e => se_ret (AcqFailed e))
  | AcqRestore s h => restore_if_valid h s ;;! se_ret (AcqRegister h)
  | AcqRegister h =>
      br_update (fun b => set_pool (<[accountId := h]> (b_pool b)) b) ;;! se_ret (AcqDone h)
  | AcqDone h => se_ret (AcqDone h)
  | AcqFailed e => se_ret (AcqFailed e)
  end.

Fixpoint run_thread (n : nat) (accountId : string) (ph : acq_phase) : M acq_phase :=
  match n with
  | 0 => se_ret ph
  | S n' => let! ph' := acq_step accountId ph in run_thread n' accountId ph'
  end.

Definition Threads := (World * list (string * acq_phase))%type.

Inductive istep : Threads → Threads → Prop :=
  | istep_run w ts i a ph w' ph' :
      ts !! i = Some (a, ph) → acq_step a ph w = (w', inr ph') →
      istep (w, ts) (w', <[i := (a, ph')]> ts).

(** Runs the thread of index [i] one phase; an index out of range does nothing. *)
Definition sched_step (i : nat) (st : Threads) : Threads :=
  match st.2 !! i with
  | Some (a, ph) =>
      match acq_step a ph st.1 with
      | (w', inr ph') => (w', <[i := (a, ph')]> st.2)
      | (w', inl _) => st
      end
  | None => st
  end.

Definition run_sched (sched : list nat) (st : Threads) : Threads :=
  fold_left (fun st i => sched_step i st) sched st.

Lemma acq_step_total a ph w w' e : acq_step a ph w ≠ (w', inl e).
Proof.
  destruct ph; cbn [acq_step].
  - by destruct (b_pool (w_br w) !! a).
  - unfold se_catch. destruct (se_bind _ _ w) as [? [?|?]]; discriminate.
  - unfold se_catch. destruct (se_bind _ _ w) as [? [?|?]]; discriminate.
  - unfold se_bind. destruct (restore_if_valid h session w) as [w1 [e1|]] eqn:E;
      [by apply restore_if_valid_total in E|discriminate].
  - discriminate.
  - discriminate.
  - discriminate.
Qed.

Lemma run_sched_rtc sched st : rtc istep st (run_sched sched st).
Proof.
  revert st. induction sched as [|i sched IH]; intros st; [apply rtc_refl|].
  simpl. eapply rtc_trans; [|apply IH]. destruct st as [w ts]. unfold sched_step. simpl.
  destruct (ts !! i) as [[a ph]|] eqn:Hi; [|apply rtc_refl].
  destruct (acq_step a ph w) as [w' [e|ph']] eqn:E; [by apply acq_step_total in E|].
  apply rtc_once. by econstructor.
Qed.

(** Run without interleaving, the five phases are [getBrowserContext]:
    the phase model refines the function. *)
Lemma run_thread_sequential a w :
  run_thread 5 a AcqCheck w =
    match getBrowserContext a w with
    | (w', inr h) => (w', inr (AcqDone h))
    | (w', inl e) => (w', inr (AcqFailed e))
    end.
Proof.
  unfold getBrowserContext.
  cbv [run_thread acq_step se_bind se_catch se_ret br_update se_modify].
  destruct (b_pool (w_br w) !! a) as [h|]; [done|].
  destruct (loadSession a w) as [w1 [e|s]]; [done|].
  destruct (launchPersistentContext a w1) as [w2 [e|h]]; [done|].
  destruct (restore_if_valid h s w2) as [w3 [e|[]]] eqn:E3; [by apply restore_if_valid_total in E3|].
  done.
Qed.

(** C11: Two jobs for one account, interleaved at the awaits of
    [getBrowserContext]: both find the pool empty, both launch a
    context, and the second registration overwrites the first.  The
    first context stays open outside the pool and the invariant is
    lost.  (With a browser that refuses a second launch on the same
    profile, the second job fails instead.) *)
Lemma interleaved_acquire_duplicates :
  ∃ w ts w',
    pool_wf (w_br w) ∧ b_pool (w_br w) = ∅ ∧
    rtc istep (w, [("A"%string, AcqCheck); ("A"%string, AcqCheck)]) (w', ts) ∧
    (∃ h1 h2 c1 c2, h1 ≠ h2 ∧ b_ctxs (w_br w') !! h1 = Some c1 ∧
       b_ctxs (w_br w') !! h2 = Some c2 ∧ ctx_open c1 = true ∧ ctx_open c2 = true ∧
       ctx_account c1 = "A"%string ∧ ctx_account c2 = "A"%string) ∧
    ¬ pool_wf (w_br w').
Proof.
  set (w0 := world_start (env_quiet (fun n => Z.of_nat n)) db_empty).
  set (st := run_sched [0; 1; 0; 0; 0; 0; 1; 1; 1; 1]%nat
                       (w0, [("A"%string, AcqCheck); ("A"%string, AcqCheck)])).
  exists w0, st.2, st.1.
  assert (Hc : ∃ c1 c2, b_ctxs (w_br st.1) !! 0%nat = Some c1 ∧ b_ctxs (w_br st.1) !! 1%nat = Some c2 ∧
            ctx_open c1 = true ∧ ctx_open c2 = true ∧
            ctx_account c1 = "A"%string ∧ ctx_account c2 = "A"%string).
  { do 2 eexists. vm_compute. repeat split. }
  destruct Hc as (c1 & c2 & H1 & H2 & O1 & O2 & A1 & A2).
  split; [apply pool_reachable_wf, pr_start; reflexivity|].
  split; [done|]. split; [rewrite <- surjective_pairing; apply run_sched_rtc|].
  split; [exists 0%nat, 1%nat, c1, c2; done|].
  intros Hwf. enough (0%nat = 1%nat) by lia. eapply wf_unique; eauto.
Qed.

(** C1: In every world reached by pool operations that each run to
    completion, an account has at most one open context. *)
Lemma pool_reachable_unique w h1 h2 c1 c2 :
  pool_reachable w → b_ctxs (w_br w) !! h1 = Some c1 → b_ctxs (w_br w) !! h2 = Some c2 →
  ctx_open c1 = true → ctx_open c2 = true → ctx_account c1 = ctx_account c2 → h1 = h2.
Proof. intros Hr. apply wf_unique, pool_reachable_wf, Hr. Qed.

(** ** Concrete runs *)

Section Examples.
Local Open Scope string_scope.

Definition ex_cookie : Cookie :=
  {| ck_name := "sid"; ck_value := "v1"; ck_domain := "chat.openai.com"; ck_path := "/";
     ck_expires := 0 |}.

Definition ex_session (expires : Z) : BrowserSession :=
  {| bs_account_id := "A"; bs_cookies := [ex_cookie]; bs_local_storage := {["k" := "v"]};
     bs_expires_at := expires; bs_updated_at := 0 |}.

(** The clock reads 0, 1000, 2000, ... milliseconds. *)
Definition ex_world (expires : Z) : World :=
  world_start (env_quiet (fun n => Z.of_nat n * 1000)%Z)
    {| db_accounts := ∅; db_requests := ∅; db_quotas := [];
       db_sessions := [ex_session expires]; db_usage_logs := []; db_alerts := [];
       db_api_keys := ∅ |}.

Definition ex_acquired : World := fst (getBrowserContext "A" (ex_world 5000)).
End Examples.

(** ** Witnesses *)

Lemma getBrowserContext_wf_witness :
  pool_wf (w_br (ex_world 5000)) ∧ pool_wf (w_br ex_acquired) ∧ b_pool (w_br ex_acquired) !! "A"%string = Some 0%nat.
Proof.
  assert (H0 : pool_wf (w_br (ex_world 5000))) by (apply pool_reachable_wf, pr_start; reflexivity).
  destruct (getBrowserContext_wf "A" (ex_world 5000) ex_acquired (inr 0%nat) H0) as [H1 H2];
    [vm_compute; reflexivity|].
  split; [exact H0|]. split; [exact H1|].
  destruct (H2 0%nat eq_refl) as (c & Hp & _). exact Hp.
Defined.

Lemma getBrowserContext_reuse_witness :
  getBrowserContext "A" ex_acquired = (ex_acquired, inr 0%nat).
Proof.
  apply (getBrowserContext_reuse "A" (ex_world 5000) ex_acquired 0%nat).
  vm_compute. reflexivity.
Defined.

Lemma getBrowserContext_no_stale_restore_witness :
  b_ctxs (w_br (fst (getBrowserContext "A" (ex_world 0)))) !! 0%nat =
    Some (fresh_context "A" (w_br (ex_world 0))).
Proof.
  apply (getBrowserContext_no_stale_restore "A" (ex_world 0) _ 0%nat).
  - reflexivity.
  - intros s Hs. vm_compute in Hs. injection Hs as <-. vm_compute. discriminate.
  - vm_compute. reflexivity.
Defined.

Lemma getBrowserContext_restores_valid_witness :
  b_ctxs (w_br ex_acquired) !! 0%nat =
    Some (ctx_add_script (bs_local_storage (ex_session 5000))
            (ctx_with_cookies
               (addCookies (ctx_cookies (fresh_context "A" (w_br (ex_world 5000))))
                           (bs_cookies (ex_session 5000)))
               (fresh_context "A" (w_br (ex_world 5000))))).
Proof.
  apply (getBrowserContext_restores_valid "A" (ex_world 5000) ex_acquired 0%nat (ex_session 5000));
    vm_compute; reflexivity.
Defined.

Lemma closeAllContexts_clears_witness :
  snd (closeAllContexts ex_acquired) = inr tt ∧ b_pool (w_br (fst (closeAllContexts ex_acquired))) = ∅.
Proof.
  apply (closeAllContexts_clears ex_acquired). apply surjective_pairing.
Defined.

Lemma closeAllContexts_closes_all_witness :
  b_ctxs (w_br (fst (closeAllContexts ex_acquired))) !! 0%nat <> None ∧
  ∀ h c, b_ctxs (w_br (fst (closeAllContexts ex_acquired))) !! h = Some c → ctx_open c = false.
Proof.
  split; [vm_compute; discriminate|].
  apply (closeAllContexts_closes_all ex_acquired _ (snd (closeAllContexts ex_acquired))).
  - apply (getBrowserContext_preserves_wf "A" (ex_world 5000) ex_acquired (inr 0%nat));
      [apply pool_reachable_wf, pr_start; reflexivity|vm_compute; reflexivity].
  - intros n. reflexivity.
  - apply surjective_pairing.
Defined.

Lemma pool_reachable_unique_witness :
  ∃ c, b_ctxs (w_br ex_acquired) !! 0%nat = Some c ∧ ctx_open c = true ∧ (0 = 0)%nat.
Proof.
  assert (Hr : pool_reachable ex_acquired).
  { apply (pr_step (ex_world 5000) (OpAcquire "A") ex_acquired (inr tt)).
    - apply pr_start; reflexivity.
    - vm_compute. reflexivity. }
  destruct (b_ctxs (w_br ex_acquired) !! 0%nat) as [c|] eqn:Hc; [|vm_compute in Hc; discriminate].
  exists c. assert (Ho : ctx_open c = true) by (vm_compute in Hc; injection Hc as <-; reflexivity).
  split; [reflexivity|]. split; [exact Ho|].
  exact (pool_reachable_unique ex_acquired 0 0 c c Hr Hc Hc Ho Ho eq_refl).
Defined.
