(* ===== verification/Providers.v ===== *)
(** * Providers: the adapters of [src/browser-worker/src/providers/]

    One automation run of an adapter on the page of a context.  What
    the site does during the run (whether navigation completes, whether
    the logged-in marker is visible, whether the response appears and
    finishes, what text it holds) is an oracle record [PageScript];
    the adapter's own logic (its checks, its error messages, which
    waits it tolerates, the trimming and the token estimate) is
    modelled as written.  The four adapters share one shape,
    [run_adapter], instantiated with each file's labels and its one
    difference: ChatGPT's end-of-generation wait is wrapped in
    [.catch].  [automateChat] is the dispatch by provider tag, and the
    class [AdapterContract] is what the dispatcher relies on. *)

From S2P Require Import Prelude Model Browser.

Local Open Scope orch_scope.

(** The behaviour of the site during one run.  A [Some msg] is a
    Playwright call that rejects with [msg]. *)
Record PageScript := {
  ps_goto : option string;        (* page.goto(url, { waitUntil: 'networkidle' }) *)
  ps_logged_in : bool;            (* locator(marker).isVisible(), false on rejection *)
  ps_fill : option string;        (* filling the input and pressing Enter *)
  ps_response : option string;    (* waitForSelector(response, { timeout: 90000 }) *)
  ps_done : option string;        (* the end-of-generation wait, 120000 ms *)
  ps_text : option string         (* textContent() of the last response *)
}.

(** [interface ChatResponse] *)
Record ChatResponse := {
  cr_text : string;
  cr_tokens : Z;
  cr_provider : string;
  cr_model : string
}.

(** [estimateTokens]: [Math.ceil(text.length / 4)]. *)
Definition estimateTokens (text : string) : Z := Z.of_nat (ceil_div (String.length text) 4).

(** An awaited Playwright call of the script. *)
Definition pw (o : option string) : M unit :=
  match o with Some msg => se_throw msg | None => se_ret tt end.

(** What distinguishes the four files: the name in the messages, the
    provider and model tags, and whether the end-of-generation wait's
    rejection is swallowed. *)
Record AdapterLabels := {
  ad_name : string;
  ad_provider : string;
  ad_model : string;
  ad_tolerates_wait : bool
}.

Definition not_logged_in_msg (name : string) : string :=
  "Session expired - not logged in to " +:+ name.

Definition extract_failed_msg (name : string) : string :=
  "Failed to extract " +:+ name +:+ " response".

(** The body shared by [automateChatGPT], [automateClaude],
    [automateGemini] and [automateDeepSeek]. *)
Definition run_adapter (L : AdapterLabels) (h : nat) (ps : PageScript) (prompt : string)
    : M ChatResponse :=
  navigate h ;;! pw (ps_goto ps) ;;!
  (if ps_logged_in ps then se_ret tt else se_throw (not_logged_in_msg (ad_name L))) ;;!
  pw (ps_fill ps) ;;!
  pw (ps_response ps) ;;!
  (if ad_tolerates_wait L then se_catch (pw (ps_done ps)) (fun _ => se_ret tt)
   else pw (ps_done ps)) ;;!
  match ps_text ps with
  | None | Some EmptyString => se_throw (extract_failed_msg (ad_name L))
  | Some response =>
      se_ret {| cr_text := js_trim response;
                cr_tokens := estimateTokens (prompt +:+ response);
                cr_provider := ad_provider L; cr_model := ad_model L |}
  end.

Definition chatgpt_labels : AdapterLabels :=
  {| ad_name := "ChatGPT"; ad_provider := "chatgpt"; ad_model := "chatgpt-web";
     ad_tolerates_wait := true |}.
Definition claude_labels : AdapterLabels :=
  {| ad_name := "Claude"; ad_provider := "claude"; ad_model := "claude-web";
     ad_tolerates_wait := false |}.
Definition gemini_labels : AdapterLabels :=
  {| ad_name := "Gemini"; ad_provider := "gemini"; ad_model := "gemini-web";
     ad_tolerates_wait := false |}.
Definition deepseek_labels : AdapterLabels :=
  {| ad_name := "DeepSeek"; ad_provider := "deepseek"; ad_model := "deepseek-web";
     ad_tolerates_wait := false |}.

Definition automateChatGPT := run_adapter chatgpt_labels.
Definition automateClaude := run_adapter claude_labels.
Definition automateGemini := run_adapter gemini_labels.
Definition automateDeepSeek := run_adapter deepseek_labels.

Definition unknown_provider_msg (provider : string) : string := "Unknown provider: " +:+ provider.

(** [automateChat]: [switch (provider.toLowerCase())]. *)
Definition automateChat (provider : string) (h : nat) (ps : PageScript) (prompt : string)
    : M ChatResponse :=
  let p := js_lower provider in
  if String.eqb p "chatgpt" then automateChatGPT h ps prompt
  else if String.eqb p "claude" then automateClaude h ps prompt
  else if String.eqb p "gemini" then automateGemini h ps prompt
  else if String.eqb p "deepseek" then automateDeepSeek h ps prompt
  else se_throw (unknown_provider_msg provider).

(** The dispatcher's test for a lost login ([worker.ts]):
    [errorMessage.includes('Session expired') || errorMessage.includes('not logged in')]. *)
Definition auth_lost (errorMessage : string) : bool :=
  js_includes errorMessage "Session expired" || js_includes errorMessage "not logged in".

(** ** The outcome of a run

    An adapter's outcome depends on the page script only; the world
    changes by the navigation alone ([run_adapter_cases]). *)
Definition adapter_result (L : AdapterLabels) (ps : PageScript) (prompt : string)
    : string + ChatResponse :=
  match ps_goto ps with Some e => inl e | None =>
  if negb (ps_logged_in ps) then inl (not_logged_in_msg (ad_name L)) else
  match ps_fill ps with Some e => inl e | None =>
  match ps_response ps with Some e => inl e | None =>
  match (if ad_tolerates_wait L then None else ps_done ps) with Some e => inl e | None =>
  match ps_text ps with
  | None | Some EmptyString => inl (extract_failed_msg (ad_name L))
  | Some response =>
      inr {| cr_text := js_trim response; cr_tokens := estimateTokens (prompt +:+ response);
             cr_provider := ad_provider L; cr_model := ad_model L |}
  end end end end end.

(** The labels [automateChat] picks for a tag, if any. *)
Definition labels_of (provider : string) : option AdapterLabels :=
  let p := js_lower provider in
  if String.eqb p "chatgpt" then Some chatgpt_labels
  else if String.eqb p "claude" then Some claude_labels
  else if String.eqb p "gemini" then Some gemini_labels
  else if String.eqb p "deepseek" then Some deepseek_labels
  else None.

Definition chat_result (provider : string) (ps : PageScript) (prompt : string)
    : string + ChatResponse :=
  match labels_of provider with
  | Some L => adapter_result L ps prompt
  | None => inl (unknown_provider_msg provider)
  end.

(** ** The adapter contract (spec §4.2) *)

(** What the dispatcher relies on: a run that finds no login fails with
    a message the dispatcher classifies as a lost login; a successful
    run reports a positive token count; a run changes nothing but the
    storage of the contexts it navigates (no pool change, no datastore
    change, no clock read). *)
Class AdapterContract (run : nat → PageScript → string → M ChatResponse) : Prop := {
  adapter_auth : ∀ h ps prompt w, ps_goto ps = None → ps_logged_in ps = false →
    ∃ msg, run h ps prompt w = (set_br (w_br (fst (navigate h w))) w, inl msg) ∧
           auth_lost msg = true;
  adapter_tokens : ∀ h ps prompt w w' r, run h ps prompt w = (w', inr r) → (0 < cr_tokens r)%Z;
  adapter_frame : ∀ h ps prompt w w' r, run h ps prompt w = (w', r) →
    w' = set_br (w_br (fst (navigate h w))) w
}.

Lemma not_logged_in_auth_lost name : auth_lost (not_logged_in_msg name) = true.
Proof. reflexivity. Qed.

Lemma estimateTokens_pos s : s ≠ EmptyString → (0 < estimateTokens s)%Z.
Proof.
  intros Hs. unfold estimateTokens. destruct s as [|c s]; [done|].
  pose proof (ceil_div_pos (String.length (String c s)) 4). simpl in *. lia.
Qed.

Lemma append_nonempty_r s t : t ≠ EmptyString → (s +:+ t)%string ≠ EmptyString.
Proof. destruct s; simpl; [done|discriminate]. Qed.

(** Every outcome of [run_adapter]: the navigation always happens, then
    the script's first rejection, the missing login or the empty text
    decides, or the response is built. *)
Lemma run_adapter_cases L h ps prompt w :
  run_adapter L h ps prompt w =
    (set_br (w_br (fst (navigate h w))) w, adapter_result L ps prompt).
Proof.
  unfold adapter_result.
  cbv [run_adapter se_bind pw navigate br_update se_modify se_ret se_throw se_catch].
  destruct (ps_goto ps), (ps_logged_in ps), (ps_fill ps), (ps_response ps),
    (ad_tolerates_wait L), (ps_done ps), (ps_text ps) as [[|c t]|]; reflexivity.
Qed.

#[export] Instance run_adapter_contract L : AdapterContract (run_adapter L).
Proof.
  split.
  - intros h ps prompt w Hg Hl. rewrite run_adapter_cases; unfold adapter_result; rewrite Hg, Hl. simpl.
    eexists. split; [reflexivity|]. apply not_logged_in_auth_lost.
  - intros h ps prompt w w' r. rewrite run_adapter_cases; unfold adapter_result.
    repeat case_match; intros [= _ <-];
      simpl; apply estimateTokens_pos, append_nonempty_r; discriminate.
  - intros h ps prompt w w' r. rewrite run_adapter_cases; unfold adapter_result. by intros [= <- _].
Qed.

Definition known_provider (provider : string) : bool :=
  let p := js_lower provider in
  String.eqb p "chatgpt" || String.eqb p "claude" || String.eqb p "gemini" ||
  String.eqb p "deepseek".

Lemma automateChat_known provider :
  known_provider provider = true →
  ∃ L, automateChat provider = run_adapter L ∧ ad_provider L = js_lower provider.
Proof.
  unfold known_provider, automateChat.
  destruct (String.eqb_spec (js_lower provider) "chatgpt") as [E|_]; [eexists; split; [reflexivity|done]|].
  destruct (String.eqb_spec (js_lower provider) "claude") as [E|_]; [eexists; split; [reflexivity|done]|].
  destruct (String.eqb_spec (js_lower provider) "gemini") as [E|_]; [eexists; split; [reflexivity|done]|].
  destruct (String.eqb_spec (js_lower provider) "deepseek") as [E|_]; [eexists; split; [reflexivity|done]|].
  discriminate.
Qed.

Lemma estimateTokens_bounds s :
  (Z.of_nat (String.length s) <= 4 * estimateTokens s < Z.of_nat (String.length s) + 4)%Z.
Proof.
  unfold estimateTokens.
  pose proof (ceil_div_upper (String.length s) 4 ltac:(lia)).
  pose proof (ceil_div_lower (String.length s) 4 ltac:(lia)). lia.
Qed.

(** ** Properties of the adapters *)

(** [automateChat] for any of the four providers, whatever the case of
    the tag, fails with a lost-login message when the page loads but
    the logged-in marker is not visible. *)
Lemma automateChat_not_logged_in provider h ps prompt w :
  known_provider provider = true → ps_goto ps = None → ps_logged_in ps = false →
  ∃ w' msg, automateChat provider h ps prompt w = (w', inl msg) ∧ auth_lost msg = true.
Proof.
  intros Hk Hg Hl. destruct (automateChat_known provider Hk) as (L & -> & _).
  destruct (@adapter_auth (run_adapter L) _ h ps prompt w Hg Hl) as (msg & E & A). eauto.
Qed.

(** A successful run of [automateChat] took a non-empty response text,
    returns it trimmed, under the lower-cased provider tag, with
    [Math.ceil] of a quarter of the length of prompt and untrimmed
    response as token count: positive, at least the length over four
    and less than one more. *)
Lemma automateChat_success provider h ps prompt w w' r :
  automateChat provider h ps prompt w = (w', inr r) →
  ∃ response, ps_text ps = Some response ∧ response ≠ EmptyString ∧
    cr_text r = js_trim response ∧ cr_provider r = js_lower provider ∧
    cr_tokens r = estimateTokens (prompt +:+ response) ∧ (0 < cr_tokens r)%Z ∧
    (Z.of_nat (String.length (prompt +:+ response)) <= 4 * cr_tokens r <
       Z.of_nat (String.length (prompt +:+ response)) + 4)%Z.
Proof.
  destruct (known_provider provider) eqn:Hk.
  2:{ unfold automateChat. unfold known_provider in Hk.
      repeat (case_match; [by rewrite ?orb_true_r in Hk|]). discriminate. }
  destruct (automateChat_known provider Hk) as (L & -> & HP).
  intros E. pose proof (@adapter_tokens (run_adapter L) _ _ _ _ _ _ _ E) as Hpos.
  rewrite run_adapter_cases in E; unfold adapter_result in E. repeat case_match; try discriminate;
    injection E as _ <-; eexists; (split; [done|]); (split; [discriminate|]); simpl in *;
    repeat (split; [done|]); apply estimateTokens_bounds.
Qed.

(** ChatGPT's adapter swallows the rejection of its end-of-generation
    wait and extracts whatever text is there, where the other three
    adapters fail with the wait's timeout. *)
Lemma chatgpt_tolerates_unfinished_generation h ps prompt w e t :
  ps_goto ps = None → ps_logged_in ps = true → ps_fill ps = None → ps_response ps = None →
  ps_done ps = Some e → ps_text ps = Some t → t ≠ EmptyString →
  (∃ r, snd (automateChatGPT h ps prompt w) = inr r ∧ cr_text r = js_trim t) ∧
  snd (automateClaude h ps prompt w) = inl e ∧
  snd (automateGemini h ps prompt w) = inl e ∧
  snd (automateDeepSeek h ps prompt w) = inl e.
Proof.
  intros Hg Hl Hf Hr Hd Ht Hne.
  unfold automateChatGPT, automateClaude, automateGemini, automateDeepSeek.
  rewrite !run_adapter_cases; unfold adapter_result; rewrite Hg, Hl, Hf, Hr, Hd, Ht. simpl.
  split; [|done]. destruct t; [done|]. eexists. done.
Qed.

(** C40: A response of white space only passes the [!response] test and
    completes with an empty text. *)
Lemma whitespace_response_completes L h ps prompt w t :
  ps_goto ps = None → ps_logged_in ps = true → ps_fill ps = None → ps_response ps = None →
  (ad_tolerates_wait L = true ∨ ps_done ps = None) →
  ps_text ps = Some t → t ≠ EmptyString → js_trim t = EmptyString →
  ∃ r, snd (run_adapter L h ps prompt w) = inr r ∧ cr_text r = EmptyString ∧ (0 < cr_tokens r)%Z.
Proof.
  intros Hg Hl Hf Hr Hd Ht Hne Htr.
  rewrite run_adapter_cases; unfold adapter_result; rewrite Hg, Hl, Hf, Hr, Ht. simpl.
  assert (Hw : (if ad_tolerates_wait L then None else ps_done ps) = None).
  { destruct Hd as [-> | ->]; [done|]. by destruct (ad_tolerates_wait L). }
  rewrite Hw. destruct t as [|c t]; [done|]. eexists. split; [reflexivity|].
  split; [done|]. apply estimateTokens_pos, append_nonempty_r. discriminate.
Qed.

(** ** Concrete runs and witnesses *)

Section Examples.
Local Open Scope string_scope.

Definition ex_page (logged_in : bool) (done : option string) (text : option string) : PageScript :=
  {| ps_goto := None; ps_logged_in := logged_in; ps_fill := None; ps_response := None;
     ps_done := done; ps_text := text |}.

Definition ex_w0 : World := world_start (env_quiet (fun n => Z.of_nat n)) db_empty.

End Examples.

Lemma automateChat_not_logged_in_witness :
  ∃ w' msg, automateChat "Claude" 0 (ex_page false None None) "hi" ex_w0 = (w', inl msg) ∧
            auth_lost msg = true.
Proof. apply automateChat_not_logged_in; reflexivity. Defined.

Lemma automateChat_success_witness :
  ∃ response, ps_text (ex_page true None (Some "  Hello there  ")) = Some response ∧
    response ≠ EmptyString ∧
    js_trim response = "Hello there" ∧
    estimateTokens ("hello" +:+ response) = 5%Z.
Proof.
  destruct (automateChat_success "ChatGPT" 0 (ex_page true None (Some "  Hello there  ")) "hello"
              ex_w0 (fst (automateChat "ChatGPT" 0 (ex_page true None (Some "  Hello there  "))
                                        "hello" ex_w0))
              {| cr_text := "Hello there"; cr_tokens := 5; cr_provider := "chatgpt";
                 cr_model := "chatgpt-web" |})
    as (response & Ht & Hne & Htr & _ & Htok & _).
  - vm_compute. reflexivity.
  - exists response. split; [done|]. split; [done|]. simpl in Htr, Htok. by split.
Defined.

Lemma chatgpt_tolerates_unfinished_generation_witness :
  (∃ r, snd (automateChatGPT 0 (ex_page true (Some "Timeout 120000ms exceeded") (Some "partial"))
                             "hi" ex_w0) = inr r ∧ cr_text r = js_trim "partial") ∧
  snd (automateClaude 0 (ex_page true (Some "Timeout 120000ms exceeded") (Some "partial")) "hi" ex_w0)
    = inl "Timeout 120000ms exceeded" ∧
  snd (automateGemini 0 (ex_page true (Some "Timeout 120000ms exceeded") (Some "partial")) "hi" ex_w0)
    = inl "Timeout 120000ms exceeded" ∧
  snd (automateDeepSeek 0 (ex_page true (Some "Timeout 120000ms exceeded") (Some "partial")) "hi" ex_w0)
    = inl "Timeout 120000ms exceeded".
Proof. apply chatgpt_tolerates_unfinished_generation; try reflexivity. discriminate. Defined.

Lemma whitespace_response_completes_witness :
  ∃ r, snd (run_adapter claude_labels 0 (ex_page true None (Some "   ")) "hi" ex_w0) = inr r ∧
       cr_text r = EmptyString ∧ (0 < cr_tokens r)%Z.
Proof.
  apply (whitespace_response_completes _ _ _ _ _ "   "); try reflexivity.
  - right. reflexivity.
  - discriminate.
Defined.

Lemma automateChat_cases provider h ps prompt w :
  automateChat provider h ps prompt w =
    (match labels_of provider with
     | Some _ => set_br (w_br (fst (navigate h w))) w
     | None => w
     end, chat_result provider ps prompt).
Proof.
  unfold automateChat, chat_result, labels_of.
  repeat case_match; try discriminate; simplify_eq; try apply run_adapter_cases; reflexivity.
Qed.

(** The outcome of a run of a known provider on a page without the
    logged-in marker is a lost-login failure. *)
Lemma chat_result_not_logged_in provider ps prompt :
  known_provider provider = true → ps_goto ps = None → ps_logged_in ps = false →
  ∃ msg, chat_result provider ps prompt = inl msg ∧ auth_lost msg = true.
Proof.
  unfold known_provider, chat_result, labels_of, adapter_result. intros Hk -> ->.
  repeat case_match; try discriminate; by eexists.
Qed.
