(* ===== verification/Worker.v ===== *)
(** * Worker: the job processor of [src/browser-worker/src/worker.ts]

    [processJob] is the async function given to BullMQ's [Worker]: it
    marks the request [processing], acquires the account's context
    ([Browser]), runs the adapter ([Providers]), and then either
    charges the quota, logs the usage, saves the session, touches the
    account and completes the request, or, in its [catch], takes a
    screenshot, logs the failure, fails the request, marks the account
    [expired] on a lost login and rethrows.  The page behaviour of the
    run is the [PageScript] argument.  BullMQ's queueing, its
    [completed]/[failed] log handlers and the connection options are
    not modelled. *)

From S2P Require Import Prelude Model Browser Providers.

Local Open Scope orch_scope.

(** ** Request-row updates *)

(** [.update({ status: 'processing' })] *)
Definition mark_processing (r : Request) : Request :=
  {| req_id := req_id r; req_user_id := req_user_id r; req_api_key_id := req_api_key_id r;
     req_prompt := req_prompt r;
     req_provider_requested := req_provider_requested r; req_provider_used := req_provider_used r;
     req_account_id := req_account_id r; req_status := processing; req_priority := req_priority r;
     req_response := req_response r; req_tokens_used := req_tokens_used r;
     req_latency_ms := req_latency_ms r; req_error_message := req_error_message r;
     req_completed_at := req_completed_at r |}.

(** [.update({ status: 'completed', provider_used, response, tokens_used, latency_ms, completed_at })] *)
Definition complete_request (provider : string) (resp : ChatResponse) (latencyMs t : Z)
    (r : Request) : Request :=
  {| req_id := req_id r; req_user_id := req_user_id r; req_api_key_id := req_api_key_id r;
     req_prompt := req_prompt r;
     req_provider_requested := req_provider_requested r; req_provider_used := Some provider;
     req_account_id := req_account_id r; req_status := completed; req_priority := req_priority r;
     req_response := Some (cr_text resp); req_tokens_used := Some (cr_tokens resp);
     req_latency_ms := Some latencyMs; req_error_message := req_error_message r;
     req_completed_at := Some t |}.

(** [.update({ status: 'failed', error_message, latency_ms, completed_at })] *)
Definition fail_request (errorMessage : string) (latencyMs t : Z) (r : Request) : Request :=
  {| req_id := req_id r; req_user_id := req_user_id r; req_api_key_id := req_api_key_id r;
     req_prompt := req_prompt r;
     req_provider_requested := req_provider_requested r; req_provider_used := req_provider_used r;
     req_account_id := req_account_id r; req_status := failed; req_priority := req_priority r;
     req_response := req_response r; req_tokens_used := req_tokens_used r;
     req_latency_ms := Some latencyMs; req_error_message := Some errorMessage;
     req_completed_at := Some t |}.

(** ** The processor *)

(** [context.pages()[0] || (await context.newPage())] *)
Definition ensure_page (h : nat) : M unit :=
  let! pages := br_read (pages_of h) in
  if decide (pages = 0) then call CNewPage ;;! br_update (alter_ctx h ctx_add_page)
  else se_ret tt.

(** The screenshot block of the [catch]:
    [getBrowserContext(account_id).catch(() => null)], then
    [takeScreenshot] when the context has a page. *)
Definition screenshot_on_error (accountId requestId : string) : M unit :=
  let! context := se_catch (let! h := getBrowserContext accountId in se_ret (Some h))
                           (fun _ => se_ret None) in
  match context with
  | Some h =>
      let! pages := br_read (pages_of h) in
      if decide (pages = 0) then se_ret tt
      else takeScreenshot accountId ("error-" +:+ requestId) ;;! se_ret tt
  | None => se_ret tt
  end.

(** The end of the [try] block once usage is logged: save the session,
    touch the account, complete the request. *)
Definition finish_success (job : ChatRequestJob) (h : nat) (response : ChatResponse)
    (latencyMs : Z) : M ChatResponse :=
  let accountId := job_account_id job in
  saveBrowserSession accountId h ;;!
  let! t2 := now in
  try_write (update_account accountId (with_last_used t2)) ;;!
  let! t3 := now in
  try_write (update_request (job_request_id job)
               (complete_request (job_provider job) response latencyMs t3)) ;;!
  se_ret response.

(** The [try] block after [automateChat] returned: latency, quota, usage. *)
Definition charge_usage (job : ChatRequestJob) (h : nat) (response : ChatResponse)
    (startTime : Z) : M ChatResponse :=
  let accountId := job_account_id job in
  let provider := job_provider job in
  let! t1 := now in
  let latencyMs := (t1 - startTime)%Z in
  updateQuota accountId provider (cr_tokens response) ;;!
  logUsage accountId provider (Some (job_request_id job)) (cr_tokens response) latencyMs
           success None ;;!
  finish_success job h response latencyMs.

(** The [try] block. *)
Definition process_body (job : ChatRequestJob) (ps : PageScript) (startTime : Z)
    : M ChatResponse :=
  try_write (update_request (job_request_id job) mark_processing) ;;!
  let! h := getBrowserContext (job_account_id job) in
  ensure_page h ;;!
  let! response := automateChat (job_provider job) h ps (job_prompt job) in
  charge_usage job h response startTime.

(** The [catch] block: it ends by rethrowing the error. *)
Definition process_failure (job : ChatRequestJob) (startTime : Z) (errorMessage : string)
    : M ChatResponse :=
  let accountId := job_account_id job in
  let provider := job_provider job in
  let requestId := job_request_id job in
  let! t1 := now in
  let latencyMs := (t1 - startTime)%Z in
  screenshot_on_error accountId requestId ;;!
  logUsage accountId provider (Some requestId) 0 latencyMs usage_error (Some errorMessage) ;;!
  let! t2 := now in
  try_write (update_request requestId (fail_request errorMessage latencyMs t2)) ;;!
  (if auth_lost errorMessage then updateAccountStatus accountId expired else se_ret tt) ;;!
  se_throw errorMessage.

(** The processor given to [new Worker('chat-requests', ..)]. *)
Definition processJob (job : ChatRequestJob) (ps : PageScript) : M ChatResponse :=
  let! startTime := now in
  se_catch (process_body job ps startTime) (process_failure job startTime).

(** ** Frames *)

Lemma db_br_update f : kept db_frame (br_update f).
Proof. intros w w' r [= <- _]. split; [split; simpl; [done|lia]|done]. Qed.

Lemma db_br_read {A} (f : BState → A) : kept db_frame (br_read f).
Proof. apply kept_read, _. Qed.

Lemma db_upload key : kept db_frame (upload key).
Proof.
  intros w w' r. unfold upload. case_match; intros [= <- _]; split; [split; simpl; [done|lia]|done| |done].
  split; simpl; [done|lia].
Qed.

#[export] Hint Resolve db_br_update db_br_read db_upload : kept.

Lemma loadSession_db a : kept db_frame (loadSession a).
Proof. unfold loadSession. keep. apply kept_read, _. Qed.

Lemma launch_db a : kept db_frame (launchPersistentContext a).
Proof. unfold launchPersistentContext. keep. intros w w' r [= <- _]. split; [split; simpl; [done|lia]|done]. Qed.

Lemma restore_if_valid_db h s : kept db_frame (restore_if_valid h s).
Proof. unfold restore_if_valid, restoreSession. keep. Qed.

#[export] Hint Resolve loadSession_db launch_db restore_if_valid_db : kept.

Lemma getBrowserContext_db a : kept db_frame (getBrowserContext a).
Proof.
  intros w w' r. unfold getBrowserContext. destruct (b_pool (w_br w) !! a).
  - intros [= <- _]. reflexivity.
  - apply kept_bind; [apply _|eauto with kept|intros s].
    apply kept_bind; [apply _|eauto with kept|intros h]. keep.
Qed.

Lemma navigate_db h : kept db_frame (navigate h).
Proof. apply db_br_update. Qed.

Lemma takeScreenshot_db a n : kept db_frame (takeScreenshot a n).
Proof.
  intros w w' r. unfold takeScreenshot. destruct (env_screenshot_on_error (w_env w)).
  - revert w w' r. keep.
  - intros [= <- _]. reflexivity.
Qed.

#[export] Hint Resolve getBrowserContext_db navigate_db takeScreenshot_db : kept.

Lemma ensure_page_db h : kept db_frame (ensure_page h).
Proof. unfold ensure_page. keep. Qed.

Lemma screenshot_on_error_db a rid : kept db_frame (screenshot_on_error a rid).
Proof. unfold screenshot_on_error. keep. Qed.

Lemma automateChat_db p h ps prompt : kept db_frame (automateChat p h ps prompt).
Proof.
  intros w w' r. rewrite automateChat_cases. intros [= <- _].
  destruct (labels_of p); [|reflexivity]. split; [split; simpl; [done|lia]|done].
Qed.

#[export] Hint Resolve ensure_page_db screenshot_on_error_db automateChat_db : kept.

(** Every operation of the worker keeps the environment and reads the
    clock forward. *)
Lemma db_frame_kept_env {A} (m : M A) : kept db_frame m → kept env_mono m.
Proof. apply kept_weaken. apply db_frame_env. Qed.

#[export] Hint Resolve db_frame_kept_env : kept.

Lemma saveSession_env a cs ls t : kept env_mono (saveSession a cs ls t).
Proof. unfold saveSession. keep. intros w w' r. case_match; intros [= <- _]; [reflexivity|]. split; simpl; [done|lia]. Qed.

#[export] Hint Resolve saveSession_env : kept.

Lemma updateAccountStatus_env a st : kept env_mono (updateAccountStatus a st).
Proof. unfold updateAccountStatus. keep. Qed.
Lemma updateQuota_env a p t : kept env_mono (updateQuota a p t).
Proof. unfold updateQuota. keep. Qed.
Lemma logUsage_env a p rid t l st m : kept env_mono (logUsage a p rid t l st m).
Proof. unfold logUsage. keep. Qed.
Lemma saveBrowserSession_env a h : kept env_mono (saveBrowserSession a h).
Proof. unfold saveBrowserSession. keep. Qed.

#[export] Hint Resolve updateAccountStatus_env updateQuota_env logUsage_env saveBrowserSession_env : kept.

Lemma processJob_env job ps : kept env_mono (processJob job ps).
Proof. unfold processJob, process_body, charge_usage, finish_success, process_failure. keep. Qed.

(** ** Operations whose calls do not reject *)

Lemma updateQuota_ok cs a p t w :
  calls_ok cs w → CUpdateQuota ∈ cs →
  updateQuota a p t w =
    (set_db (db_set_quotas (update_quota_usage a p t (db_quotas (w_db w))) (w_db w))
            (bump CUpdateQuota w), inr tt).
Proof. intros H Hc. unfold updateQuota. by rewrite (se_bind_inr _ _ _ _ _ (call_ok_cs _ _ _ H Hc)). Qed.

Definition usage_row (a p rid : string) (tokens latency : Z) (st : usage_status)
    (msg : option string) : UsageLog :=
  {| ul_account_id := a; ul_provider := p; ul_request_id := Some rid; ul_tokens_used := tokens;
     ul_estimated_cost := calculateCost p tokens; ul_latency_ms := latency; ul_status := st;
     ul_error_message := msg |}.

Lemma logUsage_ok cs a p rid t l st m w :
  calls_ok cs w → CLogUsage ∈ cs →
  logUsage a p (Some rid) t l st m w =
    (set_db (db_set_usage_logs (db_usage_logs (w_db w) ++ [usage_row a p rid t l st m]) (w_db w))
            (bump CLogUsage w), inr tt).
Proof. intros H Hc. unfold logUsage. by rewrite (se_bind_inr _ _ _ _ _ (call_ok_cs _ _ _ H Hc)). Qed.

Lemma updateAccountStatus_ok cs a st w :
  calls_ok cs w → CUpdateAccountStatus ∈ cs →
  updateAccountStatus a st w =
    (set_db (update_account a (with_status st (env_clock (w_env w) (w_clock_reads w))) (w_db w))
            (bump CUpdateAccountStatus (tick w)), inr tt).
Proof.
  intros H Hc. unfold updateAccountStatus.
  rewrite (se_bind_inr now _ w (tick w) _ eq_refl).
  by rewrite (se_bind_inr _ _ _ _ _ (call_ok_cs cs _ (tick w) (calls_ok_env _ w _ eq_refl H) Hc)).
Qed.

Lemma loadSession_ok cs a w :
  calls_ok cs w → CLoadSession ∈ cs →
  loadSession a w = (bump CLoadSession w, inr (single_session a (w_db w))).
Proof. intros H Hc. unfold loadSession. by rewrite (se_bind_inr _ _ _ _ _ (call_ok_cs _ _ _ H Hc)). Qed.

Lemma launch_ok cs a w :
  calls_ok cs w → CLaunch ∈ cs →
  launchPersistentContext a w = (set_br (alloc_context a (w_br w)) (bump CLaunch w), inr (b_next (w_br w))).
Proof.
  intros H Hc. unfold launchPersistentContext. by rewrite (se_bind_inr _ _ _ _ _ (call_ok_cs _ _ _ H Hc)).
Qed.

Lemma getBrowserContext_ok cs a w :
  calls_ok cs w → CLoadSession ∈ cs → CLaunch ∈ cs → pool_wf (w_br w) →
  ∃ w' h c, getBrowserContext a w = (w', inr h) ∧ db_frame w w' ∧ pool_wf (w_br w') ∧
    b_ctxs (w_br w') !! h = Some c ∧ ctx_open c = true.
Proof.
  intros H H1 H2 Hwf.
  assert (∃ w' h, getBrowserContext a w = (w', inr h)) as (w' & h & E).
  { unfold getBrowserContext. destruct (b_pool (w_br w) !! a); [eauto|].
    rewrite (se_bind_inr _ _ _ _ _ (loadSession_ok _ _ _ H H1)). cbv beta.
    rewrite (se_bind_inr _ _ _ _ _
               (launch_ok _ a (bump CLoadSession w) (calls_ok_env _ w _ eq_refl H) H2)).
    cbv beta.
    match goal with |- context [se_bind (restore_if_valid ?h ?s) ?f ?W] =>
      destruct (restore_if_valid h s W) as [w3 [e|[]]] eqn:E3;
      [by apply restore_if_valid_total in E3|rewrite (se_bind_inr _ _ _ _ _ E3)] end.
    eexists _, _. reflexivity. }
  pose proof (getBrowserContext_preserves_wf _ _ _ _ Hwf E) as Hwf'.
  destruct (wf_pool_live _ Hwf' a h (getBrowserContext_registered _ _ _ _ E)) as (c & Hc & Ho & _).
  exists w', h, c. split; [done|]. split; [eapply getBrowserContext_db; eauto|]. done.
Qed.

Lemma ensure_page_ok cs h c w :
  calls_ok cs w → CNewPage ∈ cs → b_ctxs (w_br w) !! h = Some c →
  ∃ w' c', ensure_page h w = (w', inr tt) ∧ db_frame w w' ∧
    b_ctxs (w_br w') !! h = Some c' ∧ ctx_pages c' ≠ 0 ∧ same_identity c c'.
Proof.
  intros H Hn Hc. unfold ensure_page.
  rewrite (se_bind_inr (br_read (pages_of h)) _ w w (pages_of h (w_br w)) eq_refl).
  unfold pages_of, ctx_of. rewrite Hc. simpl.
  destruct (decide (ctx_pages c = 0)) as [E|E].
  - rewrite (se_bind_inr _ _ _ _ _ (call_ok_cs _ _ _ H Hn)).
    eexists _, (ctx_add_page c). split; [reflexivity|].
    split; [split; [split; simpl; [done|lia]|done]|]. simpl. rewrite lookup_alter_eq, Hc.
    split; [done|]. split; [simpl; lia|done].
  - exists w, c. split; [done|]. split; [reflexivity|]. done.
Qed.

Definition session_row (a : string) (h : nat) (w : World) : BrowserSession :=
  {| bs_account_id := a; bs_cookies := cookies_of h (w_br w);
     bs_local_storage := storage_of h (w_br w);
     bs_expires_at := env_clock (w_env w) (w_clock_reads w) + session_ttl_ms;
     bs_updated_at := env_clock (w_env w) (S (w_clock_reads w)) |}.

Definition save_world (w : World) : World :=
  bump CSaveSession (tick (tick (bump CEvaluate (bump CCookies w)))).

Lemma saveBrowserSession_ok cs a h w :
  calls_ok cs w → CCookies ∈ cs → CEvaluate ∈ cs → CSaveSession ∈ cs →
  pages_of h (w_br w) ≠ 0 →
  saveBrowserSession a h w =
    if env_session_unique (w_env w) && bool_decide (sessions_of a (db_sessions (w_db w)) ≠ [])
    then (save_world w, inl unique_violation_msg)
    else (set_db (db_set_sessions (db_sessions (w_db w) ++ [session_row a h w]) (w_db w))
                 (save_world w), inr tt).
Proof.
  intros H H1 H2 H3 Hp.
  cbv [saveBrowserSession saveSession se_bind br_read now call se_ret]. cbn.
  rewrite (H CCookies) by done. cbn. rewrite decide_False by done. cbn.
  rewrite (H CEvaluate) by done. cbn. rewrite (H CSaveSession) by done. cbn.
  reflexivity.
Qed.

Lemma ensure_page_evolves h : br_evolves (ensure_page h).
Proof. unfold ensure_page. evolve. Qed.

Lemma navigate_pages h h' w : pages_of h' (w_br (fst (navigate h w))) = pages_of h' (w_br w).
Proof.
  unfold navigate, br_update, se_modify, pages_of, ctx_of. simpl.
  destruct (decide (h = h')) as [->|Hne].
  - rewrite lookup_alter_eq. by destruct (b_ctxs (w_br w) !! h').
  - by rewrite lookup_alter_ne.
Qed.

(** The world after [automateChat]: navigated when the tag is known. *)
Definition after_chat (provider : string) (h : nat) (w : World) : World :=
  match labels_of provider with
  | Some _ => set_br (w_br (fst (navigate h w))) w
  | None => w
  end.

Lemma after_chat_facts p h w :
  db_frame w (after_chat p h w) ∧ pages_of h (w_br (after_chat p h w)) = pages_of h (w_br w) ∧
  (pool_wf (w_br w) → pool_wf (w_br (after_chat p h w))).
Proof.
  unfold after_chat. destruct (labels_of p); [|split; [reflexivity|done]].
  split; [split; [split; simpl; [done|lia]|done]|]. split; [apply navigate_pages|].
  intros Hwf. eapply pool_wf_evolves; [exact Hwf|]. eapply (navigate_evolves h w).
  apply surjective_pairing.
Qed.

(** The [try] block up to the adapter's outcome: the request is marked
    [processing], a context with a page is held, and the outcome of the
    adapter decides the rest. *)
Lemma process_body_prefix cs job ps t0 w :
  calls_ok cs w → CDbWrite ∈ cs → CLoadSession ∈ cs → CLaunch ∈ cs → CNewPage ∈ cs →
  pool_wf (w_br w) →
  ∃ w3 h, env_mono w w3 ∧ w_db w3 = update_request (job_request_id job) mark_processing (w_db w) ∧
    pages_of h (w_br w3) ≠ 0 ∧ pool_wf (w_br w3) ∧
    process_body job ps t0 w =
      match chat_result (job_provider job) ps (job_prompt job) with
      | inl m => (w3, inl m)
      | inr r => charge_usage job h r t0 w3
      end.
Proof.
  intros H HD HL HC HN Hwf. unfold process_body.
  rewrite (se_bind_inr _ _ _ _ _ (try_write_ok _ _ _ H HD)). cbv beta.
  destruct (getBrowserContext_ok cs (job_account_id job)
              (set_db (update_request (job_request_id job) mark_processing (w_db w)) (bump CDbWrite w))
              (calls_ok_env _ w _ eq_refl H) HL HC Hwf) as (w2 & h & c & E2 & F2 & Wf2 & Hc & _).
  rewrite (se_bind_inr _ _ _ _ _ E2). cbv beta.
  destruct (ensure_page_ok cs h c w2 (calls_ok_mono _ _ _ (db_frame_env _ _ F2) (calls_ok_env _ w _ eq_refl H)) HN Hc)
    as (w3 & c' & E3 & F3 & Hc' & Hp' & _).
  rewrite (se_bind_inr _ _ _ _ _ E3). cbv beta.
  destruct (after_chat_facts (job_provider job) h w3) as (F4 & P4 & W4).
  exists (after_chat (job_provider job) h w3), h.
  split; [|split; [|split; [|split]]].
  - transitivity (set_db (update_request (job_request_id job) mark_processing (w_db w))
                         (bump CDbWrite w)); [split; simpl; [done|lia]|].
    apply db_frame_env. transitivity w2; [exact F2|]. by transitivity w3.
  - destruct F4 as [_ ->], F3 as [_ ->], F2 as [_ ->]. reflexivity.
  - rewrite P4. unfold pages_of, ctx_of. by rewrite Hc'.
  - apply W4. eapply pool_wf_evolves; [exact Wf2|]. eapply ensure_page_evolves; eauto.
  - unfold se_bind at 1. rewrite automateChat_cases. fold (after_chat (job_provider job) h w3).
    by destruct (chat_result _ _ _).
Qed.

(** The datastore once the quota is charged and the usage logged. *)
Definition charged_db (job : ChatRequestJob) (r : ChatResponse) (latencyMs : Z) (d : Db) : Db :=
  let a := job_account_id job in
  let p := job_provider job in
  let d1 := db_set_quotas (update_quota_usage a p (cr_tokens r) (db_quotas d)) d in
  db_set_usage_logs (db_usage_logs d1 ++
    [usage_row a p (job_request_id job) (cr_tokens r) latencyMs success None]) d1.

Lemma charge_usage_ok cs job h r t0 w :
  calls_ok cs w → CUpdateQuota ∈ cs → CLogUsage ∈ cs →
  let L := (env_clock (w_env w) (w_clock_reads w) - t0)%Z in
  charge_usage job h r t0 w =
    finish_success job h r L
      (set_db (charged_db job r L (w_db w))
         (bump CLogUsage (set_db (db_set_quotas (update_quota_usage (job_account_id job)
                                    (job_provider job) (cr_tokens r) (db_quotas (w_db w))) (w_db w))
                                 (bump CUpdateQuota (tick w))))).
Proof.
  intros H HQ HL L. unfold charge_usage.
  rewrite (se_bind_inr now _ w (tick w) _ eq_refl). cbv beta.
  ok_step (updateQuota_ok cs). ok_step (logUsage_ok cs). reflexivity.
Qed.

(** The end of the [try] block when the session row can be written. *)
Lemma finish_success_ok cs job h r L w :
  calls_ok cs w → CCookies ∈ cs → CEvaluate ∈ cs → CSaveSession ∈ cs → CDbWrite ∈ cs →
  pages_of h (w_br w) ≠ 0 →
  env_session_unique (w_env w) && bool_decide (sessions_of (job_account_id job) (db_sessions (w_db w)) ≠ [])
    = false →
  ∃ w' t2 t3, finish_success job h r L w = (w', inr r) ∧ env_mono w w' ∧
    w_db w' = update_request (job_request_id job) (complete_request (job_provider job) r L t3)
                (update_account (job_account_id job) (with_last_used t2)
                   (db_set_sessions (db_sessions (w_db w) ++ [session_row (job_account_id job) h w])
                                    (w_db w))).
Proof.
  intros H H1 H2 H3 H4 Hp Hu. unfold finish_success, se_bind at 1.
  rewrite (saveBrowserSession_ok cs _ _ _ H H1 H2 H3 Hp), Hu. cbn [se_bind now se_ret].
  ok_step (try_write_ok cs). cbn [se_bind now se_ret]. ok_step (try_write_ok cs).
  do 3 eexists. split; [reflexivity|]. split; [split; simpl; [done|lia]|]. reflexivity.
Qed.

(** With a unique [account_id] and a row already there, the session
    save rejects and nothing after it runs. *)
Lemma finish_success_dup cs job h r L w :
  calls_ok cs w → CCookies ∈ cs → CEvaluate ∈ cs → CSaveSession ∈ cs →
  pages_of h (w_br w) ≠ 0 →
  env_session_unique (w_env w) = true →
  sessions_of (job_account_id job) (db_sessions (w_db w)) ≠ [] →
  finish_success job h r L w = (save_world w, inl unique_violation_msg).
Proof.
  intros H H1 H2 H3 Hp Hu Hs. unfold finish_success, se_bind at 1.
  rewrite (saveBrowserSession_ok cs _ _ _ H H1 H2 H3 Hp), Hu, bool_decide_true by done.
  reflexivity.
Qed.

(** ** The [catch] block *)

Lemma takeScreenshot_total a n : se_total (takeScreenshot a n).
Proof.
  intros w. unfold takeScreenshot. destruct (env_screenshot_on_error (w_env w)); [|eauto].
  exact (se_total_catch _ _ (fun _ => se_total_ret None) w).
Qed.

Lemma br_read_total {A} (f : BState → A) : se_total (br_read f).
Proof. intros w. eauto. Qed.

#[local] Hint Resolve takeScreenshot_total br_read_total : total.

(** The screenshot block never throws: [getBrowserContext]'s rejection
    is caught by [.catch(() => null)] and [takeScreenshot] catches its own. *)
Lemma screenshot_on_error_total a rid : se_total (screenshot_on_error a rid).
Proof.
  unfold screenshot_on_error. apply se_total_bind; [auto with total|].
  intros [h|]; [|auto with total]. apply se_total_bind; [auto with total|].
  intros p. case_decide; auto with total.
Qed.

(** The datastore after the [catch] block's writes: the error usage row
    and the failed request. *)
Definition failed_db (job : ChatRequestJob) (m : string) (latencyMs t : Z) (d : Db) : Db :=
  update_request (job_request_id job) (fail_request m latencyMs t)
    (db_set_usage_logs (db_usage_logs d ++
       [usage_row (job_account_id job) (job_provider job) (job_request_id job) 0 latencyMs
                  usage_error (Some m)]) d).

Lemma process_failure_ok cs job t0 m w :
  calls_ok cs w → CLogUsage ∈ cs → CDbWrite ∈ cs → CUpdateAccountStatus ∈ cs →
  ∃ w' t2, process_failure job t0 m w = (w', inl m) ∧ env_mono w w' ∧
    let L := (env_clock (w_env w) (w_clock_reads w) - t0)%Z in
    if auth_lost m
    then ∃ T, w_db w' = update_account (job_account_id job) (with_status expired T)
                          (failed_db job m L t2 (w_db w))
    else w_db w' = failed_db job m L t2 (w_db w).
Proof.
  intros H HL HW HU. unfold process_failure.
  rewrite (se_bind_inr now _ w (tick w) _ eq_refl). cbv beta.
  destruct (screenshot_on_error_total (job_account_id job) (job_request_id job) (tick w))
    as (w1 & [] & E1).
  destruct (screenshot_on_error_db _ _ _ _ _ E1) as [[Ee Ec] Hd]. cbn in Ec.
  assert (H1 : calls_ok cs w1) by (eapply calls_ok_env; [exact Ee|exact H]).
  rewrite (se_bind_inr _ _ _ _ _ E1). cbv beta.
  ok_step (logUsage_ok cs). cbn [se_bind now se_ret]. ok_step (try_write_ok cs).
  destruct (auth_lost m).
  - ok_step (updateAccountStatus_ok cs). eexists _, _. split; [reflexivity|].
    split; [split; simpl; [exact Ee|lia]|]. eexists. simpl. by rewrite Hd.
  - eexists _, _. split; [reflexivity|].
    split; [split; simpl; [exact Ee|lia]|]. simpl. by rewrite Hd.
Qed.

(** ** The processor end to end *)

(** The external calls of the processor's main path (the screenshot's
    are caught). *)
Definition worker_calls : list Call :=
  [CDbWrite; CLoadSession; CLaunch; CNewPage; CUpdateQuota; CLogUsage; CCookies; CEvaluate;
   CSaveSession; CUpdateAccountStatus].

(** The datastore after a completed job: request marked [processing],
    quota charged and success logged, session row appended, account
    touched, request completed. *)
Definition completed_db (job : ChatRequestJob) (r : ChatResponse) (latencyMs t2 t3 : Z)
    (s : BrowserSession) (d : Db) : Db :=
  let d1 := charged_db job r latencyMs (update_request (job_request_id job) mark_processing d) in
  update_request (job_request_id job) (complete_request (job_provider job) r latencyMs t3)
    (update_account (job_account_id job) (with_last_used t2)
       (db_set_sessions (db_sessions d1 ++ [s]) d1)).

Ltac worker_calls_in := unfold worker_calls; set_solver.

(** The success path of the processor: with no rejected call and an
    adapter run that returns [r], the job resolves with [r] and the
    datastore is [completed_db] for a latency read [k] clock readings
    after the start. *)
Lemma processJob_success_db job ps w r :
  calls_ok worker_calls w → pool_wf (w_br w) →
  chat_result (job_provider job) ps (job_prompt job) = inr r →
  env_session_unique (w_env w) &&
    bool_decide (sessions_of (job_account_id job) (db_sessions (w_db w)) ≠ []) = false →
  ∃ w' k t2 t3 s, processJob job ps w = (w', inr r) ∧ env_mono w w' ∧
    (w_clock_reads w < k)%nat ∧ bs_account_id s = job_account_id job ∧
    w_db w' = completed_db job r (env_clock (w_env w) k - env_clock (w_env w) (w_clock_reads w))
                t2 t3 s (w_db w).
Proof.
  intros H Hwf Hr Hu. unfold processJob.
  rewrite (se_bind_inr now _ w (tick w) _ eq_refl). cbv beta.
  destruct (process_body_prefix worker_calls job ps (env_clock (w_env w) (w_clock_reads w))
              (tick w) H) as (w3 & h & M3 & D3 & P3 & W3 & E3);
    [worker_calls_in..|exact Hwf|].
  assert (H3 : calls_ok worker_calls w3) by (eapply calls_ok_mono; [exact M3|exact H]).
  destruct M3 as [Ee Ec]; cbn in Ee, Ec, D3.
  rewrite Hr, (charge_usage_ok worker_calls) in E3 by (done || worker_calls_in).
  match type of E3 with context [finish_success _ _ _ ?L ?W] =>
    destruct (finish_success_ok worker_calls job h r L W) as (w' & t2 & t3 & E4 & M4 & D4);
    [exact H3|worker_calls_in..|exact P3| |] end.
  { simpl. rewrite Ee, D3. exact Hu. }
  rewrite E4 in E3. rewrite (se_catch_inr _ _ _ _ _ E3).
  exists w', (w_clock_reads w3), t2, t3. eexists. split; [done|].
  split; [|split; [lia|split; swap 1 2]].
  - transitivity w3; [split; [exact Ee|simpl; lia]|].
    etransitivity; [|exact M4]. split; simpl; [done|lia].
  - rewrite D4. simpl. rewrite Ee, D3. reflexivity.
  - reflexivity.
Qed.

(** The datastore after a failed job: request marked [processing],
    error usage row with zero tokens, request failed; the account is
    marked [expired] at some time [T] on a lost login. *)
Definition failed_job_db (job : ChatRequestJob) (m : string) (latencyMs t2 : Z) (T : Z) (d : Db) : Db :=
  let d1 := failed_db job m latencyMs t2 (update_request (job_request_id job) mark_processing d) in
  if auth_lost m then update_account (job_account_id job) (with_status expired T) d1 else d1.

(** The failure path: with no rejected call and an adapter run that
    fails with [m], the job rejects with [m] and the datastore is
    [failed_job_db]. *)
Lemma processJob_failure_db job ps w m :
  calls_ok worker_calls w → pool_wf (w_br w) →
  chat_result (job_provider job) ps (job_prompt job) = inl m →
  ∃ w' k t2 T, processJob job ps w = (w', inl m) ∧ env_mono w w' ∧ (w_clock_reads w < k)%nat ∧
    w_db w' = failed_job_db job m (env_clock (w_env w) k - env_clock (w_env w) (w_clock_reads w))
                t2 T (w_db w).
Proof.
  intros H Hwf Hr. unfold processJob.
  rewrite (se_bind_inr now _ w (tick w) _ eq_refl). cbv beta.
  destruct (process_body_prefix worker_calls job ps (env_clock (w_env w) (w_clock_reads w))
              (tick w) H) as (w3 & h & M3 & D3 & P3 & W3 & E3);
    [worker_calls_in..|exact Hwf|].
  assert (H3 : calls_ok worker_calls w3) by (eapply calls_ok_mono; [exact M3|exact H]).
  destruct M3 as [Ee Ec]; cbn in Ee, Ec, D3. rewrite Hr in E3.
  rewrite (se_catch_inl _ _ _ _ _ E3).
  destruct (process_failure_ok worker_calls job (env_clock (w_env w) (w_clock_reads w)) m w3 H3)
    as (w' & t2 & E4 & [Ee' Ec'] & D4); [worker_calls_in..|].
  rewrite E4. unfold failed_job_db. rewrite Ee, D3 in D4.
  destruct (auth_lost m); [destruct D4 as [T D4]|];
    exists w', (w_clock_reads w3), t2; [exists T|exists 0%Z];
    (split; [done|]); (split; [split; [congruence|lia]|]); (split; [lia|done]).
Qed.

(** ** The session save of a second successful job *)

Lemma auth_lost_unique_violation : auth_lost unique_violation_msg = false.
Proof. reflexivity. Qed.

(** C9: When [browser_sessions.account_id] is unique and the account
    already has a session row, a job whose automation succeeded still
    fails: [saveSession]'s upsert (conflict target [id]) violates the
    constraint after the quota was charged and the [success] usage row
    written, so the datastore also gets an [error] usage row and a
    [failed] request. *)
Theorem processJob_save_conflict job ps w r :
  calls_ok worker_calls w → pool_wf (w_br w) →
  chat_result (job_provider job) ps (job_prompt job) = inr r →
  env_session_unique (w_env w) = true →
  sessions_of (job_account_id job) (db_sessions (w_db w)) ≠ [] →
  ∃ w' L L' t2, processJob job ps w = (w', inl unique_violation_msg) ∧
    w_db w' = failed_db job unique_violation_msg L' t2
                (charged_db job r L (update_request (job_request_id job) mark_processing (w_db w))).
Proof.
  intros H Hwf Hr Hu Hs. unfold processJob.
  rewrite (se_bind_inr now _ w (tick w) _ eq_refl). cbv beta.
  destruct (process_body_prefix worker_calls job ps (env_clock (w_env w) (w_clock_reads w))
              (tick w) H) as (w3 & h & M3 & D3 & P3 & W3 & E3);
    [worker_calls_in..|exact Hwf|].
  assert (H3 : calls_ok worker_calls w3) by (eapply calls_ok_mono; [exact M3|exact H]).
  destruct M3 as [Ee Ec]; cbn in Ee, Ec, D3.
  rewrite Hr, (charge_usage_ok worker_calls) in E3 by (done || worker_calls_in).
  match type of E3 with context [finish_success _ _ _ ?L ?W] =>
    rewrite (finish_success_dup worker_calls job h r L W) in E3;
    [|exact H3|worker_calls_in..|exact P3|simpl; by rewrite Ee|simpl; by rewrite D3] end.
  rewrite (se_catch_inl _ _ _ _ _ E3).
  match goal with |- context [process_failure _ ?t ?m ?W] =>
    destruct (process_failure_ok worker_calls job t m W) as (w' & t2 & E4 & _ & D4);
    [exact H3|worker_calls_in..|] end.
  rewrite E4. rewrite auth_lost_unique_violation in D4.
  do 4 eexists. split; [reflexivity|]. rewrite D4. simpl. by rewrite D3.
Qed.

(** ** Row-level consequences *)

(** C4: Spec §4.3 step 6 and the second scenario of §8: when the page of
    a known provider loads without the logged-in marker, the job
    rejects with a lost-login message, the account row (if any) is
    marked [expired] and the request row (if any) becomes [failed]
    with that message. *)
Theorem processJob_lost_login job ps w :
  calls_ok worker_calls w → pool_wf (w_br w) →
  known_provider (job_provider job) = true → ps_goto ps = None → ps_logged_in ps = false →
  ∃ w' msg, processJob job ps w = (w', inl msg) ∧ auth_lost msg = true ∧
    acc_status <$> db_accounts (w_db w') !! job_account_id job =
      (λ _, expired) <$> db_accounts (w_db w) !! job_account_id job ∧
    (λ q, (req_status q, req_error_message q)) <$> db_requests (w_db w') !! job_request_id job =
      (λ _, (failed, Some msg)) <$> db_requests (w_db w) !! job_request_id job.
Proof.
  intros H Hwf Hk Hg Hl.
  destruct (chat_result_not_logged_in _ _ (job_prompt job) Hk Hg Hl) as (msg & Hr & Ha).
  destruct (processJob_failure_db job ps w msg H Hwf Hr) as (w' & k & t2 & T & E & _ & _ & D).
  exists w', msg. split; [done|]. split; [done|].
  rewrite D. unfold failed_job_db, failed_db. rewrite Ha. db_simpl.
  split; [by destruct (db_accounts (w_db w) !! _)|by destruct (db_requests (w_db w) !! _)].
Qed.

(** C2: Spec §4.3 step 4 and the first scenario of §8: when no call
    rejects, the adapter returns [r] and the session row can be
    written, the job resolves with [r]; the request row becomes
    [completed] with the response text, its token count and a latency
    that is not negative under a forward clock; the quota counters grow
    by the tokens ([update_quota_usage]); one [success] usage row with
    the tokens and that latency is appended; the account's status is
    unchanged. *)
Theorem processJob_completes job ps w r :
  calls_ok worker_calls w → pool_wf (w_br w) → clock_monotone (w_env w) →
  chat_result (job_provider job) ps (job_prompt job) = inr r →
  env_session_unique (w_env w) &&
    bool_decide (sessions_of (job_account_id job) (db_sessions (w_db w)) ≠ []) = false →
  ∃ w' L, processJob job ps w = (w', inr r) ∧ (0 <= L)%Z ∧
    (λ q, (req_status q, req_response q, req_tokens_used q, req_latency_ms q)) <$>
      db_requests (w_db w') !! job_request_id job =
      (λ _, (completed, Some (cr_text r), Some (cr_tokens r), Some L)) <$>
      db_requests (w_db w) !! job_request_id job ∧
    db_quotas (w_db w') =
      update_quota_usage (job_account_id job) (job_provider job) (cr_tokens r) (db_quotas (w_db w)) ∧
    db_usage_logs (w_db w') = db_usage_logs (w_db w) ++
      [usage_row (job_account_id job) (job_provider job) (job_request_id job) (cr_tokens r) L
                 success None] ∧
    acc_status <$> db_accounts (w_db w') !! job_account_id job =
      acc_status <$> db_accounts (w_db w) !! job_account_id job.
Proof.
  intros H Hwf Hmono Hr Hu.
  destruct (processJob_success_db job ps w r H Hwf Hr Hu) as (w' & k & t2 & t3 & s & E & _ & Hk & _ & D).
  exists w', (env_clock (w_env w) k - env_clock (w_env w) (w_clock_reads w))%Z.
  split; [exact E|]. split; [apply Z.le_0_sub, Hmono; lia|].
  rewrite D. unfold completed_db, charged_db. db_simpl.
  split; [by destruct (db_requests (w_db w) !! _)|].
  split; [done|]. split; [done|]. by destruct (db_accounts (w_db w) !! _).
Qed.

(** C5: Spec §7: an automation failure that is not a lost login
    ([ExtractionFailed], [Timeout]) fails the job and leaves the
    account untouched: the job rejects with the adapter's message, the
    request row becomes [failed] with that message, one [error] usage
    row with zero tokens is appended, and the account and quota rows
    are unchanged. *)
Theorem processJob_transient_failure job ps w m :
  calls_ok worker_calls w → pool_wf (w_br w) →
  chat_result (job_provider job) ps (job_prompt job) = inl m → auth_lost m = false →
  ∃ w' L, processJob job ps w = (w', inl m) ∧
    (λ q, (req_status q, req_error_message q)) <$> db_requests (w_db w') !! job_request_id job =
      (λ _, (failed, Some m)) <$> db_requests (w_db w) !! job_request_id job ∧
    db_usage_logs (w_db w') = db_usage_logs (w_db w) ++
      [usage_row (job_account_id job) (job_provider job) (job_request_id job) 0 L
                 usage_error (Some m)] ∧
    db_accounts (w_db w') = db_accounts (w_db w) ∧ db_quotas (w_db w') = db_quotas (w_db w).
Proof.
  intros H Hwf Hr Ha.
  destruct (processJob_failure_db job ps w m H Hwf Hr) as (w' & k & t2 & T & E & _ & _ & D).
  eexists w', _. split; [exact E|].
  rewrite D. unfold failed_job_db, failed_db. rewrite Ha. db_simpl.
  split; [by destruct (db_requests (w_db w) !! _)|]. done.
Qed.

Lemma single_session_dup a d rows s :
  db_sessions d = rows ++ [s] → sessions_of a rows ≠ [] → bs_account_id s = a →
  single_session a d = None.
Proof.
  unfold single_session, sessions_of. intros -> Hne Ha.
  rewrite filter_app, filter_cons_True by done. destruct (filter _ rows) as [|? [|]]; done.
Qed.

(** C36: When [browser_sessions.account_id] is not unique, a successful job
    for an account that already has a session row appends a second
    one, after which [loadSession]'s [.single()] finds no single row:
    the session is never restored again. *)
Theorem processJob_duplicate_session job ps w r :
  calls_ok worker_calls w → pool_wf (w_br w) →
  chat_result (job_provider job) ps (job_prompt job) = inr r →
  env_session_unique (w_env w) = false →
  sessions_of (job_account_id job) (db_sessions (w_db w)) ≠ [] →
  ∃ w', processJob job ps w = (w', inr r) ∧ single_session (job_account_id job) (w_db w') = None.
Proof.
  intros H Hwf Hr Hu Hs.
  destruct (processJob_success_db job ps w r H Hwf Hr) as (w' & k & t2 & t3 & s & E & _ & _ & Hsa & D);
    [by rewrite Hu|].
  exists w'. split; [exact E|]. rewrite D.
  by apply (single_session_dup _ _ (db_sessions (w_db w)) s).
Qed.

(** ** A rejected usage insert in the [catch] block *)

(** Every call of kind [c] rejects with [e]: the service is down. *)
Definition call_down (c : Call) (e : string) (w : World) : Prop := ∀ n, env_fault (w_env w) c n = Some e.

Lemma logUsage_down a p rid t l st msg e w :
  call_down CLogUsage e w → logUsage a p rid t l st msg w = (bump CLogUsage w, inl e).
Proof. intros Hd. unfold logUsage, se_bind, call. by rewrite Hd. Qed.

(** C37: When the [usage_logs] insert rejects, the [catch] block of a failed
    job throws that error before it writes the request: the job
    rejects with the insert's error instead of the adapter's, the
    request row stays [processing], no usage row is written and no
    account row changes, even after a lost login. *)
Theorem processJob_log_rejection job ps w m e :
  calls_ok [CDbWrite; CLoadSession; CLaunch; CNewPage] w → call_down CLogUsage e w →
  pool_wf (w_br w) → chat_result (job_provider job) ps (job_prompt job) = inl m →
  ∃ w', processJob job ps w = (w', inl e) ∧
    req_status <$> db_requests (w_db w') !! job_request_id job =
      (λ _, processing) <$> db_requests (w_db w) !! job_request_id job ∧
    db_usage_logs (w_db w') = db_usage_logs (w_db w) ∧ db_accounts (w_db w') = db_accounts (w_db w).
Proof.
  intros H Hd Hwf Hr. unfold processJob.
  rewrite (se_bind_inr now _ w (tick w) _ eq_refl). cbv beta.
  destruct (process_body_prefix _ job ps (env_clock (w_env w) (w_clock_reads w)) (tick w) H)
    as (w3 & h & [Ee _] & D3 & _ & _ & E3); [set_solver..|exact Hwf|].
  cbn in Ee, D3. rewrite Hr in E3. rewrite (se_catch_inl _ _ _ _ _ E3).
  unfold process_failure. rewrite (se_bind_inr now _ w3 (tick w3) _ eq_refl). cbv beta.
  destruct (screenshot_on_error_total (job_account_id job) (job_request_id job) (tick w3))
    as (w1 & [] & E1).
  destruct (screenshot_on_error_db _ _ _ _ _ E1) as [[Ee1 _] Hd1]. cbn in Ee1, Hd1.
  rewrite (se_bind_inr _ _ _ _ _ E1). cbv beta.
  unfold se_bind at 1. rewrite (logUsage_down _ _ _ _ _ _ _ e) by (intros n; rewrite Ee1, Ee; apply Hd).
  eexists. split; [reflexivity|]. simpl. rewrite Hd1, D3. db_simpl.
  split; [by destruct (db_requests (w_db w) !! _)|done].
Qed.

(** ** Concrete runs *)

Lemma world_start_wf e d : pool_wf (w_br (world_start e d)).
Proof. apply pool_reachable_wf, pr_start; reflexivity. Qed.



Section Examples.
Local Open Scope string_scope.

Definition ex_account : Account :=
  {| acc_id := "A"; acc_user_id := "U"; acc_provider := "chatgpt"; acc_email := "a@example.com";
     acc_status := active; acc_last_used_at := None; acc_updated_at := 0 |}.

Definition ex_request : Request :=
  {| req_id := "R1"; req_user_id := "U"; req_api_key_id := None; req_prompt := "hello";
     req_provider_requested := Some "chatgpt"; req_provider_used := None;
     req_account_id := Some "A"; req_status := queued; req_priority := 5;
     req_response := None; req_tokens_used := None; req_latency_ms := None;
     req_error_message := None; req_completed_at := None |}.

Definition ex_job : ChatRequestJob :=
  {| job_request_id := "R1"; job_account_id := "A"; job_provider := "chatgpt";
     job_prompt := "hello"; job_priority := 5 |}.

(** Account [A], request [R1], the given session rows; no call
    rejects; the clock reads 0, 1000, 2000, ... milliseconds. *)
Definition ex_wk (unique : bool) (sessions : list BrowserSession) : World :=
  world_start {| env_fault := λ _ _, None; env_clock := λ n, (Z.of_nat n * 1000)%Z;
                 env_session_unique := unique; env_screenshot_on_error := true |}
    {| db_accounts := {["A" := ex_account]}; db_requests := {["R1" := ex_request]};
       db_quotas := []; db_sessions := sessions; db_usage_logs := []; db_alerts := [];
       db_api_keys := ∅ |}.

(** The page answers "Hi there" to "hello": [Math.ceil(13 / 4)] tokens. *)
Definition ex_answer : PageScript := ex_page true None (Some "Hi there").

Definition ex_resp : ChatResponse :=
  {| cr_text := "Hi there"; cr_tokens := 4; cr_provider := "chatgpt"; cr_model := "chatgpt-web" |}.
End Examples.

(** The hypotheses every concrete run below discharges. *)
Ltac ex_hyps :=
  first [ apply world_start_quiet_calls | apply world_start_wf | reflexivity
        | vm_compute; reflexivity | intros ?i ?j ?Hij; simpl; lia | discriminate ].

(** ** Witnesses *)

Lemma processJob_lost_login_witness :
  ∃ w' msg, processJob ex_job (ex_page false None None) (ex_wk false []) = (w', inl msg) ∧
    auth_lost msg = true ∧
    acc_status <$> db_accounts (w_db w') !! "A"%string = Some expired ∧
    (λ q, (req_status q, req_error_message q)) <$> db_requests (w_db w') !! "R1"%string =
      Some (failed, Some msg).
Proof.
  destruct (processJob_lost_login ex_job (ex_page false None None) (ex_wk false []))
    as (w' & msg & H); [ex_hyps..|].
  exists w', msg. exact H.
Defined.

Lemma processJob_completes_witness :
  ∃ w' L, processJob ex_job ex_answer (ex_wk false []) = (w', inr ex_resp) ∧ (0 <= L)%Z ∧
    (λ q, (req_status q, req_response q, req_tokens_used q, req_latency_ms q)) <$>
      db_requests (w_db w') !! "R1"%string =
      Some (completed, Some "Hi there"%string, Some 4%Z, Some L) ∧
    db_quotas (w_db w') = update_quota_usage "A" "chatgpt" 4 [] ∧
    db_usage_logs (w_db w') = [usage_row "A" "chatgpt" "R1" 4 L success None] ∧
    acc_status <$> db_accounts (w_db w') !! "A"%string = Some active.
Proof.
  destruct (processJob_completes ex_job ex_answer (ex_wk false []) ex_resp)
    as (w' & L & H); [ex_hyps..|].
  exists w', L. exact H.
Defined.

Lemma processJob_save_conflict_witness :
  ∃ w' L L' t2, processJob ex_job ex_answer (ex_wk true [ex_session 5000]) =
      (w', inl unique_violation_msg) ∧
    w_db w' = failed_db ex_job unique_violation_msg L' t2
                (charged_db ex_job ex_resp L
                   (update_request "R1" mark_processing (w_db (ex_wk true [ex_session 5000])))).
Proof.
  apply (processJob_save_conflict ex_job ex_answer (ex_wk true [ex_session 5000]) ex_resp);
    ex_hyps.
Defined.

Lemma processJob_duplicate_session_witness :
  ∃ w', processJob ex_job ex_answer (ex_wk false [ex_session 5000]) = (w', inr ex_resp) ∧
    single_session "A" (w_db w') = None.
Proof.
  apply (processJob_duplicate_session ex_job ex_answer (ex_wk false [ex_session 5000]) ex_resp);
    ex_hyps.
Defined.

Lemma processJob_transient_failure_witness :
  ∃ w' L, processJob ex_job (ex_page true None None) (ex_wk false []) =
      (w', inl (extract_failed_msg "ChatGPT")) ∧
    (λ q, (req_status q, req_error_message q)) <$> db_requests (w_db w') !! "R1"%string =
      Some (failed, Some (extract_failed_msg "ChatGPT")) ∧
    db_usage_logs (w_db w') =
      [usage_row "A" "chatgpt" "R1" 0 L usage_error (Some (extract_failed_msg "ChatGPT"))] ∧
    db_accounts (w_db w') = {["A"%string := ex_account]} ∧ db_quotas (w_db w') = [].
Proof.
  destruct (processJob_transient_failure ex_job (ex_page true None None) (ex_wk false [])
              (extract_failed_msg "ChatGPT")) as (w' & L & H); [ex_hyps..|].
  exists w', L. exact H.
Defined.

Lemma processJob_log_rejection_witness :
  ∃ w', processJob ex_job (ex_page false None None)
          (world_start {| env_fault := λ c _, if decide (c = CLogUsage) then Some "insert failed"%string
                                              else None;
                          env_clock := λ n, (Z.of_nat n * 1000)%Z;
                          env_session_unique := false; env_screenshot_on_error := true |}
             (w_db (ex_wk false []))) = (w', inl "insert failed"%string) ∧
    req_status <$> db_requests (w_db w') !! "R1"%string = Some processing ∧
    db_usage_logs (w_db w') = [] ∧ db_accounts (w_db w') = {["A"%string := ex_account]}.
Proof.
  destruct (processJob_log_rejection ex_job (ex_page false None None)
    (world_start {| env_fault := λ c _, if decide (c = CLogUsage) then Some "insert failed"%string
                                        else None;
                    env_clock := λ n, (Z.of_nat n * 1000)%Z;
                    env_session_unique := false; env_screenshot_on_error := true |}
       (w_db (ex_wk false []))) (not_logged_in_msg "ChatGPT") "insert failed")
    as (w' & H); [intros c n Hc; simpl; rewrite decide_False by set_solver; reflexivity
                 |intros n; reflexivity|ex_hyps..|].
  exists w'. exact H.
Defined.
