(* ===== verification/QuotaTracker.v ===== *)
(** * QuotaTracker: the periodic pass of [src/quota-tracker/src/index.ts]

    [checkQuotas] reads every quota row with its account, and for each
    one resets the daily and monthly counters whose reset time has
    passed, raises a [quota_warning] alert when the daily ratio is in
    [[alertThreshold, 1)], and a [quota_exceeded] alert plus the
    account status [quota_exceeded] when it reaches 1, and the same for
    the monthly limit.  [checkExpiringSessions] raises a
    [session_expiring] alert for every session row expiring within
    seven days.  [sendAlert] publishes on Redis and inserts an
    [alerts] row, swallowing every error.

    The query [.select('*, accounts(..)').eq('accounts.status', 'active')]
    is modelled with PostgREST's semantics for a filter on an embedded
    resource without [!inner]: it filters the embedded account (which
    becomes [null] when it is not active), not the quota rows.  The
    scheduling by [setInterval], the health server and the logger are
    not modelled; a run is one call of [checkQuotas] or
    [checkExpiringSessions]. *)

From S2P Require Import Prelude Calendar Model.

Local Open Scope Z_scope.
Local Open Scope orch_scope.

(** [config.alertThreshold] as the fraction [alert_num / alert_den], and
    the offset of the local time zone in milliseconds. *)
Record TrackerConfig := {
  alert_num : Z;
  alert_den : Z;
  tz_ms : Z
}.

(** [parseFloat(process.env.ALERT_THRESHOLD || '0.9')] in UTC. *)
Definition config_default : TrackerConfig := {| alert_num := 9; alert_den := 10; tz_ms := 0 |}.

(** ** Ratios as JavaScript compares them

    [u / l >= n / d] and [u / l < n / d] for integers [u], [l] and a
    fraction with [d > 0], exactly; [u / 0] is [Infinity], [-Infinity]
    or [NaN] by the sign of [u], and every comparison with [NaN] is
    false. *)
Definition ratio_ge (u l n d : Z) : bool :=
  if 0 <? l then n * l <=? u * d
  else if l <? 0 then u * d <=? n * l
  else 0 <? u.

Definition ratio_lt (u l n d : Z) : bool :=
  if 0 <? l then u * d <? n * l
  else if l <? 0 then n * l <? u * d
  else u <? 0.

(** ** Rows *)

(** The embedded [accounts(..)] of a quota row under the filter
    [accounts.status = 'active']. *)
Definition embed_active (d : Db) (accountId : string) : option Account :=
  match db_accounts d !! accountId with
  | Some a => if decide (acc_status a = active) then Some a else None
  | None => None
  end.

(** [supabase.from('quotas').select('*, accounts(..)').eq('accounts.status', 'active')] *)
Definition quotas_with_active_accounts (d : Db) : list (Quota * option Account) :=
  map (fun q => (q, embed_active d (q_account_id q))) (db_quotas d).

(** [.from('quotas').update(f).eq('id', id)] *)
Definition update_quota_row (id : string) (f : Quota -> Quota) (d : Db) : Db :=
  db_set_quotas (map (fun q => if decide (q_id q = id) then f q else q) (db_quotas d)) d.

(** [{ daily_used: 0, reset_daily_at: now + 24 h, updated_at: now }] *)
Definition reset_daily (t : Z) (q : Quota) : Quota :=
  {| q_id := q_id q; q_account_id := q_account_id q; q_provider := q_provider q;
     q_daily_limit := q_daily_limit q; q_daily_used := 0; q_monthly_limit := q_monthly_limit q;
     q_monthly_used := q_monthly_used q; q_reset_daily_at := t + day_ms;
     q_reset_monthly_at := q_reset_monthly_at q; q_updated_at := t |}.

(** [{ monthly_used: 0, reset_monthly_at: new Date(y, m + 1, 1), updated_at: now }] *)
Definition reset_monthly (tz t : Z) (q : Quota) : Quota :=
  {| q_id := q_id q; q_account_id := q_account_id q; q_provider := q_provider q;
     q_daily_limit := q_daily_limit q; q_daily_used := q_daily_used q;
     q_monthly_limit := q_monthly_limit q; q_monthly_used := 0;
     q_reset_daily_at := q_reset_daily_at q;
     q_reset_monthly_at := Some (next_month_start tz t); q_updated_at := t |}.

(** [.from('accounts').update({ status })]: no [updated_at]. *)
Definition set_status (s : account_status) (a : Account) : Account :=
  {| acc_id := acc_id a; acc_user_id := acc_user_id a; acc_provider := acc_provider a;
     acc_email := acc_email a; acc_status := s; acc_last_used_at := acc_last_used_at a;
     acc_updated_at := acc_updated_at a |}.

(** ** Alerts *)

Definition alert_row (p : AlertPayload) (t : Z) : Alert :=
  {| al_kind := ap_kind p; al_account_id := ap_account_id p; al_provider := ap_provider p;
     al_data := p; al_created_at := t |}.

(** [redis.publish('quota_alerts', JSON.stringify(alert))] once accepted. *)
Definition publish (p : AlertPayload) : M unit :=
  modify_ext (fun x => {| x_uploads := x_uploads x; x_redis := x_redis x; x_queue := x_queue x;
                          x_published := x_published x ++ [p] |}).

(** [sendAlert]: a rejected publish is caught; the insert's [{ error }]
    is not read. *)
Definition sendAlert (p : AlertPayload) : M unit :=
  se_catch
    (call CPublish ;;! publish p ;;!
     let! t := now in
     try_write (fun d => db_set_alerts (db_alerts d ++ [alert_row p t]) d))
    (fun _ => se_ret tt).

Definition warning_payload (q : Quota) : AlertPayload :=
  {| ap_kind := quota_warning; ap_account_id := q_account_id q; ap_provider := Some (q_provider q);
     ap_used := Some (q_daily_used q); ap_limit := Some (q_daily_limit q);
     ap_remaining := Some (q_daily_limit q - q_daily_used q); ap_expires_at := None |}.

Definition exceeded_payload (q : Quota) : AlertPayload :=
  {| ap_kind := quota_exceeded_alert; ap_account_id := q_account_id q;
     ap_provider := Some (q_provider q); ap_used := Some (q_daily_used q);
     ap_limit := Some (q_daily_limit q); ap_remaining := None; ap_expires_at := None |}.

Definition monthly_payload (q : Quota) (limit : Z) : AlertPayload :=
  {| ap_kind := monthly_quota_exceeded; ap_account_id := q_account_id q;
     ap_provider := Some (q_provider q); ap_used := Some (q_monthly_used q);
     ap_limit := Some limit; ap_remaining := None; ap_expires_at := None |}.

(** ** [checkQuotas] *)

(** [if (quota.accounts?.status === 'quota_exceeded')]: the embedded
    account read by the query. *)
Definition reactivate (quota : Quota) (accounts : option Account) : M unit :=
  match accounts with
  | Some a =>
      if decide (acc_status a = quota_exceeded)
      then try_write (update_account (q_account_id quota) (set_status active))
      else se_ret tt
  | None => se_ret tt
  end.

(** [if (new Date(quota.reset_daily_at) <= now) { .. }] *)
Definition daily_reset_block (quota : Quota) (accounts : option Account) (t : Z) : M unit :=
  if q_reset_daily_at quota <=? t then
    try_write (update_quota_row (q_id quota) (reset_daily t)) ;;! reactivate quota accounts
  else se_ret tt.

(** [if (quota.reset_monthly_at && new Date(quota.reset_monthly_at) <= now) { .. }] *)
Definition monthly_reset_block (cfg : TrackerConfig) (quota : Quota) (t : Z) : M unit :=
  match q_reset_monthly_at quota with
  | Some r =>
      if r <=? t then try_write (update_quota_row (q_id quota) (reset_monthly (tz_ms cfg) t))
      else se_ret tt
  | None => se_ret tt
  end.

(** The two tests of [dailyUsagePercentage]. *)
Definition daily_limit_block (cfg : TrackerConfig) (quota : Quota) : M unit :=
  let used := q_daily_used quota in
  let limit := q_daily_limit quota in
  (if ratio_ge used limit (alert_num cfg) (alert_den cfg) && ratio_lt used limit 1 1
   then sendAlert (warning_payload quota) else se_ret tt) ;;!
  (if ratio_ge used limit 1 1 then
     sendAlert (exceeded_payload quota) ;;!
     try_write (update_account (q_account_id quota) (set_status quota_exceeded))
   else se_ret tt).

(** [if (quota.monthly_limit) { .. }]: a limit of [0] is falsy. *)
Definition monthly_limit_block (quota : Quota) : M unit :=
  match q_monthly_limit quota with
  | Some ml =>
      if decide (ml = 0) then se_ret tt
      else if ratio_ge (q_monthly_used quota) ml 1 1 then
        sendAlert (monthly_payload quota ml) ;;!
        try_write (update_account (q_account_id quota) (set_status quota_exceeded))
      else se_ret tt
  | None => se_ret tt
  end.

(** The body of [for (const quota of quotas)]: [quota] and its
    embedded account are the values read by the query, not the rows
    as the loop has updated them; [now] is read once per row. *)
Definition check_quota (cfg : TrackerConfig) (qa : Quota * option Account) : M unit :=
  let '(quota, accounts) := qa in
  let! t := now in
  daily_reset_block quota accounts t ;;!
  monthly_reset_block cfg quota t ;;!
  daily_limit_block cfg quota ;;!
  monthly_limit_block quota.

(** [checkQuotas]: a rejected query is caught and logged. *)
Definition checkQuotas (cfg : TrackerConfig) : M unit :=
  se_catch
    (call CQuotaSelect ;;!
     let! quotas := db_read quotas_with_active_accounts in
     match quotas with
     | [] => se_ret tt
     | _ => se_iter (check_quota cfg) quotas
     end)
    (fun _ => se_ret tt).

(** ** [checkExpiringSessions] *)

(** Seven days, in milliseconds. *)
Definition week_ms : Z := 7 * day_ms.

(** [.from('browser_sessions').select('*, accounts(..)').lt('expires_at', cutoff)
    .eq('accounts.status', 'active')] *)
Definition sessions_expiring (cutoff : Z) (d : Db) : list (BrowserSession * option Account) :=
  map (fun s => (s, embed_active d (bs_account_id s)))
      (filter (fun s => bs_expires_at s < cutoff) (db_sessions d)).

Definition expiring_payload (s : BrowserSession) (acc : option Account) : AlertPayload :=
  {| ap_kind := session_expiring; ap_account_id := bs_account_id s;
     ap_provider := acc_provider <$> acc; ap_used := None; ap_limit := None;
     ap_remaining := None; ap_expires_at := Some (bs_expires_at s) |}.

Definition checkExpiringSessions : M unit :=
  se_catch
    (let! t := now in
     call CSessionSelect ;;!
     let! sessions := db_read (sessions_expiring (t + week_ms)) in
     match sessions with
     | [] => se_ret tt
     | _ => se_iter (fun '(s, acc) => sendAlert (expiring_payload s acc)) sessions
     end)
    (fun _ => se_ret tt).

(** ** Totality: the tracker never throws *)

Lemma now_total : se_total now.
Proof. intros w. eauto. Qed.

Lemma try_write_total f : se_total (try_write f).
Proof. intros w. unfold try_write. destruct (env_fault _ _ _); eauto. Qed.

Lemma db_read_total {A} (f : Db → A) : se_total (db_read f).
Proof. intros w. eauto. Qed.

Lemma sendAlert_total p : se_total (sendAlert p).
Proof. apply se_total_catch. intros _. apply se_total_ret. Qed.

#[local] Hint Resolve now_total try_write_total db_read_total sendAlert_total : total.

Lemma check_quota_total cfg qa : se_total (check_quota cfg qa).
Proof.
  destruct qa as [q acc].
  unfold check_quota, daily_reset_block, monthly_reset_block, daily_limit_block,
    monthly_limit_block, reactivate.
  repeat (apply se_total_bind; [|intros ?]); repeat case_match; eauto 10 with total.
Qed.

Lemma checkQuotas_total cfg : se_total (checkQuotas cfg).
Proof. apply se_total_catch. intros _. apply se_total_ret. Qed.

Lemma checkExpiringSessions_total : se_total checkExpiringSessions.
Proof. apply se_total_catch. intros _. apply se_total_ret. Qed.

(** ** Account statuses under the tracker *)

(** Each account keeps its status or becomes [quota_exceeded]. *)
Definition status_rel (d d' : Db) : Prop :=
  ∀ id, acc_status <$> db_accounts d' !! id = acc_status <$> db_accounts d !! id ∨
        (acc_status <$> db_accounts d' !! id = Some quota_exceeded ∧ is_Some (db_accounts d !! id)).

Definition tracker_rel (w w' : World) : Prop := status_rel (w_db w) (w_db w').

#[export] Instance tracker_rel_preorder : PreOrder tracker_rel.
Proof.
  split; [intros w id; by left|].
  intros w1 w2 w3 H12 H23 id.
  destruct (H12 id) as [E1|[E1 S1]], (H23 id) as [E2|[E2 S2]].
  - left. congruence.
  - right. split; [done|]. apply (fmap_is_Some acc_status). rewrite <- E1. by apply fmap_is_Some.
  - right. by rewrite E2.
  - by right.
Qed.

Lemma status_rel_refl d d' : db_accounts d' = db_accounts d → status_rel d d'.
Proof. intros E id. left. by rewrite E. Qed.

Lemma status_rel_exceed d id : status_rel d (update_account id (set_status quota_exceeded) d).
Proof.
  intros id'. unfold update_account. simpl. destruct (decide (id = id')) as [<-|Hne].
  - rewrite lookup_alter_eq. destruct (db_accounts d !! id); [right|left]; done.
  - left. by rewrite lookup_alter_ne.
Qed.

Lemma db_frame_tracker w w' : db_frame w w' → tracker_rel w w'.
Proof. intros [_ E] id. left. by rewrite E. Qed.

Lemma kept_tracker_try_write f : (∀ d, status_rel d (f d)) → kept tracker_rel (try_write f).
Proof.
  intros Hf w w' r. unfold try_write.
  destruct (env_fault _ _ _); intros [= <- _]; [apply db_frame_tracker, db_frame_bump|apply Hf].
Qed.

Lemma kept_db_frame_tracker {A} (m : M A) : kept db_frame m → kept tracker_rel m.
Proof. apply kept_weaken, db_frame_tracker. Qed.

Lemma publish_db p : kept db_frame (publish p).
Proof. intros w w' r [= <- _]. split; [split; simpl; [done|lia]|done]. Qed.

Lemma db_read_db {A} (f : Db → A) : kept db_frame (db_read f).
Proof. apply kept_read. typeclasses eauto. Qed.

Create HintDb tracker discriminated.
#[export] Hint Resolve status_rel_refl status_rel_exceed kept_tracker_try_write publish_db db_read_db
  kept_db_now : tracker.
#[export] Hint Extern 2 (kept tracker_rel _) => apply kept_db_frame_tracker : tracker.
#[export] Hint Extern 1 (kept _ (call _)) => apply kept_call; [typeclasses eauto|] : tracker.
#[export] Hint Extern 1 (PreOrder _) => typeclasses eauto : tracker.
#[export] Hint Extern 1 (∀ d, status_rel d _) => intros ?d : tracker.
#[export] Hint Resolve kept_ret db_frame_bump : tracker.
#[export] Hint Extern 1 (tracker_rel _ (bump _ _)) => apply db_frame_tracker, db_frame_bump : tracker.

(** Decomposes a computation for [kept] with the hints of [tracker]. *)
Ltac tkeep :=
  repeat first
    [ solve [eauto with tracker]
    | apply kept_bind; [typeclasses eauto| |intros]
    | apply kept_catch; [typeclasses eauto| |intros]
    | apply kept_iter; [typeclasses eauto|intros ? _]
    | progress (case_match) ].

Lemma sendAlert_tracker p : kept tracker_rel (sendAlert p).
Proof. unfold sendAlert. tkeep. Qed.

#[export] Hint Resolve sendAlert_tracker : tracker.

(** A row whose embedded account is not [quota_exceeded] never
    activates its account. *)
Lemma check_quota_tracker cfg q acc :
  (∀ a, acc = Some a → acc_status a ≠ quota_exceeded) → kept tracker_rel (check_quota cfg (q, acc)).
Proof.
  intros Hacc.
  unfold check_quota, daily_reset_block, monthly_reset_block, daily_limit_block,
    monthly_limit_block, reactivate.
  tkeep. exfalso. by eapply Hacc.
Qed.

(** ** What one iteration does

    The tracker's writes, seen through [view]: the quota rows, the
    accounts, the payloads of the [alerts] rows and the messages
    published on Redis.  [acts cs m F] says that [m], run where no
    call of the kinds [cs] rejects, returns and changes the view by
    [F]. *)
Record TView := {
  tv_quotas : list Quota;
  tv_accounts : gmap string Account;
  tv_alerts : list AlertPayload;
  tv_published : list AlertPayload
}.

Definition view (w : World) : TView :=
  {| tv_quotas := db_quotas (w_db w); tv_accounts := db_accounts (w_db w);
     tv_alerts := map al_data (db_alerts (w_db w)); tv_published := x_published (w_ext w) |}.

Definition v_quotas (g : list Quota → list Quota) (v : TView) : TView :=
  {| tv_quotas := g (tv_quotas v); tv_accounts := tv_accounts v; tv_alerts := tv_alerts v;
     tv_published := tv_published v |}.

Definition v_accounts (g : gmap string Account → gmap string Account) (v : TView) : TView :=
  {| tv_quotas := tv_quotas v; tv_accounts := g (tv_accounts v); tv_alerts := tv_alerts v;
     tv_published := tv_published v |}.

Definition v_alert (p : AlertPayload) (v : TView) : TView :=
  {| tv_quotas := tv_quotas v; tv_accounts := tv_accounts v; tv_alerts := tv_alerts v ++ [p];
     tv_published := tv_published v ++ [p] |}.

Definition acts (cs : list Call) (m : M unit) (F : TView → TView) : Prop :=
  ∀ w, calls_ok cs w → ∃ w', m w = (w', inr tt) ∧ env_mono w w' ∧ view w' = F (view w).

Section Acts.
Context (cs : list Call).

Lemma acts_ret : acts cs (se_ret tt) id.
Proof. intros w _. exists w. split; [done|]. split; [reflexivity|done]. Qed.

Lemma acts_bind m m' F G : acts cs m F → acts cs m' G → acts cs (m ;;! m') (G ∘ F).
Proof.
  intros Hm Hm' w H. destruct (Hm w H) as (w1 & E1 & M1 & V1).
  destruct (Hm' w1 (calls_ok_mono _ _ _ M1 H)) as (w2 & E2 & M2 & V2).
  exists w2. rewrite (se_bind_inr _ _ _ _ _ E1). split; [done|].
  split; [by transitivity w1|]. by rewrite V2, V1.
Qed.

Lemma acts_if (b : bool) m1 m2 F1 F2 :
  acts cs m1 F1 → acts cs m2 F2 → acts cs (if b then m1 else m2) (if b then F1 else F2).
Proof. by destruct b. Qed.

Lemma acts_try_write f F :
  CDbWrite ∈ cs → (∀ w, view (set_db (f (w_db w)) w) = F (view w)) → acts cs (try_write f) F.
Proof.
  intros Hc HF w H. rewrite (try_write_ok cs f w H Hc). eexists. split; [reflexivity|].
  split; [split; simpl; [done|lia]|]. exact (HF (bump CDbWrite w)).
Qed.

Lemma acts_sendAlert p : CPublish ∈ cs → CDbWrite ∈ cs → acts cs (sendAlert p) (v_alert p).
Proof.
  intros Hp Hw w H. unfold sendAlert, se_catch.
  rewrite (se_bind_inr _ _ _ _ _ (call_ok_cs cs _ w H Hp)). cbv [se_bind publish modify_ext se_modify now].
  simpl. rewrite (try_write_ok cs); [|eapply calls_ok_env; [reflexivity|exact H]|exact Hw].
  eexists. split; [reflexivity|]. split; [split; simpl; [done|lia]|].
  unfold view, v_alert. simpl. by rewrite map_app.
Qed.
End Acts.

Lemma acts_ext cs m F G : acts cs m F → (∀ v, F v = G v) → acts cs m G.
Proof. intros Hm HFG w H. destruct (Hm w H) as (w' & E & M' & V). exists w'. by rewrite <- HFG. Qed.

(** [.eq('id', id)] applied row by row. *)
Definition upd_row (id : string) (g : Quota → Quota) (r : Quota) : Quota :=
  if decide (q_id r = id) then g r else r.

Lemma acts_update_quota_row cs id g :
  CDbWrite ∈ cs → acts cs (try_write (update_quota_row id g)) (v_quotas (map (upd_row id g))).
Proof. intros Hc. apply acts_try_write; [done|]. intros w. reflexivity. Qed.

Lemma acts_update_account cs id g :
  CDbWrite ∈ cs → acts cs (try_write (update_account id g)) (v_accounts (alter g id)).
Proof. intros Hc. apply acts_try_write; [done|]. intros w. reflexivity. Qed.

Lemma map_upd_row_fuse id g1 g2 l :
  (∀ r, q_id (g1 r) = q_id r) →
  map (upd_row id g2) (map (upd_row id g1) l) = map (upd_row id (g2 ∘ g1)) l.
Proof.
  intros Hg. rewrite map_map. apply map_ext. intros r. unfold upd_row.
  destruct (decide (q_id r = id)) as [E|E]; [by rewrite decide_True by (by rewrite Hg)|].
  by rewrite decide_False.
Qed.

Lemma map_upd_row_id id l : map (upd_row id (λ r, r)) l = l.
Proof. rewrite <- (map_id l) at 2. apply map_ext. intros r. unfold upd_row. by case_decide. Qed.

Lemma alter_set_status_twice s i (m : gmap string Account) :
  alter (set_status s) i (alter (set_status s) i m) = alter (set_status s) i m.
Proof. rewrite alter_alter_eq. by apply alter_ext. Qed.

(** ** The expected effect of one iteration *)

Definition daily_warning (cfg : TrackerConfig) (q : Quota) : bool :=
  ratio_ge (q_daily_used q) (q_daily_limit q) (alert_num cfg) (alert_den cfg) &&
  ratio_lt (q_daily_used q) (q_daily_limit q) 1 1.

Definition daily_exceeded (q : Quota) : bool := ratio_ge (q_daily_used q) (q_daily_limit q) 1 1.

Definition monthly_alerts (q : Quota) : list AlertPayload :=
  match q_monthly_limit q with
  | Some ml =>
      if decide (ml = 0) then []
      else if ratio_ge (q_monthly_used q) ml 1 1 then [monthly_payload q ml] else []
  | None => []
  end.

(** The alerts of one row, in the order the loop sends them. *)
Definition quota_payloads (cfg : TrackerConfig) (q : Quota) : list AlertPayload :=
  (if daily_warning cfg q then [warning_payload q] else []) ++
  (if daily_exceeded q then [exceeded_payload q] else []) ++ monthly_alerts q.

(** Whether the row forces its account to [quota_exceeded]. *)
Definition marks_exceeded (q : Quota) : bool := daily_exceeded q || bool_decide (monthly_alerts q ≠ []).

Definition daily_due (q : Quota) (t : Z) : bool := q_reset_daily_at q <=? t.

Definition monthly_due (q : Quota) (t : Z) : bool :=
  match q_reset_monthly_at q with Some r => r <=? t | None => false end.

(** The resets the row read as [q] applies to its row at time [t]. *)
Definition quota_effect (cfg : TrackerConfig) (t : Z) (q : Quota) (r : Quota) : Quota :=
  let r1 := if daily_due q t then reset_daily t r else r in
  if monthly_due q t then reset_monthly (tz_ms cfg) t r1 else r1.

Definition row_view (cfg : TrackerConfig) (t : Z) (q : Quota) (v : TView) : TView :=
  {| tv_quotas := map (upd_row (q_id q) (quota_effect cfg t q)) (tv_quotas v);
     tv_accounts := if marks_exceeded q
                    then alter (set_status quota_exceeded) (q_account_id q) (tv_accounts v)
                    else tv_accounts v;
     tv_alerts := tv_alerts v ++ quota_payloads cfg q;
     tv_published := tv_published v ++ quota_payloads cfg q |}.

(** Decomposes the body of an iteration into its writes and alerts. *)
Ltac acts_step :=
  first [ eassumption | eapply acts_bind | apply acts_if | apply acts_ret | apply acts_sendAlert
        | apply acts_update_quota_row | apply acts_update_account ].

Lemma reactivate_acts cs q acc :
  (∀ a, acc = Some a → acc_status a ≠ quota_exceeded) → acts cs (reactivate q acc) id.
Proof.
  intros Hacc. unfold reactivate. destruct acc as [a|]; [|apply acts_ret].
  rewrite decide_False by (by apply Hacc). apply acts_ret.
Qed.

Lemma check_quota_body_acts cs cfg q acc t :
  CDbWrite ∈ cs → CPublish ∈ cs → (∀ a, acc = Some a → acc_status a ≠ quota_exceeded) →
  acts cs (daily_reset_block q acc t ;;! monthly_reset_block cfg q t ;;!
           daily_limit_block cfg q ;;! monthly_limit_block q)
       (row_view cfg t q).
Proof.
  intros Hw Hp Hacc. pose proof (reactivate_acts cs q acc Hacc) as Hd.
  unfold daily_reset_block, monthly_reset_block, daily_limit_block, monthly_limit_block.
  destruct (q_reset_monthly_at q) as [r|] eqn:Er, (q_monthly_limit q) as [ml|] eqn:Eml;
    try destruct (decide (ml = 0)) as [Hz|Hz];
    (eapply acts_ext; [repeat acts_step|]);
    intros [vq va val vp];
    unfold row_view, quota_payloads, marks_exceeded, monthly_alerts, quota_effect, daily_due,
      monthly_due, daily_warning, daily_exceeded; rewrite ?Er, ?Eml;
    try rewrite decide_True by done; try rewrite decide_False by done;
    repeat case_match; cbv [v_accounts v_alert v_quotas compose id];
    cbn [tv_quotas tv_accounts tv_alerts tv_published app]; f_equal;
    rewrite ?map_upd_row_fuse, ?app_nil_r, <-?app_assoc, ?alter_set_status_twice by done;
    try (symmetry; apply map_upd_row_id); try done.
Qed.

Lemma check_quota_spec cs cfg q acc w :
  CDbWrite ∈ cs → CPublish ∈ cs → calls_ok cs w →
  (∀ a, acc = Some a → acc_status a ≠ quota_exceeded) →
  ∃ w', check_quota cfg (q, acc) w = (w', inr tt) ∧ env_mono w w' ∧
    (w_clock_reads w < w_clock_reads w')%nat ∧
    view w' = row_view cfg (env_clock (w_env w) (w_clock_reads w)) q (view w).
Proof.
  intros Hw Hp H Hacc. unfold check_quota.
  rewrite (se_bind_inr now _ w (tick w) _ eq_refl). cbv beta.
  destruct (check_quota_body_acts cs cfg q acc (env_clock (w_env w) (w_clock_reads w)) Hw Hp Hacc
              (tick w) H) as (w' & E & [Ee Ec] & V).
  exists w'. split; [exact E|]. simpl in Ee, Ec. split; [split; [exact Ee|lia]|]. split; [lia|exact V].
Qed.

(** The views of the rows [qs] processed in order at the times [ts]. *)
Fixpoint rows_view (cfg : TrackerConfig) (ts : list Z) (qs : list Quota) (v : TView) : TView :=
  match ts, qs with
  | t :: ts', q :: qs' => rows_view cfg ts' qs' (row_view cfg t q v)
  | _, _ => v
  end.

(** The loop, run where no write or publish rejects, over rows whose
    embedded account is not [quota_exceeded]: one clock reading per
    row, at or after the start. *)
Lemma iter_spec cs cfg l w :
  CDbWrite ∈ cs → CPublish ∈ cs → calls_ok cs w →
  Forall (λ x, ∀ a, x.2 = Some a → acc_status a ≠ quota_exceeded) l →
  ∃ w' ks, se_iter (check_quota cfg) l w = (w', inr tt) ∧ env_mono w w' ∧
    length ks = length l ∧ Forall (λ k, w_clock_reads w ≤ k)%nat ks ∧
    view w' = rows_view cfg (map (env_clock (w_env w)) ks) (map fst l) (view w).
Proof.
  intros Hw Hp. revert w. induction l as [|[q acc] l IH]; intros w H Hl.
  - exists w, []. split; [done|]. split; [reflexivity|]. done.
  - inversion Hl as [|? ? Hx Hl']; subst.
    destruct (check_quota_spec cs cfg q acc w Hw Hp H Hx) as (w1 & E1 & M1 & C1 & V1).
    destruct (IH w1 (calls_ok_mono _ _ _ M1 H) Hl') as (w2 & ks & E2 & M2 & L2 & K2 & V2).
    exists w2, (w_clock_reads w :: ks). simpl. rewrite (se_bind_inr _ _ _ _ _ E1). split; [exact E2|].
    split; [by transitivity w1|]. split; [by f_equal|].
    split; [constructor; [lia|]; eapply Forall_impl; [exact K2|]; simpl; lia|].
    rewrite V2, V1. destruct M1 as [-> _]. reflexivity.
Qed.

Lemma quotas_with_active_accounts_active d :
  Forall (λ x, ∀ a, x.2 = Some a → acc_status a ≠ quota_exceeded) (quotas_with_active_accounts d).
Proof.
  apply Forall_forall. intros [q acc] Hin a. simpl. intros ->.
  unfold quotas_with_active_accounts in Hin. rewrite list_elem_of_In in Hin. apply in_map_iff in Hin as (q' & [= Hq Hacc] & _).
  unfold embed_active in Hacc. repeat case_match; simplify_eq. congruence.
Qed.

(** [checkQuotas] when the query returns. *)
Lemma checkQuotas_select cfg w :
  env_fault (w_env w) CQuotaSelect (w_calls w CQuotaSelect) = None →
  checkQuotas cfg w = se_iter (check_quota cfg) (quotas_with_active_accounts (w_db w))
                        (bump CQuotaSelect w).
Proof.
  intros Hs. unfold checkQuotas, se_catch.
  rewrite (se_bind_inr (call CQuotaSelect) _ w (bump CQuotaSelect w) tt)
    by (unfold call; by rewrite Hs).
  rewrite (se_bind_inr (db_read _) _ _ _ _ eq_refl). cbv beta.
  change (w_db (bump CQuotaSelect w)) with (w_db w).
  destruct (quotas_with_active_accounts (w_db w)) as [|x l] eqn:El; [reflexivity|].
  destruct (se_total_iter (check_quota cfg) (x :: l) (λ y _, check_quota_total cfg y)
              (bump CQuotaSelect w)) as (w' & [] & E).
  rewrite E. reflexivity.
Qed.

(** ** The loop's effect, table by table *)

Lemma rows_view_alerts cfg ts qs v :
  length ts = length qs →
  tv_alerts (rows_view cfg ts qs v) = tv_alerts v ++ concat (map (quota_payloads cfg) qs) ∧
  tv_published (rows_view cfg ts qs v) = tv_published v ++ concat (map (quota_payloads cfg) qs).
Proof.
  revert ts v. induction qs as [|q qs IH]; intros [|t ts] v Hl; simpl in *; try lia.
  - by rewrite !app_nil_r.
  - destruct (IH ts (row_view cfg t q v)) as [-> ->]; [lia|]. simpl. by rewrite <- !app_assoc.
Qed.

(** The rows whose account is [id] and that force [quota_exceeded]. *)
Definition exceeds_account (id : string) (qs : list Quota) : bool :=
  existsb (λ q, marks_exceeded q && bool_decide (q_account_id q = id)) qs.

Lemma fmap_const_alter (c : account_status) f i j (m : gmap string Account) :
  (λ _, c) <$> alter f i m !! j = (λ _, c) <$> m !! j.
Proof.
  destruct (decide (i = j)) as [<-|Hne]; [rewrite lookup_alter_eq|by rewrite lookup_alter_ne].
  by destruct (m !! i).
Qed.

Lemma rows_view_accounts cfg ts qs v id :
  length ts = length qs →
  acc_status <$> tv_accounts (rows_view cfg ts qs v) !! id =
    if exceeds_account id qs then (λ _, quota_exceeded) <$> tv_accounts v !! id
    else acc_status <$> tv_accounts v !! id.
Proof.
  revert ts v. induction qs as [|q qs IH]; intros [|t ts] v Hl; simpl in *; try lia; [done|].
  rewrite IH by lia. unfold exceeds_account. simpl. fold (exceeds_account id qs).
  destruct (marks_exceeded q) eqn:Hm; simpl.
  - destruct (exceeds_account id qs); [rewrite orb_true_r; apply fmap_const_alter|].
    rewrite orb_false_r. destruct (decide (q_account_id q = id)) as [<-|Hne].
    + rewrite bool_decide_true by done. rewrite lookup_alter_eq. by destruct (tv_accounts v !! _).
    + rewrite bool_decide_false by done. by rewrite lookup_alter_ne.
  - done.
Qed.

Lemma quota_effect_id cfg t q r : q_id (quota_effect cfg t q r) = q_id r.
Proof. unfold quota_effect. by repeat case_match. Qed.

Lemma map_upd_row_others id g l : (∀ r, r ∈ l → q_id r ≠ id) → map (upd_row id g) l = l.
Proof.
  intros Hl. rewrite <- (map_id l) at 2. apply list_fmap_ext. intros i r Hr.
  unfold upd_row. rewrite decide_False; [done|]. apply Hl. by eapply list_elem_of_lookup_2.
Qed.

(** With distinct [id]s, each row ends as its own resets left it. *)
Lemma rows_view_quotas cfg ts qs pre v :
  length ts = length qs → tv_quotas v = pre ++ qs → NoDup (map q_id (pre ++ qs)) →
  tv_quotas (rows_view cfg ts qs v) = pre ++ zip_with (λ t q, quota_effect cfg t q q) ts qs.
Proof.
  revert ts pre v. induction qs as [|q qs IH]; intros [|t ts] pre v Hl Hv Hnd; simpl in *; try lia.
  - by rewrite Hv.
  - rewrite map_app in Hnd. simpl in Hnd.
    pose proof Hnd as Hnd'. apply NoDup_app in Hnd' as (_ & Hdis & Hnd'').
    apply NoDup_cons in Hnd'' as [Hnot _].
    assert (Hpre : ∀ r, r ∈ pre → q_id r ≠ q_id q).
    { intros r Hr Hid. apply (Hdis (q_id q)); [rewrite <- Hid; by apply list_elem_of_fmap_2|left]. }
    assert (Hqs : ∀ r, r ∈ qs → q_id r ≠ q_id q).
    { intros r Hr Hid. apply Hnot. rewrite <- Hid. by apply list_elem_of_fmap_2. }
    rewrite (IH ts (pre ++ [quota_effect cfg t q q])); [by rewrite <- app_assoc|lia| |].
    + simpl. rewrite Hv, map_app, <- app_assoc. simpl.
      rewrite (map_upd_row_others _ _ pre Hpre), (map_upd_row_others _ _ qs Hqs).
      unfold upd_row at 1. by rewrite decide_True.
    + rewrite !map_app, <- app_assoc. simpl. by rewrite quota_effect_id.
Qed.

Lemma quotas_with_active_accounts_fst d : map fst (quotas_with_active_accounts d) = db_quotas d.
Proof. unfold quotas_with_active_accounts. rewrite map_map. apply map_id. Qed.

(** The calls of a tracker run. *)
Definition tracker_calls : list Call := [CQuotaSelect; CDbWrite; CPublish].

(** ** The rows the tracker never writes *)

(** The request, session, usage and API-key tables are left as they were. *)
Definition rows_frame (w w' : World) : Prop :=
  db_requests (w_db w') = db_requests (w_db w) ∧ db_sessions (w_db w') = db_sessions (w_db w) ∧
  db_usage_logs (w_db w') = db_usage_logs (w_db w) ∧ db_api_keys (w_db w') = db_api_keys (w_db w).

#[export] Instance rows_frame_preorder : PreOrder rows_frame.
Proof.
  split; [intros w; done|]. intros w1 w2 w3 (A1 & B1 & C1 & D1) (A2 & B2 & C2 & D2).
  repeat split; congruence.
Qed.

Lemma rows_frame_bump c w : rows_frame w (bump c w).
Proof. done. Qed.

Lemma kept_frame_now : kept rows_frame now.
Proof. intros w w' r [= <- _]. done. Qed.

Lemma kept_frame_read {A} (f : Db → A) : kept rows_frame (db_read f).
Proof. apply kept_read. typeclasses eauto. Qed.

Lemma kept_frame_modify_ext f : kept rows_frame (modify_ext f).
Proof. intros w w' r [= <- _]. done. Qed.

(** A write that keeps the four tables keeps the frame, applied or not. *)
Lemma kept_frame_try_write f :
  (∀ w, rows_frame w (set_db (f (w_db w)) w)) → kept rows_frame (try_write f).
Proof.
  intros Hf w w' r. unfold try_write.
  destruct (env_fault _ _ _); intros [= <- _]; [done|]. apply (Hf (bump CDbWrite w)).
Qed.

Create HintDb frame discriminated.
#[export] Hint Resolve kept_ret rows_frame_bump kept_frame_now kept_frame_read kept_frame_modify_ext : frame.
#[export] Hint Extern 1 (kept _ (call _)) => apply kept_call; [typeclasses eauto|] : frame.
#[export] Hint Extern 1 (kept rows_frame (try_write _)) => apply kept_frame_try_write; intros ?w; done : frame.
#[export] Hint Extern 1 (PreOrder _) => typeclasses eauto : frame.

Lemma checkQuotas_frame cfg : kept rows_frame (checkQuotas cfg).
Proof.
  unfold checkQuotas, check_quota, daily_reset_block, reactivate, monthly_reset_block, daily_limit_block,
    monthly_limit_block, sendAlert, publish.
  repeat first
    [ solve [eauto with frame]
    | apply kept_bind; [typeclasses eauto| |intros]
    | apply kept_catch; [typeclasses eauto| |intros]
    | apply kept_iter; [typeclasses eauto|intros [? ?] _]
    | progress (case_match) ].
Qed.

(** The effect of one [checkQuotas] run where the
    query, the writes and the publishes succeed and quota ids are
    distinct: the rows are processed in order, each with one clock
    reading taken at or after the start; every row ends as its own
    daily and monthly resets leave it; an account becomes
    [quota_exceeded] exactly when one of its rows exceeds a limit and
    keeps its status otherwise; and the alerts, stored and published,
    are those of the rows in order. *)
Lemma checkQuotas_effect cfg w :
  calls_ok tracker_calls w → NoDup (map q_id (db_quotas (w_db w))) →
  ∃ w' ts, checkQuotas cfg w = (w', inr tt) ∧ length ts = length (db_quotas (w_db w)) ∧
    Forall (λ t, ∃ k, (w_clock_reads w ≤ k)%nat ∧ t = env_clock (w_env w) k) ts ∧
    db_quotas (w_db w') = zip_with (λ t q, quota_effect cfg t q q) ts (db_quotas (w_db w)) ∧
    (∀ id, acc_status <$> db_accounts (w_db w') !! id =
       if exceeds_account id (db_quotas (w_db w))
       then (λ _, quota_exceeded) <$> db_accounts (w_db w) !! id
       else acc_status <$> db_accounts (w_db w) !! id) ∧
    map al_data (db_alerts (w_db w')) =
      map al_data (db_alerts (w_db w)) ++ concat (map (quota_payloads cfg) (db_quotas (w_db w))) ∧
    x_published (w_ext w') =
      x_published (w_ext w) ++ concat (map (quota_payloads cfg) (db_quotas (w_db w))).
Proof.
  intros H Hnd. unfold tracker_calls in H.
  rewrite checkQuotas_select by (apply H; set_solver).
  destruct (iter_spec [CQuotaSelect; CDbWrite; CPublish] cfg (quotas_with_active_accounts (w_db w))
              (bump CQuotaSelect w))
    as (w' & ks & E & _ & L & K & V);
    [set_solver|set_solver|eapply calls_ok_env; [reflexivity|exact H]|
     apply quotas_with_active_accounts_active|].
  rewrite quotas_with_active_accounts_fst in V.
  change (view (bump CQuotaSelect w)) with (view w) in V.
  change (w_env (bump CQuotaSelect w)) with (w_env w) in V.
  unfold quotas_with_active_accounts in L. rewrite length_map in L.
  assert (Hl : length (map (env_clock (w_env w)) ks) = length (db_quotas (w_db w)))
    by by rewrite length_map.
  exists w', (map (env_clock (w_env w)) ks). split; [exact E|]. split; [exact Hl|].
  split.
  { apply Forall_map. eapply Forall_impl; [exact K|]. simpl. eauto. }
  destruct (rows_view_alerts cfg _ _ (view w) Hl) as [Va Vp].
  change (db_quotas (w_db w')) with (tv_quotas (view w')).
  change (map al_data (db_alerts (w_db w'))) with (tv_alerts (view w')).
  change (x_published (w_ext w')) with (tv_published (view w')).
  rewrite V, Va, Vp. split; [apply (rows_view_quotas cfg _ _ []); done|].
  split; [|done]. intros id.
  change (db_accounts (w_db w')) with (tv_accounts (view w')). rewrite V.
  by apply rows_view_accounts.
Qed.

(** C6: The functional specification of one [checkQuotas] run where the
    query, the writes and the publishes succeed and quota ids are
    distinct: the rows are processed in order, each with one clock
    reading taken at or after the start; every row ends as its own
    daily and monthly resets leave it; an account becomes
    [quota_exceeded] exactly when one of its rows exceeds a limit and
    keeps its status otherwise; the alerts, stored and published, are
    those of the rows in order; and the request, session, usage and
    API-key tables are untouched. *)
Theorem checkQuotas_spec cfg w :
  calls_ok tracker_calls w → NoDup (map q_id (db_quotas (w_db w))) →
  ∃ w' ts, (checkQuotas cfg w = (w', inr tt) ∧ length ts = length (db_quotas (w_db w)) ∧
    Forall (λ t, ∃ k, (w_clock_reads w ≤ k)%nat ∧ t = env_clock (w_env w) k) ts ∧
    db_quotas (w_db w') = zip_with (λ t q, quota_effect cfg t q q) ts (db_quotas (w_db w)) ∧
    (∀ id, acc_status <$> db_accounts (w_db w') !! id =
       if exceeds_account id (db_quotas (w_db w))
       then (λ _, quota_exceeded) <$> db_accounts (w_db w) !! id
       else acc_status <$> db_accounts (w_db w) !! id) ∧
    map al_data (db_alerts (w_db w')) =
      map al_data (db_alerts (w_db w)) ++ concat (map (quota_payloads cfg) (db_quotas (w_db w))) ∧
    x_published (w_ext w') =
      x_published (w_ext w) ++ concat (map (quota_payloads cfg) (db_quotas (w_db w)))) ∧
    rows_frame w w'.
Proof.
  intros H Hnd. destruct (checkQuotas_effect cfg w H Hnd) as (w' & ts & HP).
  exists w', ts. split; [exact HP|]. exact (checkQuotas_frame cfg w w' (inr tt) (proj1 HP)).
Qed.

(** ** Statuses over any run, rejections included *)

Lemma checkQuotas_tracker cfg : kept tracker_rel (checkQuotas cfg).
Proof.
  intros w w' r E.
  destruct (env_fault (w_env w) CQuotaSelect (w_calls w CQuotaSelect)) eqn:Hs.
  - unfold checkQuotas, se_catch, se_bind, call in E. rewrite Hs in E. injection E as <- _.
    apply db_frame_tracker, db_frame_bump.
  - rewrite checkQuotas_select in E by exact Hs.
    transitivity (bump CQuotaSelect w); [apply db_frame_tracker, db_frame_bump|].
    revert E. apply kept_iter; [typeclasses eauto|]. intros [q acc] Hin.
    apply check_quota_tracker. intros a Ha.
    pose proof (quotas_with_active_accounts_active (w_db (bump CQuotaSelect w))) as Hall.
    rewrite Forall_forall in Hall. apply (Hall (q, acc)); [by apply list_elem_of_In|exact Ha].
Qed.

Lemma checkExpiringSessions_tracker : kept tracker_rel checkExpiringSessions.
Proof. unfold checkExpiringSessions. tkeep. Qed.

(** The two timers of the tracker, in any order. *)
Inductive tracker_task := TCheckQuotas | TCheckExpiringSessions.

Fixpoint run_tasks (cfg : TrackerConfig) (tasks : list tracker_task) : M unit :=
  match tasks with
  | [] => se_ret tt
  | TCheckQuotas :: ts => checkQuotas cfg ;;! run_tasks cfg ts
  | TCheckExpiringSessions :: ts => checkExpiringSessions ;;! run_tasks cfg ts
  end.

Lemma run_tasks_tracker cfg tasks : kept tracker_rel (run_tasks cfg tasks).
Proof.
  induction tasks as [|[] ts IH]; simpl.
  - apply kept_ret; typeclasses eauto.
  - apply kept_bind; [typeclasses eauto|apply checkQuotas_tracker|intros _; exact IH].
  - apply kept_bind; [typeclasses eauto|apply checkExpiringSessions_tracker|intros _; exact IH].
Qed.

(** C24: The tracker's two timers never end the process: every
    finite sequence of [checkQuotas] and [checkExpiringSessions] runs,
    from any world and under any faults of the datastore or the
    webhook, terminates with a normal result.  The catch block is not
    what makes the quota loop finish: once the select succeeds, the
    loop over the rows itself terminates normally, so every row is
    visited and [checkQuotas] ends where the loop ends. *)
Theorem run_tasks_total cfg tasks :
  se_total (run_tasks cfg tasks) ∧
  ∀ w, no_fault w CQuotaSelect →
    ∃ w', se_iter (check_quota cfg) (quotas_with_active_accounts (w_db w)) (bump CQuotaSelect w) = (w', inr tt) ∧
          checkQuotas cfg w = (w', inr tt).
Proof.
  split.
  - induction tasks as [|[] ts IH]; simpl;
      eauto using se_total_ret, se_total_bind, checkQuotas_total, checkExpiringSessions_total.
  - intros w Hs. rewrite checkQuotas_select by exact Hs.
    destruct (se_total_iter (check_quota cfg) (quotas_with_active_accounts (w_db w))
                (λ y _, check_quota_total cfg y) (bump CQuotaSelect w)) as (w' & [] & E).
    by exists w'.
Qed.

(** ** Row-level consequences *)

Lemma quota_effect_daily cfg t q :
  daily_due q t = true →
  q_daily_used (quota_effect cfg t q q) = 0 ∧ q_reset_daily_at (quota_effect cfg t q q) = t + day_ms.
Proof. unfold quota_effect. intros ->. by destruct (monthly_due q t). Qed.

Lemma ratio_ge_one u l : 0 < l → l <= u → ratio_ge u l 1 1 = true.
Proof. intros Hl Hu. unfold ratio_ge. rewrite (proj2 (Z.ltb_lt 0 l) Hl). apply Z.leb_le. lia. Qed.

Lemma exceeds_account_in id q qs :
  q ∈ qs → q_account_id q = id → marks_exceeded q = true → exceeds_account id qs = true.
Proof.
  intros Hq Hid Hm. unfold exceeds_account. apply existsb_exists. exists q.
  split; [by apply list_elem_of_In|]. rewrite Hm. simpl. by apply bool_decide_true.
Qed.

Lemma exceeded_payload_in cfg q qs :
  q ∈ qs → daily_exceeded q = true → exceeded_payload q ∈ concat (map (quota_payloads cfg) qs).
Proof.
  intros Hq He. apply list_elem_of_In, in_concat. exists (quota_payloads cfg q).
  split; [apply in_map; by apply list_elem_of_In|].
  unfold quota_payloads. rewrite He. apply in_or_app. right. apply in_or_app. left. left. done.
Qed.

(** One row of a run, with the clock reading its iteration took. *)
Lemma checkQuotas_row cfg w q :
  calls_ok tracker_calls w → NoDup (map q_id (db_quotas (w_db w))) → q ∈ db_quotas (w_db w) →
  ∃ w' k, checkQuotas cfg w = (w', inr tt) ∧ (w_clock_reads w ≤ k)%nat ∧
    quota_effect cfg (env_clock (w_env w) k) q q ∈ db_quotas (w_db w') ∧
    (∀ id, acc_status <$> db_accounts (w_db w') !! id =
       if exceeds_account id (db_quotas (w_db w))
       then (λ _, quota_exceeded) <$> db_accounts (w_db w) !! id
       else acc_status <$> db_accounts (w_db w) !! id) ∧
    map al_data (db_alerts (w_db w')) =
      map al_data (db_alerts (w_db w)) ++ concat (map (quota_payloads cfg) (db_quotas (w_db w))).
Proof.
  intros H Hnd Hq. destruct (checkQuotas_effect cfg w H Hnd) as (w' & ts & E & L & K & Q & A & Al & _).
  apply list_elem_of_lookup_1 in Hq as [i Hi].
  destruct (lookup_lt_is_Some_2 ts i) as [t Ht]; [rewrite L; by eapply lookup_lt_Some|].
  destruct (proj1 (Forall_lookup _ _) K i t Ht) as (k & Hk & ->).
  exists w', k. split; [done|]. split; [done|]. split; [|done].
  rewrite Q. apply (list_elem_of_lookup_2 _ i). by rewrite lookup_zip_with, Ht, Hi.
Qed.

(** ** Properties of the tracker *)

(** The daily reset: a row whose [reset_daily_at] has passed when the
    run starts ends with [daily_used = 0] and [reset_daily_at] 24 hours
    after the reading of its iteration, which is not before the
    start. *)
Theorem checkQuotas_daily_reset cfg w q :
  calls_ok tracker_calls w → NoDup (map q_id (db_quotas (w_db w))) → clock_monotone (w_env w) →
  q ∈ db_quotas (w_db w) → q_reset_daily_at q <= env_clock (w_env w) (w_clock_reads w) →
  ∃ w' q' t, checkQuotas cfg w = (w', inr tt) ∧ q' ∈ db_quotas (w_db w') ∧ q_id q' = q_id q ∧
    q_daily_used q' = 0 ∧ env_clock (w_env w) (w_clock_reads w) <= t ∧ q_reset_daily_at q' = t + day_ms.
Proof.
  intros H Hnd Hm Hq Hr. destruct (checkQuotas_row cfg w q H Hnd Hq) as (w' & k & E & Hk & Hin & _).
  pose proof (Hm _ _ Hk) as Hc.
  destruct (quota_effect_daily cfg (env_clock (w_env w) k) q) as [Hu Hd]; [apply Z.leb_le; lia|].
  exists w', (quota_effect cfg (env_clock (w_env w) k) q q), (env_clock (w_env w) k).
  repeat split; try done. apply quota_effect_id.
Qed.

(** C10: Spec §4.4 and the third scenario of §8: a row whose daily usage
    has reached a positive limit makes its account [quota_exceeded]
    (whatever its status was) and records a [quota_exceeded] alert. *)
Theorem checkQuotas_exceeded cfg w q a :
  calls_ok tracker_calls w → NoDup (map q_id (db_quotas (w_db w))) → q ∈ db_quotas (w_db w) →
  0 < q_daily_limit q <= q_daily_used q → db_accounts (w_db w) !! q_account_id q = Some a →
  ∃ w', checkQuotas cfg w = (w', inr tt) ∧
    acc_status <$> db_accounts (w_db w') !! q_account_id q = Some quota_exceeded ∧
    exceeded_payload q ∈ map al_data (db_alerts (w_db w')).
Proof.
  intros H Hnd Hq Hl Ha. destruct (checkQuotas_row cfg w q H Hnd Hq) as (w' & k & E & _ & _ & S & Al).
  assert (He : daily_exceeded q = true) by (apply ratio_ge_one; lia).
  exists w'. split; [done|]. split.
  - rewrite S, (exceeds_account_in _ q) by (done || unfold marks_exceeded; by rewrite He). by rewrite Ha.
  - rewrite Al. apply elem_of_app. right. by apply exceeded_payload_in.
Qed.

(** C35: A row read with an expired daily reset and a usage at its limit
    is reset to zero and, in the same iteration, still marks its
    account [quota_exceeded]: the limit test uses the counter the query
    read, not the reset one. *)
Theorem checkQuotas_reset_then_exceeded cfg w q a :
  calls_ok tracker_calls w → NoDup (map q_id (db_quotas (w_db w))) → clock_monotone (w_env w) →
  q ∈ db_quotas (w_db w) → q_reset_daily_at q <= env_clock (w_env w) (w_clock_reads w) →
  0 < q_daily_limit q <= q_daily_used q → db_accounts (w_db w) !! q_account_id q = Some a →
  ∃ w' q', checkQuotas cfg w = (w', inr tt) ∧ q' ∈ db_quotas (w_db w') ∧ q_id q' = q_id q ∧
    q_daily_used q' = 0 ∧
    acc_status <$> db_accounts (w_db w') !! q_account_id q = Some quota_exceeded.
Proof.
  intros H Hnd Hm Hq Hr Hl Ha. destruct (checkQuotas_row cfg w q H Hnd Hq) as (w' & k & E & Hk & Hin & S & _).
  pose proof (Hm _ _ Hk) as Hc.
  destruct (quota_effect_daily cfg (env_clock (w_env w) k) q) as [Hu _]; [apply Z.leb_le; lia|].
  assert (He : daily_exceeded q = true) by (apply ratio_ge_one; lia).
  exists w', (quota_effect cfg (env_clock (w_env w) k) q q). split; [done|]. split; [done|].
  split; [apply quota_effect_id|]. split; [done|].
  rewrite S, (exceeds_account_in _ q) by (done || unfold marks_exceeded; by rewrite He). by rewrite Ha.
Qed.

(** C12: Whatever the order of the two timers and whatever call rejects, no
    run of the tracker makes an account [active]: an account that is
    [quota_exceeded] stays so, and an account that ends [active] was
    [active] before.  The reactivation branch of the daily reset tests
    the embedded account, which the query only returns when it is
    [active]. *)
Theorem tracker_never_reactivates cfg tasks w w' r id :
  run_tasks cfg tasks w = (w', r) →
  (acc_status <$> db_accounts (w_db w) !! id = Some quota_exceeded →
   acc_status <$> db_accounts (w_db w') !! id = Some quota_exceeded) ∧
  (acc_status <$> db_accounts (w_db w') !! id = Some active →
   acc_status <$> db_accounts (w_db w) !! id = Some active).
Proof.
  intros E. destruct (run_tasks_tracker cfg tasks w w' r E id) as [S|[S _]]; rewrite S; [done|].
  split; [done|discriminate].
Qed.

(** ** [checkExpiringSessions] *)

Definition v_alerts (ps : list AlertPayload) (v : TView) : TView :=
  {| tv_quotas := tv_quotas v; tv_accounts := tv_accounts v; tv_alerts := tv_alerts v ++ ps;
     tv_published := tv_published v ++ ps |}.

Lemma acts_iter_alerts {A} cs (f : A → M unit) (g : A → AlertPayload) l :
  (∀ x, x ∈ l → acts cs (f x) (v_alert (g x))) → acts cs (se_iter f l) (v_alerts (map g l)).
Proof.
  induction l as [|x l IH]; intros Hf; simpl.
  - eapply acts_ext; [apply acts_ret|]. intros []. unfold v_alerts. simpl. by rewrite !app_nil_r.
  - eapply acts_ext; [eapply acts_bind; [apply Hf; left|apply IH; intros y Hy; apply Hf; by right]|].
    intros []. unfold v_alerts, v_alert, compose. simpl. by rewrite <- !app_assoc.
Qed.

(** C38: The advisory scan: every session row expiring within seven days
    of the start gives one [session_expiring] alert, in table order,
    with the account's provider when the account is [active] and none
    otherwise; no account or quota row changes.  Rows are not grouped
    by account, and accounts that are not [active] are not skipped. *)
Theorem checkExpiringSessions_spec w :
  calls_ok [CSessionSelect; CDbWrite; CPublish] w →
  ∃ w', checkExpiringSessions w = (w', inr tt) ∧
    db_accounts (w_db w') = db_accounts (w_db w) ∧ db_quotas (w_db w') = db_quotas (w_db w) ∧
    map al_data (db_alerts (w_db w')) = map al_data (db_alerts (w_db w)) ++
      map (λ s, expiring_payload s (embed_active (w_db w) (bs_account_id s)))
        (filter (λ s, bs_expires_at s < env_clock (w_env w) (w_clock_reads w) + week_ms)
                (db_sessions (w_db w))).
Proof.
  intros H. unfold checkExpiringSessions, se_catch.
  rewrite (se_bind_inr now _ w (tick w) _ eq_refl). cbv beta.
  rewrite (se_bind_inr (call CSessionSelect) _ _ (bump CSessionSelect (tick w)) tt)
    by (apply (call_ok_cs [CSessionSelect; CDbWrite; CPublish]); [exact H|set_solver]).
  rewrite (se_bind_inr (db_read _) _ _ _ _ eq_refl). cbv beta.
  set (l := sessions_expiring _ _).
  assert (Ha : acts [CSessionSelect; CDbWrite; CPublish]
                 (se_iter (λ '(s, acc), sendAlert (expiring_payload s acc)) l)
                 (v_alerts (map (λ '(s, acc), expiring_payload s acc) l))).
  { apply acts_iter_alerts. intros [s acc] _. apply acts_sendAlert; set_solver. }
  destruct (Ha (bump CSessionSelect (tick w))) as (w' & E & _ & V); [exact H|].
  assert (Hm : match l with [] => se_ret tt | _ => se_iter (λ '(s, acc), sendAlert (expiring_payload s acc)) l end
               = se_iter (λ '(s, acc), sendAlert (expiring_payload s acc)) l) by (by destruct l).
  rewrite Hm, E. exists w'. split; [done|].
  change (db_accounts (w_db w')) with (tv_accounts (view w')).
  change (db_quotas (w_db w')) with (tv_quotas (view w')).
  change (map al_data (db_alerts (w_db w'))) with (tv_alerts (view w')).
  rewrite V. split; [done|]. split; [done|]. simpl. f_equal.
  subst l. unfold sessions_expiring. by rewrite map_map.
Qed.

(** ** Concrete runs *)

Section Examples.
Local Open Scope string_scope.

Definition tr_account (st : account_status) : Account :=
  {| acc_id := "A"; acc_user_id := "U"; acc_provider := "chatgpt"; acc_email := "a@example.com";
     acc_status := st; acc_last_used_at := None; acc_updated_at := 0 |}.

(** The quota row of account [A] for ChatGPT, without a monthly limit. *)
Definition tr_quota (used limit reset : Z) : Quota :=
  {| q_id := "Q1"; q_account_id := "A"; q_provider := "chatgpt"; q_daily_limit := limit;
     q_daily_used := used; q_monthly_limit := None; q_monthly_used := 0;
     q_reset_daily_at := reset; q_reset_monthly_at := None; q_updated_at := 0 |}.

Definition tr_session (expires : Z) : BrowserSession :=
  {| bs_account_id := "A"; bs_cookies := []; bs_local_storage := ∅; bs_expires_at := expires;
     bs_updated_at := 0 |}.

(** Account [A] with the given status, the given quota and session
    rows; no call rejects; the clock reads 1000000, 1001000, ... *)
Definition tr_world (st : account_status) (qs : list Quota) (ss : list BrowserSession) : World :=
  world_start {| env_fault := λ _ _, None; env_clock := λ n, (1000 * Z.of_nat n + 1000000)%Z;
                 env_session_unique := false; env_screenshot_on_error := true |}
    {| db_accounts := {["A" := tr_account st]}; db_requests := ∅; db_quotas := qs;
       db_sessions := ss; db_usage_logs := []; db_alerts := []; db_api_keys := ∅ |}.
End Examples.

Ltac tr_hyps :=
  first [ apply world_start_quiet_calls | apply NoDup_singleton | reflexivity
        | intros ?i ?j ?Hij; simpl; lia | left | simpl; lia ].

(** ** Witnesses *)

(** The scenario of §8: 10 used of 10. *)
Lemma checkQuotas_spec_witness :
  ∃ w', checkQuotas config_default (tr_world active [tr_quota 10 10 5000000] []) = (w', inr tt) ∧
    map al_data (db_alerts (w_db w')) = [exceeded_payload (tr_quota 10 10 5000000)] ∧
    acc_status <$> db_accounts (w_db w') !! "A"%string = Some quota_exceeded.
Proof.
  destruct (checkQuotas_spec config_default (tr_world active [tr_quota 10 10 5000000] []))
    as (w' & ts & (E & _ & _ & _ & S & Al & _) & _); [tr_hyps..|].
  exists w'. split; [done|]. split; [by rewrite Al|]. by rewrite S.
Defined.

Lemma checkQuotas_daily_reset_witness :
  ∃ w' q' t, checkQuotas config_default (tr_world active [tr_quota 7 10 0] []) = (w', inr tt) ∧
    q' ∈ db_quotas (w_db w') ∧ q_id q' = "Q1"%string ∧ q_daily_used q' = 0 ∧
    1000000 <= t ∧ q_reset_daily_at q' = t + day_ms.
Proof.
  apply (checkQuotas_daily_reset config_default (tr_world active [tr_quota 7 10 0] []) (tr_quota 7 10 0));
    tr_hyps.
Defined.

Lemma checkQuotas_exceeded_witness :
  ∃ w', checkQuotas config_default (tr_world active [tr_quota 10 10 5000000] []) = (w', inr tt) ∧
    acc_status <$> db_accounts (w_db w') !! "A"%string = Some quota_exceeded ∧
    exceeded_payload (tr_quota 10 10 5000000) ∈ map al_data (db_alerts (w_db w')).
Proof.
  apply (checkQuotas_exceeded config_default (tr_world active [tr_quota 10 10 5000000] [])
           (tr_quota 10 10 5000000) (tr_account active)); tr_hyps.
Defined.

(** An account marked [expired] by the worker, over its limit, becomes
    [quota_exceeded]. *)
Lemma checkQuotas_reset_then_exceeded_witness :
  ∃ w' q', checkQuotas config_default (tr_world expired [tr_quota 12 10 0] []) = (w', inr tt) ∧
    q' ∈ db_quotas (w_db w') ∧ q_id q' = "Q1"%string ∧ q_daily_used q' = 0 ∧
    acc_status <$> db_accounts (w_db w') !! "A"%string = Some quota_exceeded.
Proof.
  apply (checkQuotas_reset_then_exceeded config_default (tr_world expired [tr_quota 12 10 0] [])
           (tr_quota 12 10 0) (tr_account expired)); tr_hyps.
Defined.

(** A [quota_exceeded] account whose daily reset has passed is not
    reactivated by either timer. *)
Lemma tracker_never_reactivates_witness :
  acc_status <$> db_accounts (w_db (fst (run_tasks config_default
      [TCheckQuotas; TCheckExpiringSessions]
      (tr_world quota_exceeded [tr_quota 3 10 0] [])))) !! "A"%string = Some quota_exceeded.
Proof.
  apply (tracker_never_reactivates config_default [TCheckQuotas; TCheckExpiringSessions]
           (tr_world quota_exceeded [tr_quota 3 10 0] []) _
           (snd (run_tasks config_default [TCheckQuotas; TCheckExpiringSessions]
                   (tr_world quota_exceeded [tr_quota 3 10 0] [])))).
  - apply surjective_pairing.
  - reflexivity.
Defined.

(** An [expired] account's session expiring in three days still gets
    an alert, without a provider. *)
Lemma checkExpiringSessions_spec_witness :
  ∃ w', checkExpiringSessions (tr_world expired [] [tr_session 260200000]) = (w', inr tt) ∧
    map al_data (db_alerts (w_db w')) = [expiring_payload (tr_session 260200000) None].
Proof.
  destruct (checkExpiringSessions_spec (tr_world expired [] [tr_session 260200000]))
    as (w' & E & _ & _ & Al); [tr_hyps|].
  exists w'. split; [done|]. rewrite Al. reflexivity.
Defined.

(** A run over an exceeded row with the datastore answering: the loop
    visits the row and [checkQuotas] ends normally where it ends. *)
Lemma run_tasks_total_witness :
  ∃ w', checkQuotas config_default (tr_world expired [tr_quota 12 10 0] []) = (w', inr tt).
Proof.
  destruct (proj2 (run_tasks_total config_default []) (tr_world expired [tr_quota 12 10 0] []))
    as (w' & _ & E); [reflexivity|].
  by exists w'.
Defined.
