(* ===== verification/Api.v ===== *)
(** * Api: what the three edge functions of [src/supabase/functions/] share

    Each of [chat/index.ts], [quotas/index.ts] and [status/index.ts]
    answers [OPTIONS] with the CORS headers, reads the API key from the
    [Authorization] header ([?.replace('Bearer ', '')]), hashes it with
    [hashAPIKey] (SHA-256, then two lower-case hexadecimal digits per
    byte), looks up the one non-revoked [api_keys] row with that hash
    ([.single()]), and turns every error into a 400 response carrying
    its message.  SHA-256 itself is a parameter [sha256] of the
    handlers; its hexadecimal encoding is modelled and proved
    injective. *)

From S2P Require Import Prelude Model.

Local Open Scope Z_scope.
Local Open Scope orch_scope.

(** ** Requests and responses *)

(** The parts of a [Request] the handlers read. *)
Record HttpRequest := {
  hr_method : string;
  hr_authorization : option string;
  hr_path : string
}.

(** ** The [Authorization] header *)

(** [s.replace(pat, rep)] with a non-empty string pattern: the first
    occurrence only. *)
Fixpoint js_replace_first (s pat rep : string) : string :=
  if String.prefix pat s then (rep +:+ String.substring (String.length pat) (String.length s) s)%string
  else match s with
       | EmptyString => EmptyString
       | String c s' => String c (js_replace_first s' pat rep)
       end.

(** [req.headers.get('Authorization')?.replace('Bearer ', '')] and the
    test [if (!apiKey)]. *)
Definition bearer_key (authorization : option string) : option string :=
  match authorization with
  | Some h =>
      let k := js_replace_first h "Bearer " EmptyString in
      if String.eqb k EmptyString then None else Some k
  | None => None
  end.

Definition missing_key_msg : string := "Missing API key".
Definition invalid_key_msg : string := "Invalid API key".

(** ** [hashAPIKey]'s hexadecimal encoding *)

Definition hex_digit (n : Z) : Ascii.ascii :=
  Ascii.ascii_of_nat (Z.to_nat (if n <? 10 then 48 + n else 87 + n)).

(** [b.toString(16)] for a byte. *)
Definition to_string16 (b : Z) : string :=
  if b <? 16 then String (hex_digit b) EmptyString
  else String (hex_digit (b / 16)) (String (hex_digit (b mod 16)) EmptyString).

(** [.padStart(2, '0')] *)
Definition pad_start2 (s : string) : string :=
  match s with
  | String _ EmptyString => String (Ascii.ascii_of_nat 48) s
  | EmptyString => "00"
  | _ => s
  end.

(** [Array.from(new Uint8Array(hash)).map(..).join('')] *)
Fixpoint hex_of_bytes (bs : list Z) : string :=
  match bs with
  | [] => EmptyString
  | b :: bs' => (pad_start2 (to_string16 b) +:+ hex_of_bytes bs')%string
  end.

Definition hashAPIKey (sha256 : string → list Z) (key : string) : string := hex_of_bytes (sha256 key).

(** The inverse of [hex_digit] on lower-case digits. *)
Definition hex_value (c : Ascii.ascii) : option Z :=
  let n := Z.of_nat (Ascii.nat_of_ascii c) in
  if (48 <=? n) && (n <=? 57) then Some (n - 48)
  else if (97 <=? n) && (n <=? 102) then Some (n - 87)
  else None.

Fixpoint decode_hex (s : string) : option (list Z) :=
  match s with
  | EmptyString => Some []
  | String a (String b s') =>
      match hex_value a, hex_value b, decode_hex s' with
      | Some x, Some y, Some bs => Some (16 * x + y :: bs)
      | _, _, _ => None
      end
  | String _ EmptyString => None
  end.

(** ** The API key *)

(** [.from('api_keys').select('*').eq('key_hash', h).eq('revoked', false)] *)
Definition api_key_rows (keyHash : string) (d : Db) : list ApiKey :=
  filter (λ k, ak_key_hash k = keyHash ∧ ak_revoked k = false) (map snd (map_to_list (db_api_keys d))).

(** [.single()] and [if (keyError || !keyData) throw new Error('Invalid API key')] *)
Definition lookup_api_key (keyHash : string) : M ApiKey :=
  se_catch
    (call CKeySelect ;;!
     let! rows := db_read (api_key_rows keyHash) in
     match rows with
     | [k] => se_ret k
     | _ => se_throw invalid_key_msg
     end)
    (λ _, se_throw invalid_key_msg).

(** The validation that opens each handler's [try]. *)
Definition authenticate (sha256 : string → list Z) (req : HttpRequest) : M ApiKey :=
  match bearer_key (hr_authorization req) with
  | None => se_throw missing_key_msg
  | Some apiKey => lookup_api_key (hashAPIKey sha256 apiKey)
  end.

(** [catch (error) { return new Response(JSON.stringify({ error: error.message }), { status: 400 }) }] *)
Definition serve_json {B} (handler : M (Z * B)) (error_body : string → B) : M (Z * B) :=
  se_catch handler (λ msg, se_ret (400, error_body msg)).

(** ** Properties of the shared parts *)

Lemma js_replace_first_prefix p s r : js_replace_first (p +:+ s) p r = (r +:+ s)%string.
Proof.
  assert (E : js_replace_first (p +:+ s) p r =
    (r +:+ String.substring (String.length p) (String.length (p +:+ s)) (p +:+ s))%string).
  { destruct (p +:+ s)%string eqn:Es; cbn [js_replace_first]; rewrite <-Es, string_prefix_app; done. }
  rewrite E, substring_after_prefix; [done|]. rewrite string_length_app. lia.
Qed.

Lemma hex_value_digit n : 0 <= n < 16 → hex_value (hex_digit n) = Some n.
Proof.
  intros Hn.
  assert (n = 0 ∨ n = 1 ∨ n = 2 ∨ n = 3 ∨ n = 4 ∨ n = 5 ∨ n = 6 ∨ n = 7 ∨ n = 8 ∨ n = 9 ∨
          n = 10 ∨ n = 11 ∨ n = 12 ∨ n = 13 ∨ n = 14 ∨ n = 15) as Hc by lia.
  repeat destruct Hc as [->|Hc]; try reflexivity. subst. reflexivity.
Qed.

Lemma pad_to_string16 b :
  0 <= b < 256 → pad_start2 (to_string16 b) = String (hex_digit (b / 16)) (String (hex_digit (b mod 16)) EmptyString).
Proof.
  intros Hb. unfold to_string16. destruct (b <? 16) eqn:E; [|reflexivity].
  apply Z.ltb_lt in E. rewrite Z.div_small, Z.mod_small by lia. reflexivity.
Qed.

(** Decoding inverts the encoding, byte by byte. *)
Lemma hex_decode_encode bs : Forall (λ b, 0 <= b < 256) bs → decode_hex (hex_of_bytes bs) = Some bs.
Proof.
  induction 1 as [|b bs Hb _ IH]; [reflexivity|]. simpl. rewrite pad_to_string16 by done. simpl.
  change ((EmptyString +:+ hex_of_bytes bs)%string) with (hex_of_bytes bs).
  rewrite !hex_value_digit, IH by (split; [apply Z.div_pos|apply Z.div_lt_upper_bound] || apply Z.mod_pos_bound; lia).
  do 2 f_equal. pose proof (Z.div_mod b 16). lia.
Qed.

Lemma hex_of_bytes_inj bs1 bs2 :
  Forall (λ b, 0 <= b < 256) bs1 → Forall (λ b, 0 <= b < 256) bs2 →
  hex_of_bytes bs1 = hex_of_bytes bs2 → bs1 = bs2.
Proof. intros H1 H2 E. apply hex_decode_encode in H1, H2. congruence. Qed.

Lemma hex_of_bytes_length bs :
  Forall (λ b, 0 <= b < 256) bs → String.length (hex_of_bytes bs) = (2 * length bs)%nat.
Proof.
  induction 1 as [|b bs Hb _ IH]; [reflexivity|]. simpl. rewrite pad_to_string16 by done.
  simpl. change ((EmptyString +:+ hex_of_bytes bs)%string) with (hex_of_bytes bs). rewrite IH. lia.
Qed.

(** [hashAPIKey]'s encoding loses nothing: the hexadecimal string of
    a byte sequence has two digits per byte and decodes back to it, so
    distinct digests give distinct key hashes. *)
Theorem hex_roundtrip bs :
  Forall (λ b, 0 <= b < 256) bs →
  decode_hex (hex_of_bytes bs) = Some bs ∧ String.length (hex_of_bytes bs) = (2 * length bs)%nat.
Proof. intros H. split; [by apply hex_decode_encode|by apply hex_of_bytes_length]. Qed.

(** The digest bytes [de ad be ef] are encoded as [deadbeef] and decode back. *)
Lemma hex_roundtrip_witness :
  decode_hex (hex_of_bytes [222; 173; 190; 239]) = Some [222; 173; 190; 239] ∧
  String.length (hex_of_bytes [222; 173; 190; 239]) = 8%nat.
Proof. apply hex_roundtrip. repeat constructor; lia. Defined.

(** The lookup when the query returns: the one matching row, or the
    error. *)
Lemma lookup_api_key_run h w :
  env_fault (w_env w) CKeySelect (w_calls w CKeySelect) = None →
  lookup_api_key h w =
    (bump CKeySelect w, match api_key_rows h (w_db w) with
                        | [k] => inr k
                        | _ => inl invalid_key_msg
                        end).
Proof.
  intros Hs. unfold lookup_api_key, se_catch.
  rewrite (se_bind_inr (call CKeySelect) _ w (bump CKeySelect w) tt) by (unfold call; by rewrite Hs).
  rewrite (se_bind_inr (db_read _) _ _ _ _ eq_refl). cbv beta.
  change (w_db (bump CKeySelect w)) with (w_db w).
  destruct (api_key_rows h (w_db w)) as [|k [|k' l]]; reflexivity.
Qed.

(** The validation of a known key, when the lookup answers. *)
Lemma authenticate_run sha256 cs req k key w :
  CKeySelect ∈ cs → calls_ok cs w → bearer_key (hr_authorization req) = Some k →
  api_key_rows (hashAPIKey sha256 k) (w_db w) = [key] →
  authenticate sha256 req w = (bump CKeySelect w, inr key).
Proof.
  intros HK Hok Hb Hr. unfold authenticate. rewrite Hb, lookup_api_key_run, Hr; [done|].
  by apply (calls_ok_no_fault cs).
Qed.
