(* ===== verification/Intake.v ===== *)
(** * Intake: the chat endpoint [src/supabase/functions/chat/index.ts]

    [POST /api/v1/chat] authenticates the API key ([Api]), applies the
    fixed-window rate limiter [checkRateLimit] kept in Redis (100
    requests per 60-second window), validates the prompt, picks an
    account with [selectBestAccount] through the database procedure
    [get_available_account], inserts the [requests] row in status
    [queued], pushes the job message on the Redis list
    [bullmq:chat-requests:wait], reports the remaining daily quota per
    provider and touches the key.

    [get_available_account] is not in the repository: the handler's
    theorems are proved against the class [AccountSelector], which
    states what the procedure promises (an [active] account of the
    user and provider), and [first_available] is an instance modelled
    from the spec.  The random request id ([crypto.randomUUID]) is an
    argument of the handler.  The Redis keys' expiry ([setex]) is not
    modelled: a window's key is only read during its window, which
    ends before the key expires ([window_key_outlives_window]). *)

From stdpp Require Import pretty.
From S2P Require Import Prelude Model Api.

Local Open Scope Z_scope.
Local Open Scope orch_scope.

(** ** The account selector *)

(** What [supabase.rpc('get_available_account', { p_provider, p_user_id })]
    promises: an account of that user and provider that is [active]. *)
Class AccountSelector := {
  select_account : Db → string → string → option string;
  select_account_sound : ∀ d provider user id, select_account d provider user = Some id →
    ∃ a, db_accounts d !! id = Some a ∧ acc_user_id a = user ∧ acc_provider a = provider ∧
         acc_status a = active
}.

(** An account is available when it is [active] and none of its quota
    rows has reached its daily limit (spec §2, Account Selector). *)
Definition available (d : Db) (provider user : string) (a : Account) : bool :=
  bool_decide (acc_user_id a = user ∧ acc_provider a = provider ∧ acc_status a = active) &&
  forallb (λ q, negb (bool_decide (q_account_id q = acc_id a)) || (q_daily_used q <? q_daily_limit q))
          (db_quotas d).

Definition first_available (d : Db) (provider user : string) : option string :=
  fst <$> head (filter (λ '(_, a), available d provider user a = true) (map_to_list (db_accounts d))).

#[export] Program Instance first_available_selector : AccountSelector := {|
  select_account := first_available
|}.
Next Obligation.
  intros d provider user id. unfold first_available.
  destruct (filter _ _) as [|[i a] l] eqn:E; [discriminate|]. simpl. intros [= <-].
  assert (Hin : (i, a) ∈ filter (λ '(_, a), available d provider user a = true)
                               (map_to_list (db_accounts d))) by (rewrite E; left).
  apply list_elem_of_filter in Hin as [Ha Hin]. apply elem_of_map_to_list in Hin.
  exists a. split; [done|]. unfold available in Ha. apply andb_prop in Ha as [Ha _].
  by apply bool_decide_eq_true in Ha.
Qed.

Section Intake.
Context `{AccountSelector}.

(** ** [checkRateLimit] *)

Record RateLimit := {
  rl_exceeded : bool;
  rl_remaining : Z;
  rl_reset_at : Z
}.

(** [`ratelimit:${apiKeyId}:${window}`] *)
Definition rate_key (apiKeyId : string) (window : Z) : string :=
  ("ratelimit:" +:+ apiKeyId +:+ ":" +:+ pretty window)%string.

(** [parseInt((await redis.get(key)) || '0')] *)
Definition redis_get (key : string) : M Z :=
  call CRedis ;;! (λ w, (w, inr (default 0 (x_redis (w_ext w) !! key)))).

Definition set_redis (r : gmap string Z) (x : Ext) : Ext :=
  {| x_uploads := x_uploads x; x_redis := r; x_queue := x_queue x; x_published := x_published x |}.

(** [redis.setex(key, ttl, '1')] *)
Definition redis_setex (key : string) (v : Z) : M unit :=
  call CRedis ;;! modify_ext (λ x, set_redis (<[key := v]> (x_redis x)) x).

(** [redis.incr(key)]: a missing key counts from 0. *)
Definition redis_incr (key : string) : M unit :=
  call CRedis ;;! modify_ext (λ x, set_redis (<[key := default 0 (x_redis x !! key) + 1]> (x_redis x)) x).

Definition checkRateLimit (apiKeyId : string) (limit windowSeconds : Z) : M RateLimit :=
  let! t := now in
  let nowS := t / 1000 in
  let window := nowS / windowSeconds in
  let key := rate_key apiKeyId window in
  let resetAt := (window + 1) * windowSeconds * 1000 in
  let! count := redis_get key in
  if count =? 0 then
    redis_setex key 1 ;;!
    se_ret {| rl_exceeded := false; rl_remaining := limit - 1; rl_reset_at := resetAt |}
  else if limit <=? count then
    se_ret {| rl_exceeded := true; rl_remaining := 0; rl_reset_at := resetAt |}
  else
    redis_incr key ;;!
    se_ret {| rl_exceeded := false; rl_remaining := limit - count - 1; rl_reset_at := resetAt |}.

(** ** [selectBestAccount] *)

(** [const { data: accountId } = await supabase.rpc('get_available_account', ..)]:
    the [error] is not read, so a rejected call gives [null]. *)
Definition rpc_get_available_account (provider user : string) : M (option string) :=
  se_catch (call CRpc ;;! db_read (λ d, select_account d provider user)) (λ _, se_ret None).

Definition provider_order : list string := ["deepseek"; "gemini"; "chatgpt"; "claude"].

(** [for (const p of providerOrder) { .. if (accountId) return .. }] *)
Fixpoint select_in_order (user : string) (ps : list string) : M (option string * string) :=
  match ps with
  | [] => se_ret (None, "none")
  | p :: ps' =>
      let! accountId := rpc_get_available_account p user in
      match accountId with
      | Some id => se_ret (Some id, p)
      | None => select_in_order user ps'
      end
  end.

Definition selectBestAccount (user provider : string) : M (option string * string) :=
  if String.eqb provider "auto" then select_in_order user provider_order
  else let! accountId := rpc_get_available_account provider user in se_ret (accountId, provider).
End Intake.

(** ** The handler *)

(** [interface ChatRequest], the JSON body; [max_tokens] and
    [temperature] are never read.  A body that is not JSON is [None]. *)
Record ChatBody := {
  cb_prompt : option string;
  cb_provider : option string;
  cb_priority : option string
}.

(** The response bodies of the endpoint. *)
Inductive ChatReply :=
  | ChatCors
  | ChatQueued (id : string) (provider_used : string) (estimated_wait : Z)
      (quota_remaining : gmap string Z)
  | ChatRateLimited (reset_at : Z)
  | ChatError (message : string).

Definition missing_prompt_msg : string := "Missing prompt".
Definition prompt_too_long_msg : string := "Prompt too long (max 10,000 characters)".
Definition no_accounts_msg : string :=
  "No available accounts - all quotas exceeded or no accounts configured".
Definition invalid_json_msg : string := "Unexpected end of JSON input".
Definition duplicate_request_msg : string := "duplicate key value violates unique constraint".

(** [body.priority === 'high' ? 1 : body.priority === 'low' ? 10 : 5] *)
Definition priority_of (p : option string) : Z :=
  if decide (p = Some "high"%string) then 1 else if decide (p = Some "low"%string) then 10 else 5.

(** [body.provider || 'auto'] *)
Definition provider_of (p : option string) : string :=
  match p with
  | Some s => if String.eqb s EmptyString then "auto" else s
  | None => "auto"
  end.

(** The row of [supabase.from('requests').insert({ .. })]. *)
Definition queued_row (rid user keyId prompt provider accountId : string) (priority : Z) : Request :=
  {| req_id := rid; req_user_id := user; req_api_key_id := Some keyId; req_prompt := prompt;
     req_provider_requested := if String.eqb provider "auto" then None else Some provider;
     req_provider_used := None; req_account_id := Some accountId; req_status := queued;
     req_priority := priority; req_response := None; req_tokens_used := None;
     req_latency_ms := None; req_error_message := None; req_completed_at := None |}.

(** The insert: [id] is the primary key. *)
Definition insert_request (r : Request) : M unit :=
  call CRequestInsert ;;!
  (λ w, if decide (is_Some (db_requests (w_db w) !! req_id r)) then (w, inl duplicate_request_msg)
        else (set_db (db_set_requests (<[req_id r := r]> (db_requests (w_db w))) (w_db w)) w, inr tt)).

(** The message of [redis.lpush('bullmq:chat-requests:wait', JSON.stringify({ .. }))]. *)
Definition job_message (rid accountId provider prompt : string) (priority : Z) : JobMessage :=
  {| jm_name := rid;
     jm_data := {| job_request_id := rid; job_account_id := accountId; job_provider := provider;
                   job_prompt := prompt; job_priority := priority |};
     jm_priority := priority |}.

Definition set_queue (q : list JobMessage) (x : Ext) : Ext :=
  {| x_uploads := x_uploads x; x_redis := x_redis x; x_queue := q; x_published := x_published x |}.

(** [redis.lpush]: the message goes to the head of the list. *)
Definition lpush (m : JobMessage) : M unit :=
  call CRedis ;;! modify_ext (λ x, set_queue (m :: x_queue x) x).

(** [getAccountIds]: [accounts?.map((a) => a.id) || []]. *)
Definition getAccountIds (user : string) : M (list string) :=
  se_catch
    (call CSelect ;;!
     db_read (λ d, map acc_id (filter (λ a, acc_user_id a = user) (map snd (map_to_list (db_accounts d))))))
    (λ _, se_ret []).

(** [.from('quotas').select('provider, daily_used, daily_limit').in('account_id', ids)];
    its [error] is not read. *)
Definition quota_rows_of (ids : list string) : M (list Quota) :=
  se_catch (call CSelect ;;! db_read (λ d, filter (λ q, q_account_id q ∈ ids) (db_quotas d)))
           (λ _, se_ret []).

(** [quotas?.forEach((q) => { quotaRemaining[q.provider] = q.daily_limit - q.daily_used })] *)
Definition quota_remaining (rows : list Quota) : gmap string Z :=
  fold_left (λ m q, <[q_provider q := q_daily_limit q - q_daily_used q]> m) rows ∅.

Definition set_api_keys (f : gmap string ApiKey → gmap string ApiKey) (d : Db) : Db :=
  db_set_api_keys (f (db_api_keys d)) d.

Definition with_key_last_used (t : Z) (k : ApiKey) : ApiKey :=
  {| ak_id := ak_id k; ak_user_id := ak_user_id k; ak_name := ak_name k; ak_key_hash := ak_key_hash k;
     ak_key_prefix := ak_key_prefix k; ak_rate_limit_per_minute := ak_rate_limit_per_minute k;
     ak_rate_limit_per_day := ak_rate_limit_per_day k; ak_revoked := ak_revoked k;
     ak_last_used_at := Some t; ak_expires_at := ak_expires_at k |}.

(** [.from('api_keys').update({ last_used_at: new Date() }).eq('id', keyData.id)] *)
Definition touch_key (keyId : string) : M unit :=
  let! t := now in try_write (set_api_keys (alter (with_key_last_used t) keyId)).

Section Handler.
Context `{AccountSelector}.
Context (sha256 : string → list Z).

(** The [try] block once the key is known and the rate limit passed. *)
Definition enqueue (key : ApiKey) (rid : string) (body : option ChatBody) : M (Z * ChatReply) :=
  match body with
  | None => se_throw invalid_json_msg
  | Some b =>
      match cb_prompt b with
      | None => se_throw missing_prompt_msg
      | Some prompt =>
          if String.eqb prompt EmptyString then se_throw missing_prompt_msg
          else if Nat.ltb 10000 (String.length prompt) then se_throw prompt_too_long_msg
          else
            let user := ak_user_id key in
            let provider := provider_of (cb_provider b) in
            let priority := priority_of (cb_priority b) in
            let! sel := selectBestAccount user provider in
            match fst sel with
            | None => se_throw no_accounts_msg
            | Some accountId =>
                insert_request (queued_row rid user (ak_id key) prompt provider accountId priority) ;;!
                lpush (job_message rid accountId (snd sel) prompt priority) ;;!
                let! ids := getAccountIds user in
                let! rows := quota_rows_of ids in
                touch_key (ak_id key) ;;!
                se_ret (202, ChatQueued rid (snd sel) 5 (quota_remaining rows))
            end
      end
  end.

(** The handler given to [serve]. *)
Definition handle_chat (rid : string) (req : HttpRequest) (body : option ChatBody) : M (Z * ChatReply) :=
  if String.eqb (hr_method req) "OPTIONS" then se_ret (200, ChatCors)
  else serve_json
    (let! key := authenticate sha256 req in
     let! rl := checkRateLimit (ak_id key) 100 60 in
     if rl_exceeded rl then se_ret (429, ChatRateLimited (rl_reset_at rl))
     else enqueue key rid body)
    ChatError.
End Handler.

(** ** The rate limiter *)

(** The counter after one check that found [c]. *)
Definition rl_next (limit c : Z) : Z := if c =? 0 then 1 else if limit <=? c then c else c + 1.

Definition rl_result (limit c resetAt : Z) : RateLimit :=
  {| rl_exceeded := negb (c =? 0) && (limit <=? c);
     rl_remaining := if c =? 0 then limit - 1 else if limit <=? c then 0 else limit - c - 1;
     rl_reset_at := resetAt |}.

(** The window of an instant. *)
Definition rl_window (t windowSeconds : Z) : Z := t / 1000 / windowSeconds.

(** The key of a window is set by [setex] with a time to live of
    [windowSeconds] at the first request of the window, so it lives at
    least until the window's end [resetAt]: its expiry never shows
    during the window, and is not modelled. *)
Lemma window_key_outlives_window t ws : 0 < ws → (rl_window t ws + 1) * ws * 1000 <= t + ws * 1000.
Proof.
  intros Hws. unfold rl_window. rewrite Z.div_div by lia.
  pose proof (Z.mul_div_le t (1000 * ws) ltac:(lia)). nia.
Qed.

(** The world after one check that found [c] in [key]: the clock read,
    one [get], and a [setex] or [incr] unless the limit was reached. *)
Definition rl_world (limit : Z) (key : string) (c : Z) (w : World) : World :=
  if negb (c =? 0) && (limit <=? c) then bump CRedis (tick w)
  else set_ext (set_redis (<[key := rl_next limit c]> (x_redis (w_ext w))) (w_ext w))
               (bump CRedis (bump CRedis (tick w))).

(** One check when Redis answers: the counter of the current window's
    key goes from [c] to [rl_next limit c]. *)
Section RedisRuns.
Context (cs : list Call) (w : World) (Hok : calls_ok cs w) (Hc : CRedis ∈ cs).

Lemma redis_get_run key : redis_get key w = (bump CRedis w, inr (default 0 (x_redis (w_ext w) !! key))).
Proof. unfold redis_get. by rewrite (se_bind_inr _ _ _ _ _ (call_ok_cs cs _ w Hok Hc)). Qed.

Lemma redis_setex_run key v :
  redis_setex key v w = (set_ext (set_redis (<[key := v]> (x_redis (w_ext w))) (w_ext w)) (bump CRedis w), inr tt).
Proof. unfold redis_setex. by rewrite (se_bind_inr _ _ _ _ _ (call_ok_cs cs _ w Hok Hc)). Qed.

Lemma redis_incr_run key :
  redis_incr key w =
    (set_ext (set_redis (<[key := default 0 (x_redis (w_ext w) !! key) + 1]> (x_redis (w_ext w))) (w_ext w))
             (bump CRedis w), inr tt).
Proof. unfold redis_incr. by rewrite (se_bind_inr _ _ _ _ _ (call_ok_cs cs _ w Hok Hc)). Qed.
End RedisRuns.

Lemma checkRateLimit_run cs id limit ws w :
  calls_ok cs w → CRedis ∈ cs →
  let t := env_clock (w_env w) (w_clock_reads w) in
  let key := rate_key id (rl_window t ws) in
  let c := default 0 (x_redis (w_ext w) !! key) in
  checkRateLimit id limit ws w =
    (rl_world limit key c w, inr (rl_result limit c ((rl_window t ws + 1) * ws * 1000))).
Proof.
  intros H Hc t key c. unfold checkRateLimit.
  rewrite (se_bind_inr now _ w (tick w) _ eq_refl). cbv beta.
  assert (H1 : calls_ok cs (tick w)) by (eapply calls_ok_env; [reflexivity|exact H]).
  assert (H2 : calls_ok cs (bump CRedis (tick w))) by (eapply calls_ok_env; [reflexivity|exact H]).
  rewrite (se_bind_inr _ _ _ _ _ (redis_get_run cs _ H1 Hc _)). fold t key. fold (rl_window t ws) key.
  change (x_redis (w_ext (tick w))) with (x_redis (w_ext w)). fold c.
  unfold rl_world, rl_result, rl_next. destruct (c =? 0) eqn:E0; simpl.
  - rewrite (se_bind_inr _ _ _ _ _ (redis_setex_run cs _ H2 Hc _ _)). reflexivity.
  - destruct (limit <=? c); [reflexivity|].
    rewrite (se_bind_inr _ _ _ _ _ (redis_incr_run cs _ H2 Hc _)). reflexivity.
Qed.

Lemma rl_world_env limit key c w : w_env (rl_world limit key c w) = w_env w.
Proof. unfold rl_world. by destruct (_ && _). Qed.

Lemma rl_world_reads limit key c w : w_clock_reads (rl_world limit key c w) = S (w_clock_reads w).
Proof. unfold rl_world. by destruct (_ && _). Qed.

Lemma rl_world_db limit key c w : w_db (rl_world limit key c w) = w_db w.
Proof. unfold rl_world. by destruct (_ && _). Qed.

Lemma rl_world_queue limit key c w : x_queue (w_ext (rl_world limit key c w)) = x_queue (w_ext w).
Proof. unfold rl_world. by destruct (_ && _). Qed.

(** The counter is [rl_next limit c] after the check, and no other key
    changes. *)
Lemma rl_world_redis limit key key' w :
  let c := default 0 (x_redis (w_ext w) !! key) in
  x_redis (w_ext (rl_world limit key c w)) !! key' =
    if decide (key' = key) then Some (rl_next limit c) else x_redis (w_ext w) !! key'.
Proof.
  intros c. unfold rl_world, rl_next. destruct (decide (key' = key)) as [->|Hne].
  - destruct (c =? 0) eqn:E0; simpl; [by rewrite lookup_insert_eq|].
    destruct (limit <=? c); simpl; [|by rewrite lookup_insert_eq].
    subst c. apply Z.eqb_neq in E0. by destruct (x_redis (w_ext w) !! key).
  - destruct (_ && _); simpl; [done|]. by rewrite lookup_insert_ne.
Qed.

#[export] Hint Rewrite rl_world_env rl_world_reads rl_world_db rl_world_queue : db_rw.

Lemma rl_next_below limit c r :
  0 <= c < limit → rl_next limit c = c + 1 ∧ rl_exceeded (rl_result limit c r) = false.
Proof.
  intros Hc. unfold rl_next, rl_result. simpl.
  destruct (Z.eqb_spec c 0); [subst; done|]. destruct (Z.leb_spec limit c); [lia|done].
Qed.

Lemma rl_next_at limit c r :
  1 <= limit → c = limit → rl_next limit c = c ∧ rl_exceeded (rl_result limit c r) = true.
Proof.
  intros Hl ->. unfold rl_next, rl_result. simpl.
  destruct (Z.eqb_spec limit 0); [lia|]. by rewrite Z.leb_refl.
Qed.

(** [n] requests checked one after the other with the same key, as
    the handler checks them. *)
Fixpoint rate_checks (apiKeyId : string) (limit windowSeconds : Z) (n : nat) : M (list bool) :=
  match n with
  | O => se_ret []
  | S n' =>
      let! rl := checkRateLimit apiKeyId limit windowSeconds in
      let! rest := rate_checks apiKeyId limit windowSeconds n' in
      se_ret (rl_exceeded rl :: rest)
  end.

(** C8: Sequential requests within one window: starting from a counter
    [c0 <= limit], the first [limit - c0] are accepted and all later
    ones refused, and the counter ends at [min (c0 + n) limit]; nothing
    else changes in the database or the queue. *)
Theorem checkRateLimit_window cs id limit ws W n w :
  calls_ok cs w → CRedis ∈ cs → 1 <= limit →
  (∀ i, (w_clock_reads w <= i < w_clock_reads w + n)%nat → rl_window (env_clock (w_env w) i) ws = W) →
  let key := rate_key id W in
  let c0 := default 0 (x_redis (w_ext w) !! key) in
  0 <= c0 <= limit →
  let k := Nat.min n (Z.to_nat (limit - c0)) in
  ∃ w', rate_checks id limit ws n w = (w', inr (repeat false k ++ repeat true (n - k))) ∧
        default 0 (x_redis (w_ext w') !! key) = Z.min (c0 + Z.of_nat n) limit ∧
        w_db w' = w_db w ∧ x_queue (w_ext w') = x_queue (w_ext w).
Proof.
  intros Hok Hc Hl. revert w Hok. induction n as [|n IH]; intros w Hok Hw key c0 Hc0 k.
  { exists w. repeat split. simpl. lia. }
  cbn [rate_checks]. rewrite (se_bind_inr _ _ _ _ _ (checkRateLimit_run cs id limit ws w Hok Hc)).
  cbv zeta. rewrite (Hw (w_clock_reads w)) by lia. fold key c0.
  set (w1 := rl_world limit key c0 w).
  assert (Hr1 := rl_world_redis limit key key w). cbv zeta in Hr1. rewrite decide_True in Hr1 by done. fold c0 w1 in Hr1.
  assert (Hok1 : calls_ok cs w1) by (eapply calls_ok_env; [apply rl_world_env|exact Hok]).
  assert (Hw1 : ∀ i, (w_clock_reads w1 <= i < w_clock_reads w1 + n)%nat →
                     rl_window (env_clock (w_env w1) i) ws = W).
  { intros i Hi. unfold w1 in Hi |- *. rewrite rl_world_env. apply Hw. rewrite rl_world_reads in Hi. lia. }
  assert (Hc1 : 0 <= default 0 (x_redis (w_ext w1) !! key) <= limit).
  { rewrite Hr1. unfold rl_next. repeat case_match; simpl; lia. }
  destruct (IH w1 Hok1 Hw1 Hc1) as (w' & Ew & Hc' & Hd & Hq).
  exists w'. change (rate_key id W) with key in Ew, Hc'. rewrite Hr1 in Ew, Hc'. rewrite (se_bind_inr _ _ _ _ _ Ew).
  unfold w1 in Hd, Hq. autorewrite with db_rw in Hd, Hq.
  subst k. cbn [default] in *. unfold Datatypes.id in *. destruct (Z.lt_ge_cases c0 limit) as [Hlt|Hge].
  - destruct (rl_next_below limit c0 ((W + 1) * ws * 1000)) as [Hn He]; [lia|]. rewrite Hn, He in *.
    replace (Z.to_nat (limit - c0)) with (S (Z.to_nat (limit - (c0 + 1)))) by lia.
    split; [reflexivity|]. split; [rewrite Hc'; lia|done].
  - destruct (rl_next_at limit c0 ((W + 1) * ws * 1000)) as [Hn He]; [lia|lia|]. rewrite Hn, He in *.
    replace (Z.to_nat (limit - c0)) with 0%nat by lia. rewrite ?Nat.min_0_r, ?Nat.sub_0_r in *.
    split; [reflexivity|]. split; [rewrite Hc'; lia|done].
Qed.

(** ** Two checks interleaved at their awaits

    [checkRateLimit] awaits [redis.get] and then [redis.setex] or
    [redis.incr]; between the two, another request of the same key can
    run.  Each phase below runs from one await to the next. *)

Inductive rl_phase :=
  | RLStart
  | RLCounted (key : string) (count resetAt : Z)
  | RLDone (rl : RateLimit).

Definition rl_step (apiKeyId : string) (limit windowSeconds : Z) (ph : rl_phase) : M rl_phase :=
  match ph with
  | RLStart =>
      let! t := now in
      let window := t / 1000 / windowSeconds in
      let key := rate_key apiKeyId window in
      let! count := redis_get key in
      se_ret (RLCounted key count ((window + 1) * windowSeconds * 1000))
  | RLCounted key count resetAt =>
      if count =? 0 then
        redis_setex key 1 ;;!
        se_ret (RLDone {| rl_exceeded := false; rl_remaining := limit - 1; rl_reset_at := resetAt |})
      else if limit <=? count then
        se_ret (RLDone {| rl_exceeded := true; rl_remaining := 0; rl_reset_at := resetAt |})
      else
        redis_incr key ;;!
        se_ret (RLDone {| rl_exceeded := false; rl_remaining := limit - count - 1; rl_reset_at := resetAt |})
  | RLDone rl => se_ret (RLDone rl)
  end.

(** Run without interleaving, the two phases are [checkRateLimit]. *)
Lemma rl_step_sequential id limit ws w :
  (let! p := rl_step id limit ws RLStart in rl_step id limit ws p) w =
    match checkRateLimit id limit ws w with
    | (w', inr rl) => (w', inr (RLDone rl))
    | (w', inl e) => (w', inl e)
    end.
Proof.
  unfold checkRateLimit. cbv [rl_step se_bind se_ret now].
  destruct (redis_get _ _) as [w1 [e|c]]; [done|].
  destruct (c =? 0); [|destruct (limit <=? c); [done|]];
    match goal with |- context [?m w1] => destruct (m w1) as [w2 [e|[]]] end; done.
Qed.

(** Two requests of one key, interleaved: both read the counter, then
    both write it. *)
Definition rl_interleaved (id : string) (limit ws : Z) : M (RateLimit * RateLimit) :=
  let! p1 := rl_step id limit ws RLStart in
  let! p2 := rl_step id limit ws RLStart in
  let! d1 := rl_step id limit ws p1 in
  let! d2 := rl_step id limit ws p2 in
  match d1, d2 with
  | RLDone r1, RLDone r2 => se_ret (r1, r2)
  | _, _ => se_throw EmptyString
  end.

Section PhaseRuns.
Context (cs : list Call) (Hc : CRedis ∈ cs) (id : string) (limit ws : Z).

Lemma rl_start_run w :
  calls_ok cs w →
  let t := env_clock (w_env w) (w_clock_reads w) in
  let key := rate_key id (rl_window t ws) in
  rl_step id limit ws RLStart w =
    (bump CRedis (tick w), inr (RLCounted key (default 0 (x_redis (w_ext w) !! key)) ((rl_window t ws + 1) * ws * 1000))).
Proof.
  intros Hok t key. cbv [rl_step se_bind se_ret now].
  by rewrite (redis_get_run cs (tick w)) by (done || by eapply calls_ok_env; [|exact Hok]).
Qed.

(** The second phase writes from the value the first one read: [setex]
    stores 1 whatever the counter has become since. *)
Lemma rl_counted_run key c r w :
  calls_ok cs w →
  rl_step id limit ws (RLCounted key c r) w =
    (if negb (c =? 0) && (limit <=? c) then w
     else set_ext (set_redis (<[key := if c =? 0 then 1 else default 0 (x_redis (w_ext w) !! key) + 1]>
                               (x_redis (w_ext w))) (w_ext w)) (bump CRedis w),
     inr (RLDone (rl_result limit c r))).
Proof.
  intros Hok. unfold rl_result. cbn [rl_step]. destruct (c =? 0); simpl.
  - by rewrite (se_bind_inr _ _ _ _ _ (redis_setex_run cs w Hok Hc _ _)).
  - destruct (limit <=? c); [done|]. by rewrite (se_bind_inr _ _ _ _ _ (redis_incr_run cs w Hok Hc _)).
Qed.
End PhaseRuns.

(** Runs the first bind of the goal with a run lemma of its action,
    whose [calls_ok] premise follows from [Hok]. *)
Local Ltac step_with lem :=
  match goal with
  | Hok : calls_ok ?cs ?w |- context [se_bind ?m ?f ?s] =>
      rewrite (se_bind_inr m f s _ _ (lem _ _ _ s ltac:(by eapply calls_ok_env; [|exact Hok]))) ||
      rewrite (se_bind_inr m f s _ _ (lem s ltac:(by eapply calls_ok_env; [|exact Hok])))
  end; cbv beta.

(** C7: Two requests of one API key whose checks interleave at the
    awaits both read the counter [c] before either writes it: both are
    accepted whenever [c < limit], and the counter records
    [1] (from an empty window, one request lost) or [c + 2].  At
    [c = limit - 1] the window admits [limit + 1] requests. *)
Theorem rl_interleaved_race cs id limit ws w :
  calls_ok cs w → CRedis ∈ cs →
  rl_window (env_clock (w_env w) (S (w_clock_reads w))) ws = rl_window (env_clock (w_env w) (w_clock_reads w)) ws →
  let key := rate_key id (rl_window (env_clock (w_env w) (w_clock_reads w)) ws) in
  let c := default 0 (x_redis (w_ext w) !! key) in
  0 <= c < limit →
  ∃ w' r1 r2, rl_interleaved id limit ws w = (w', inr (r1, r2)) ∧
    rl_exceeded r1 = false ∧ rl_exceeded r2 = false ∧
    x_redis (w_ext w') !! key = Some (if c =? 0 then 1 else c + 2).
Proof.
  intros Hok Hc Hw key c Hlt.
  assert (Hn : negb (c =? 0) && (limit <=? c) = false)
    by (destruct (Z.eqb_spec c 0), (Z.leb_spec limit c); simpl; lia).
  unfold rl_interleaved.
  step_with (rl_start_run cs Hc id limit ws). step_with (rl_start_run cs Hc id limit ws).
  cbn [w_env w_clock_reads w_ext bump tick]. rewrite Hw. fold key c.
  step_with (rl_counted_run cs Hc id limit ws). rewrite Hn.
  step_with (rl_counted_run cs Hc id limit ws). rewrite Hn.
  eexists _, _, _. split; [reflexivity|].
  unfold rl_result. cbn. rewrite Hn. split; [done|]. split; [done|].
  rewrite lookup_insert_eq, lookup_insert_eq. cbn. destruct (c =? 0); [done|]. f_equal. lia.
Qed.

(** ** The handler's runs *)

(** The choice [selectBestAccount] makes, read off the datastore. *)
Fixpoint best_in_order `{AccountSelector} (d : Db) (user : string) (ps : list string) : option string * string :=
  match ps with
  | [] => (None, "none"%string)
  | p :: ps' =>
      match select_account d p user with
      | Some id => (Some id, p)
      | None => best_in_order d user ps'
      end
  end.

Definition best_account `{AccountSelector} (d : Db) (user provider : string) : option string * string :=
  if String.eqb provider "auto" then best_in_order d user provider_order
  else (select_account d provider user, provider).

(** The accounts of a user and their quota rows, as the two queries
    read them. *)
Definition user_account_ids (d : Db) (user : string) : list string :=
  map acc_id (filter (λ a, acc_user_id a = user) (map snd (map_to_list (db_accounts d)))).

Definition user_quota_rows (d : Db) (user : string) : list Quota :=
  filter (λ q, q_account_id q ∈ user_account_ids d user) (db_quotas d).

Lemma iter_bump_db c n w : w_db (Nat.iter n (bump c) w) = w_db w.
Proof. induction n; simpl; congruence. Qed.
Lemma iter_bump_ext c n w : w_ext (Nat.iter n (bump c) w) = w_ext w.
Proof. induction n; simpl; congruence. Qed.
Lemma iter_bump_env c n w : w_env (Nat.iter n (bump c) w) = w_env w.
Proof. induction n; simpl; congruence. Qed.
Lemma iter_bump_reads c n w : w_clock_reads (Nat.iter n (bump c) w) = w_clock_reads w.
Proof. induction n; simpl; congruence. Qed.
#[export] Hint Rewrite iter_bump_db iter_bump_ext iter_bump_env iter_bump_reads : db_rw.

Lemma iter_bump_calls c c' n w : c' ≠ c → w_calls (Nat.iter n (bump c) w) c' = w_calls w c'.
Proof. intros Hne. induction n as [|n IH]; [done|]. simpl. by rewrite decide_False. Qed.

(** A rejected [lpush]. *)
Lemma lpush_fail m msg w :
  env_fault (w_env w) CRedis (w_calls w CRedis) = Some msg → lpush m w = (bump CRedis w, inl msg).
Proof. intros Hf. unfold lpush, se_bind, call. by rewrite Hf. Qed.

(** Reduces the projections of worlds built by the calls and writes. *)
Ltac world_simpl :=
  cbn [w_db w_env w_ext w_clock_reads w_calls set_db set_ext bump tick db_quotas db_accounts db_requests
       db_api_keys db_set_requests set_api_keys db_set_api_keys x_queue x_redis set_queue set_redis];
  autorewrite with db_rw.

Section HandlerRuns.
Context `{AccountSelector} (sha256 : string → list Z) (cs : list Call).
Hypothesis (HKey : CKeySelect ∈ cs) (HRpc : CRpc ∈ cs) (HIns : CRequestInsert ∈ cs)
  (HRedis : CRedis ∈ cs) (HSel : CSelect ∈ cs) (HWrite : CDbWrite ∈ cs).

Lemma rpc_run p user w :
  calls_ok cs w → rpc_get_available_account p user w = (bump CRpc w, inr (select_account (w_db w) p user)).
Proof. intros Hok. unfold rpc_get_available_account, se_catch. by rewrite (se_bind_inr _ _ _ _ _ (call_ok_cs cs _ w Hok HRpc)). Qed.

Lemma select_in_order_run user ps w :
  calls_ok cs w → ∃ n, select_in_order user ps w = (Nat.iter n (bump CRpc) w, inr (best_in_order (w_db w) user ps)).
Proof.
  revert w. induction ps as [|p ps IH]; intros w Hok; [by exists 0%nat|]. cbn [select_in_order best_in_order].
  rewrite (se_bind_inr _ _ _ _ _ (rpc_run p user w Hok)). cbv beta.
  destruct (select_account (w_db w) p user); [by exists 1%nat|].
  destruct (IH (bump CRpc w)) as [n En]; [by eapply calls_ok_env; [|exact Hok]|].
  exists (S n). rewrite En. f_equal. by rewrite Nat.iter_succ_r.
Qed.

Lemma selectBestAccount_run user provider w :
  calls_ok cs w →
  ∃ n, selectBestAccount user provider w = (Nat.iter n (bump CRpc) w, inr (best_account (w_db w) user provider)).
Proof.
  intros Hok. unfold selectBestAccount, best_account. destruct (String.eqb provider "auto").
  - by apply select_in_order_run.
  - exists 1%nat. by rewrite (se_bind_inr _ _ _ _ _ (rpc_run provider user w Hok)).
Qed.

Lemma insert_request_run r w :
  calls_ok cs w → db_requests (w_db w) !! req_id r = None →
  insert_request r w =
    (set_db (db_set_requests (<[req_id r := r]> (db_requests (w_db w))) (w_db w)) (bump CRequestInsert w), inr tt).
Proof.
  intros Hok Hn. unfold insert_request. rewrite (se_bind_inr _ _ _ _ _ (call_ok_cs cs _ w Hok HIns)).
  cbn [w_db bump]. rewrite Hn. reflexivity.
Qed.

Lemma lpush_run m w :
  calls_ok cs w → lpush m w = (set_ext (set_queue (m :: x_queue (w_ext w)) (w_ext w)) (bump CRedis w), inr tt).
Proof. intros Hok. unfold lpush. by rewrite (se_bind_inr _ _ _ _ _ (call_ok_cs cs _ w Hok HRedis)). Qed.

Lemma getAccountIds_run user w :
  calls_ok cs w → getAccountIds user w = (bump CSelect w, inr (user_account_ids (w_db w) user)).
Proof. intros Hok. unfold getAccountIds, se_catch. by rewrite (se_bind_inr _ _ _ _ _ (call_ok_cs cs _ w Hok HSel)). Qed.

Lemma quota_rows_of_run ids w :
  calls_ok cs w → quota_rows_of ids w = (bump CSelect w, inr (filter (λ q, q_account_id q ∈ ids) (db_quotas (w_db w)))).
Proof. intros Hok. unfold quota_rows_of, se_catch. by rewrite (se_bind_inr _ _ _ _ _ (call_ok_cs cs _ w Hok HSel)). Qed.

Lemma touch_key_run keyId w :
  calls_ok cs w →
  touch_key keyId w =
    (set_db (set_api_keys (alter (with_key_last_used (env_clock (w_env w) (w_clock_reads w))) keyId) (w_db w))
            (bump CDbWrite (tick w)), inr tt).
Proof.
  intros Hok. unfold touch_key. rewrite (se_bind_inr now _ w (tick w) _ eq_refl).
  by rewrite (try_write_ok cs) by (done || by eapply calls_ok_env; [|exact Hok]).
Qed.
(** The [try] block after the rate limit, on a valid body whose
    provider has an account. *)
Lemma enqueue_run key rid b prompt acc used w :
  calls_ok cs w → cb_prompt b = Some prompt → prompt ≠ EmptyString → (String.length prompt <= 10000)%nat →
  best_account (w_db w) (ak_user_id key) (provider_of (cb_provider b)) = (Some acc, used) →
  db_requests (w_db w) !! rid = None →
  let provider := provider_of (cb_provider b) in
  let priority := priority_of (cb_priority b) in
  ∃ w', enqueue key rid (Some b) w =
          (w', inr (202, ChatQueued rid used 5 (quota_remaining (user_quota_rows (w_db w) (ak_user_id key))))) ∧
        w_env w' = w_env w ∧ w_clock_reads w' = S (w_clock_reads w) ∧
        w_db w' = set_api_keys (alter (with_key_last_used (env_clock (w_env w) (w_clock_reads w))) (ak_id key))
                    (db_set_requests (<[rid := queued_row rid (ak_user_id key) (ak_id key) prompt provider acc priority]>
                                        (db_requests (w_db w))) (w_db w)) ∧
        x_queue (w_ext w') = job_message rid acc used prompt priority :: x_queue (w_ext w).
Proof.
  intros Hok Hp Hne Hlen Hbest Hfree provider priority. unfold enqueue. rewrite Hp.
  rewrite (proj2 (String.eqb_neq _ _) Hne), (proj2 (Nat.ltb_ge _ _) Hlen).
  destruct (selectBestAccount_run (ak_user_id key) (provider_of (cb_provider b)) w Hok) as [n En].
  rewrite (se_bind_inr _ _ _ _ _ En). cbv beta. rewrite Hbest. cbn [fst snd].
  set (w1 := Nat.iter n (bump CRpc) w).
  assert (Ok1 : calls_ok cs w1) by (eapply calls_ok_env; [apply iter_bump_env|exact Hok]).
  run_step insert_request_run; [|by unfold w1; autorewrite with db_rw].
  run_step lpush_run. run_step getAccountIds_run. run_step quota_rows_of_run. run_step touch_key_run.
  unfold w1. world_simpl. eexists. split; [reflexivity|]. world_simpl. done.
Qed.
End HandlerRuns.

Lemma rl_accepts limit c r : c < limit → rl_exceeded (rl_result limit c r) = false.
Proof. intros Hc. unfold rl_result. simpl. destruct (c =? 0); [done|]. simpl. apply Z.leb_gt, Hc. Qed.

(** A counter at or above the limit refuses. *)
Lemma rl_refuses limit c : 1 <= limit <= c → negb (c =? 0) && (limit <=? c) = true.
Proof. intros Hc. destruct (Z.eqb_spec c 0), (Z.leb_spec limit c); simpl; done || lia. Qed.

Section HandlerSpec.
Context `{AccountSelector} (sha256 : string → list Z) (cs : list Call).
Hypothesis (HKey : CKeySelect ∈ cs) (HRpc : CRpc ∈ cs) (HIns : CRequestInsert ∈ cs)
  (HRedis : CRedis ∈ cs) (HSel : CSelect ∈ cs) (HWrite : CDbWrite ∈ cs).

(** C3: A chat request with a valid key, below the rate limit, with a
    non-empty prompt of at most 10,000 characters and an available
    account is answered 202 with the request id, the provider used and
    the remaining daily quota of the user's accounts.  The request row
    is inserted [queued] with the chosen account and the priority, the
    job message pushed at the head of the queue names that row, its
    account, the provider used and the prompt, and the key's
    [last_used_at] is set to the second clock reading. *)
Theorem handle_chat_queued rid req b k key prompt acc used w :
  calls_ok cs w → hr_method req ≠ "OPTIONS"%string → bearer_key (hr_authorization req) = Some k →
  api_key_rows (hashAPIKey sha256 k) (w_db w) = [key] →
  default 0 (x_redis (w_ext w) !! rate_key (ak_id key)
               (rl_window (env_clock (w_env w) (w_clock_reads w)) 60)) < 100 →
  cb_prompt b = Some prompt → prompt ≠ EmptyString → (String.length prompt <= 10000)%nat →
  best_account (w_db w) (ak_user_id key) (provider_of (cb_provider b)) = (Some acc, used) →
  db_requests (w_db w) !! rid = None →
  let user := ak_user_id key in
  let priority := priority_of (cb_priority b) in
  ∃ w', handle_chat sha256 rid req (Some b) w =
          (w', inr (202, ChatQueued rid used 5 (quota_remaining (user_quota_rows (w_db w) user)))) ∧
        db_requests (w_db w') =
          <[rid := queued_row rid user (ak_id key) prompt (provider_of (cb_provider b)) acc priority]>
            (db_requests (w_db w)) ∧
        x_queue (w_ext w') = job_message rid acc used prompt priority :: x_queue (w_ext w) ∧
        db_api_keys (w_db w') =
          alter (with_key_last_used (env_clock (w_env w) (S (w_clock_reads w)))) (ak_id key) (db_api_keys (w_db w)).
Proof.
  intros Hok Hm Hb Hr Hlim Hp Hne Hlen Hbest Hfree user priority.
  unfold handle_chat. rewrite (proj2 (String.eqb_neq _ _) Hm). unfold serve_json, se_catch.
  rewrite (se_bind_inr _ _ _ _ _ (authenticate_run sha256 cs req k key w HKey Hok Hb Hr)). cbv beta.
  pose proof (checkRateLimit_run cs (ak_id key) 100 60 (bump CKeySelect w) ltac:(ok_env) HRedis) as E.
  cbv zeta in E. rewrite (se_bind_inr _ _ _ _ _ E). cbv beta. world_simpl.
  rewrite rl_accepts by exact Hlim.
  set (w2 := rl_world _ _ _ _).
  assert (Ok2 : calls_ok cs w2) by (eapply calls_ok_env; [apply rl_world_env|exact Hok]).
  assert (D2 : w_db w2 = w_db w) by (unfold w2; by rewrite rl_world_db).
  destruct (enqueue_run cs HRpc HIns HRedis HSel HWrite key rid b prompt acc used w2 Ok2 Hp Hne Hlen
              ltac:(by rewrite D2) ltac:(by rewrite D2)) as (w' & Ee & Henv & Hreads & Hdb & Hq).
  rewrite Ee, D2. exists w'. split; [done|].
  rewrite Hdb, Hq. unfold w2. autorewrite with db_rw. world_simpl. auto.
Qed.
(** What the [try] block's validation of the key rejects, and with which
    message. *)
Definition auth_error (req : HttpRequest) (d : Db) : option string :=
  match bearer_key (hr_authorization req) with
  | None => Some missing_key_msg
  | Some k => match api_key_rows (hashAPIKey sha256 k) d with [_] => None | _ => Some invalid_key_msg end
  end.

(** A request without a key, or whose key matches no single
    non-revoked row, is answered 400 with the error message, before
    the clock or the rate counter is read: the datastore, Redis and the
    queue are unchanged, whatever the body. *)
Theorem handle_chat_unauthorized rid req body msg w :
  calls_ok cs w → hr_method req ≠ "OPTIONS"%string → auth_error req (w_db w) = Some msg →
  ∃ w', handle_chat sha256 rid req body w = (w', inr (400, ChatError msg)) ∧
        w_db w' = w_db w ∧ w_ext w' = w_ext w ∧ w_clock_reads w' = w_clock_reads w.
Proof.
  intros Hok Hm Ha. unfold handle_chat, auth_error in *. rewrite (proj2 (String.eqb_neq _ _) Hm).
  unfold serve_json, se_catch, authenticate. destruct (bearer_key (hr_authorization req)) as [k|].
  - assert (E : lookup_api_key (hashAPIKey sha256 k) w = (bump CKeySelect w, inl msg)).
    { rewrite lookup_api_key_run by (by apply (calls_ok_no_fault cs)).
      by destruct (api_key_rows _ _) as [|? []]; simplify_eq. }
    rewrite (se_bind_inl _ _ _ _ _ E). by eexists.
  - simplify_eq. by eexists.
Qed.

(** C32: An authenticated request whose window counter has reached 100 is
    answered 429 with the window's end, whatever its body: the check
    read the clock and Redis once, and nothing else changes. *)
Theorem handle_chat_rate_limited rid req body k key w :
  calls_ok cs w → hr_method req ≠ "OPTIONS"%string → bearer_key (hr_authorization req) = Some k →
  api_key_rows (hashAPIKey sha256 k) (w_db w) = [key] →
  let t := env_clock (w_env w) (w_clock_reads w) in
  100 <= default 0 (x_redis (w_ext w) !! rate_key (ak_id key) (rl_window t 60)) →
  handle_chat sha256 rid req body w =
    (bump CRedis (tick (bump CKeySelect w)), inr (429, ChatRateLimited ((rl_window t 60 + 1) * 60 * 1000))).
Proof.
  intros Hok Hm Hb Hr t Hc. unfold handle_chat. rewrite (proj2 (String.eqb_neq _ _) Hm). unfold serve_json, se_catch.
  rewrite (se_bind_inr _ _ _ _ _ (authenticate_run sha256 cs req k key w HKey Hok Hb Hr)). cbv beta.
  pose proof (checkRateLimit_run cs (ak_id key) 100 60 (bump CKeySelect w) ltac:(ok_env) HRedis) as E.
  cbv zeta in E. rewrite (se_bind_inr _ _ _ _ _ E). cbv beta. world_simpl. fold t.
  unfold rl_world, rl_result. cbn [rl_exceeded rl_reset_at]. rewrite rl_refuses by lia. reflexivity.
Qed.
(** C31: When the [lpush] of the job message rejects after the insert, the
    request is answered 400 with the Redis error, and the request row
    stays in the table as [queued] with no job message for it: no
    worker will ever pick it up. *)
Theorem enqueue_orphan key rid b prompt acc used msg w :
  calls_ok cs w → env_fault (w_env w) CRedis (w_calls w CRedis) = Some msg →
  cb_prompt b = Some prompt → prompt ≠ EmptyString → (String.length prompt <= 10000)%nat →
  best_account (w_db w) (ak_user_id key) (provider_of (cb_provider b)) = (Some acc, used) →
  db_requests (w_db w) !! rid = None →
  ∃ w', serve_json (enqueue key rid (Some b)) ChatError w = (w', inr (400, ChatError msg)) ∧
        db_requests (w_db w') =
          <[rid := queued_row rid (ak_user_id key) (ak_id key) prompt (provider_of (cb_provider b)) acc
                     (priority_of (cb_priority b))]> (db_requests (w_db w)) ∧
        x_queue (w_ext w') = x_queue (w_ext w).
Proof.
  intros Hok Hf Hp Hne Hlen Hbest Hfree. unfold serve_json, se_catch, enqueue. rewrite Hp.
  rewrite (proj2 (String.eqb_neq _ _) Hne), (proj2 (Nat.ltb_ge _ _) Hlen).
  destruct (selectBestAccount_run cs HRpc (ak_user_id key) (provider_of (cb_provider b)) w Hok) as [n En].
  rewrite (se_bind_inr _ _ _ _ _ En). cbv beta. rewrite Hbest. cbn [fst snd].
  set (w1 := Nat.iter n (bump CRpc) w).
  assert (Ok1 : calls_ok cs w1) by (eapply calls_ok_env; [apply iter_bump_env|exact Hok]).
  run_step (insert_request_run cs HIns); [|by unfold w1; autorewrite with db_rw].
  unfold se_bind at 1. rewrite (lpush_fail _ msg).
  - eexists. split; [reflexivity|]. unfold w1. by world_simpl.
  - unfold w1. world_simpl. by rewrite iter_bump_calls.
Qed.
End HandlerSpec.

(** ** Liveness of the limiter *)

Lemma rate_key_inj id W W' : rate_key id W = rate_key id W' → W = W'.
Proof. unfold rate_key. intros H. by apply (inj (String.app _)), (inj (String.app _)), (inj (String.app _)), (inj pretty) in H. Qed.

Lemma rl_window_above t ws W : 0 < ws → (W + 1) * ws * 1000 <= t → W < rl_window t ws.
Proof.
  intros Hws Ht. unfold rl_window.
  assert ((W + 1) * ws <= t / 1000) by (apply Z.div_le_lower_bound; lia).
  assert (W + 1 <= t / 1000 / ws) by (apply Z.div_le_lower_bound; lia). lia.
Qed.

(** Checks in windows up to [W0], then one in a later window whose key
    no one has set: that last check is accepted. *)
Lemma rate_checks_last cs id limit ws W0 n w :
  calls_ok cs w → CRedis ∈ cs →
  (∀ k, (k < n)%nat → rl_window (env_clock (w_env w) (w_clock_reads w + k)) ws <= W0) →
  W0 < rl_window (env_clock (w_env w) (w_clock_reads w + n)) ws →
  (∀ W, W0 < W → x_redis (w_ext w) !! rate_key id W = None) →
  ∃ w' bs, rate_checks id limit ws (S n) w = (w', inr bs) ∧ last bs = Some false.
Proof.
  revert w. induction n as [|n IH]; intros w Hok Hc Hbefore Hlast Hfresh.
  - rewrite Nat.add_0_r in Hlast. pose proof (checkRateLimit_run cs id limit ws w Hok Hc) as E.
    cbv zeta in E. rewrite Hfresh in E by done. cbn [rate_checks].
    rewrite (se_bind_inr _ _ _ _ _ E). eexists _, _. split; [reflexivity|done].
  - cbn [rate_checks]. rewrite (se_bind_inr _ _ _ _ _ (checkRateLimit_run cs id limit ws w Hok Hc)). cbv beta.
    set (key := rate_key id _). set (w1 := rl_world limit key _ w).
    destruct (IH w1) as (w' & bs & E & Hl).
    + unfold w1. ok_env.
    + done.
    + intros k Hk. unfold w1. rewrite rl_world_env, rl_world_reads, Nat.add_succ_comm. apply Hbefore. lia.
    + unfold w1. rewrite rl_world_env, rl_world_reads, Nat.add_succ_comm. exact Hlast.
    + intros W HW. unfold w1. rewrite rl_world_redis, decide_False; [by apply Hfresh|].
      intros ->%rate_key_inj. specialize (Hbefore 0%nat ltac:(lia)). rewrite Nat.add_0_r in Hbefore. lia.
    + eexists _, _. rewrite (se_bind_inr _ _ _ _ _ E). split; [reflexivity|].
      rewrite last_cons, Hl. done.
Qed.

(** C18: A client that keeps sending requests is accepted again: however
    many of its requests the current window refused, once the clock
    passes the window's end, the first check of a later window finds
    a counter no one has set and accepts the request. *)
Theorem checkRateLimit_eventually_accepts cs id limit ws w :
  calls_ok cs w → CRedis ∈ cs → 0 < ws →
  (∀ T, ∃ i, (w_clock_reads w <= i)%nat ∧ T <= env_clock (w_env w) i) →
  (∀ W, rl_window (env_clock (w_env w) (w_clock_reads w)) ws < W → x_redis (w_ext w) !! rate_key id W = None) →
  ∃ n w' bs, rate_checks id limit ws (S n) w = (w', inr bs) ∧ last bs = Some false.
Proof.
  intros Hok Hc Hws Hclock Hfresh.
  set (W0 := rl_window (env_clock (w_env w) (w_clock_reads w)) ws) in Hfresh.
  set (P k := W0 <? rl_window (env_clock (w_env w) (w_clock_reads w + k)) ws).
  destruct (Hclock ((W0 + 1) * ws * 1000)) as (i & Hi & Ht).
  destruct (first_true P (i - w_clock_reads w)) as (n & Hn & Hlt).
  { unfold P. apply Z.ltb_lt, rl_window_above; [done|]. by replace (w_clock_reads w + (i - w_clock_reads w))%nat with i by lia. }
  exists n. apply (rate_checks_last cs id limit ws W0 n w Hok Hc); [|by apply Z.ltb_lt|done].
  intros k Hk. apply Z.ltb_ge, Hlt, Hk.
Qed.

(** A key whose first window is used up, a clock that moves a minute at
    every reading. *)
Definition ex_limited : World :=
  let w := world_start (env_quiet (λ i, Z.of_nat i * 60000)) db_empty in
  set_ext (set_redis {[ rate_key "key1" 0 := 100 ]} (w_ext w)) w.

Lemma checkRateLimit_eventually_accepts_witness :
  match snd (checkRateLimit "key1" 100 60 ex_limited) with inr rl => rl_exceeded rl | inl _ => false end = true ∧
  ∃ n w' bs, rate_checks "key1" 100 60 (S n) ex_limited = (w', inr bs) ∧ last bs = Some false.
Proof.
  split; [reflexivity|].
  apply (checkRateLimit_eventually_accepts [CRedis]); [done|by left|lia| |].
  - intros T. exists (Z.to_nat T). cbn. lia.
  - intros W HW. vm_compute in HW. cbn. rewrite lookup_singleton_ne; [done|]. intros E%rate_key_inj. subst W. discriminate.
Defined.

(** ** The account choice and the reply's quota map *)

Lemma select_in_order_prefix `{AccountSelector} cs user pre p post id w :
  calls_ok cs w → CRpc ∈ cs →
  Forall (λ q, select_account (w_db w) q user = None) pre → select_account (w_db w) p user = Some id →
  select_in_order user (pre ++ p :: post) w = (Nat.iter (S (length pre)) (bump CRpc) w, inr (Some id, p)).
Proof.
  intros Hok Hc Hpre Hp. revert w Hok Hpre Hp. induction pre as [|q pre IH]; intros w Hok Hpre Hp; cbn [app select_in_order].
  - by rewrite (se_bind_inr _ _ _ _ _ (rpc_run cs Hc p user w Hok)), Hp.
  - apply Forall_cons in Hpre as [Hq Hpre].
    rewrite (se_bind_inr _ _ _ _ _ (rpc_run cs Hc q user w Hok)), Hq. cbv beta iota.
    rewrite IH; [|ok_env|done|done]. by rewrite (Nat.iter_succ_r (S (length pre))).
Qed.

(** With [provider = 'auto'], [selectBestAccount] asks
    [get_available_account] for the providers in the order deepseek,
    gemini, chatgpt, claude, and returns the first that has an
    account: it makes one call per provider up to that one and never
    asks the providers after it. *)
Theorem selectBestAccount_auto_order `{AccountSelector} cs user pre p post id w :
  calls_ok cs w → CRpc ∈ cs → provider_order = pre ++ p :: post →
  Forall (λ q, select_account (w_db w) q user = None) pre → select_account (w_db w) p user = Some id →
  selectBestAccount user "auto" w = (Nat.iter (S (length pre)) (bump CRpc) w, inr (Some id, p)).
Proof. intros Hok Hc Ho Hpre Hp. unfold selectBestAccount. cbn [String.eqb]. rewrite Ho. by apply (select_in_order_prefix cs). Qed.

Lemma quota_fold_lookup rows (m : gmap string Z) p :
  fold_left (λ m q, <[q_provider q := q_daily_limit q - q_daily_used q]> m) rows m !! p =
    match last (filter (λ q, q_provider q = p) rows) with
    | Some q => Some (q_daily_limit q - q_daily_used q)
    | None => m !! p
    end.
Proof.
  revert m. induction rows as [|q rows IH]; intros m; [done|]. cbn [fold_left]. rewrite IH, filter_cons.
  destruct (decide (q_provider q = p)) as [<-|Hne]; rewrite ?last_cons;
    destruct (last (filter _ rows)); rewrite ?lookup_insert_eq, ?lookup_insert_ne; done.
Qed.

(** The reply's [quota_remaining] maps a provider to the remaining
    daily quota of the last quota row of that provider: with several
    accounts on one provider, only the last row read counts. *)
Theorem quota_remaining_last rows p :
  quota_remaining rows !! p = (λ q, q_daily_limit q - q_daily_used q) <$> last (filter (λ q, q_provider q = p) rows).
Proof. unfold quota_remaining. rewrite quota_fold_lookup. by destruct (last _). Qed.

(** ** Concrete runs *)

Section Examples.
Local Open Scope string_scope.

(** A digest function standing for SHA-256 ([deadbeef] for every key). *)
Definition ex_sha (_ : string) : list Z := [222; 173; 190; 239]%Z.

Definition ex_key : ApiKey :=
  {| ak_id := "key1"; ak_user_id := "u1"; ak_name := "test"; ak_key_hash := "deadbeef";
     ak_key_prefix := "sk_"; ak_rate_limit_per_minute := 100; ak_rate_limit_per_day := 10000;
     ak_revoked := false; ak_last_used_at := None; ak_expires_at := None |}.

Definition ex_acc (id provider : string) : Account :=
  {| acc_id := id; acc_user_id := "u1"; acc_provider := provider; acc_email := "u1@example.com";
     acc_status := active; acc_last_used_at := None; acc_updated_at := 0 |}.

Definition ex_quota (id acc provider : string) (used : Z) : Quota :=
  {| q_id := id; q_account_id := acc; q_provider := provider; q_daily_limit := 100; q_daily_used := used;
     q_monthly_limit := None; q_monthly_used := 0; q_reset_daily_at := 0; q_reset_monthly_at := None;
     q_updated_at := 0 |}.

(** User [u1] has one ChatGPT account, with 10 of 100 requests used today. *)
Definition in_db : Db :=
  {| db_accounts := {["acc1" := ex_acc "acc1" "chatgpt"]}; db_requests := ∅;
     db_quotas := [ex_quota "q1" "acc1" "chatgpt" 10]; db_sessions := []; db_usage_logs := [];
     db_alerts := []; db_api_keys := {["key1" := ex_key]} |}.

(** The clock reads 1000 s, 1001 s, ...: the first 20 readings are in
    the 60-second window 16. *)
Definition in_world (redis : gmap string Z) : World :=
  set_ext (set_redis redis (w_ext (world_start (env_quiet (λ n, 1000000 + 1000 * Z.of_nat n)%Z) in_db)))
          (world_start (env_quiet (λ n, 1000000 + 1000 * Z.of_nat n)%Z) in_db).

Definition ex_http : HttpRequest := {| hr_method := "POST"; hr_authorization := Some "Bearer sk_test"; hr_path := "/chat" |}.

Definition ex_body : ChatBody := {| cb_prompt := Some "Hello"; cb_provider := None; cb_priority := Some "high" |}.

Definition intake_calls : list Call := [CKeySelect; CRpc; CRequestInsert; CRedis; CSelect; CDbWrite].

Lemma in_world_ok r : calls_ok intake_calls (in_world r).
Proof. by intros c n _. Qed.

End Examples.

(** Replaces the counter lookups of the goal by their values. *)
Ltac eval_counter :=
  repeat match goal with
  | |- context [default 0%Z ?x] => let v := eval vm_compute in (default 0%Z x) in change (default 0%Z x) with v
  end.

Lemma checkRateLimit_window_witness :
  ∃ w', rate_checks "key1" 3 60 5 (in_world ∅) = (w', inr [false; false; false; true; true]) ∧
        default 0%Z (x_redis (w_ext w') !! rate_key "key1" 16) = 3%Z.
Proof.
  destruct (checkRateLimit_window intake_calls "key1" 3 60 16 5 (in_world ∅)) as (w' & E & Hc & _).
  - apply in_world_ok.
  - set_solver.
  - lia.
  - intros i Hi. cbn in Hi. unfold rl_window. cbn [w_env in_world set_ext world_start env_clock env_quiet].
    destruct i as [|[|[|[|[|i]]]]]; [reflexivity..|lia].
  - eval_counter. lia.
  - exists w'. split; [rewrite E; reflexivity|]. rewrite Hc. reflexivity.
Defined.

(** With 99 requests counted in the window, two interleaved requests
    are both accepted and the counter reaches 101. *)
Lemma rl_interleaved_race_witness :
  ∃ w' r1 r2, rl_interleaved "key1" 100 60 (in_world {["ratelimit:key1:16" := 99%Z]}) = (w', inr (r1, r2)) ∧
    rl_exceeded r1 = false ∧ rl_exceeded r2 = false ∧
    x_redis (w_ext w') !! "ratelimit:key1:16"%string = Some 101%Z.
Proof.
  destruct (rl_interleaved_race intake_calls "key1" 100 60 (in_world {["ratelimit:key1:16" := 99%Z]}))
    as (w' & r1 & r2 & E & H1 & H2 & Hc).
  - apply in_world_ok.
  - set_solver.
  - reflexivity.
  - eval_counter. lia.
  - exists w', r1, r2. split; [exact E|]. split; [exact H1|]. split; [exact H2|]. exact Hc.
Defined.

(** The request of [ex_body] ([auto], high priority) goes to the
    ChatGPT account: the row is [queued], the message is the only one
    of the queue, and the reply reports 90 requests left on ChatGPT. *)
Lemma handle_chat_queued_witness :
  ∃ w', handle_chat ex_sha "req_1" ex_http (Some ex_body) (in_world ∅) =
          (w', inr (202%Z, ChatQueued "req_1" "chatgpt" 5 {["chatgpt" := 90%Z]})) ∧
        x_queue (w_ext w') = [job_message "req_1" "acc1" "chatgpt" "Hello" 1].
Proof.
  destruct (handle_chat_queued ex_sha intake_calls ltac:(set_solver) ltac:(set_solver) ltac:(set_solver)
              ltac:(set_solver) ltac:(set_solver) ltac:(set_solver)
              "req_1" ex_http ex_body "sk_test" ex_key "Hello" "acc1" "chatgpt" (in_world ∅))
    as (w' & E & _ & Hq & _).
  - apply in_world_ok.
  - done.
  - reflexivity.
  - vm_compute. reflexivity.
  - eval_counter. lia.
  - reflexivity.
  - done.
  - cbv. lia.
  - vm_compute. reflexivity.
  - reflexivity.
  - exists w'. split; [rewrite E; vm_compute; reflexivity|]. rewrite Hq. reflexivity.
Defined.

(** A request without [Authorization] is refused with [Missing API key]. *)
Lemma handle_chat_unauthorized_witness :
  ∃ w', handle_chat ex_sha "req_1" {| hr_method := "POST"; hr_authorization := None; hr_path := "/chat" |}
          (Some ex_body) (in_world ∅) = (w', inr (400%Z, ChatError missing_key_msg)) ∧ w_db w' = in_db.
Proof.
  destruct (handle_chat_unauthorized ex_sha intake_calls ltac:(set_solver) "req_1"
              {| hr_method := "POST"; hr_authorization := None; hr_path := "/chat" |} (Some ex_body)
              missing_key_msg (in_world ∅)) as (w' & E & Hd & _).
  - apply in_world_ok.
  - done.
  - reflexivity.
  - by exists w'.
Defined.

(** The 101st request of the window is refused until 1020 s. *)
Lemma handle_chat_rate_limited_witness :
  handle_chat ex_sha "req_1" ex_http None (in_world {["ratelimit:key1:16" := 100%Z]}) =
    (bump CRedis (tick (bump CKeySelect (in_world {["ratelimit:key1:16" := 100%Z]}))),
     inr (429%Z, ChatRateLimited 1020000)).
Proof.
  apply (handle_chat_rate_limited ex_sha intake_calls ltac:(set_solver) ltac:(set_solver)
           "req_1" ex_http None "sk_test" ex_key).
  - apply in_world_ok.
  - done.
  - reflexivity.
  - vm_compute. reflexivity.
  - eval_counter. lia.
Defined.

(** Redis down at the [lpush]: a 400 and a [queued] row nobody will run. *)
Lemma enqueue_orphan_witness :
  let w := world_start {| env_fault := λ c _, if decide (c = CRedis) then Some "ECONNREFUSED"%string else None;
                         env_clock := λ n, (1000000 + 1000 * Z.of_nat n)%Z;
                         env_session_unique := false; env_screenshot_on_error := true |} in_db in
  ∃ w', serve_json (enqueue ex_key "req_1" (Some ex_body)) ChatError w =
          (w', inr (400%Z, ChatError "ECONNREFUSED")) ∧
        (req_status <$> db_requests (w_db w') !! "req_1"%string) = Some queued ∧ x_queue (w_ext w') = [].
Proof.
  intros w. destruct (enqueue_orphan [CRpc; CRequestInsert] ltac:(set_solver) ltac:(set_solver)
                        ex_key "req_1" ex_body "Hello" "acc1" "chatgpt" "ECONNREFUSED" w) as (w' & E & Hr & Hq).
  - intros c n Hc. apply elem_of_cons in Hc as [->|Hc]; [done|]. apply list_elem_of_singleton in Hc as ->. done.
  - reflexivity.
  - reflexivity.
  - done.
  - cbv. lia.
  - vm_compute. reflexivity.
  - reflexivity.
  - exists w'. split; [exact E|]. rewrite Hr, Hq. split; reflexivity.
Defined.

(** The scenario of the spec: only ChatGPT has an account, so the
    selector asks DeepSeek, Gemini and ChatGPT, and never Claude. *)
Lemma selectBestAccount_auto_order_witness :
  selectBestAccount "u1" "auto" (in_world ∅) =
    (Nat.iter 3 (bump CRpc) (in_world ∅), inr (Some "acc1"%string, "chatgpt"%string)).
Proof.
  apply (selectBestAccount_auto_order intake_calls "u1" ["deepseek"; "gemini"]%string "chatgpt" ["claude"]%string).
  - apply in_world_ok.
  - set_solver.
  - reflexivity.
  - repeat constructor.
  - vm_compute. reflexivity.
Defined.
