(* ===== verification/Endpoints.v ===== *)
(** * Endpoints: [status/index.ts] and [quotas/index.ts]

    [GET /api/v1/status/{request_id}] authenticates the key ([Api]),
    takes the last segment of the path as the request id and returns
    the request row when it belongs to the key's user.
    [GET /api/v1/quotas] authenticates the key, reads the quota rows
    with their account embedded under the filter
    [accounts.user_id = user], sums them per provider with the worst
    status winning, and counts the user's accounts.

    The request's [created_at] is not in the [Request] record and is
    not part of the modelled reply; the ratio test [>= 0.9] is
    [QuotaTracker.ratio_ge]. *)

From S2P Require Import Prelude Model Api QuotaTracker Intake.

Local Open Scope Z_scope.
Local Open Scope orch_scope.

(** ** The status endpoint *)

Module Status.

(** [s.split(sep)] for a one-character separator: the pieces between
    the separators, empty ones included. *)
Fixpoint js_split (sep : Ascii.ascii) (s : string) : list string :=
  match s with
  | EmptyString => [EmptyString]
  | String c s' =>
      let rest := js_split sep s' in
      if Ascii.eqb c sep then EmptyString :: rest
      else match rest with
           | r :: rs => String c r :: rs
           | [] => [String c EmptyString]
           end
  end.

Definition slash : Ascii.ascii := Ascii.ascii_of_nat 47.

(** [url.pathname.split('/').pop()] and the test [if (!requestId)]. *)
Definition request_id_of (path : string) : option string :=
  match last (js_split slash path) with
  | Some s => if String.eqb s EmptyString then None else Some s
  | None => None
  end.

Definition missing_id_msg : string := "Missing request ID".
Definition not_found_msg : string := "Request not found".

(** [.from('requests').select('*').eq('id', requestId).eq('user_id', keyData.user_id)] *)
Definition request_rows (id user : string) (d : Db) : list Request :=
  filter (λ r, req_id r = id ∧ req_user_id r = user) (map snd (map_to_list (db_requests d))).

(** [.single()] and [if (requestError || !request) throw new Error('Request not found')] *)
Definition fetch_request (id user : string) : M Request :=
  se_catch
    (call CSelect ;;!
     let! rows := db_read (request_rows id user) in
     match rows with
     | [r] => se_ret r
     | _ => se_throw not_found_msg
     end)
    (λ _, se_throw not_found_msg).

(** The fields of the 200 reply. *)
Record StatusBody := {
  sb_id : string;
  sb_status : request_status;
  sb_provider_requested : option string;
  sb_provider_used : option string;
  sb_response : option string;
  sb_tokens_used : option Z;
  sb_latency_ms : option Z;
  sb_error_message : option string;
  sb_completed_at : option Z
}.

Definition status_body (r : Request) : StatusBody :=
  {| sb_id := req_id r; sb_status := req_status r; sb_provider_requested := req_provider_requested r;
     sb_provider_used := req_provider_used r; sb_response := req_response r;
     sb_tokens_used := req_tokens_used r; sb_latency_ms := req_latency_ms r;
     sb_error_message := req_error_message r; sb_completed_at := req_completed_at r |}.

Inductive StatusReply :=
  | StatusCors
  | StatusOk (body : StatusBody)
  | StatusError (message : string).

Definition handle_status (sha256 : string → list Z) (req : HttpRequest) : M (Z * StatusReply) :=
  if String.eqb (hr_method req) "OPTIONS" then se_ret (200, StatusCors)
  else serve_json
    (let! key := authenticate sha256 req in
     match request_id_of (hr_path req) with
     | None => se_throw missing_id_msg
     | Some requestId =>
         let! r := fetch_request requestId (ak_user_id key) in
         se_ret (200, StatusOk (status_body r))
     end)
    StatusError.

(** The [requests] table is keyed by the rows' ids. *)
Definition requests_keyed (d : Db) : Prop := ∀ id r, db_requests d !! id = Some r → req_id r = id.


(** ** The path *)

Lemma js_split_nonempty sep s : js_split sep s ≠ [].
Proof. destruct s as [|c s]; simpl; [done|]. destruct (Ascii.eqb c sep); [done|]. by destruct (js_split sep s). Qed.

Lemma js_split_app sep s t : js_split sep (s ++ String sep t) = js_split sep s ++ js_split sep t.
Proof.
  induction s as [|c s IH]; simpl.
  - by rewrite Ascii.eqb_refl.
  - rewrite IH. destruct (Ascii.eqb c sep); [done|].
    destruct (js_split sep s) eqn:E; [by apply js_split_nonempty in E|done].
Qed.

Lemma js_split_no_sep sep t : (∀ c, c ∈ String.list_ascii_of_string t → c ≠ sep) → js_split sep t = [t].
Proof.
  induction t as [|c t IH]; intros Ht; [done|]. simpl.
  rewrite (proj2 (Ascii.eqb_neq c sep)) by (apply Ht; left). rewrite IH; [done|].
  intros c' Hc'. apply Ht. by right.
Qed.

(** A status URL whose path ends with ['/' ++ rid], for a non-empty
    id without a slash (as the ids [req_...] of the intake), gives
    back [rid] as the request id. *)
Theorem request_id_of_path path rid :
  rid ≠ EmptyString → (∀ c, c ∈ String.list_ascii_of_string rid → c ≠ slash) →
  request_id_of (path ++ String slash rid) = Some rid.
Proof.
  intros Hne Hs. unfold request_id_of. rewrite js_split_app, (js_split_no_sep slash rid Hs), last_app. simpl.
  by rewrite (proj2 (String.eqb_neq _ _) Hne).
Qed.

(** ** The request lookup *)

Lemma requests_keyed_insert d r :
  requests_keyed d → requests_keyed (db_set_requests (<[req_id r := r]> (db_requests d)) d).
Proof.
  intros Hk id r' H. cbn in H. apply lookup_insert_Some in H as [[<- <-]|[_ H]]; [done|]. by apply Hk.
Qed.

Lemma requests_keyed_empty : requests_keyed db_empty.
Proof. intros id r H. discriminate. Qed.

Lemma request_rows_keyed d id user :
  requests_keyed d →
  request_rows id user d =
    match db_requests d !! id with Some r => if decide (req_user_id r = user) then [r] else [] | None => [] end.
Proof. apply (keyed_rows req_id (λ r, req_user_id r = user)). Qed.

Lemma fetch_request_run cs id user w :
  calls_ok cs w → CSelect ∈ cs → requests_keyed (w_db w) →
  fetch_request id user w =
    (bump CSelect w, match db_requests (w_db w) !! id with
                     | Some r => if decide (req_user_id r = user) then inr r else inl not_found_msg
                     | None => inl not_found_msg
                     end).
Proof.
  intros Hok HS Hk. unfold fetch_request, se_catch.
  rewrite (se_bind_inr _ _ _ _ _ (call_ok_cs cs _ w Hok HS)). cbv [se_bind db_read]. cbn [w_db bump].
  rewrite request_rows_keyed by done. destruct (db_requests (w_db w) !! id); [|done]. by destruct (decide _).
Qed.

(** C13: For an authenticated key and a request id in the path, the
    status endpoint answers 200 with the row's fields exactly when the
    row exists and belongs to the key's user; a row of another user is
    answered like a missing one, 400 [Request not found].  Only the two
    reads are made. *)
Theorem handle_status_spec sha256 cs req k key rid w :
  calls_ok cs w → CKeySelect ∈ cs → CSelect ∈ cs → requests_keyed (w_db w) →
  hr_method req ≠ "OPTIONS"%string → bearer_key (hr_authorization req) = Some k →
  api_key_rows (hashAPIKey sha256 k) (w_db w) = [key] → request_id_of (hr_path req) = Some rid →
  handle_status sha256 req w =
    (bump CSelect (bump CKeySelect w),
     inr (match db_requests (w_db w) !! rid with
          | Some r => if decide (req_user_id r = ak_user_id key) then (200, StatusOk (status_body r))
                      else (400, StatusError not_found_msg)
          | None => (400, StatusError not_found_msg)
          end)).
Proof.
  intros Hok HK HS Hkeyed Hm Hb Hr Hid. unfold handle_status. rewrite (proj2 (String.eqb_neq _ _) Hm).
  unfold serve_json, se_catch.
  rewrite (se_bind_inr _ _ _ _ _ (authenticate_run sha256 cs req k key w HK Hok Hb Hr)).
  cbv beta iota. rewrite Hid. unfold se_bind at 1.
  rewrite (fetch_request_run cs rid (ak_user_id key) (bump CKeySelect w)) by (done || ok_env).
  cbn [w_db bump]. destruct (db_requests (w_db w) !! rid) as [r|]; [|done]. by destruct (decide _).
Qed.

End Status.

(** ** The quotas endpoint *)

Module Quotas.

(** ['available' | 'limited' | 'quota_exceeded'] *)
Inductive quota_state := qs_available | qs_limited | qs_exceeded.

#[export] Instance quota_state_eq_dec : EqDecision quota_state.
Proof. solve_decision. Defined.

(** [{ used, limit, remaining }] *)
Record Usage := { u_used : Z; u_limit : Z; u_remaining : Z }.

Definition usage_zero : Usage := {| u_used := 0; u_limit := 0; u_remaining := 0 |}.

Definition usage_add (u : Usage) (used limit remaining : Z) : Usage :=
  {| u_used := u_used u + used; u_limit := u_limit u + limit; u_remaining := u_remaining u + remaining |}.

(** [providers[p]] *)
Record ProviderSummary := {
  ps_daily : Usage;
  ps_monthly : option Usage;
  ps_reset_daily_at : Z;
  ps_reset_monthly_at : option Z;
  ps_status : quota_state
}.

(** [quota.daily_used >= quota.daily_limit ? 'quota_exceeded'
     : quota.daily_used / quota.daily_limit >= 0.9 ? 'limited' : 'available'] *)
Definition row_state (q : Quota) : quota_state :=
  if q_daily_limit q <=? q_daily_used q then qs_exceeded
  else if ratio_ge (q_daily_used q) (q_daily_limit q) 9 10 then qs_limited
  else qs_available.

(** [quota.monthly_limit ? ..]: a limit of [null] or [0] is falsy. *)
Definition monthly_limit_of (q : Quota) : option Z :=
  match q_monthly_limit q with
  | Some l => if l =? 0 then None else Some l
  | None => None
  end.

(** The entry created for the first row of a provider. *)
Definition fresh_summary (q : Quota) : ProviderSummary :=
  {| ps_daily := usage_zero; ps_monthly := None; ps_reset_daily_at := q_reset_daily_at q;
     ps_reset_monthly_at := q_reset_monthly_at q; ps_status := qs_available |}.

(** The body of [quotas?.forEach((quota) => { .. })] for one entry. *)
Definition add_row (s : ProviderSummary) (q : Quota) : ProviderSummary :=
  let status := row_state q in
  {| ps_daily := usage_add (ps_daily s) (q_daily_used q) (q_daily_limit q)
                           (Z.max 0 (q_daily_limit q - q_daily_used q));
     ps_monthly := match monthly_limit_of q with
                   | Some l => Some (usage_add (default usage_zero (ps_monthly s)) (q_monthly_used q) l
                                               (Z.max 0 (l - q_monthly_used q)))
                   | None => ps_monthly s
                   end;
     ps_reset_daily_at := ps_reset_daily_at s;
     ps_reset_monthly_at := ps_reset_monthly_at s;
     ps_status := if bool_decide (status = qs_exceeded) || (bool_decide (ps_status s ≠ qs_exceeded) &&
                                                       bool_decide (status = qs_limited))
                  then status else ps_status s |}.

Definition summarize_row (m : gmap string ProviderSummary) (q : Quota) : gmap string ProviderSummary :=
  <[q_provider q := add_row (default (fresh_summary q) (m !! q_provider q)) q]> m.

Definition summarize (rows : list Quota) : gmap string ProviderSummary :=
  fold_left summarize_row rows ∅.

(** [.from('quotas').select('*, accounts(..)').eq('accounts.user_id', user)]:
    the filter is on the embedded account, so every quota row is
    returned, with its account when that account is the user's. *)
Definition embed_user (d : Db) (user accountId : string) : option Account :=
  match db_accounts d !! accountId with
  | Some a => if decide (acc_user_id a = user) then Some a else None
  | None => None
  end.

Definition quotas_with_user_accounts (d : Db) (user : string) : list (Quota * option Account) :=
  map (λ q, (q, embed_user d user (q_account_id q))) (db_quotas d).

(** [.from('accounts').select('status').eq('user_id', user)]; its error
    is not read ([accounts?.length || 0]). *)
Definition user_account_states (user : string) : M (list account_status) :=
  se_catch (call CSelect ;;!
            db_read (λ d, map acc_status (filter (λ a, acc_user_id a = user) (map snd (map_to_list (db_accounts d))))))
           (λ _, se_ret []).

Inductive QuotasReply :=
  | QuotasCors
  | QuotasOk (providers : gmap string ProviderSummary) (total_accounts active_accounts expired_sessions : nat)
  | QuotasError (message : string).

Definition count_state (s : account_status) (l : list account_status) : nat :=
  length (filter (λ x, x = s) l).

Definition handle_quotas (sha256 : string → list Z) (req : HttpRequest) : M (Z * QuotasReply) :=
  if String.eqb (hr_method req) "OPTIONS" then se_ret (200, QuotasCors)
  else serve_json
    (let! key := authenticate sha256 req in
     call CSelect ;;!
     let! rows := db_read (λ d, quotas_with_user_accounts d (ak_user_id key)) in
     let providers := summarize (map fst rows) in
     let! states := user_account_states (ak_user_id key) in
     se_ret (200, QuotasOk providers (length states) (count_state active states) (count_state expired states)))
    QuotasError.

(** ** The aggregation in closed form *)

Definition qs_rank (s : quota_state) : nat :=
  match s with qs_available => 0 | qs_limited => 1 | qs_exceeded => 2 end.

(** The worse of two states. *)
Definition qs_max (a b : quota_state) : quota_state := if Nat.ltb (qs_rank a) (qs_rank b) then b else a.

(** The worst state of a list ([available] for none). *)
Definition worst (l : list quota_state) : quota_state := foldr qs_max qs_available l.

Definition zsum {A} (f : A → Z) (l : list A) : Z := foldr (λ x acc, f x + acc) 0 l.

(** The summary of the rows [rs] of one provider, added to [s]. *)
Definition extend (s : ProviderSummary) (rs : list Quota) : ProviderSummary :=
  let ms := filter (λ q, is_Some (monthly_limit_of q)) rs in
  {| ps_daily := usage_add (ps_daily s) (zsum q_daily_used rs) (zsum q_daily_limit rs)
                           (zsum (λ q, Z.max 0 (q_daily_limit q - q_daily_used q)) rs);
     ps_monthly := match ms with
                   | [] => ps_monthly s
                   | _ => Some (usage_add (default usage_zero (ps_monthly s)) (zsum q_monthly_used ms)
                                          (zsum (λ q, default 0 (monthly_limit_of q)) ms)
                                          (zsum (λ q, Z.max 0 (default 0 (monthly_limit_of q) - q_monthly_used q)) ms))
                   end;
     ps_reset_daily_at := ps_reset_daily_at s;
     ps_reset_monthly_at := ps_reset_monthly_at s;
     ps_status := qs_max (ps_status s) (worst (map row_state rs)) |}.

Lemma add_row_status s q : ps_status (add_row s q) = qs_max (ps_status s) (row_state q).
Proof. unfold add_row. by destruct (ps_status s), (row_state q). Qed.

Lemma qs_max_assoc a b c : qs_max (qs_max a b) c = qs_max a (qs_max b c).
Proof. by destruct a, b, c. Qed.

Lemma usage_add_add u a b c a' b' c' :
  usage_add (usage_add u a b c) a' b' c' = usage_add u (a + a') (b + b') (c + c').
Proof. unfold usage_add. simpl. f_equal; lia. Qed.

Lemma usage_add_0 u : usage_add u 0 0 0 = u.
Proof. destruct u. unfold usage_add. simpl. f_equal; lia. Qed.

Lemma extend_nil s : extend s [] = s.
Proof. destruct s as [d m r rm st]. unfold extend. simpl. rewrite usage_add_0. by destruct st. Qed.

Lemma extend_cons s q rs : extend (add_row s q) rs = extend s (q :: rs).
Proof.
  unfold extend, add_row. cbn [ps_daily ps_monthly ps_reset_daily_at ps_reset_monthly_at ps_status zsum foldr map worst].
  f_equal.
  - rewrite usage_add_add. reflexivity.
  - rewrite filter_cons. destruct (monthly_limit_of q) as [l|] eqn:El; simpl.
    + rewrite ?decide_True by (by rewrite El). simpl. rewrite El.
      destruct (filter _ rs); simpl; [by rewrite !Z.add_0_r|by rewrite usage_add_add].
    + rewrite ?decide_False by (rewrite El; intros [? ?]; discriminate). done.
  - rewrite <-qs_max_assoc. f_equal. by destruct (ps_status s), (row_state q).
Qed.

Lemma fold_add_row rs s : fold_left add_row rs s = extend s rs.
Proof.
  revert s. induction rs as [|q rs IH]; intros s; simpl; [by rewrite extend_nil|].
  by rewrite IH, extend_cons.
Qed.

Lemma fold_summarize_lookup rows m p :
  fold_left summarize_row rows m !! p =
    match m !! p, filter (λ q, q_provider q = p) rows with
    | Some s, rs => Some (extend s rs)
    | None, [] => None
    | None, q0 :: rs => Some (extend (fresh_summary q0) (q0 :: rs))
    end.
Proof.
  revert m. induction rows as [|q rows IH]; intros m; simpl.
  { destruct (m !! p); [by rewrite extend_nil|done]. }
  rewrite IH, filter_cons. unfold summarize_row.
  destruct (decide (q_provider q = p)) as [<-|Hne].
  - rewrite lookup_insert_eq. destruct (m !! q_provider q); simpl; by rewrite extend_cons.
  - by rewrite lookup_insert_ne by done.
Qed.

(** The endpoint's [providers] entry for [p] sums the rows of
    provider [p] it is given: daily used, limit and (clamped at 0)
    remaining over all of them, the monthly figures over the rows with
    a non-zero monthly limit ([null] when none has one), the reset
    times of the first row, and the worst of the rows' states; a
    provider without rows has no entry. *)
Theorem summarize_spec rows p :
  summarize rows !! p =
    match filter (λ q, q_provider q = p) rows with
    | [] => None
    | q0 :: rs => Some (extend (fresh_summary q0) (q0 :: rs))
    end.
Proof. unfold summarize. by rewrite fold_summarize_lookup, lookup_empty. Qed.

Lemma worst_exceeded l : worst l = qs_exceeded ↔ qs_exceeded ∈ l.
Proof.
  induction l as [|x l IH]; simpl; [split; [done|intros Hx; inversion Hx]|].
  rewrite elem_of_cons, <-IH. unfold qs_max. destruct x, (worst l); simpl; naive_solver.
Qed.

Lemma user_account_states_run cs user w :
  calls_ok cs w → CSelect ∈ cs →
  user_account_states user w =
    (bump CSelect w, inr (map acc_status (filter (λ a, acc_user_id a = user) (map snd (map_to_list (db_accounts (w_db w))))))).
Proof. intros Hok HS. unfold user_account_states, se_catch. by rewrite (se_bind_inr _ _ _ _ _ (call_ok_cs cs _ w Hok HS)). Qed.

Lemma quotas_rows_all d user : map fst (quotas_with_user_accounts d user) = db_quotas d.
Proof. unfold quotas_with_user_accounts. rewrite map_map. apply map_id. Qed.

(** C14: For an authenticated key, the quotas endpoint answers 200 with
    the summary of every row of the [quotas] table, those of other
    users' accounts included, since the filter on the embedded account
    does not filter the rows; the account counts are the user's. *)
Theorem handle_quotas_spec sha256 cs req k key w :
  calls_ok cs w → CKeySelect ∈ cs → CSelect ∈ cs →
  hr_method req ≠ "OPTIONS"%string → bearer_key (hr_authorization req) = Some k →
  api_key_rows (hashAPIKey sha256 k) (w_db w) = [key] →
  let states := map acc_status (filter (λ a, acc_user_id a = ak_user_id key)
                                       (map snd (map_to_list (db_accounts (w_db w))))) in
  handle_quotas sha256 req w =
    (bump CSelect (bump CSelect (bump CKeySelect w)),
     inr (200, QuotasOk (summarize (db_quotas (w_db w))) (length states)
                        (count_state active states) (count_state expired states))).
Proof.
  intros Hok HK HS Hm Hb Hr states. unfold handle_quotas. rewrite (proj2 (String.eqb_neq _ _) Hm).
  unfold serve_json, se_catch.
  rewrite (se_bind_inr _ _ _ _ _ (authenticate_run sha256 cs req k key w HK Hok Hb Hr)). cbv beta.
  rewrite (se_bind_inr _ _ _ _ _ (call_ok_cs cs _ (bump CKeySelect w) ltac:(ok_env) HS)).
  rewrite (se_bind_inr _ _ _ _ _ (eq_refl : db_read _ _ = (_, inr _))). cbv beta.
  rewrite (se_bind_inr _ _ _ _ _ (user_account_states_run cs _ (bump CSelect (bump CKeySelect w)) ltac:(ok_env) HS)).
  by rewrite quotas_rows_all.
Qed.

End Quotas.

(** ** Concrete runs *)

Section Examples.
Local Open Scope string_scope.

Definition ex_row (id user : string) : Request :=
  {| req_id := id; req_user_id := user; req_api_key_id := None; req_prompt := "Hello";
     req_provider_requested := None; req_provider_used := Some "chatgpt"; req_account_id := Some "acc1";
     req_status := completed; req_priority := 5; req_response := Some "Hi"; req_tokens_used := Some 2;
     req_latency_ms := Some 900; req_error_message := None; req_completed_at := Some 5000 |}.

(** [req_1] belongs to [u1], [req_2] to [u2]; [u1] has a ChatGPT
    quota row, [u2] a Claude one. *)
Definition ep_db : Db :=
  db_set_api_keys {["key1" := ex_key]}
    (db_set_quotas [ex_quota "q1" "acc1" "chatgpt" 10; ex_quota "q2" "acc2" "claude" 95]
      (db_set_accounts {["acc1" := ex_acc "acc1" "chatgpt";
                         "acc2" := {| acc_id := "acc2"; acc_user_id := "u2"; acc_provider := "claude";
                                      acc_email := "u2@example.com"; acc_status := active;
                                      acc_last_used_at := None; acc_updated_at := 0 |}]}
        (db_set_requests (<[req_id (ex_row "req_2" "u2") := ex_row "req_2" "u2"]>
                            (db_requests (db_set_requests (<[req_id (ex_row "req_1" "u1") := ex_row "req_1" "u1"]>
                                                             (db_requests db_empty)) db_empty)))
           (db_set_requests (<[req_id (ex_row "req_1" "u1") := ex_row "req_1" "u1"]> (db_requests db_empty))
              db_empty)))).

Definition ep_world : World := world_start (env_quiet (λ n, 1000000 + 1000 * Z.of_nat n)%Z) ep_db.

Definition ep_get (path : string) : HttpRequest :=
  {| hr_method := "GET"; hr_authorization := Some "Bearer sk_test"; hr_path := path |}.

Lemma ep_keyed : Status.requests_keyed ep_db.
Proof.
  intros id r H. apply (Status.requests_keyed_insert _ (ex_row "req_2" "u2")
                       (Status.requests_keyed_insert _ (ex_row "req_1" "u1") Status.requests_keyed_empty)).
  exact H.
Qed.

End Examples.

Lemma request_id_of_path_witness :
  Status.request_id_of ("/api/v1/status" ++ String Status.slash "req_1") = Some "req_1"%string.
Proof.
  apply Status.request_id_of_path; [done|]. apply Forall_forall. repeat constructor; vm_compute; discriminate.
Defined.

(** [u1] asking for [u2]'s request gets the answer of a missing one. *)
Lemma handle_status_spec_witness :
  Status.handle_status ex_sha (ep_get "/api/v1/status/req_2") ep_world =
    (bump CSelect (bump CKeySelect ep_world), inr (400%Z, Status.StatusError Status.not_found_msg)).
Proof.
  rewrite (Status.handle_status_spec ex_sha [CKeySelect; CSelect] _ "sk_test" ex_key "req_2").
  - reflexivity.
  - by intros c n _.
  - set_solver.
  - set_solver.
  - apply ep_keyed.
  - done.
  - reflexivity.
  - vm_compute. reflexivity.
  - vm_compute. reflexivity.
Defined.

(** [u1]'s quota summary has an entry for Claude, a provider of [u2]'s
    account only. *)
Lemma handle_quotas_spec_witness :
  Quotas.handle_quotas ex_sha (ep_get "/api/v1/quotas") ep_world =
    (bump CSelect (bump CSelect (bump CKeySelect ep_world)),
     inr (200%Z, Quotas.QuotasOk (Quotas.summarize (db_quotas ep_db)) 1 1 0)) ∧
  is_Some (Quotas.summarize (db_quotas ep_db) !! "claude"%string).
Proof.
  split; [|vm_compute; by eexists].
  rewrite (Quotas.handle_quotas_spec ex_sha [CKeySelect; CSelect] _ "sk_test" ex_key).
  - reflexivity.
  - by intros c n _.
  - set_solver.
  - set_solver.
  - done.
  - reflexivity.
  - vm_compute. reflexivity.
Defined.
