(* ===== verification/WorkerMain.v ===== *)
(** * WorkerMain: the worker process ([src/browser-worker/src/index.ts], [config.ts])
    and the options of [createWorker] ([worker.ts])

    [config.ts] reads the process environment into the worker's
    configuration and throws when the datastore's URL or key is
    missing.  [index.ts] starts the BullMQ worker, serves [/health] on
    port 8080, and on [SIGTERM] or [SIGINT] closes the worker, then
    every browser context ([closeAllContexts] of [Browser]), then the
    health server, and exits with 0; an uncaught exception or an
    unhandled rejection exits with 1.  [createWorker] of [worker.ts]
    opens the worker's Redis connection on a host and a port it cuts
    out of [REDIS_URL] by splitting on colons (module [Options]).

    The environment is a map from names to values; the process's fate
    is a record of what is still open and the exit code, threaded
    through the shutdown handler beside the world of [Model]. *)

From S2P Require Import Prelude Model Browser Api Endpoints.

Local Open Scope Z_scope.
Local Open Scope orch_scope.

(** ** [config.ts] *)

Module Config.

(** [process.env.NAME || fallback]: an unset or empty variable gives the
    fallback. *)
Definition env_or (env : gmap string string) (name fallback : string) : string :=
  match env !! name with
  | Some v => if String.eqb v EmptyString then fallback else v
  | None => fallback
  end.

(** The value of a character as a digit of radix up to 36. *)
Definition digit_value (c : Ascii.ascii) : option Z :=
  let n := Z.of_nat (Ascii.nat_of_ascii c) in
  if (48 <=? n) && (n <=? 57) then Some (n - 48)
  else if (97 <=? n) && (n <=? 122) then Some (n - 87)
  else if (65 <=? n) && (n <=? 90) then Some (n - 55)
  else None.

(** The longest prefix of digits of [radix], read into [acc]; [None]
    when there is none. *)
Fixpoint digits_prefix (radix : Z) (l : list Ascii.ascii) (acc : option Z) : option Z :=
  match l with
  | [] => acc
  | c :: l' =>
      match digit_value c with
      | Some d => if d <? radix then digits_prefix radix l' (Some (default 0 acc * radix + d)) else acc
      | None => acc
      end
  end.

Definition minus_char : Ascii.ascii := Ascii.ascii_of_nat 45.
Definition plus_char : Ascii.ascii := Ascii.ascii_of_nat 43.
Definition zero_char : Ascii.ascii := Ascii.ascii_of_nat 48.

Definition is_x (c : Ascii.ascii) : bool :=
  let n := Ascii.nat_of_ascii c in Nat.eqb n 120 || Nat.eqb n 88.

(** [parseInt(s)] with no radix: leading white space, a sign, a [0x]
    prefix for radix 16, then the longest prefix of digits; [None] is
    [NaN]. *)
Definition parseInt (s : string) : option Z :=
  let l := drop_ws (String.list_ascii_of_string s) in
  let '(sign, l) :=
    match l with
    | c :: l' => if Ascii.eqb c minus_char then (-1, l') else if Ascii.eqb c plus_char then (1, l') else (1, l)
    | [] => (1, l)
    end in
  let '(radix, l) :=
    match l with
    | z :: x :: l' => if Ascii.eqb z zero_char && is_x x then (16, l') else (10, l)
    | _ => (10, l)
    end in
  (λ v, sign * v) <$> digits_prefix radix l None.

(** [config]; a [parseInt] that gives [NaN] is [None]. *)
Record WorkerConfig := {
  workerId : string;
  workerName : string;
  redis_url : string;
  supabase_url : string;
  supabase_service_key : string;
  concurrency : option Z;
  headless : bool;
  screenshotOnError : bool;
  videoRecording : bool;
  sessionTimeout : option Z;
  sessions_dir : string;
  screenshots_dir : string;
  videos_dir : string
}.

Definition missing_env_msg : string :=
  "Missing required environment variables: SUPABASE_URL, SUPABASE_SERVICE_KEY".

(** [process.env.X !== 'false'] and [=== 'true'] *)
Definition not_false (env : gmap string string) (name : string) : bool :=
  negb (bool_decide (env !! name = Some "false")).
Definition is_true (env : gmap string string) (name : string) : bool :=
  bool_decide (env !! name = Some "true").

(** Loading [config.ts]: the object, then the validation that throws. *)
Definition load_config (env : gmap string string) : string + WorkerConfig :=
  let url := default EmptyString (env !! "SUPABASE_URL") in
  let key := default EmptyString (env !! "SUPABASE_SERVICE_KEY") in
  if String.eqb url EmptyString || String.eqb key EmptyString then inl missing_env_msg
  else inr {| workerId := env_or env "WORKER_ID" "1";
              workerName := env_or env "WORKER_NAME" "browser-worker-1";
              redis_url := env_or env "REDIS_URL" "redis://localhost:6379";
              supabase_url := url; supabase_service_key := key;
              concurrency := parseInt (env_or env "CONCURRENCY" "2");
              headless := not_false env "HEADLESS";
              screenshotOnError := not_false env "SCREENSHOT_ON_ERROR";
              videoRecording := is_true env "VIDEO_RECORDING";
              sessionTimeout := parseInt (env_or env "SESSION_TIMEOUT" "300000");
              sessions_dir := env_or env "BROWSER_USER_DATA_DIR" "/app/sessions";
              screenshots_dir := env_or env "SCREENSHOT_DIR" "/app/screenshots";
              videos_dir := env_or env "VIDEO_DIR" "/app/videos" |}.

End Config.

(** ** The options [createWorker] of [worker.ts] gives the BullMQ worker *)

Module Options.

Definition colon : Ascii.ascii := Ascii.ascii_of_nat 58.

(** [config.redis.url.replace('redis://', '').split(':')[0]] *)
Definition redis_host (url : string) : string :=
  default EmptyString (head (Status.js_split colon (js_replace_first url "redis://" EmptyString))).

(** [parseInt(config.redis.url.split(':')[2] || '6379')]: a missing or
    empty third piece gives the fallback. *)
Definition redis_port (url : string) : option Z :=
  Config.parseInt
    (match Status.js_split colon url !! 2%nat with
     | Some p => if String.eqb p EmptyString then "6379" else p
     | None => "6379"
     end).

(** [new Worker('chat-requests', processJob, { connection, concurrency,
    limiter: { max: 10, duration: 1000 } })] *)
Record WorkerOptions := {
  wo_queue : string;
  wo_host : string;
  wo_port : option Z;
  wo_concurrency : option Z;
  wo_limiter_max : Z;
  wo_limiter_duration : Z
}.

Definition worker_options (cfg : Config.WorkerConfig) : WorkerOptions :=
  {| wo_queue := "chat-requests";
     wo_host := redis_host (Config.redis_url cfg);
     wo_port := redis_port (Config.redis_url cfg);
     wo_concurrency := Config.concurrency cfg;
     wo_limiter_max := 10;
     wo_limiter_duration := 1000 |}.

(** A decimal digit, and the value of a list of them. *)
Definition is_digit (c : Ascii.ascii) : bool :=
  let n := Ascii.nat_of_ascii c in (48 <=? n)%nat && (n <=? 57)%nat.

Definition dec_step (acc : Z) (c : Ascii.ascii) : Z := acc * 10 + (Z.of_nat (Ascii.nat_of_ascii c) - 48).

Definition dec_value (ds : list Ascii.ascii) : Z := fold_left dec_step ds 0.

Lemma digit_char c :
  is_digit c = true →
  is_js_ws c = false ∧ Ascii.eqb c Config.minus_char = false ∧ Ascii.eqb c Config.plus_char = false ∧
  Config.is_x c = false ∧ Config.digit_value c = Some (Z.of_nat (Ascii.nat_of_ascii c) - 48) ∧
  (Z.of_nat (Ascii.nat_of_ascii c) - 48 <? 10) = true ∧ c ≠ colon.
Proof. destruct c as [[] [] [] [] [] [] [] []]; vm_compute; first [discriminate | intros _; by split_and!]. Qed.

(** What may follow the digits without being read: nothing, or a
    character that is neither a digit nor an [x] (which after a lone
    [0] would switch to radix 16). *)
Definition digits_end (rest : list Ascii.ascii) : Prop :=
  match rest with
  | [] => True
  | c :: _ => is_digit c = false ∧ Config.is_x c = false
  end.

Lemma non_digit_stops c l acc : is_digit c = false → Config.digits_prefix 10 (c :: l) acc = acc.
Proof. destruct c as [[] [] [] [] [] [] [] []]; first [discriminate | reflexivity]. Qed.

Lemma digits_prefix_dec ds rest a :
  Forall (λ c, is_digit c = true) ds → digits_end rest →
  Config.digits_prefix 10 (ds ++ rest) (Some a) = Some (fold_left dec_step ds a).
Proof.
  revert a. induction ds as [|c ds IH]; intros a Hds Hr.
  - destruct rest as [|c rest]; [done|]. by apply non_digit_stops, Hr.
  - apply Forall_cons in Hds as [Hc Hds].
    destruct (digit_char c Hc) as (_ & _ & _ & _ & Hv & Hlt & _).
    cbn [app Config.digits_prefix]. rewrite Hv, Hlt. by apply IH.
Qed.

(** [parseInt] of decimal digits followed by text that stops them. *)
Lemma parseInt_digits_prefix ds rest :
  ds ≠ [] → Forall (λ c, is_digit c = true) ds → digits_end rest →
  Config.parseInt (String.string_of_list_ascii (ds ++ rest)) = Some (dec_value ds).
Proof.
  intros Hne Hds Hend. unfold Config.parseInt. rewrite String.list_ascii_of_string_of_list_ascii.
  destruct ds as [|c ds]; [done|]. pose proof Hds as Hds'. apply Forall_cons in Hds' as [Hc Hrest].
  destruct (digit_char c Hc) as (Hws & Hm & Hp & _ & Hv & Hlt & _).
  cbn [app drop_ws]. rewrite Hws, Hm, Hp.
  assert (Hr : match c :: ds ++ rest with
               | z :: x :: l' => if Ascii.eqb z Config.zero_char && Config.is_x x then (16, l') else (10, c :: ds ++ rest)
               | _ => (10, c :: ds ++ rest) end = (10, c :: ds ++ rest)).
  { destruct ds as [|x ds]; cbn [app].
    - destruct rest as [|x rest]; [done|]. destruct Hend as [_ ->]. by rewrite andb_false_r.
    - apply Forall_cons in Hrest as [Hx _]. destruct (digit_char x Hx) as (_ & _ & _ & -> & _).
      by rewrite andb_false_r. }
  rewrite Hr. cbn [Config.digits_prefix]. rewrite Hv, Hlt, digits_prefix_dec by done.
  cbn. by rewrite Z.mul_1_l.
Qed.

Lemma parseInt_digits ds :
  ds ≠ [] → Forall (λ c, is_digit c = true) ds →
  Config.parseInt (String.string_of_list_ascii ds) = Some (dec_value ds).
Proof. intros Hne Hds. pose proof (parseInt_digits_prefix ds [] Hne Hds I) as H. by rewrite app_nil_r in H. Qed.

Ltac no_colon := rewrite list_elem_of_In; vm_compute; intuition discriminate.

Lemma no_colon_app s t :
  colon ∉ String.list_ascii_of_string s → colon ∉ String.list_ascii_of_string t →
  colon ∉ String.list_ascii_of_string (s +:+ t).
Proof. rewrite list_ascii_of_string_app, elem_of_app. tauto. Qed.

Ltac colon_free := first [done | no_colon | apply no_colon_app; colon_free].

Lemma js_split_colon_free s t :
  colon ∉ String.list_ascii_of_string s → Status.js_split colon (s +:+ String colon t) = s :: Status.js_split colon t.
Proof. intros Hs. rewrite Status.js_split_app, (Status.js_split_no_sep colon s); [done|]. by intros c Hc ->. Qed.

Lemma js_split_colon_none s : colon ∉ String.list_ascii_of_string s → Status.js_split colon s = [s].
Proof. intros Hs. apply Status.js_split_no_sep. by intros c Hc ->. Qed.

(** Splitting an URL with the scheme and then a host free of colons. *)
Lemma js_split_redis host t :
  colon ∉ String.list_ascii_of_string host →
  Status.js_split colon ("redis://" +:+ host +:+ t) = "redis" :: Status.js_split colon ("//" +:+ host +:+ t).
Proof.
  intros _. change ("redis://" +:+ host +:+ t)%string with ("redis" +:+ String colon ("//" +:+ host +:+ t))%string.
  apply js_split_colon_free. no_colon.
Qed.

Lemma redis_host_scheme t : redis_host ("redis://" +:+ t) = default EmptyString (head (Status.js_split colon t)).
Proof. unfold redis_host. by rewrite js_replace_first_prefix. Qed.

Lemma digits_no_colon ds : Forall (λ c, is_digit c = true) ds → colon ∉ ds.
Proof. rewrite Forall_forall. intros Hds Hin. by destruct (digit_char colon (Hds _ Hin)) as (_&_&_&_&_&_&[]). Qed.

(** The pieces after the scheme: [//host], then what follows the
    second colon. *)
Lemma js_split_after_scheme x t :
  colon ∉ String.list_ascii_of_string x →
  Status.js_split colon ("//" +:+ x +:+ String colon t) = ("//" +:+ x)%string :: Status.js_split colon t.
Proof. intros Hx. rewrite <-string_app_assoc. apply js_split_colon_free, no_colon_app; [no_colon|done]. Qed.

(** C21: The Redis connection the worker opens: for [redis://host:port]
    with a host free of colons and a decimal port, the host and the
    port's value; for [redis://host] the port 6379.  An URL that carries
    credentials, [redis://user:pw@host:port], connects to [user] as the
    host, on the port [parseInt(pw@host)] (NaN unless the password
    starts with digits). *)
Theorem redis_connection_spec host user pw ds :
  colon ∉ String.list_ascii_of_string host → colon ∉ String.list_ascii_of_string user →
  colon ∉ String.list_ascii_of_string pw → ds ≠ [] → Forall (λ c, is_digit c = true) ds →
  let port := String.string_of_list_ascii ds in
  (redis_host ("redis://" +:+ host +:+ String colon port) = host ∧
   redis_port ("redis://" +:+ host +:+ String colon port) = Some (dec_value ds)) ∧
  (redis_host ("redis://" +:+ host) = host ∧ redis_port ("redis://" +:+ host) = Some 6379) ∧
  (redis_host ("redis://" +:+ user +:+ String colon (pw +:+ "@" +:+ host +:+ String colon port)) = user ∧
   redis_port ("redis://" +:+ user +:+ String colon (pw +:+ "@" +:+ host +:+ String colon port)) =
     Config.parseInt (pw +:+ "@" +:+ host)).
Proof.
  intros Hh Hu Hp Hne Hds port.
  assert (Hport : colon ∉ String.list_ascii_of_string port).
  { unfold port. rewrite String.list_ascii_of_string_of_list_ascii. by apply digits_no_colon. }
  assert (Hpw : colon ∉ String.list_ascii_of_string (pw +:+ "@" +:+ host)).
  { colon_free. }
  unfold redis_port. rewrite !redis_host_scheme.
  split_and!.
  - by rewrite js_split_colon_free.
  - rewrite js_split_redis, js_split_after_scheme, js_split_colon_none by done. cbn.
    destruct ds as [|d ds]; [done|]. by apply parseInt_digits.
  - by rewrite js_split_colon_none.
  - change ("redis://" +:+ host)%string with ("redis" +:+ String colon ("//" +:+ host))%string.
    by rewrite js_split_colon_free, js_split_colon_none by colon_free.
  - by rewrite js_split_colon_free.
  - rewrite js_split_redis, js_split_after_scheme by done.
    rewrite <-(string_app_assoc "@"), <-(string_app_assoc pw ("@" +:+ host)), js_split_colon_free by done.
    cbn. by destruct pw.
Qed.

Lemma redis_connection_spec_witness :
  (redis_host "redis://cache:6380" = "cache" ∧ redis_port "redis://cache:6380" = Some 6380) ∧
  redis_host "redis://:pw@cache:6380" = EmptyString ∧ redis_port "redis://:pw@cache:6380" = None.
Proof.
  destruct (redis_connection_spec "cache" EmptyString "pw" (String.list_ascii_of_string "6380"))
    as ([H1 H2] & _ & [H3 H4]); [no_colon|no_colon|no_colon|done|by repeat constructor|].
  split_and!; [exact H1|exact H2|exact H3|exact H4].
Defined.

(** The connection of the default configuration: [localhost:6379], two
    jobs at a time, at most ten jobs a second. *)
Lemma worker_options_default :
  let env : gmap string string := {[ "SUPABASE_URL" := "https://db"; "SUPABASE_SERVICE_KEY" := "key" ]} in
  ∃ cfg, Config.load_config env = inr cfg ∧
    worker_options cfg = {| wo_queue := "chat-requests"; wo_host := "localhost"; wo_port := Some 6379;
                            wo_concurrency := Some 2; wo_limiter_max := 10; wo_limiter_duration := 1000 |}.
Proof. eexists. split; [reflexivity|]. vm_compute. reflexivity. Qed.

End Options.

(** ** [index.ts] *)

Module Main.

(** [JSON.stringify({ status: 'healthy', workerId, uptime })] *)
Record HealthBody := { hb_status : string; hb_workerId : string; hb_uptime : Z }.

(** The health server's handler: [200] with the body at [/health],
    [404] with no body elsewhere; [uptime] is [process.uptime()]. *)
Definition health (workerId : string) (uptime : Z) (url : string) : Z * option HealthBody :=
  if String.eqb url "/health" then (200, Some {| hb_status := "healthy"; hb_workerId := workerId; hb_uptime := uptime |})
  else (404, None).

(** What the shutdown changes besides the world: whether the worker
    takes jobs, whether the health server listens, and the exit code
    once [process.exit] ran. *)
Record Proc := { pr_accepting : bool; pr_server_open : bool; pr_exit : option Z }.

Definition proc_started : Proc := {| pr_accepting := true; pr_server_open := true; pr_exit := None |}.

Inductive signal := SIGTERM | SIGINT.

(** [process.exit(1)] of the [uncaughtException] and
    [unhandledRejection] handlers. *)
Definition exit_failure (p : Proc) : Proc :=
  {| pr_accepting := pr_accepting p; pr_server_open := pr_server_open p; pr_exit := Some 1 |}.

(** The [SIGTERM] and [SIGINT] handlers (the same body): [await
    worker.close()], [await closeAllContexts()], [server.close()],
    [process.exit(0)].  A rejection of [worker.close()] rejects the
    handler's promise, which nothing awaits: the [unhandledRejection]
    handler exits with 1. *)
Definition on_signal (s : signal) (p : Proc) : M Proc :=
  se_catch (call CWorkerClose ;;!
            closeAllContexts ;;!
            se_ret {| pr_accepting := false; pr_server_open := false; pr_exit := Some 0 |})
           (λ _, se_ret (exit_failure p)).

(** C17: Shutdown on [SIGTERM] or [SIGINT]: when [worker.close()]
    resolves, the process exits with 0, the worker and the server
    closed and the pool emptied, whatever the [close()] of each browser
    context does (teardown errors are swallowed); when moreover no
    [close()] rejects, no browser context of a well-formed pool is left
    open.  When [worker.close()] rejects, the process exits with 1
    before [closeAllContexts] runs: every context stays open and the
    pool as it was. *)
Theorem shutdown_spec s p w :
  (no_fault w CWorkerClose →
     ∃ w', on_signal s p w = (w', inr {| pr_accepting := false; pr_server_open := false; pr_exit := Some 0 |}) ∧
       b_pool (w_br w') = ∅ ∧
       (pool_wf (w_br w) → (∀ n, env_fault (w_env w) CClose n = None) →
          ∀ h c, b_ctxs (w_br w') !! h = Some c → ctx_open c = false)) ∧
  (∀ m, env_fault (w_env w) CWorkerClose (w_calls w CWorkerClose) = Some m →
     on_signal s p w = (bump CWorkerClose w, inr (exit_failure p))).
Proof.
  split.
  - intros Hf. unfold on_signal.
    destruct (closeAllContexts (bump CWorkerClose w)) as [w1 r] eqn:E.
    destruct (closeAllContexts_clears _ _ _ E) as [-> Hpool].
    exists w1. split; [|split; [done|]].
    + unfold se_catch. by rewrite (se_bind_inr _ _ _ _ _ (call_ok w _ Hf)), (se_bind_inr _ _ _ _ _ E).
    + intros Hwf Hnc. by apply (closeAllContexts_closes_all (bump CWorkerClose w) w1 (inr tt)).
  - intros m Hf. unfold on_signal, se_catch, se_bind at 1, call. by rewrite Hf.
Qed.

(** Every [close()] rejecting: the process still exits with 0 and the
    pool is emptied. *)
Lemma shutdown_spec_witness :
  let w_bad := world_start {| env_fault := λ c _, match c with CClose => Some "closed"%string | _ => None end;
                              env_clock := λ _, 0; env_session_unique := false;
                              env_screenshot_on_error := false |} db_empty in
  no_fault w_bad CWorkerClose ∧
  ∃ w', on_signal SIGTERM proc_started w_bad =
          (w', inr {| pr_accepting := false; pr_server_open := false; pr_exit := Some 0 |}) ∧
    b_pool (w_br w') = ∅.
Proof.
  split; [reflexivity|].
  destruct (proj1 (shutdown_spec SIGTERM proc_started
    (world_start {| env_fault := λ c _, match c with CClose => Some "closed"%string | _ => None end;
                    env_clock := λ _, 0; env_session_unique := false;
                    env_screenshot_on_error := false |} db_empty)) eq_refl) as (w' & E & Hp & _).
  by exists w'.
Defined.

End Main.
