(* ===== verification/TrackerMain.v ===== *)
(** * TrackerMain: the quota tracker's process ([src/quota-tracker/src/index.ts])

    Besides [checkQuotas] and [checkExpiringSessions] (file
    [QuotaTracker]), the tracker's [index.ts] reads its configuration
    from the environment ([config], lines 6-17: [parseInt] of
    [CHECK_INTERVAL], [parseFloat] of [ALERT_THRESHOLD]), serves
    [/health] on port 8080, runs both checks once, schedules them with
    [setInterval], and on [SIGTERM] or [SIGINT] closes the health
    server, awaits [redis.quit()] and exits with 0.

    Module [Settings] holds the configuration object, JavaScript's
    [parseFloat] on 8-bit strings (a number is a decimal [m * 10^e],
    [Infinity] or [NaN]), the fraction [checkQuotas] compares ratios
    with, and the delay [setInterval] really uses: Node.js replaces a
    delay that is not a number between 1 and 2^31 - 1 by 1 ms.  Module
    [Process] holds the health handler and the signal handler. *)

From S2P Require Import Prelude Model QuotaTracker WorkerMain.

Local Open Scope Z_scope.
Local Open Scope orch_scope.

Module Settings.

Import Options.

(** ** [parseFloat] *)

(** A number as [parseFloat] returns it: [m * 10^e] exactly (the
    rounding to a double is not modelled), [Infinity] with its sign, or
    [NaN]. *)
Inductive jsnum := JNum (m e : Z) | JInf (neg : bool) | JNaN.

Definition dot : Ascii.ascii := Ascii.ascii_of_nat 46.

Definition is_e (c : Ascii.ascii) : bool :=
  let n := Ascii.nat_of_ascii c in Nat.eqb n 101 || Nat.eqb n 69.

(** The longest prefix of decimal digits, and what follows it. *)
Fixpoint take_digits (l : list Ascii.ascii) : list Ascii.ascii * list Ascii.ascii :=
  match l with
  | c :: l' => if is_digit c then let '(ds, r) := take_digits l' in (c :: ds, r) else ([], l)
  | [] => ([], [])
  end.

(** An optional sign. *)
Definition take_sign (l : list Ascii.ascii) : bool * list Ascii.ascii :=
  match l with
  | c :: l' =>
      if Ascii.eqb c WorkerMain.Config.minus_char then (true, l')
      else if Ascii.eqb c WorkerMain.Config.plus_char then (false, l') else (false, l)
  | [] => (false, l)
  end.

(** [ExponentPart]: [e] or [E], a sign, digits; without digits it is
    not part of the number. *)
Definition exponent (l : list Ascii.ascii) : Z :=
  match l with
  | c :: l' =>
      if is_e c then
        let '(neg, l'') := take_sign l' in
        match take_digits l'' with
        | ([], _) => 0
        | (ds, _) => (if neg then -1 else 1) * dec_value ds
        end
      else 0
  | [] => 0
  end.

(** [parseFloat(s)]: leading white space, a sign, then the longest
    prefix that is [Infinity] or [digits [. digits] [exponent]] or
    [. digits [exponent]]; [NaN] when there is none. *)
Definition parseFloat (s : string) : jsnum :=
  let '(neg, l) := take_sign (drop_ws (String.list_ascii_of_string s)) in
  if String.prefix "Infinity" (String.string_of_list_ascii l) then JInf neg
  else
    let '(ip, l1) := take_digits l in
    let '(fp, l2) :=
      match l1 with
      | c :: r => if Ascii.eqb c dot then take_digits r else ([], l1)
      | [] => ([], l1)
      end in
    match ip, fp with
    | [], [] => JNaN
    | _, _ => JNum ((if neg then -1 else 1) * dec_value (ip ++ fp)) (exponent l2 - Z.of_nat (length fp))
    end.

(** What may follow a number's digits without being read: nothing, or
    a character that is neither a digit nor an exponent mark. *)
Definition float_end (rest : list Ascii.ascii) : Prop :=
  match rest with
  | [] => True
  | c :: _ => is_digit c = false ∧ is_e c = false
  end.

(** ** [config] *)

Record TrackerSettings := {
  ts_supabase_url : option string;
  ts_service_key : option string;
  ts_redis_url : string;
  ts_checkInterval : option Z;
  ts_alertThreshold : jsnum
}.

Definition load_settings (env : gmap string string) : TrackerSettings :=
  {| ts_supabase_url := env !! "SUPABASE_URL";
     ts_service_key := env !! "SUPABASE_SERVICE_KEY";
     ts_redis_url := WorkerMain.Config.env_or env "REDIS_URL" "redis://localhost:6379";
     ts_checkInterval := WorkerMain.Config.parseInt (WorkerMain.Config.env_or env "CHECK_INTERVAL" "60000");
     ts_alertThreshold := parseFloat (WorkerMain.Config.env_or env "ALERT_THRESHOLD" "0.9") |}.

(** The threshold as the fraction [n / d] the ratio tests of
    [checkQuotas] take; [Infinity] and [NaN] have none. *)
Definition threshold_fraction (x : jsnum) : option (Z * Z) :=
  match x with
  | JNum m e => if 0 <=? e then Some (m * 10 ^ e, 1) else Some (m, 10 ^ (- e))
  | _ => None
  end.

(** The configuration [checkQuotas] runs with, in the time zone [tz]. *)
Definition tracker_config (tz : Z) (s : TrackerSettings) : option TrackerConfig :=
  match threshold_fraction (ts_alertThreshold s) with
  | Some (n, d) => Some {| alert_num := n; alert_den := d; tz_ms := tz |}
  | None => None
  end.

(** ** The timers *)

(** [TIMEOUT_MAX] of Node.js's timers. *)
Definition timeout_max : Z := 2147483647.

(** The delay [setInterval(f, delay)] uses: Node.js replaces a delay
    that is [NaN], below 1 or above [TIMEOUT_MAX] by 1. *)
Definition timer_delay (delay : option Z) : Z :=
  match delay with
  | Some d => if (1 <=? d) && (d <=? timeout_max) then d else 1
  | None => 1
  end.

(** [setInterval(checkQuotas, config.checkInterval)] *)
Definition quota_check_delay (s : TrackerSettings) : Z := timer_delay (ts_checkInterval s).

(** [setInterval(checkExpiringSessions, 24 * 60 * 60 * 1000)] *)
Definition session_check_delay : Z := timer_delay (Some (24 * 60 * 60 * 1000)).

(** ** Lemmas *)

Lemma take_digits_app ds rest :
  Forall (λ c, is_digit c = true) ds → (∀ c r, rest = c :: r → is_digit c = false) →
  take_digits (ds ++ rest) = (ds, rest).
Proof.
  intros Hds Hr. induction Hds as [|c ds Hc _ IH]; cbn [app take_digits].
  - destruct rest as [|c r]; [done|]. cbn. by rewrite (Hr c r eq_refl).
  - by rewrite Hc, IH.
Qed.

Lemma exponent_end rest : float_end rest → exponent rest = 0.
Proof. destruct rest as [|c r]; [done|]. intros [_ He]. cbn. by rewrite He. Qed.

Lemma digit_lead c s :
  is_digit c = true →
  drop_ws (c :: s) = c :: s ∧ take_sign (c :: s) = (false, c :: s) ∧
  String.prefix "Infinity" (String c (String.string_of_list_ascii s)) = false.
Proof.
  intros Hc. destruct (digit_char c Hc) as (Hws & Hm & Hp & _).
  split_and!; [cbn; by rewrite Hws|cbn; by rewrite Hm, Hp|].
  destruct c as [[] [] [] [] [] [] [] []]; first [discriminate | reflexivity].
Qed.

(** [parseFloat] of digits, then optionally a dot and digits, then
    text that ends the number. *)
Lemma parseFloat_decimal ip fp rest :
  ip ≠ [] → Forall (λ c, is_digit c = true) ip → Forall (λ c, is_digit c = true) fp → float_end rest →
  parseFloat (String.string_of_list_ascii (ip ++ dot :: fp ++ rest)) =
    JNum (dec_value (ip ++ fp)) (- Z.of_nat (length fp)).
Proof.
  intros Hne Hip Hfp Hend. unfold parseFloat. rewrite String.list_ascii_of_string_of_list_ascii.
  destruct ip as [|c ip]; [done|]. pose proof (Forall_inv Hip) as Hc.
  destruct (digit_lead c (ip ++ dot :: fp ++ rest) Hc) as (Hws & Hs & Hinf).
  rewrite <-app_comm_cons, Hws, Hs. cbn [String.string_of_list_ascii]. rewrite Hinf.
  rewrite (app_comm_cons ip _ c), (take_digits_app (c :: ip) (dot :: fp ++ rest)) by (done || by intros ? ? [= <- _]).
  cbn [Ascii.eqb]. rewrite Ascii.eqb_refl.
  rewrite take_digits_app by (done || (intros c' r ->; by destruct Hend)).
  rewrite exponent_end by done. f_equal; lia.
Qed.

Lemma parseFloat_integer ip rest :
  ip ≠ [] → Forall (λ c, is_digit c = true) ip → float_end rest → head rest ≠ Some dot →
  parseFloat (String.string_of_list_ascii (ip ++ rest)) = JNum (dec_value ip) 0.
Proof.
  intros Hne Hip Hend Hdot. unfold parseFloat. rewrite String.list_ascii_of_string_of_list_ascii.
  destruct ip as [|c ip]; [done|]. pose proof (Forall_inv Hip) as Hc.
  destruct (digit_lead c (ip ++ rest) Hc) as (Hws & Hs & Hinf).
  rewrite <-app_comm_cons, Hws, Hs. cbn [String.string_of_list_ascii]. rewrite Hinf.
  rewrite (app_comm_cons ip _ c), (take_digits_app (c :: ip) rest) by (done || (intros c' r ->; by destruct Hend)).
  destruct rest as [|d r]; [cbn; by rewrite app_nil_r, Z.mul_1_l|].
  destruct (Ascii.eqb d dot) eqn:Ed; [apply Ascii.eqb_eq in Ed; by subst|].
  rewrite exponent_end by done. cbn. by rewrite app_nil_r, Z.mul_1_l.
Qed.

Lemma env_or_set env name fallback v :
  env !! name = Some v → v ≠ EmptyString → WorkerMain.Config.env_or env name fallback = v.
Proof. unfold WorkerMain.Config.env_or. intros -> Hv. by destruct (String.eqb_spec v EmptyString). Qed.

Lemma timer_delay_bounds d : 1 <= timer_delay d <= timeout_max.
Proof.
  destruct d as [v|]; cbn; [|unfold timeout_max; lia].
  destruct (1 <=? v) eqn:E1, (v <=? timeout_max) eqn:E2; cbn; rewrite ?Z.leb_le in *; unfold timeout_max in *; lia.
Qed.

Lemma string_of_cons_ne c l : String.string_of_list_ascii (c :: l) ≠ EmptyString.
Proof. done. Qed.

(** C26: The delay of the quota timer: always between 1 ms and
    [TIMEOUT_MAX]; 60000 ms when [CHECK_INTERVAL] is unset; and for a
    value made of decimal digits followed by anything that stops them,
    such as a unit ([60s], [5m]), the number the digits spell, the unit
    dropped: [5m] polls every 5 ms. *)
Theorem check_interval_delay env :
  1 <= quota_check_delay (load_settings env) <= timeout_max ∧
  (env !! "CHECK_INTERVAL" = None → quota_check_delay (load_settings env) = 60000) ∧
  (∀ ds rest, env !! "CHECK_INTERVAL" = Some (String.string_of_list_ascii (ds ++ rest)) →
     ds ≠ [] → Forall (λ c, is_digit c = true) ds → digits_end rest → 1 <= dec_value ds <= timeout_max →
     quota_check_delay (load_settings env) = dec_value ds).
Proof.
  unfold quota_check_delay. split; [apply timer_delay_bounds|split]; unfold load_settings, timer_delay.
  - unfold WorkerMain.Config.env_or. intros ->. reflexivity.
  - intros ds rest Henv Hne Hds Hend Hr.
    rewrite (env_or_set _ _ _ _ Henv) by (destruct ds; [done|apply string_of_cons_ne]).
    rewrite parseInt_digits_prefix by done.
    cbn [ts_checkInterval]. replace ((1 <=? dec_value ds) && (dec_value ds <=? timeout_max)) with true; [done|].
    symmetry. apply andb_true_iff. rewrite !Z.leb_le. lia.
Qed.

(** C27: The alert threshold [checkQuotas] compares with: [0.9] when
    [ALERT_THRESHOLD] is unset; for [ip.fp] followed by anything that
    ends the number, the fraction [ip fp / 10^|fp|]; for digits alone,
    such as [90%] or [90], the integer, so that [90%] makes the warning
    fire only at 90 times the limit. *)
Theorem alert_threshold_spec env tz :
  (env !! "ALERT_THRESHOLD" = None →
     tracker_config tz (load_settings env) = Some {| alert_num := 9; alert_den := 10; tz_ms := tz |}) ∧
  (∀ ip fp rest, env !! "ALERT_THRESHOLD" = Some (String.string_of_list_ascii (ip ++ dot :: fp ++ rest)) →
     ip ≠ [] → Forall (λ c, is_digit c = true) ip → Forall (λ c, is_digit c = true) fp → float_end rest →
     tracker_config tz (load_settings env) =
       Some {| alert_num := dec_value (ip ++ fp); alert_den := 10 ^ Z.of_nat (length fp); tz_ms := tz |}) ∧
  (∀ ip rest, env !! "ALERT_THRESHOLD" = Some (String.string_of_list_ascii (ip ++ rest)) →
     ip ≠ [] → Forall (λ c, is_digit c = true) ip → float_end rest → head rest ≠ Some dot →
     tracker_config tz (load_settings env) = Some {| alert_num := dec_value ip; alert_den := 1; tz_ms := tz |}).
Proof.
  unfold tracker_config, load_settings. cbn [ts_alertThreshold]. split_and!.
  - unfold WorkerMain.Config.env_or. intros ->. reflexivity.
  - intros ip fp rest Henv Hne Hip Hfp Hend.
    rewrite (env_or_set _ _ _ _ Henv) by (destruct ip; [done|apply string_of_cons_ne]).
    rewrite parseFloat_decimal by done. unfold threshold_fraction.
    destruct fp as [|f fp]; cbn [length Z.of_nat].
    + cbn. by rewrite Z.mul_1_r.
    + rewrite (proj2 (Z.leb_gt _ _)) by lia. by rewrite Z.opp_involutive.
  - intros ip rest Henv Hne Hip Hend Hdot.
    rewrite (env_or_set _ _ _ _ Henv) by (destruct ip; [done|apply string_of_cons_ne]).
    rewrite parseFloat_integer by done. cbn. by rewrite Z.mul_1_r.
Qed.

Ltac concrete := first [reflexivity | done | by repeat constructor | split; vm_compute; first [reflexivity | intros ?; discriminate]].

(** [CHECK_INTERVAL=5m] polls every 5 ms. *)
Lemma check_interval_delay_witness :
  quota_check_delay (load_settings {[ "CHECK_INTERVAL" := "5m" ]}) = 5.
Proof.
  apply (proj2 (proj2 (check_interval_delay {[ "CHECK_INTERVAL" := "5m" ]}))
           (String.list_ascii_of_string "5") (String.list_ascii_of_string "m")); concrete.
Defined.

(** [ALERT_THRESHOLD=90%] is the threshold 90. *)
Lemma alert_threshold_spec_witness :
  tracker_config 0 (load_settings {[ "ALERT_THRESHOLD" := "90%" ]}) =
    Some {| alert_num := 90; alert_den := 1; tz_ms := 0 |}.
Proof.
  apply (proj2 (proj2 (alert_threshold_spec {[ "ALERT_THRESHOLD" := "90%" ]} 0))
           (String.list_ascii_of_string "90") (String.list_ascii_of_string "%")); concrete.
Defined.

End Settings.

Module Process.

(** [{ status: 'healthy', uptime: process.uptime(), lastCheck: new
    Date().toISOString() }] *)
Record TrackerHealth := { th_status : string; th_uptime : Z; th_lastCheck : Z }.

(** The health server's handler, at the clock reading [now]. *)
Definition health (uptime now : Z) (url : string) : Z * option TrackerHealth :=
  if String.eqb url "/health" then
    (200, Some {| th_status := "healthy"; th_uptime := uptime; th_lastCheck := now |})
  else (404, None).

(** What the tracker holds open, and the exit code once
    [process.exit] ran. *)
Record TProc := { tp_server_open : bool; tp_redis_open : bool; tp_exit : option Z }.

Definition tracker_started : TProc := {| tp_server_open := true; tp_redis_open := true; tp_exit := None |}.

(** The [SIGTERM] and [SIGINT] handlers (the same body):
    [server.close()], [await redis.quit()], [process.exit(0)].  A
    rejected [quit()] rejects the handler's promise; the tracker has no
    [unhandledRejection] handler, so Node.js ends the process with
    exit code 1, the Redis connection still open. *)
Definition on_signal (s : WorkerMain.Main.signal) (p : TProc) : M TProc :=
  se_catch (call CRedisQuit ;;!
            se_ret {| tp_server_open := false; tp_redis_open := false; tp_exit := Some 0 |})
           (λ _, se_ret {| tp_server_open := false; tp_redis_open := tp_redis_open p; tp_exit := Some 1 |}).

End Process.
