(* ===== verification/Interplay.v ===== *)
(** * Interplay: the dispatcher and the tracker on one quota row

    The dispatcher charges a job's tokens to the quota row of its
    account and provider ([updateQuota] of [supabase.ts], through the
    [update_quota_usage] procedure); the tracker zeroes the row's daily
    counter when its [reset_daily_at] has passed ([checkQuotas] of the
    tracker's [index.ts]).  The reset happens at the tracker's next run,
    not at the reset instant, and it zeroes the counter whatever was
    charged in between: the tokens of a job that completes after the
    reset instant and before that run count neither against the old day
    (whose counter is gone) nor against the new one.  This file composes
    the two components' models on one world. *)

From S2P Require Import Prelude Model Worker QuotaTracker.

Local Open Scope Z_scope.
Local Open Scope orch_scope.

(** ** [update_quota_usage] on the rows *)

Lemma update_quota_usage_ids a p k l : map q_id (update_quota_usage a p k l) = map q_id l.
Proof. unfold update_quota_usage. rewrite map_map. apply map_ext. intros q. by case_bool_decide. Qed.

Lemma update_quota_usage_charged a p k l q :
  q ∈ l → q_account_id q = a → q_provider q = p → add_usage k q ∈ update_quota_usage a p k l.
Proof.
  intros Hq Ha Hp. unfold update_quota_usage. apply list_elem_of_fmap. exists q.
  split; [|done]. by rewrite bool_decide_eq_true_2.
Qed.

(** ** A charge between the reset instant and the tracker's run *)

(** C28: A job that charges [k] tokens to a row whose daily reset
    instant has already passed, before the tracker's next run: the
    charge lands on the row ([daily_used] grows by [k]), and the run
    that follows zeroes the counter of that row, so the new day's
    counter does not hold the [k] tokens used after the reset
    instant. *)
Theorem usage_after_reset_discarded cfg w q k :
  calls_ok (CUpdateQuota :: tracker_calls) w → NoDup (map q_id (db_quotas (w_db w))) →
  clock_monotone (w_env w) → q ∈ db_quotas (w_db w) →
  q_reset_daily_at q <= env_clock (w_env w) (w_clock_reads w) →
  ∃ w1 w2 q', updateQuota (q_account_id q) (q_provider q) k w = (w1, inr tt) ∧
    add_usage k q ∈ db_quotas (w_db w1) ∧ q_daily_used (add_usage k q) = q_daily_used q + k ∧
    checkQuotas cfg w1 = (w2, inr tt) ∧
    q' ∈ db_quotas (w_db w2) ∧ q_id q' = q_id q ∧ q_daily_used q' = 0.
Proof.
  intros Hok Hnd Hm Hq Hr.
  rewrite (updateQuota_ok (CUpdateQuota :: tracker_calls)) by (done || by left).
  set (w1 := set_db _ _).
  assert (Hin : add_usage k q ∈ db_quotas (w_db w1)) by (by apply update_quota_usage_charged).
  destruct (checkQuotas_daily_reset cfg w1 (add_usage k q)) as (w2 & q' & t & E & Hq' & Hid & Hu & _);
    [|by cbn; rewrite update_quota_usage_ids|done|done|done|].
  - eapply calls_ok_sub; [|eapply calls_ok_env; [|exact Hok]; done]. set_solver.
  - by exists w1, w2, q'.
Qed.

(** A row with 7 of 10 used and its reset instant at 0: a job charges
    two tokens, then the tracker's run leaves the row at 0. *)
Lemma usage_after_reset_discarded_witness :
  let w := tr_world active [tr_quota 7 10 0] [] in
  ∃ w1 w2 q', updateQuota "A" "chatgpt" 2 w = (w1, inr tt) ∧
    add_usage 2 (tr_quota 7 10 0) ∈ db_quotas (w_db w1) ∧ q_daily_used (add_usage 2 (tr_quota 7 10 0)) = 9 ∧
    checkQuotas config_default w1 = (w2, inr tt) ∧
    q' ∈ db_quotas (w_db w2) ∧ q_id q' = "Q1" ∧ q_daily_used q' = 0.
Proof.
  apply (usage_after_reset_discarded config_default (tr_world active [tr_quota 7 10 0] []) (tr_quota 7 10 0) 2);
    tr_hyps.
Defined.
