(* ===== verification/Webapp.v ===== *)
(** * Webapp: the dashboard's data hooks and views ([src/webapp/src])

    [useAccounts] and [useQuotas] keep a list of rows in React state:
    an initial [select] fills it, and a realtime subscription on the
    table applies each [INSERT], [UPDATE] and [DELETE] event to it.
    The list is the dashboard's picture of the table; the theorems say
    when it agrees with the table (up to order) and where the code lets
    it drift.  The components turn the rows into badges and progress
    colours, and the account operations ([addAccount],
    [deleteAccount]) write the [accounts] table.

    React's rendering and effects and the Supabase client (beyond the
    check of its configuration, module [Client]) are not modelled: a
    state update is a function on the hook's record, a
    realtime event is a value of [change], and the order in which the
    query's answer and the events reach the browser is an explicit
    sequence of messages. *)

From S2P Require Import Prelude Model Api QuotaTracker Endpoints.
From stdpp Require Import sorting.

Local Open Scope Z_scope.
Local Open Scope orch_scope.

(** ** The client ([lib/supabase.ts])

    [import.meta.env] as a map: the module throws when the URL or the
    anonymous key is missing or empty, before any hook runs. *)

Module Client.

Definition missing_vars_msg : string := "Missing Supabase environment variables".

Definition supabase_client (env : gmap string string) : string + (string * string) :=
  match env !! "VITE_SUPABASE_URL", env !! "VITE_SUPABASE_ANON_KEY" with
  | Some url, Some key =>
      if String.eqb url EmptyString || String.eqb key EmptyString then inl missing_vars_msg
      else inr (url, key)
  | _, _ => inl missing_vars_msg
  end.

End Client.

(** ** Realtime events *)

(** [payload.eventType] with [payload.new] or [payload.old.id]. *)
Inductive change (A : Type) :=
  | ChInsert (row : A)
  | ChUpdate (row : A)
  | ChDelete (old_id : string).
Arguments ChInsert {A}. Arguments ChUpdate {A}. Arguments ChDelete {A}.

Section Replay.
Context {A : Type} (key : A → string).

(** [prev.map((a) => (a.id === payload.new.id ? payload.new : a))] *)
Definition replace_row (row : A) (prev : list A) : list A :=
  (λ a, if String.eqb (key a) (key row) then row else a) <$> prev.

(** [prev.filter((a) => a.id !== payload.old.id)] *)
Definition remove_row (id : string) (prev : list A) : list A :=
  filter (λ a, key a ≠ id) prev.

(** The realtime callback, with [ins] the way an [INSERT] adds the
    row ([[new, ...prev]] or [[...prev, new]]). *)
Definition apply_change (ins : A → list A → list A) (ev : change A) (prev : list A) : list A :=
  match ev with
  | ChInsert row => ins row prev
  | ChUpdate row => replace_row row prev
  | ChDelete id => remove_row id prev
  end.

(** The table the events come from: a map from ids to rows.  Postgres
    sends an event for a row that the statement inserted, updated or
    deleted, so an [INSERT] is of a fresh id and the others of a
    present one. *)
Definition table_change (ev : change A) (m : gmap string A) : gmap string A :=
  match ev with
  | ChInsert row | ChUpdate row => <[key row := row]> m
  | ChDelete id => delete id m
  end.

Definition change_valid (m : gmap string A) (ev : change A) : Prop :=
  match ev with
  | ChInsert row => m !! key row = None
  | ChUpdate row => is_Some (m !! key row)
  | ChDelete id => is_Some (m !! id)
  end.

Fixpoint changes_valid (m : gmap string A) (evs : list (change A)) : Prop :=
  match evs with
  | [] => True
  | ev :: evs' => change_valid m ev ∧ changes_valid (table_change ev m) evs'
  end.

(** A list mirrors a table when it holds exactly the table's rows,
    each under its own id, in some order. *)
Definition keyed (m : gmap string A) : Prop := ∀ i a, m !! i = Some a → key a = i.

Definition mirrors (l : list A) (m : gmap string A) : Prop :=
  keyed m ∧ (λ a, (key a, a)) <$> l ≡ₚ map_to_list m.

(** The events of a run, applied to the table in commit order. *)
Definition table_replay (evs : list (change A)) (m : gmap string A) : gmap string A :=
  foldl (λ m ev, table_change ev m) m evs.

(** The hook's state: the rows, [loading] and [error]. *)
Record hook := mk_hook { h_rows : list A; h_loading : bool; h_error : option string }.

(** [useState([])], [useState(true)], [useState(null)] *)
Definition hook_init : hook := mk_hook [] true None.

(** What reaches the browser: the answer [{ data, error }] of the
    initial query, or a realtime event. *)
Inductive msg :=
  | MAnswer (res : string + option (list A))
  | MEvent (ev : change A).

(** [fetchX]: [if (fetchError) throw fetchError; setX(data || [])],
    [catch (err) { setError(err) }], [finally { setLoading(false) }]. *)
Definition on_answer (res : string + option (list A)) (h : hook) : hook :=
  match res with
  | inl e => mk_hook (h_rows h) false (Some e)
  | inr data => mk_hook (default [] data) false (h_error h)
  end.

Definition on_msg (ins : A → list A → list A) (h : hook) (m : msg) : hook :=
  match m with
  | MAnswer res => on_answer res h
  | MEvent ev => mk_hook (apply_change ins ev (h_rows h)) (h_loading h) (h_error h)
  end.

(** The messages in the order the browser handles them. *)
Definition run_hook (ins : A → list A → list A) (ms : list msg) (h : hook) : hook :=
  foldl (on_msg ins) h ms.

(** The initial query answered from the table after the first [k]
    events, its answer handled after the same [k] events. *)
Definition delivery (evs : list (change A)) (k : nat) (snap : list A) : list msg :=
  (MEvent <$> take k evs) ++ MAnswer (inr (Some snap)) :: (MEvent <$> drop k evs).

End Replay.
Arguments hook : clear implicits.
Arguments msg : clear implicits.
Arguments mk_hook {A}.
Arguments MAnswer {A}. Arguments MEvent {A}.

Section ReplayFacts.
Context {A : Type} (key : A → string).
Notation kv := (λ a : A, (key a, a)).

Lemma keyed_insert m r : keyed key m → keyed key (<[key r:=r]> m).
Proof. intros Hk i a. rewrite lookup_insert_Some. intros [[<- <-]|[_ Ha]]; auto. Qed.

Lemma keyed_delete m i : keyed key m → keyed key (delete i m).
Proof. intros Hk j a. rewrite lookup_delete_Some. intros [_ Ha]; auto. Qed.

Lemma keyed_table_change m ev : keyed key m → keyed key (table_change key ev m).
Proof. destruct ev; simpl; auto using keyed_insert, keyed_delete. Qed.

Lemma map_to_list_delete_keys (m : gmap string A) i p : p ∈ map_to_list (delete i m) → p.1 ≠ i.
Proof. destruct p as [j a]. rewrite elem_of_map_to_list. simpl. intros Hp ->. by rewrite lookup_delete_eq in Hp. Qed.

Lemma replace_row_kv r l :
  kv <$> replace_row key r l = (λ p : string * A, if String.eqb p.1 (key r) then (key r, r) else p) <$> (kv <$> l).
Proof.
  unfold replace_row. induction l as [|a l IH]; [done|]. rewrite !fmap_cons, IH. cbn [fst].
  destruct (String.eqb_spec (key a) (key r)) as [E|E]; done.
Qed.

Lemma remove_row_kv i l : kv <$> remove_row key i l = filter (λ p : string * A, p.1 ≠ i) (kv <$> l).
Proof.
  unfold remove_row. induction l as [|a l IH]; [done|]. rewrite fmap_cons, !filter_cons. cbn [fst].
  case_decide; rewrite ?fmap_cons; by rewrite IH.
Qed.

(** One realtime event keeps the list in step with the table, for
    either way of adding an inserted row. *)
Lemma mirrors_step ins l m ev :
  (∀ r l, ins r l ≡ₚ r :: l) → mirrors key l m → change_valid key m ev →
  mirrors key (apply_change key ins ev l) (table_change key ev m).
Proof.
  intros Hins [Hk Hp] Hv. split; [by apply keyed_table_change|].
  destruct ev as [r|r|i]; simpl in *.
  - by rewrite map_to_list_insert, Hins, fmap_cons, Hp by done.
  - destruct Hv as [a0 Ha0].
    rewrite replace_row_kv, Hp, <-(map_to_list_delete m (key r) a0), <-insert_delete_eq,
      map_to_list_insert by (done || apply lookup_delete_eq).
    csimpl. rewrite String.eqb_refl. f_equiv. rewrite fmap_id_on; [done|].
    intros p Hp'. apply map_to_list_delete_keys in Hp'. by destruct (String.eqb_spec p.1 (key r)).
  - destruct Hv as [a0 Ha0].
    rewrite remove_row_kv, Hp, <-(map_to_list_delete m i a0) by done.
    rewrite filter_cons, decide_False by (simpl; tauto).
    rewrite filter_all; [done|]. apply map_to_list_delete_keys.
Qed.

Lemma mirrors_replay ins l m evs :
  (∀ r l, ins r l ≡ₚ r :: l) → mirrors key l m → changes_valid key m evs →
  mirrors key (foldl (λ l ev, apply_change key ins ev l) l evs) (table_replay key evs m).
Proof.
  intros Hins. revert l m. induction evs as [|ev evs IH]; intros l m Hm Hv; [done|].
  destruct Hv. apply IH; [apply mirrors_step|]; auto.
Qed.

Lemma changes_valid_app m xs ys :
  changes_valid key m (xs ++ ys) ↔ changes_valid key m xs ∧ changes_valid key (table_replay key xs m) ys.
Proof. revert m. induction xs as [|ev xs IH]; intros m; simpl; [tauto|]. rewrite IH. tauto. Qed.

Lemma run_hook_events ins evs h :
  run_hook key ins (MEvent <$> evs) h =
  mk_hook (foldl (λ l ev, apply_change key ins ev l) (h_rows h) evs) (h_loading h) (h_error h).
Proof. revert h. induction evs as [|ev evs IH]; intros [rows ld er]; [done|]. unfold run_hook in *. csimpl. by rewrite IH. Qed.

Lemma run_hook_cons ins m ms h : run_hook key ins (m :: ms) h = run_hook key ins ms (on_msg key ins h m).
Proof. done. Qed.

Lemma run_hook_app ins xs ys h : run_hook key ins (xs ++ ys) h = run_hook key ins ys (run_hook key ins xs h).
Proof. apply foldl_app. Qed.

(** Two lists that mirror the same table have the same length, and a
    list mirrors at most one table. *)
Lemma mirrors_length l l' m : mirrors key l m → mirrors key l' m → length l = length l'.
Proof.
  intros [_ H1] [_ H2]. rewrite <-(length_fmap kv l), <-(length_fmap kv l').
  by apply Permutation_length; rewrite H1, H2.
Qed.

Lemma mirrors_functional l m m' : mirrors key l m → mirrors key l m' → m = m'.
Proof. intros [_ H1] [_ H2]. apply map_to_list_inj. by rewrite <-H1, <-H2. Qed.

Lemma mirrors_empty : mirrors key [] ∅.
Proof. split; [intros i a; by rewrite lookup_empty|]. by rewrite map_to_list_empty. Qed.

(** The hook ends in step with the table when the answer of its query
    is handled exactly after the events the query already saw. *)
Lemma hook_converges ins m0 evs k snap :
  (∀ r l, ins r l ≡ₚ r :: l) → changes_valid key m0 evs →
  mirrors key snap (table_replay key (take k evs) m0) →
  let h := run_hook key ins (delivery evs k snap) hook_init in
  mirrors key (h_rows h) (table_replay key evs m0) ∧ h_loading h = false ∧ h_error h = None.
Proof.
  intros Hins Hv Hs. unfold delivery. rewrite <-(take_drop k evs) in Hv at 1.
  apply changes_valid_app in Hv as [_ Hv].
  rewrite run_hook_app, run_hook_events, run_hook_cons, run_hook_events.
  cbn [on_msg on_answer default h_rows h_loading h_error]. split_and!; [|done..].
  unfold table_replay. rewrite <-(take_drop k evs) at 2. rewrite foldl_app.
  by apply mirrors_replay.
Qed.

(** Successive [UPDATE]s of rows with distinct ids. *)
Definition replace_rows (us l : list A) : list A := foldl (λ l u, replace_row key u l) l us.

Lemma replace_rows_cons u us l : replace_rows (u :: us) l = replace_rows us (replace_row key u l).
Proof. done. Qed.

Lemma replace_rows_events ins us l :
  foldl (λ l ev, apply_change key ins ev l) l (ChUpdate <$> us) = replace_rows us l.
Proof. revert l. induction us as [|u us IH]; intros l; [done|]. apply IH. Qed.

Lemma elem_of_replace_row r u l : r ∈ replace_row key u l → r = u ∨ (r ∈ l ∧ key r ≠ key u).
Proof.
  unfold replace_row. rewrite list_elem_of_fmap. intros (a & -> & Ha).
  destruct (String.eqb_spec (key a) (key u)); auto.
Qed.

Lemma replace_row_keeps x u l : x ∈ l → key x ≠ key u → x ∈ replace_row key u l.
Proof.
  intros Hx Hk. apply list_elem_of_fmap. exists x. split; [|done].
  by destruct (String.eqb_spec (key x) (key u)).
Qed.

Lemma replace_row_puts u a l : a ∈ l → key a = key u → u ∈ replace_row key u l.
Proof.
  intros Ha Hk. apply list_elem_of_fmap. exists a. split; [|done].
  by destruct (String.eqb_spec (key a) (key u)).
Qed.

Lemma elem_of_replace_rows r us l :
  r ∈ replace_rows us l → r ∈ us ∨ (r ∈ l ∧ key r ∉ key <$> us).
Proof.
  revert l. induction us as [|u us IH]; intros l Hr; [right; split; [done|set_solver]|].
  destruct (IH _ Hr) as [?|[Hr' Hn]]; [set_solver|].
  destruct (elem_of_replace_row _ _ _ Hr') as [->|[? ?]]; [set_solver|].
  right. split; [done|]. rewrite fmap_cons, elem_of_cons. tauto.
Qed.

Lemma replace_rows_keeps x us l : x ∈ l → key x ∉ key <$> us → x ∈ replace_rows us l.
Proof.
  revert l. induction us as [|u us IH]; intros l Hx Hn; [done|].
  rewrite fmap_cons, elem_of_cons in Hn. apply IH; [apply replace_row_keeps|]; tauto.
Qed.

Lemma NoDup_key_inj (us : list A) r u : NoDup (key <$> us) → r ∈ us → u ∈ us → key r = key u → r = u.
Proof.
  induction us as [|v us IH]; intros Hnd Hr Hu Hk; [set_solver|].
  rewrite fmap_cons, NoDup_cons in Hnd. destruct Hnd as [Hv Hnd].
  apply elem_of_cons in Hr as [->|Hr], Hu as [->|Hu]; auto.
  - destruct Hv. rewrite Hk. by apply list_elem_of_fmap_2.
  - destruct Hv. rewrite <-Hk. by apply list_elem_of_fmap_2.
Qed.

(** After the updates, a row with the id of an update is that update,
    and an update whose id the list held is in it. *)
Lemma replace_rows_spec us l u :
  NoDup (key <$> us) → u ∈ us →
  (∀ r, r ∈ replace_rows us l → key r = key u → r = u) ∧
  ((∃ a, a ∈ l ∧ key a = key u) → u ∈ replace_rows us l).
Proof.
  intros Hnd Hu. split.
  - intros r Hr Hk. destruct (elem_of_replace_rows _ _ _ Hr) as [Hr'|[_ Hn]].
    + by apply (NoDup_key_inj us).
    + destruct Hn. rewrite Hk. by apply list_elem_of_fmap_2.
  - intros (a & Ha & Hk). revert l Ha. induction us as [|v us IH]; intros l Ha; [set_solver|].
    rewrite fmap_cons, NoDup_cons in Hnd. destruct Hnd as [Hv Hnd].
    apply elem_of_cons in Hu as [->|Hu]; rewrite replace_rows_cons.
    + apply replace_rows_keeps; [by apply (replace_row_puts _ a)|done].
    + apply (IH Hnd Hu). apply replace_row_keeps; [done|]. rewrite Hk. intros E.
      destruct Hv. rewrite <-E. by apply list_elem_of_fmap_2.
Qed.

End ReplayFacts.

(** ** [useAccounts] *)

Module UseAccounts.

(** [setAccounts((prev) => [payload.new as Account, ...prev])] *)
Definition prepend (row : Account) (prev : list Account) : list Account := row :: prev.

(** The realtime callback of [useAccounts]. *)
Definition on_change (ev : change Account) (prev : list Account) : list Account :=
  apply_change acc_id prepend ev prev.

(** The [accounts] rows the signed-in user reads and hears about: the
    row-level security of the project (not in the repository) lets a
    user see the rows of its own [user_id]. *)
Definition user_accounts (uid : string) (d : Db) : gmap string Account :=
  filter (λ p : string * Account, acc_user_id p.2 = uid) (db_accounts d).

Definition accounts_keyed (d : Db) : Prop := keyed acc_id (db_accounts d).

Definition not_authenticated_msg : string := "Not authenticated".

(** [.insert({ user_id: user.id, provider, email, status: 'pending' })]:
    the row with the id and [updated_at] the datastore fills in. *)
Definition new_row (uid new_id provider email : string) (t : Z) : Account :=
  {| acc_id := new_id; acc_user_id := uid; acc_provider := provider; acc_email := email;
     acc_status := pending; acc_last_used_at := None; acc_updated_at := t |}.

(** [addAccount(provider, email)]: [user] is what [auth.getUser()]
    answers and [new_id] the id the datastore generates; the insert
    fails on a rejected call or a taken id, and [if (error) throw error]. *)
Definition addAccount (user : option string) (new_id provider email : string) : M Account :=
  match user with
  | None => se_throw not_authenticated_msg
  | Some uid =>
      call CAccountInsert ;;!
      let! t := now in
      let! m := db_read db_accounts in
      if decide (is_Some (m !! new_id)) then se_throw unique_violation_msg
      else
        let row := new_row uid new_id provider email t in
        modify_db (db_set_accounts (<[new_id := row]> m)) ;;!
        se_ret row
  end.

(** [.delete().eq('id', accountId)] under the same row-level security:
    the row goes when it is the user's, and nothing happens otherwise. *)
Definition delete_own (uid accountId : string) (m : gmap string Account) : gmap string Account :=
  match m !! accountId with
  | Some a => if decide (acc_user_id a = uid) then delete accountId m else m
  | None => m
  end.

(** [deleteAccount(accountId)]: [if (error) throw error]. *)
Definition deleteAccount (uid accountId : string) : M unit :=
  call CAccountDelete ;;!
  modify_db (λ d, db_set_accounts (delete_own uid accountId (db_accounts d)) d).

(** The realtime events a committed delete raises on the user's channel. *)
Definition delete_events (uid accountId : string) (d : Db) : list (change Account) :=
  if decide (is_Some (user_accounts uid d !! accountId)) then [ChDelete accountId] else [].

Lemma prepend_perm r l : prepend r l ≡ₚ r :: l.
Proof. done. Qed.

Lemma user_accounts_keyed uid d : accounts_keyed d → keyed acc_id (user_accounts uid d).
Proof. intros Hk i a Ha. apply map_lookup_filter_Some in Ha as [Ha _]. by apply (Hk i). Qed.

Lemma user_accounts_insert uid d row :
  acc_user_id row = uid →
  user_accounts uid (db_set_accounts (<[acc_id row := row]> (db_accounts d)) d) =
    <[acc_id row := row]> (user_accounts uid d).
Proof. intros Hu. by apply map_filter_insert_True. Qed.

Lemma user_accounts_fresh uid d i : db_accounts d !! i = None → user_accounts uid d !! i = None.
Proof. intros Hn. apply map_lookup_filter_None. by left. Qed.

Lemma user_accounts_delete_own uid i d :
  user_accounts uid (db_set_accounts (delete_own uid i (db_accounts d)) d) =
    table_replay acc_id (delete_events uid i d) (user_accounts uid d).
Proof.
  unfold delete_own, delete_events, user_accounts; cbn [db_accounts db_set_accounts].
  destruct (db_accounts d !! i) as [a|] eqn:E; [case_decide as Hu|].
  - rewrite decide_True by (eexists; by apply map_lookup_filter_Some_2). apply map_filter_delete.
  - rewrite decide_False; [done|]. apply eq_None_not_Some, map_lookup_filter_None.
    right. intros x Hx. by simplify_eq/=.
  - rewrite decide_False; [done|]. apply eq_None_not_Some, map_lookup_filter_None. by left.
Qed.

Lemma delete_events_valid uid i d : changes_valid acc_id (user_accounts uid d) (delete_events uid i d).
Proof. unfold delete_events. case_decide; simpl; tauto. Qed.

Lemma addAccount_run cs uid new_id provider email w :
  calls_ok cs w → CAccountInsert ∈ cs → db_accounts (w_db w) !! new_id = None →
  let row := new_row uid new_id provider email (env_clock (w_env w) (w_clock_reads w)) in
  addAccount (Some uid) new_id provider email w =
    (set_db (db_set_accounts (<[new_id := row]> (db_accounts (w_db w))) (w_db w)) (tick (bump CAccountInsert w)),
     inr row).
Proof.
  intros Hok Hc Hn row. unfold addAccount.
  rewrite (se_bind_inr _ _ _ _ _ (call_ok_cs cs _ w Hok Hc)). cbn. by rewrite Hn.
Qed.

Lemma addAccount_taken cs uid new_id provider email w :
  calls_ok cs w → CAccountInsert ∈ cs → is_Some (db_accounts (w_db w) !! new_id) →
  addAccount (Some uid) new_id provider email w = (tick (bump CAccountInsert w), inl unique_violation_msg).
Proof.
  intros Hok Hc [a Ha]. unfold addAccount.
  rewrite (se_bind_inr _ _ _ _ _ (call_ok_cs cs _ w Hok Hc)). cbn. by rewrite Ha.
Qed.

Lemma deleteAccount_run cs uid i w :
  calls_ok cs w → CAccountDelete ∈ cs →
  deleteAccount uid i w =
    (set_db (db_set_accounts (delete_own uid i (db_accounts (w_db w))) (w_db w)) (bump CAccountDelete w), inr tt).
Proof. intros Hok Hc. unfold deleteAccount. by rewrite (se_bind_inr _ _ _ _ _ (call_ok_cs cs _ w Hok Hc)). Qed.

(** C15: [useAccounts] ends in step with the user's [accounts] rows: when
    the answer of the initial query is handled after exactly the
    realtime events the query already saw, the list holds every row of
    the table after all the events, once and in some order, and the
    hook has stopped loading without an error. *)
Theorem useAccounts_converges m0 evs k snap :
  changes_valid acc_id m0 evs →
  mirrors acc_id snap (table_replay acc_id (take k evs) m0) →
  let h := run_hook acc_id prepend (delivery evs k snap) hook_init in
  mirrors acc_id (h_rows h) (table_replay acc_id evs m0) ∧ h_loading h = false ∧ h_error h = None.
Proof. apply hook_converges, prepend_perm. Qed.

Definition acc1 : Account :=
  {| acc_id := "a1"; acc_user_id := "u"; acc_provider := "claude"; acc_email := "x@y";
     acc_status := active; acc_last_used_at := None; acc_updated_at := 0 |}.

Definition acc2 : Account :=
  {| acc_id := "a2"; acc_user_id := "u"; acc_provider := "chatgpt"; acc_email := "z@y";
     acc_status := pending; acc_last_used_at := None; acc_updated_at := 1 |}.

Lemma useAccounts_converges_witness :
  let evs := [ChInsert acc1; ChInsert acc2; ChDelete "a1"] in
  changes_valid acc_id ∅ evs ∧ mirrors acc_id [acc1] (table_replay acc_id (take 1 evs) ∅) ∧
  let h := run_hook acc_id prepend (delivery evs 1 [acc1]) hook_init in
  mirrors acc_id (h_rows h) (table_replay acc_id evs ∅) ∧ h_loading h = false ∧ h_error h = None.
Proof.
  assert (Hv : changes_valid acc_id ∅ [ChInsert acc1; ChInsert acc2; ChDelete "a1"]).
  { cbn. split_and!; [done|by rewrite lookup_insert_ne|by rewrite lookup_insert_ne, lookup_insert_eq|done]. }
  assert (Hs : mirrors acc_id [acc1] (table_replay acc_id (take 1 [ChInsert acc1; ChInsert acc2; ChDelete "a1"]) ∅)).
  { apply (mirrors_step acc_id prepend [] ∅ (ChInsert acc1)); [done|apply mirrors_empty|done]. }
  split_and!; [exact Hv|exact Hs|apply (useAccounts_converges ∅ _ 1 [acc1] Hv Hs)..].
Defined.

(** C29: Out of order, the list drifts from the table: when the answer
    of a query that already saw an insert is handled before the insert's
    event, the row is listed twice; when the event is handled before
    the answer of a query that did not see it, the answer overwrites it
    and the row is missing.  Either way the list no longer mirrors the
    table. *)
Theorem useAccounts_out_of_order m0 r snap0 snap1 :
  m0 !! acc_id r = None →
  mirrors acc_id snap0 m0 → mirrors acc_id snap1 (<[acc_id r := r]> m0) →
  let m1 := table_replay acc_id [ChInsert r] m0 in
  let late := run_hook acc_id prepend [MAnswer (inr (Some snap1)); MEvent (ChInsert r)] hook_init in
  let early := run_hook acc_id prepend [MEvent (ChInsert r); MAnswer (inr (Some snap0))] hook_init in
  h_rows late = r :: snap1 ∧ ¬ mirrors acc_id (h_rows late) m1 ∧
  h_rows early = snap0 ∧ ¬ mirrors acc_id (h_rows early) m1.
Proof.
  intros Hn H0 H1 m1 late early. split_and!; [done| |done|].
  - intros Hd. pose proof (mirrors_length acc_id _ _ _ Hd H1). simpl in *. lia.
  - intros Hd. pose proof (mirrors_functional acc_id _ _ _ H0 Hd) as E. subst m1.
    cbn in E. rewrite E, lookup_insert_eq in Hn. discriminate.
Qed.

Lemma useAccounts_out_of_order_witness :
  (∅ : gmap string Account) !! acc_id acc1 = None ∧ mirrors acc_id [] ∅ ∧
  mirrors acc_id [acc1] (<[acc_id acc1 := acc1]> ∅) ∧
  let m1 := table_replay acc_id [ChInsert acc1] ∅ in
  let late := run_hook acc_id prepend [MAnswer (inr (Some [acc1])); MEvent (ChInsert acc1)] hook_init in
  let early := run_hook acc_id prepend [MEvent (ChInsert acc1); MAnswer (inr (Some []))] hook_init in
  h_rows late = acc1 :: [acc1] ∧ ¬ mirrors acc_id (h_rows late) m1 ∧
  h_rows early = [] ∧ ¬ mirrors acc_id (h_rows early) m1.
Proof.
  assert (H1 : mirrors acc_id [acc1] (<[acc_id acc1 := acc1]> ∅)).
  { apply (mirrors_step acc_id prepend [] ∅ (ChInsert acc1)); [done|apply mirrors_empty|done]. }
  split_and!; [done|apply mirrors_empty|exact H1|
    apply (useAccounts_out_of_order ∅ acc1 [] [acc1] (lookup_empty _) (mirrors_empty acc_id) H1)..].
Defined.

(** [addAccount] for a signed-in user inserts a [pending] row of that
    user under the new id, and the realtime [INSERT] it raises keeps a
    list that mirrored the user's accounts in step with them. *)
Theorem addAccount_list_in_step cs uid new_id provider email w l :
  calls_ok cs w → CAccountInsert ∈ cs → db_accounts (w_db w) !! new_id = None →
  mirrors acc_id l (user_accounts uid (w_db w)) →
  ∃ w' row, addAccount (Some uid) new_id provider email w = (w', inr row) ∧
    acc_id row = new_id ∧ acc_user_id row = uid ∧ acc_status row = pending ∧
    mirrors acc_id (on_change (ChInsert row) l) (user_accounts uid (w_db w')).
Proof.
  intros Hok Hc Hn Hm. eexists _, _. split; [apply (addAccount_run cs); done|]. split_and!; [done..|].
  cbn [w_db set_db]. rewrite (user_accounts_insert uid _ (new_row _ new_id _ _ _)) by done.
  apply (mirrors_step acc_id prepend l _ (ChInsert _)); [done|done|]. by apply user_accounts_fresh.
Qed.

Lemma addAccount_list_in_step_witness :
  let w := world_start (env_quiet (λ _, 5)) db_empty in
  calls_ok [CAccountInsert] w ∧ CAccountInsert ∈ [CAccountInsert] ∧ db_accounts (w_db w) !! "a1" = None ∧
  mirrors acc_id [] (user_accounts "u" (w_db w)) ∧
  ∃ w' row, addAccount (Some "u") "a1" "claude" "x@y" w = (w', inr row) ∧
    acc_id row = "a1" ∧ acc_user_id row = "u" ∧ acc_status row = pending ∧
    mirrors acc_id (on_change (ChInsert row) []) (user_accounts "u" (w_db w')).
Proof.
  assert (Hok : calls_ok [CAccountInsert] (world_start (env_quiet (λ _, 5)) db_empty)) by done.
  assert (He : mirrors acc_id [] (user_accounts "u" (w_db (world_start (env_quiet (λ _, 5)) db_empty)))).
  { unfold user_accounts. cbn. rewrite map_filter_empty. apply mirrors_empty. }
  split_and!; [exact Hok|by left|done|exact He|].
  exact (addAccount_list_in_step _ "u" "a1" "claude" "x@y" _ [] Hok ltac:(by left) eq_refl He).
Defined.

(** [deleteAccount] removes the user's row of that id and no other
    row the user sees, and the realtime events the delete raises keep a
    list that mirrored the user's accounts in step with them. *)
Theorem deleteAccount_list_in_step cs uid i w l :
  calls_ok cs w → CAccountDelete ∈ cs →
  mirrors acc_id l (user_accounts uid (w_db w)) →
  ∃ w', deleteAccount uid i w = (w', inr tt) ∧ user_accounts uid (w_db w') !! i = None ∧
    (∀ j, j ≠ i → user_accounts uid (w_db w') !! j = user_accounts uid (w_db w) !! j) ∧
    mirrors acc_id (foldl (λ l ev, on_change ev l) l (delete_events uid i (w_db w))) (user_accounts uid (w_db w')).
Proof.
  intros Hok Hc Hm. eexists. split; [by apply (deleteAccount_run cs)|]. cbn [w_db set_db].
  rewrite user_accounts_delete_own. unfold delete_events. case_decide as Hs; cbn [table_replay foldl table_change].
  - split_and!; [apply lookup_delete_eq|intros j Hj; by apply lookup_delete_ne|].
    apply (mirrors_replay acc_id prepend _ _ [ChDelete i]); [done|done|by split].
  - split_and!; [by apply eq_None_not_Some|done|done].
Qed.

Lemma deleteAccount_list_in_step_witness :
  let w := world_start (env_quiet (λ _, 5)) db_empty in
  calls_ok [CAccountDelete] w ∧ CAccountDelete ∈ [CAccountDelete] ∧
  mirrors acc_id [] (user_accounts "u" (w_db w)) ∧
  ∃ w', deleteAccount "u" "a1" w = (w', inr tt) ∧ user_accounts "u" (w_db w') !! "a1" = None ∧
    (∀ j, j ≠ "a1" → user_accounts "u" (w_db w') !! j = user_accounts "u" (w_db w) !! j) ∧
    mirrors acc_id (foldl (λ l ev, on_change ev l) [] (delete_events "u" "a1" (w_db w))) (user_accounts "u" (w_db w')).
Proof.
  assert (Hok : calls_ok [CAccountDelete] (world_start (env_quiet (λ _, 5)) db_empty)) by done.
  assert (He : mirrors acc_id [] (user_accounts "u" (w_db (world_start (env_quiet (λ _, 5)) db_empty)))).
  { unfold user_accounts. cbn. rewrite map_filter_empty. apply mirrors_empty. }
  split_and!; [exact Hok|by left|exact He|].
  exact (deleteAccount_list_in_step _ "u" "a1" _ [] Hok ltac:(by left) He).
Defined.

End UseAccounts.

(** ** [useQuotas] *)

Module UseQuotas.

(** [accounts(provider, email, status)]: the account a row embeds. *)
Record EmbeddedAccount := { ea_provider : string; ea_email : string; ea_status : account_status }.

(** A row of [quotas] state: the columns of the table and the embedded
    account, which only the initial query fills in. *)
Record QuotaRow := { qr_quota : Quota; qr_accounts : option EmbeddedAccount }.

Definition qr_key (r : QuotaRow) : string := q_id (qr_quota r).

(** [setQuotas((prev) => [...prev, payload.new as Quota])] *)
Definition append (row : QuotaRow) (prev : list QuotaRow) : list QuotaRow := prev ++ [row].

(** [payload.new as Quota]: the changed row of [quotas], with no join. *)
Definition payload (q : Quota) : QuotaRow := {| qr_quota := q; qr_accounts := None |}.

(** The realtime callback of [useQuotas]. *)
Definition on_change (ev : change QuotaRow) (prev : list QuotaRow) : list QuotaRow :=
  apply_change qr_key append ev prev.

Definition embed_account (a : Account) : EmbeddedAccount :=
  {| ea_provider := acc_provider a; ea_email := acc_email a; ea_status := acc_status a |}.

(** A row of [.select('*, accounts(provider, email, status)')]. *)
Definition embed (d : Db) (q : Quota) : QuotaRow :=
  {| qr_quota := q; qr_accounts := embed_account <$> db_accounts d !! q_account_id q |}.

(** [.order('provider')], with the strings compared code unit by code
    unit (the provider names are lower-case ASCII). *)
Definition provider_le (r1 r2 : QuotaRow) : Prop :=
  String.leb (q_provider (qr_quota r1)) (q_provider (qr_quota r2)) = true.

#[export] Instance provider_le_dec : RelDecision provider_le.
Proof. intros r1 r2. unfold provider_le. apply _. Defined.

(** The answer of the initial query. *)
Definition fetch_rows (d : Db) : list QuotaRow := merge_sort provider_le (embed d <$> db_quotas d).

(** The realtime [UPDATE] events of the rows [update_quota_usage]
    changes. *)
Definition usage_events (accountId provider : string) (tokens : Z) (l : list Quota) : list (change QuotaRow) :=
  (λ q, ChUpdate (payload (add_usage tokens q))) <$>
    filter (λ q, q_account_id q = accountId ∧ q_provider q = provider) l.

Lemma append_perm r l : append r l ≡ₚ r :: l.
Proof. unfold append. by rewrite Permutation_app_comm. Qed.

Lemma usage_events_replace accountId provider tokens l rows :
  let us := payload <$> (add_usage tokens <$> filter (λ q, q_account_id q = accountId ∧ q_provider q = provider) l) in
  foldl (λ l ev, on_change ev l) rows (usage_events accountId provider tokens l) = replace_rows qr_key us rows ∧
  qr_key <$> us = q_id <$> filter (λ q, q_account_id q = accountId ∧ q_provider q = provider) l.
Proof.
  split.
  - unfold usage_events, on_change. rewrite <-(replace_rows_events qr_key append). f_equal. by rewrite <-!list_fmap_compose.
  - rewrite <-!list_fmap_compose. by apply list_fmap_ext.
Qed.

Lemma embed_in_fetch d q : q ∈ db_quotas d → embed d q ∈ fetch_rows d.
Proof. intros Hq. unfold fetch_rows. rewrite merge_sort_Permutation. by apply list_elem_of_fmap_2. Qed.

End UseQuotas.

(** ** [QuotaDashboard] and [AccountList] *)

Module Dashboard.
Import UseQuotas.

(** The JS numbers [used / limit] can evaluate to, for integer operands:
    a rational [n / d] with [d > 0], an infinity, or [NaN] ([0 / 0]). *)
Inductive jsnum := JFin (n d : Z) | JPosInf | JNegInf | JNaN.

(** [a / b] *)
Definition js_div (a b : Z) : jsnum :=
  if 0 <? b then JFin a b
  else if b <? 0 then JFin (- a) (- b)
  else if 0 <? a then JPosInf
  else if a <? 0 then JNegInf
  else JNaN.

(** [x * k] for a positive integer [k]. *)
Definition js_scale (x : jsnum) (k : Z) : jsnum :=
  match x with JFin n d => JFin (n * k) d | y => y end.

(** [Math.min(x, k)]: [NaN] if either is [NaN]. *)
Definition js_min (x : jsnum) (k : Z) : jsnum :=
  match x with
  | JFin n d => if n <=? k * d then JFin n d else JFin k 1
  | JPosInf => JFin k 1
  | y => y
  end.

(** [x >= k]: false on [NaN]. *)
Definition js_ge (x : jsnum) (k : Z) : bool :=
  match x with JFin n d => k * d <=? n | JPosInf => true | _ => false end.

(** [Math.min((used / limit) * 100, 100)] *)
Definition percentage (used limit : Z) : jsnum := js_min (js_scale (js_div used limit) 100) 100.

Inductive color := bg_red_500 | bg_yellow_500 | bg_green_500.

(** [getStatusColor(percentage)] *)
Definition getStatusColor (p : jsnum) : color :=
  if js_ge p 90 then bg_red_500 else if js_ge p 70 then bg_yellow_500 else bg_green_500.

Definition daily_percentage (q : Quota) : jsnum := percentage (q_daily_used q) (q_daily_limit q).

(** [quota.monthly_limit ? Math.min(.. / (quota.monthly_limit || 1) ..) : null] *)
Definition monthly_percentage (q : Quota) : option jsnum :=
  percentage (q_monthly_used q) <$> Quotas.monthly_limit_of q.

Inductive badge := badge_success | badge_error | badge_warning | badge_info.

(** The badge of a quota card: [quota.accounts?.status]. *)
Definition quota_badge (r : QuotaRow) : badge :=
  match ea_status <$> qr_accounts r with
  | Some active => badge_success
  | Some expired => badge_error
  | _ => badge_warning
  end.

(** What a quota card shows. *)
Record Card := {
  card_provider : string;
  card_badge : badge;
  card_status : option account_status;
  card_email : option string;
  card_daily : jsnum;
  card_daily_color : color;
  card_monthly : option (jsnum * color)
}.

Definition quota_card (r : QuotaRow) : Card :=
  let q := qr_quota r in
  {| card_provider := q_provider q; card_badge := quota_badge r;
     card_status := ea_status <$> qr_accounts r; card_email := ea_email <$> qr_accounts r;
     card_daily := daily_percentage q; card_daily_color := getStatusColor (daily_percentage q);
     card_monthly := (λ p, (p, getStatusColor p)) <$> monthly_percentage q |}.

Inductive view (A : Type) := VLoading | VError (msg : string) | VEmpty | VRows (rows : list A).
Arguments VLoading {A}. Arguments VError {A}. Arguments VEmpty {A}. Arguments VRows {A}.

(** The early returns of a component over a hook: loading, error, no
    rows, then one entry per row. *)
Definition hook_view {A B} (f : A → B) (h : hook A) : view B :=
  if h_loading h then VLoading
  else match h_error h with
       | Some e => VError e
       | None => match h_rows h with [] => VEmpty | rows => VRows (f <$> rows) end
       end.

Definition QuotaDashboard (h : hook QuotaRow) : view Card := hook_view quota_card h.

Lemma js_ge_percentage u l k : 0 ≤ k ≤ 100 → js_ge (percentage u l) k = ratio_ge u l k 100.
Proof.
  intros Hk. unfold percentage, js_div, ratio_ge.
  repeat (match goal with
    | |- context [?a <? ?b] => destruct (Z.ltb_spec a b)
    | |- context [?a <=? ?b] => destruct (Z.leb_spec a b)
    end; cbn [js_scale js_min js_ge]);
  (reflexivity || (exfalso; nia)).
Qed.

Lemma getStatusColor_red p : getStatusColor p = bg_red_500 ↔ js_ge p 90 = true.
Proof. unfold getStatusColor. destruct (js_ge p 90), (js_ge p 70); split; intros; (done || discriminate). Qed.

(** C20: The colour of the daily bar follows the datastore's state of the
    row where the limit is positive: red exactly when the quotas
    endpoint reports the row [limited] or [quota_exceeded].  At a limit
    of 0 with nothing used they part: [0 / 0] is [NaN], the bar is
    green with no width, while the row is exceeded. *)
Theorem daily_color_matches_state q :
  (0 < q_daily_limit q →
    (getStatusColor (daily_percentage q) = bg_red_500 ↔ Quotas.row_state q ≠ Quotas.qs_available)) ∧
  (q_daily_limit q = 0 → q_daily_used q = 0 →
    daily_percentage q = JNaN ∧ getStatusColor (daily_percentage q) = bg_green_500 ∧
    Quotas.row_state q = Quotas.qs_exceeded).
Proof.
  unfold daily_percentage, Quotas.row_state. split.
  - intros Hl. rewrite getStatusColor_red, js_ge_percentage by lia. unfold ratio_ge.
    rewrite (proj2 (Z.ltb_lt _ _) Hl).
    destruct (Z.leb_spec (q_daily_limit q) (q_daily_used q)), (Z.leb_spec (9 * q_daily_limit q) (q_daily_used q * 10)),
      (Z.leb_spec (90 * q_daily_limit q) (q_daily_used q * 100)); split; (done || lia).
  - intros -> ->. done.
Qed.

Definition quota_at (used limit : Z) : Quota :=
  {| q_id := "q1"; q_account_id := "a1"; q_provider := "claude"; q_daily_limit := limit; q_daily_used := used;
     q_monthly_limit := None; q_monthly_used := used; q_reset_daily_at := 0; q_reset_monthly_at := None;
     q_updated_at := 0 |}.

Lemma daily_color_matches_state_witness :
  (getStatusColor (daily_percentage (quota_at 95 100)) = bg_red_500 ↔
     Quotas.row_state (quota_at 95 100) ≠ Quotas.qs_available) ∧
  daily_percentage (quota_at 0 0) = JNaN ∧ getStatusColor (daily_percentage (quota_at 0 0)) = bg_green_500 ∧
  Quotas.row_state (quota_at 0 0) = Quotas.qs_exceeded.
Proof.
  split; [apply (proj1 (daily_color_matches_state (quota_at 95 100))); reflexivity|].
  apply (proj2 (daily_color_matches_state (quota_at 0 0))); reflexivity.
Defined.

(** C16: A realtime [UPDATE] of a quota row drops the account the
    initial query embedded: after the [update_quota_usage] of a job, the
    card of every changed row is the bare new row, with a
    [badge-warning] and no email, whatever the account's status. *)
Theorem usage_update_drops_account d accountId provider tokens q :
  NoDup (q_id <$> db_quotas d) → q ∈ db_quotas d → q_account_id q = accountId → q_provider q = provider →
  let rows := foldl (λ l ev, on_change ev l) (fetch_rows d) (usage_events accountId provider tokens (db_quotas d)) in
  payload (add_usage tokens q) ∈ rows ∧
  ∀ r, r ∈ rows → qr_key r = q_id q →
    r = payload (add_usage tokens q) ∧ card_badge (quota_card r) = badge_warning ∧ card_email (quota_card r) = None.
Proof.
  intros Hnd Hq Ha Hp rows. subst rows.
  destruct (usage_events_replace accountId provider tokens (db_quotas d) (fetch_rows d)) as [-> Hk].
  set (F := filter _ (db_quotas d)) in Hk |- *.
  assert (Hu : payload (add_usage tokens q) ∈ payload <$> (add_usage tokens <$> F)).
  { apply list_elem_of_fmap_2, list_elem_of_fmap_2, list_elem_of_filter. auto. }
  assert (Hn : NoDup (qr_key <$> (payload <$> (add_usage tokens <$> F)))).
  { rewrite Hk. eapply sublist_NoDup; [exact Hnd|]. f_equiv. apply sublist_filter. }
  destruct (replace_rows_spec qr_key _ (fetch_rows d) _ Hn Hu) as [Huniq Hin]. split.
  - apply Hin. exists (embed d q). split; [by apply embed_in_fetch|done].
  - intros r Hr Hkr. rewrite (Huniq r Hr Hkr). done.
Qed.

Definition db_one_quota : Db :=
  db_set_quotas [quota_at 10 100] (db_set_accounts {[ "a1" := UseAccounts.acc1 ]} db_empty).

Lemma usage_update_drops_account_witness :
  card_badge (quota_card (embed db_one_quota (quota_at 10 100))) = badge_success ∧
  NoDup (q_id <$> db_quotas db_one_quota) ∧ quota_at 10 100 ∈ db_quotas db_one_quota ∧
  let rows := foldl (λ l ev, on_change ev l) (fetch_rows db_one_quota)
                (usage_events "a1" "claude" 5 (db_quotas db_one_quota)) in
  payload (add_usage 5 (quota_at 10 100)) ∈ rows ∧
  ∀ r, r ∈ rows → qr_key r = q_id (quota_at 10 100) →
    r = payload (add_usage 5 (quota_at 10 100)) ∧ card_badge (quota_card r) = badge_warning ∧
    card_email (quota_card r) = None.
Proof.
  assert (Hnd : NoDup (q_id <$> db_quotas db_one_quota)) by apply NoDup_singleton.
  assert (Hq : quota_at 10 100 ∈ db_quotas db_one_quota) by left.
  split_and!; [reflexivity|exact Hnd|exact Hq|].
  exact (usage_update_drops_account db_one_quota "a1" "claude" 5 _ Hnd Hq eq_refl eq_refl).
Defined.

End Dashboard.
