(* ===== verification/Components.v ===== *)
(** * Components: the dashboard's React components ([src/webapp/src])

    [AccountList] renders the rows of [useAccounts] and deletes an
    account after a confirmation; [AddAccountModal] inserts one;
    [App] holds the session, the sign-in form and which view shows.
    A component's local state is a record, an event handler a function
    from that record (and, where it awaits the datastore, the world)
    to the next record; the order in which the user's clicks and the
    answers of the awaited calls arrive is an explicit sequence of
    steps. *)

From S2P Require Import Prelude Model Api Webapp.

Local Open Scope Z_scope.
Local Open Scope orch_scope.

Import Dashboard.

(** ** [AccountList] *)

Module AccountList.

(** The [status] column as the code reads it. *)
Definition status_str (s : account_status) : string :=
  match s with
  | pending => "pending" | active => "active" | expired => "expired"
  | quota_exceeded => "quota_exceeded" | acc_error => "error"
  end.

(** The badge of a row's status. *)
Definition account_badge (s : account_status) : badge :=
  match s with
  | active => badge_success
  | expired => badge_error
  | quota_exceeded => badge_warning
  | _ => badge_info
  end.

(** What a row of the table shows: provider, email, the status badge and
    its label [account.status.replace('_', ' ')], [last_used_at] or
    [Never] ([None]), and the label and state of the delete button. *)
Record RowView := {
  rv_provider : string;
  rv_email : string;
  rv_badge : badge;
  rv_label : string;
  rv_last_used : option Z;
  rv_button : string;
  rv_disabled : bool
}.

Definition deleting_label : string := "Deleting...".
Definition delete_label : string := "Delete".

Definition row_view (deleting : option string) (a : Account) : RowView :=
  let busy := bool_decide (deleting = Some (acc_id a)) in
  {| rv_provider := acc_provider a; rv_email := acc_email a;
     rv_badge := account_badge (acc_status a);
     rv_label := js_replace_first (status_str (acc_status a)) "_" " ";
     rv_last_used := acc_last_used_at a;
     rv_button := if busy then deleting_label else delete_label;
     rv_disabled := busy |}.

(** [AccountList()]: the early returns, then one row per account. *)
Definition AccountList (deleting : option string) (h : hook Account) : view RowView :=
  hook_view (row_view deleting) h.

(** [useState<string | null>(null)] and the messages of [alert]. *)
Record ListState := { ls_deleting : option string; ls_alerts : list string }.

Definition failed_delete_msg (m : string) : string := "Failed to delete account: " +:+ m.

(** [handleDelete(accountId)] in one go: [confirm] answered [confirmed];
    [setDeleting(accountId)], [await deleteAccount(accountId)],
    [alert] on an error, and [setDeleting(null)] in [finally]. *)
Definition handleDelete (confirmed : bool) (uid accountId : string) (st : ListState) : M ListState :=
  if negb confirmed then se_ret st
  else
    let! alerts := se_catch (UseAccounts.deleteAccount uid accountId ;;! se_ret (ls_alerts st))
                            (λ m, se_ret (ls_alerts st ++ [failed_delete_msg m])) in
    se_ret {| ls_deleting := None; ls_alerts := alerts |}.

(** The same handler split at its [await], so that two deletes can
    interleave: a click starts a delete ([setDeleting(accountId)]) whose
    request is in flight; its answer ends it ([setDeleting(null)]).
    A click needs the row's button enabled. *)
Record UiState := { ui_deleting : option string; ui_inflight : list string }.

Inductive ui_step : UiState → UiState → Prop :=
  | ui_click st id :
      ui_deleting st ≠ Some id →
      ui_step st {| ui_deleting := Some id; ui_inflight := id :: ui_inflight st |}
  | ui_answer st l1 id l2 :
      ui_inflight st = l1 ++ id :: l2 →
      ui_step st {| ui_deleting := None; ui_inflight := l1 ++ l2 |}.

Definition ui_init : UiState := {| ui_deleting := None; ui_inflight := [] |}.

Lemma deleteAccount_fault uid i w m :
  env_fault (w_env w) CAccountDelete (w_calls w CAccountDelete) = Some m →
  UseAccounts.deleteAccount uid i w = (bump CAccountDelete w, inl m).
Proof. intros Hf. unfold UseAccounts.deleteAccount, se_bind, call. by rewrite Hf. Qed.

Lemma deleteAccount_ok uid i w :
  no_fault w CAccountDelete →
  UseAccounts.deleteAccount uid i w =
    (set_db (db_set_accounts (UseAccounts.delete_own uid i (db_accounts (w_db w))) (w_db w)) (bump CAccountDelete w), inr tt).
Proof. intros Hf. unfold UseAccounts.deleteAccount. by rewrite (se_bind_inr _ _ _ _ _ (call_ok w _ Hf)). Qed.

(** C34: [handleDelete] on every branch: a declined confirmation makes no
    call; a delete the datastore accepts removes the user's row and
    adds no alert; a rejected one leaves the datastore as it was and
    alerts [Failed to delete account: ] with the message.  The button is
    enabled again ([deleting] is [null]) in both. *)
Theorem handleDelete_spec uid i st w :
  handleDelete false uid i st w = (w, inr st) ∧
  (no_fault w CAccountDelete →
     handleDelete true uid i st w =
       (set_db (db_set_accounts (UseAccounts.delete_own uid i (db_accounts (w_db w))) (w_db w)) (bump CAccountDelete w),
        inr {| ls_deleting := None; ls_alerts := ls_alerts st |})) ∧
  (∀ m, env_fault (w_env w) CAccountDelete (w_calls w CAccountDelete) = Some m →
     handleDelete true uid i st w =
       (bump CAccountDelete w, inr {| ls_deleting := None; ls_alerts := ls_alerts st ++ [failed_delete_msg m] |})).
Proof.
  split_and!; [done| |].
  - intros Hf. cbn [handleDelete negb].
    by rewrite (se_bind_inr _ _ _ _ _ (se_catch_inr _ _ _ _ _ (se_bind_inr _ _ _ _ _ (deleteAccount_ok uid i w Hf)))).
  - intros m Hf. cbn [handleDelete negb].
    by rewrite (se_bind_inr _ _ _ _ _ (se_catch_inl _ _ _ _ _ (se_bind_inl _ _ _ _ _ (deleteAccount_fault uid i w m Hf)))).
Qed.

(** A world whose first delete is rejected. *)
Definition env_delete_denied : Env :=
  {| env_fault := λ c n, if decide (c = CAccountDelete) then Some "permission denied" else None;
     env_clock := λ _, 0; env_session_unique := false; env_screenshot_on_error := true |}.

Lemma handleDelete_spec_witness :
  let st := {| ls_deleting := Some "a1"; ls_alerts := [] |} in
  let w := world_start env_delete_denied db_empty in
  handleDelete false "u" "a1" st w = (w, inr st) ∧
  handleDelete true "u" "a1" st w =
    (bump CAccountDelete w, inr {| ls_deleting := None; ls_alerts := [failed_delete_msg "permission denied"] |}).
Proof.
  split; [apply (handleDelete_spec "u" "a1" _ (world_start env_delete_denied db_empty))|].
  apply (proj2 (proj2 (handleDelete_spec "u" "a1" {| ls_deleting := Some "a1"; ls_alerts := [] |}
                                         (world_start env_delete_denied db_empty)))).
  reflexivity.
Defined.

(** C19: The button guard is a single slot: while one delete is in flight,
    a delete started on a second account and answered first clears the
    slot, the second account's button is enabled again while its own
    delete is still running, and a click sends a second delete of it. *)
Theorem ui_double_delete a b :
  a ≠ b →
  ∃ st, rtc ui_step ui_init st ∧ ui_deleting st = Some b ∧ ui_inflight st = [b; b].
Proof.
  intros Hab. exists {| ui_deleting := Some b; ui_inflight := [b; b] |}. split; [|done].
  eapply rtc_l; [apply (ui_click ui_init a); cbn; congruence|]. cbn.
  eapply rtc_l; [apply (ui_click _ b); cbn; congruence|]. cbn.
  eapply rtc_l; [apply (ui_answer _ [b] a []); done|]. cbn.
  eapply rtc_l; [apply (ui_click _ b); cbn; congruence|]. apply rtc_refl.
Qed.

Lemma ui_double_delete_witness :
  "a1" ≠ "a2" ∧ ∃ st, rtc ui_step ui_init st ∧ ui_deleting st = Some "a2" ∧ ui_inflight st = ["a2"; "a2"].
Proof. split; [done|]. apply (ui_double_delete "a1" "a2"). done. Defined.

End AccountList.

(** ** [AddAccountModal] *)

Module AddAccountModal.

(** The form's state, and [isOpen] (the [showAddAccount] of [App] that
    [onClose] clears). *)
Record ModalState := {
  md_provider : string;
  md_email : string;
  md_loading : bool;
  md_error : option string;
  md_open : bool
}.

Definition set_loading_error (loading : bool) (error : option string) (st : ModalState) : ModalState :=
  {| md_provider := md_provider st; md_email := md_email st; md_loading := loading;
     md_error := error; md_open := md_open st |}.

(** [setEmail('')] and [onClose()] *)
Definition cleared (st : ModalState) : ModalState :=
  {| md_provider := md_provider st; md_email := EmptyString; md_loading := md_loading st;
     md_error := md_error st; md_open := false |}.

(** [handleSubmit]: [setError(null)], [setLoading(true)],
    [await addAccount(provider, email)], then [setEmail('')] and
    [onClose()]; [catch]: [setError(err.message)]; [finally]:
    [setLoading(false)]. *)
Definition handleSubmit (user : option string) (new_id : string) (st : ModalState) : M ModalState :=
  let st0 := set_loading_error true None st in
  let! st1 := se_catch (UseAccounts.addAccount user new_id (md_provider st) (md_email st) ;;!
                        se_ret (cleared st0))
                       (λ m, se_ret (set_loading_error true (Some m) st0)) in
  se_ret (set_loading_error false (md_error st1) st1).

(** The four [<option>]s of the provider [<select>]: value and label. *)
Definition provider_options : list (string * string) :=
  [("chatgpt", "ChatGPT"); ("claude", "Claude"); ("gemini", "Gemini"); ("deepseek", "DeepSeek")].

(** The form as rendered: [null] when [isOpen] is false; the error box
    only for a truthy [error] (a non-empty message); the submit button
    disabled and labelled [Adding...] while [loading]. *)
Record ModalView := {
  mv_provider : string;
  mv_options : list (string * string);
  mv_email : string;
  mv_error : option string;
  mv_submit_disabled : bool;
  mv_submit_label : string
}.

Definition render (st : ModalState) : option ModalView :=
  if md_open st then
    Some {| mv_provider := md_provider st; mv_options := provider_options; mv_email := md_email st;
            mv_error := match md_error st with
                        | Some m => if String.eqb m EmptyString then None else Some m
                        | None => None
                        end;
            mv_submit_disabled := md_loading st;
            mv_submit_label := if md_loading st then "Adding..." else "Add Account" |}
  else None.

Definition with_provider (p : string) (st : ModalState) : ModalState :=
  {| md_provider := p; md_email := md_email st; md_loading := md_loading st;
     md_error := md_error st; md_open := md_open st |}.

Definition with_email (e : string) (st : ModalState) : ModalState :=
  {| md_provider := md_provider st; md_email := e; md_loading := md_loading st;
     md_error := md_error st; md_open := md_open st |}.

Definition with_open (b : bool) (st : ModalState) : ModalState :=
  {| md_provider := md_provider st; md_email := md_email st; md_loading := md_loading st;
     md_error := md_error st; md_open := b |}.

(** What reaches the form: the choice of the [i]-th option, a value
    typed in the email input, [onClose] (the [✕] and [Cancel] buttons),
    [App] opening it again, and a submission of the form, with the id
    the datastore will generate. *)
Inductive modal_event :=
  | ESelect (i : nat) | EInput (v : string) | EClose | EOpen | ESubmit (new_id : string).

(** The browser's constraint validation of the [required] inputs: the
    email is non-empty and [email_valid] (the [type="email"] check)
    accepts it; the [<select>] always holds an option's value. *)
Definition form_valid (email_valid : string → bool) (st : ModalState) : bool :=
  negb (String.eqb (md_email st) EmptyString) && email_valid (md_email st).

(** One event: the controls exist only while the form is rendered, a
    disabled submit button does not submit, and an invalid form is not
    submitted. *)
Definition modal_step (email_valid : string → bool) (user : option string) (e : modal_event)
    (st : ModalState) : M ModalState :=
  match e with
  | ESelect i =>
      se_ret (if md_open st then
                match provider_options !! i with Some (v, _) => with_provider v st | None => st end
              else st)
  | EInput v => se_ret (if md_open st then with_email v st else st)
  | EClose => se_ret (with_open false st)
  | EOpen => se_ret (with_open true st)
  | ESubmit id =>
      if md_open st && negb (md_loading st) && form_valid email_valid st then handleSubmit user id st
      else se_ret st
  end.

Fixpoint modal_run (email_valid : string → bool) (user : option string) (es : list modal_event)
    (st : ModalState) : M ModalState :=
  match es with
  | [] => se_ret st
  | e :: es' => let! st' := modal_step email_valid user e st in modal_run email_valid user es' st'
  end.

(** The rows an account table may gain through the form: one of the
    four providers and an email the browser accepted. *)
Definition row_from_form (email_valid : string → bool) (a : Account) : Prop :=
  acc_provider a ∈ map fst provider_options ∧ acc_email a ≠ EmptyString ∧ email_valid (acc_email a) = true.

Definition gains_form_rows (email_valid : string → bool) (w w' : World) : Prop :=
  ∀ id a, db_accounts (w_db w') !! id = Some a → db_accounts (w_db w) !! id = Some a ∨ row_from_form email_valid a.

Definition provider_ok (st : ModalState) : Prop := md_provider st ∈ map fst provider_options.

(** C33: [handleSubmit] on every branch: with no signed-in user it makes
    no call and shows [Not authenticated]; when the insert succeeds the
    form is cleared and closed with no error; when the datastore
    refuses the id the form stays open with the email and shows the
    error.  [loading] is back to false in all three. *)
Theorem handleSubmit_spec new_id st w :
  handleSubmit None new_id st w = (w, inr (set_loading_error false (Some UseAccounts.not_authenticated_msg) st)) ∧
  ∀ cs uid, calls_ok cs w → CAccountInsert ∈ cs →
    (db_accounts (w_db w) !! new_id = None →
       ∃ w' row, UseAccounts.addAccount (Some uid) new_id (md_provider st) (md_email st) w = (w', inr row) ∧
         handleSubmit (Some uid) new_id st w = (w', inr (set_loading_error false None (cleared st)))) ∧
    (is_Some (db_accounts (w_db w) !! new_id) →
       handleSubmit (Some uid) new_id st w =
         (tick (bump CAccountInsert w), inr (set_loading_error false (Some unique_violation_msg) st))).
Proof.
  split; [done|]. intros cs uid Hok Hc. split.
  - intros Hn. eexists _, _. split; [by apply (UseAccounts.addAccount_run cs)|].
    unfold handleSubmit.
    by rewrite (se_bind_inr _ _ _ _ _ (se_catch_inr _ _ _ _ _ (se_bind_inr _ _ _ _ _
                 (UseAccounts.addAccount_run cs uid new_id _ _ w Hok Hc Hn)))).
  - intros Hs. unfold handleSubmit.
    by rewrite (se_bind_inr _ _ _ _ _ (se_catch_inl _ _ _ _ _ (se_bind_inl _ _ _ _ _
                 (UseAccounts.addAccount_taken cs uid new_id _ _ w Hok Hc Hs)))).
Qed.

Definition form : ModalState :=
  {| md_provider := "chatgpt"; md_email := "x@y"; md_loading := false; md_error := None; md_open := true |}.

Lemma handleSubmit_spec_witness :
  let w := world_start (env_quiet (λ _, 7)) db_empty in
  handleSubmit None "a1" form w = (w, inr (set_loading_error false (Some UseAccounts.not_authenticated_msg) form)) ∧
  calls_ok [CAccountInsert] w ∧ db_accounts (w_db w) !! "a1" = None ∧
  ∃ w' row, UseAccounts.addAccount (Some "u") "a1" "chatgpt" "x@y" w = (w', inr row) ∧
    handleSubmit (Some "u") "a1" form w = (w', inr (set_loading_error false None (cleared form))).
Proof.
  assert (Hok : calls_ok [CAccountInsert] (world_start (env_quiet (λ _, 7)) db_empty)) by done.
  split_and!; [apply (handleSubmit_spec "a1" form)|exact Hok|done|].
  exact (proj1 (proj2 (handleSubmit_spec "a1" form _) [CAccountInsert] "u" Hok ltac:(by left)) eq_refl).
Defined.

(** ** The rows the form inserts *)

#[local] Instance gains_form_rows_preorder ev : PreOrder (gains_form_rows ev).
Proof.
  split; [by intros w id a Ha; left|].
  intros w1 w2 w3 H12 H23 id a Ha. destruct (H23 id a Ha) as [H|H]; [by apply H12|by right].
Qed.

Lemma addAccount_gains ev user new_id p e :
  p ∈ map fst provider_options → e ≠ EmptyString → ev e = true →
  kept (gains_form_rows ev) (UseAccounts.addAccount user new_id p e).
Proof.
  intros Hp He Hv w w' r. unfold UseAccounts.addAccount.
  destruct user as [uid|]; [|intros [= <- _]; reflexivity].
  unfold se_bind at 1, call. destruct (env_fault _ _ _); [intros [= <- _]; by intros id a Ha; left|].
  cbn. case_decide as Hs; [intros [= <- _]; by intros id a Ha; left|].
  intros [= <- _] id a. cbn. destruct (decide (id = new_id)) as [->|Hne].
  - rewrite lookup_insert_eq. intros [= <-]. right. done.
  - rewrite lookup_insert_ne by done. by left.
Qed.

Lemma handleSubmit_gains ev user new_id st :
  provider_ok st → form_valid ev st = true → kept (gains_form_rows ev) (handleSubmit user new_id st).
Proof.
  intros Hp Hf. apply andb_true_iff in Hf as [He Hv]. apply negb_true_iff, String.eqb_neq in He.
  unfold handleSubmit. apply (kept_bind (gains_form_rows ev)); [|intros; apply (kept_ret (gains_form_rows ev))].
  apply (kept_catch (gains_form_rows ev)); [|intros; apply (kept_ret (gains_form_rows ev))].
  apply (kept_bind (gains_form_rows ev)); [by apply addAccount_gains|intros; apply (kept_ret (gains_form_rows ev))].
Qed.

Lemma option_value_ok i v l : provider_options !! i = Some (v, l) → v ∈ map fst provider_options.
Proof. intros H. apply list_elem_of_fmap. exists (v, l). split; [done|]. by eapply list_elem_of_lookup_2. Qed.

Lemma modal_step_provider ev user e st : provider_ok st → se_post provider_ok (modal_step ev user e st).
Proof.
  intros Hp. destruct e as [i|v| | |id]; cbn; try (apply se_post_ret; by repeat case_match).
  - apply se_post_ret. repeat case_match; simplify_eq; [by eapply option_value_ok|done..].
  - case_match; [|by apply se_post_ret]. unfold handleSubmit.
    apply (se_post_bind_post provider_ok); [post_solve|intros a Ha; by apply se_post_ret].
Qed.

Lemma modal_step_gains ev user e st : provider_ok st → kept (gains_form_rows ev) (modal_step ev user e st).
Proof.
  intros Hp. destruct e as [i|v| | |id]; cbn; try apply (kept_ret (gains_form_rows ev)).
  destruct (md_open st && negb (md_loading st) && form_valid ev st) eqn:G; [|apply (kept_ret (gains_form_rows ev))].
  apply andb_true_iff in G as [_ G]. by apply handleSubmit_gains.
Qed.

(** C39: Whatever the user does with the form (options chosen, values
    typed, closing, reopening, submissions) and whatever the datastore
    answers, every account row the table gains has one of the four
    providers of the [<select>] and a non-empty email that the
    browser's email check accepted; the other rows are unchanged. *)
Theorem modal_inserts_form_rows ev user es st w w' r :
  provider_ok st → modal_run ev user es st w = (w', r) → gains_form_rows ev w w'.
Proof.
  intros Hp. revert w w' r. change (kept (gains_form_rows ev) (modal_run ev user es st)).
  revert st Hp. induction es as [|e es IH]; intros st Hp; cbn; [apply (kept_ret (gains_form_rows ev))|].
  apply (kept_bind_post (gains_form_rows ev) provider_ok); [by apply modal_step_gains|by apply modal_step_provider|exact IH].
Qed.

Definition modal_initial : ModalState :=
  {| md_provider := "chatgpt"; md_email := EmptyString; md_loading := false; md_error := None; md_open := true |}.

(** Typing an email, choosing Claude and submitting inserts one row,
    which the form's checks passed. *)
Lemma modal_inserts_form_rows_witness :
  let w := world_start (env_quiet (λ _, 7)) db_empty in
  let r := modal_run (λ _, true) (Some "u") [EInput "x@y"; ESelect 1; ESubmit "a1"] modal_initial w in
  provider_ok modal_initial ∧ gains_form_rows (λ _, true) w (fst r).
Proof.
  split; [by left|]. apply (modal_inserts_form_rows (λ _, true) (Some "u") [EInput "x@y"; ESelect 1; ESubmit "a1"]
    modal_initial _ _ (snd (modal_run (λ _, true) (Some "u") [EInput "x@y"; ESelect 1; ESubmit "a1"] modal_initial
      (world_start (env_quiet (λ _, 7)) db_empty)))); [by left|apply surjective_pairing].
Defined.

End AddAccountModal.

(** ** [App] *)

Module App.

Inductive auth_mode := signin | signup.

#[export] Instance auth_mode_eq_dec : EqDecision auth_mode.
Proof. solve_decision. Defined.

(** [user], [loading], [showAddAccount], [email], [password],
    [authMode], and the messages of [alert]. *)
Record AppState := {
  app_user : option string;
  app_loading : bool;
  app_show_add : bool;
  app_email : string;
  app_password : string;
  app_mode : auth_mode;
  app_alerts : list string
}.

Definition app_init : AppState :=
  {| app_user := None; app_loading := true; app_show_add := false; app_email := EmptyString;
     app_password := EmptyString; app_mode := signin; app_alerts := [] |}.

(** What reaches [App]: the answer of [auth.getSession()], a call of the
    [onAuthStateChange] callback ([session?.user ?? null]), the answer of
    the [signInWithPassword] or [signUp] that [handleAuth] awaited (with
    the [authMode] the handler read), and the user's inputs. *)
Inductive app_event :=
  | SessionLoaded (user : option string)
  | AuthStateChanged (user : option string)
  | AuthAnswered (mode : auth_mode) (error : option string)
  | ToggleMode
  | OpenAddAccount
  | CloseAddAccount
  | EmailInput (s : string)
  | PasswordInput (s : string).

Definition confirm_msg : string := "Check your email for the confirmation link!".

Definition with_user (u : option string) (loading : bool) (st : AppState) : AppState :=
  {| app_user := u; app_loading := loading; app_show_add := app_show_add st; app_email := app_email st;
     app_password := app_password st; app_mode := app_mode st; app_alerts := app_alerts st |}.

Definition with_alert (m : string) (st : AppState) : AppState :=
  {| app_user := app_user st; app_loading := app_loading st; app_show_add := app_show_add st;
     app_email := app_email st; app_password := app_password st; app_mode := app_mode st;
     app_alerts := app_alerts st ++ [m] |}.

Definition with_form (show_add : bool) (email password : string) (mode : auth_mode) (st : AppState) : AppState :=
  {| app_user := app_user st; app_loading := app_loading st; app_show_add := show_add;
     app_email := email; app_password := password; app_mode := mode; app_alerts := app_alerts st |}.

(** The rest of [handleAuth]: [if (error) throw error], the sign-up's
    confirmation [alert], and [alert(error.message)] in [catch]. *)
Definition handleAuth_answer (mode : auth_mode) (error : option string) (st : AppState) : AppState :=
  match error, mode with
  | Some m, _ => with_alert m st
  | None, signup => with_alert confirm_msg st
  | None, signin => st
  end.

Definition app_step (st : AppState) (ev : app_event) : AppState :=
  match ev with
  | SessionLoaded u => with_user u false st
  | AuthStateChanged u => with_user u (app_loading st) st
  | AuthAnswered mode err => handleAuth_answer mode err st
  | ToggleMode =>
      with_form (app_show_add st) (app_email st) (app_password st)
                (if decide (app_mode st = signin) then signup else signin) st
  | OpenAddAccount => with_form true (app_email st) (app_password st) (app_mode st) st
  | CloseAddAccount => with_form false (app_email st) (app_password st) (app_mode st) st
  | EmailInput s => with_form (app_show_add st) s (app_password st) (app_mode st) st
  | PasswordInput s => with_form (app_show_add st) (app_email st) s (app_mode st) st
  end.

Definition app_run (st : AppState) (evs : list app_event) : AppState := foldl app_step st evs.

Inductive app_view := ViewLoading | ViewLogin (mode : auth_mode) | ViewDashboard (modal_open : bool).

(** The early returns of [App]: the spinner, the sign-in form, the
    dashboard with [<AddAccountModal isOpen={showAddAccount}>]. *)
Definition render (st : AppState) : app_view :=
  if app_loading st then ViewLoading
  else match app_user st with
       | None => ViewLogin (app_mode st)
       | Some _ => ViewDashboard (app_show_add st)
       end.

Definition is_session_loaded (ev : app_event) : bool :=
  match ev with SessionLoaded _ => true | _ => false end.

Lemma app_loading_step st ev :
  app_loading (app_step st ev) = app_loading st && negb (is_session_loaded ev).
Proof.
  destruct ev as [| |mode [m|]| | | | |]; cbn; rewrite ?andb_true_r, ?andb_false_r; try done.
  destruct mode; done.
Qed.

Lemma app_loading_run st evs :
  app_loading (app_run st evs) = app_loading st && negb (existsb is_session_loaded evs).
Proof.
  revert st. induction evs as [|ev evs IH]; intros st; cbn; [by rewrite andb_true_r|].
  unfold app_run in IH. rewrite IH, app_loading_step, negb_orb, andb_assoc. done.
Qed.

(** [App] shows its spinner until the answer of [getSession()] and
    never again after it: an [onAuthStateChange] call before that answer
    sets the user but does not end the loading, and no later event
    brings the spinner back. *)
Theorem app_loading_until_session evs :
  App.render (app_run app_init evs) = ViewLoading ↔ existsb is_session_loaded evs = false.
Proof.
  unfold render. rewrite app_loading_run. cbn.
  destruct (existsb is_session_loaded evs); cbn; [|done].
  destruct (app_user _); split; done.
Qed.

(** Signing out does not reset [showAddAccount]: a modal left open
    opens again over the dashboard at the next sign-in. *)
Lemma app_modal_survives_sign_out st u :
  app_loading st = false →
  render (app_run st [OpenAddAccount; AuthStateChanged None]) = ViewLogin (app_mode st) ∧
  render (app_run st [OpenAddAccount; AuthStateChanged None; AuthStateChanged (Some u)]) = ViewDashboard true.
Proof. destruct st; cbn. intros ->. done. Qed.

End App.
